(** * Pebble: ingestion table building, virtual tables, open-file tracking,
      options of the metamorphic tests

    A shallow embedding of

    - [metamorphic/build.go] ([writeSSTForIngestion], [buildForIngest]),
    - [metamorphic/options.go] (the test options: how they are written and
      read back, the names of the filter policies, [RandomOptions]),
    - [vfs/vfstest/open_files.go] (the open-file-tracking [vfs.FS] wrapper),
    - the virtual-reader and external-ingestion behaviour that the data-driven
      tests [sstable/testdata/virtual_reader] and [ingest-external] exercise.

    Byte slices are [list byte]; a Go slice that may be [nil] is an
    [option (list byte)]; 64-bit trailers are [Z] with the bit operations of
    the source; calls that may fail return an [option error] next to their
    result. *)

From Stdlib Require Import ZArith List Bool Lia Strings.Byte String.
From Stdlib Require Import Sorting.Sorted Sorting.Permutation.
From Stdlib Require Ascii DecimalString DecimalZ.
From stdpp Require gmap pretty.
Import ListNotations.
Local Open Scope Z_scope.

(** ** Byte strings and the comparer *)

Definition bytes : Type := list byte.

Definition error : Type := string.

(** A key literal: [bs "ab"] is the two-byte key [ab]. *)
Definition bs (s : string) : bytes := list_byte_of_string s.

(** The engine's [Comparer]: user-key ordering, equality and the split
    function that locates the suffix boundary of a key. *)
Record Comparer : Type := mkComparer {
  Compare : bytes -> bytes -> comparison;
  Equal : bytes -> bytes -> bool;
  Split : bytes -> nat
}.

Definition leK (c : Comparer) (a b : bytes) : Prop := Compare c a b <> Gt.

(** The contract every [Comparer] has to meet: [Compare] is a total preorder,
    [Equal] is its equivalence, and ordering two keys orders their
    prefixes. *)
Record ComparerOk (c : Comparer) : Prop := mkComparerOk {
  Compare_antisym : forall a b, Compare c b a = CompOpp (Compare c a b);
  Compare_trans : forall a b d, leK c a b -> leK c b d -> leK c a d;
  Equal_Compare : forall a b, Equal c a b = true <-> Compare c a b = Eq;
  Split_mono : forall a b,
    leK c a b -> leK c (firstn (Split c a) a) (firstn (Split c b) b)
}.

Arguments Compare_antisym {c} _ _ _.
Arguments Compare_trans {c} _ _ _ _ _ _.
Arguments Equal_Compare {c} _ _ _.
Arguments Split_mono {c} _ _ _ _.

(** A concrete comparer: bytewise lexicographic order, with the first byte of
    a key as its prefix. *)
Fixpoint bytesCompare (a b : bytes) : comparison :=
  match a, b with
  | [], [] => Eq
  | [], _ :: _ => Lt
  | _ :: _, [] => Gt
  | x :: a', y :: b' =>
      match N.compare (Byte.to_N x) (Byte.to_N y) with
      | Eq => bytesCompare a' b'
      | o => o
      end
  end.

Definition bytesEqual (a b : bytes) : bool :=
  match bytesCompare a b with Eq => true | _ => false end.

Definition firstByteSplit (a : bytes) : nat :=
  match a with [] => 0%nat | _ :: _ => 1%nat end.

Definition bytewise : Comparer :=
  {| Compare := bytesCompare; Equal := bytesEqual; Split := firstByteSplit |}.

(** The comparer the data-driven tests need: bytewise order, with the suffix
    of a key starting at its first [@]. *)
Fixpoint atSplit (a : bytes) : nat :=
  match a with
  | [] => 0%nat
  | x :: a' => if Byte.eqb x "@"%byte then 0%nat else S (atSplit a')
  end.

Definition bytewiseAt : Comparer :=
  {| Compare := bytesCompare; Equal := bytesEqual; Split := atSplit |}.

(** ** Internal keys (package [base]) *)

Module Base.

Definition u64 (x : Z) : Z := x mod 2 ^ 64.

Definition SeqNumZero : Z := 0.
Definition SeqNumMax : Z := 2 ^ 56 - 1.

(** Modelled from the spec: the kinds of package [base] are not among the
    sources.  A kind is one byte; the values are those of the engine, and
    only their being distinct and below 256 matters here. *)
Definition InternalKeyKindDelete : Z := 0.
Definition InternalKeyKindSet : Z := 1.
Definition InternalKeyKindMerge : Z := 2.
Definition InternalKeyKindSingleDelete : Z := 7.
Definition InternalKeyKindRangeDelete : Z := 15.
Definition InternalKeyKindRangeKeyDelete : Z := 19.
Definition InternalKeyKindRangeKeyUnset : Z := 20.
Definition InternalKeyKindRangeKeySet : Z := 21.
Definition InternalKeyKindDeleteSized : Z := 23.

(** Modelled from the spec: the declaration of [base.InternalKey] is not among
    the sources.  An internal record is a user key with a sequence number and a
    kind; the two are packed in one 64-bit trailer, the kind in the low byte
    and the sequence number (at most [2^56 - 1]) above it, which is what
    [base.MakeTrailer(0, kind)] of [build.go] builds. *)
Record InternalKey : Type := mkInternalKey {
  UserKey : bytes;
  Trailer : Z
}.

(** Modelled from the spec: [base.MakeTrailer] and the methods [SeqNum],
    [Kind], [SetSeqNum] and [SetKind] of [base.InternalKey] are not among the
    sources; they read and write the two parts of the trailer with 64-bit
    shifts and masks. *)
Definition MakeTrailer (seqNum kind : Z) : Z :=
  Z.lor (u64 (Z.shiftl seqNum 8)) kind.

Definition MakeInternalKey (userKey : bytes) (seqNum kind : Z) : InternalKey :=
  {| UserKey := userKey; Trailer := MakeTrailer seqNum kind |}.

Definition SeqNum (k : InternalKey) : Z := Z.shiftr (Trailer k) 8.

Definition Kind (k : InternalKey) : Z := Z.land (Trailer k) 255.

Definition SetSeqNum (k : InternalKey) (seqNum : Z) : InternalKey :=
  {| UserKey := UserKey k;
     Trailer := Z.lor (u64 (Z.shiftl seqNum 8)) (Z.land (Trailer k) 255) |}.

Definition SetKind (k : InternalKey) (kind : Z) : InternalKey :=
  {| UserKey := UserKey k;
     Trailer := Z.lor (Z.ldiff (Trailer k) 255) kind |}.

Definition withUserKey (k : InternalKey) (userKey : bytes) : InternalKey :=
  {| UserKey := userKey; Trailer := Trailer k |}.

(** Modelled from the spec: [IsExclusiveSentinel] is not among the sources.
    A boundary key is an exclusive sentinel when it carries the reserved
    [Max] sequence number. *)
Definition IsExclusiveSentinel (k : InternalKey) : bool :=
  SeqNum k =? SeqNumMax.

(** Modelled from the spec: [base.LazyValue] is not among the sources.  It
    is a lazily materialised value: fetching it gives the bytes or fails.
    The zero [LazyValue{}] is the empty value. *)
Definition LazyValue : Type := (error + bytes)%type.

Definition LazyValue_zero : LazyValue := inr [].

Definition Value (v : LazyValue) : error + bytes := v.

End Base.

(** ** Range-annotation spans (packages [keyspan] and [rangekey]) *)

Module Keyspan.

Record Key : Type := mkKey {
  Trailer : Z;
  Suffix : bytes;
  Value : bytes
}.

Definition Kind (k : Key) : Z := Z.land (Trailer k) 255.

Definition SeqNum (k : Key) : Z := Z.shiftr (Trailer k) 8.

Record Span : Type := mkSpan {
  Start : bytes;
  End : bytes;
  Keys : list Key
}.

(** Modelled from the spec: [keyspan.SortKeysByTrailer] is not among the
    sources.  The canonical trailer order is descending: higher sequence
    numbers first and, within one sequence number, higher kinds first; keys
    of one trailer keep their order. *)
Fixpoint insertByTrailer (k : Key) (l : list Key) : list Key :=
  match l with
  | [] => [k]
  | x :: r =>
      if Trailer x <=? Trailer k then k :: x :: r else x :: insertByTrailer k r
  end.

Fixpoint SortKeysByTrailer (l : list Key) : list Key :=
  match l with
  | [] => []
  | k :: r => insertByTrailer k (SortKeysByTrailer r)
  end.

Section Coalesce.
Variable cmp : Comparer.

(** Modelled from the spec: [rangekey.Coalesce] is not among the sources.
    The operations of a span arrive latest first.  A set or an unset survives
    when no later operation on an equal suffix was seen (latest intent wins
    for a suffix); the first delete marker survives and shadows everything
    older. *)
Fixpoint coalesceFrom (seen : list bytes) (keys : list Key) : list Key :=
  match keys with
  | [] => []
  | k :: rest =>
      if Kind k =? Base.InternalKeyKindRangeKeyDelete then [k]
      else if existsb (fun s => Equal cmp s (Suffix k)) seen
           then coalesceFrom seen rest
           else k :: coalesceFrom (Suffix k :: seen) rest
  end.

Definition Coalesce (keys : list Key) : list Key := coalesceFrom [] keys.

(** Two operations are the same operation when they have one kind and equal
    suffixes. *)
Definition sameOp (a b : Key) : Prop :=
  Kind a = Kind b /\ Equal cmp (Suffix a) (Suffix b) = true.

(** At most one operation per kind and suffix. *)
Definition distinctOps (l : list Key) : Prop :=
  ForallOrdPairs (fun a b => ~ sameOp a b) l.

End Coalesce.

Definition trailerDescending (l : list Key) : Prop :=
  StronglySorted (fun a b => Trailer b <= Trailer a) l.

(** The keys of a span as the ingestion build encodes them. *)
Definition canonical (cmp : Comparer) (l : list Key) : Prop :=
  distinctOps cmp l
  /\ Forall (fun k => SeqNum k = Base.SeqNumZero) l
  /\ trailerDescending l.

End Keyspan.

(** ** Numbers and booleans as Go's [fmt] and [strconv] write and read them *)

Module Strconv.
Import Ascii.

(** The verb [%d]: the decimal digits of the number, after a [-] when it is
    negative. *)
Definition FormatInt (z : Z) : string :=
  DecimalString.NilZero.string_of_int (Z.to_int z).

(** The verbs [%t] and [%v] of a boolean. *)
Definition FormatBool (b : bool) : string :=
  if b then "true"%string else "false"%string.

(** The number that a string of decimal digits, at least one, denotes. *)
Definition digits (s : string) : option Z :=
  option_map Z.of_uint (DecimalString.NilZero.uint_of_string s).

(** [strconv.ParseInt(s, 10, 64)], which is also [strconv.Atoi(s)] where an
    [int] has 64 bits: an optional sign and then decimal digits only, at
    least one; the number has to fit in 64 bits.  [None] is the error. *)
Definition ParseInt (s : string) : option Z :=
  let number :=
    match s with
    | String "+"%char r => digits r
    | String "-"%char r => option_map Z.opp (digits r)
    | _ => digits s
    end in
  match number with
  | Some v => if (- 2 ^ 63 <=? v) && (v <? 2 ^ 63) then Some v else None
  | None => None
  end.

(** [strconv.ParseUint(s, 10, 64)]: decimal digits only, at least one. *)
Definition ParseUint (s : string) : option Z :=
  match digits s with
  | Some v => if v <? 2 ^ 64 then Some v else None
  | None => None
  end.

(** [strconv.ParseBool]. *)
Definition ParseBool (s : string) : option bool :=
  if existsb (String.eqb s) ["1"; "t"; "T"; "TRUE"; "true"; "True"]%string
  then Some true
  else if existsb (String.eqb s)
            ["0"; "f"; "F"; "FALSE"; "false"; "False"]%string
  then Some false
  else None.

(** Every byte of the string meets [p]. *)
Fixpoint allb (p : ascii -> bool) (s : string) : bool :=
  match s with
  | String c r => p c && allb p r
  | EmptyString => true
  end.

End Strconv.

(** ** [metamorphic/build.go]: building a table for ingestion *)

Module Metamorphic.

Import Base.

(** Modelled from the spec: [sstable.SyntheticPrefix] and
    [sstable.SyntheticSuffix] are not among the sources.  They are byte
    strings; an empty one is not set, and applying a prefix prepends it (in
    the [ingest-external] test the keys [c], [d], [e] surface as [gc], [gd],
    [ge] under the synthetic prefix [g]). *)
Definition IsSet (s : bytes) : bool :=
  match s with [] => false | _ :: _ => true end.

Definition SyntheticPrefix_Apply (prefix key : bytes) : bytes := prefix ++ key.

(** The point iterator: the records it yields from [First] and [Next] until it
    returns no key, and the result of its [Close]. *)
Record PointIterator : Type := mkPointIterator {
  pointRecords : list (InternalKey * LazyValue);
  pointCloseErr : option error
}.

(** A fragment iterator: the spans it yields, the error that comes with the
    final empty result, and the result of its [Close]. *)
Record FragmentIterator : Type := mkFragmentIterator {
  fragSpans : list Keyspan.Span;
  fragErr : option error;
  fragCloseErr : option error
}.

Inductive IterId : Type := PointIter | RangeDelIter | RangeKeyIter.

(** The calls of [writeSSTForIngestion] that can return an error, in the
    order they are made. *)
Inductive Call : Type :=
| CallValue (v : LazyValue)
| CallAdd (k : InternalKey) (v : bytes)
| CallDeleteRange (s e : bytes)
| CallEncode (s : Keyspan.Span)
| CallIterEnd (it : IterId)
| CallIterClose (it : IterId)
| CallWriterClose
| CallMetadata.

(** The physical-table writer [sstable.Writer], an external collaborator: an
    interface, so a record of operations over a state of its own.
    [wEncodeRangeKey] stands for [rangekey.Encode] with [w.AddRangeKey],
    which hands a span to the writer. *)
Record WriterOps (W M : Type) : Type := mkWriterOps {
  wAdd : W -> InternalKey -> bytes -> W * option error;
  wDeleteRange : W -> bytes -> bytes -> W * option error;
  wEncodeRangeKey : W -> Keyspan.Span -> W * option error;
  wClose : W -> W * option error;
  wMetadata : W -> error + M
}.

Arguments wAdd {W M} _ _ _ _.
Arguments wDeleteRange {W M} _ _ _ _.
Arguments wEncodeRangeKey {W M} _ _ _.
Arguments wClose {W M} _ _.
Arguments wMetadata {W M} _ _.

(** Modelled from the spec: [base.CloseHelper] is not among the sources.  It
    wraps a closer so that the wrapped [Close] runs at most once: a later
    [Close], or the [Close] of a wrapped nil iterator, does nothing and
    returns no error.  [None] is the helper whose closer is nil; [Some r] one
    whose closer will return [r]. *)
Definition closeHelper : Type := option (option error).

Definition CloseHelper_point (it : PointIterator) : closeHelper :=
  Some (pointCloseErr it).

Definition CloseHelper_frag (it : option FragmentIterator) : closeHelper :=
  option_map fragCloseErr it.

Section WriteSSTForIngestion.

Context (cmp : Comparer) {W Meta : Type} (ops : WriterOps W Meta).
Context (FormatDeleteSizedAndObsolete : Z).
Context (uniquePrefixes : bool) (syntheticSuffix syntheticPrefix : bytes).
Context (targetFMV : Z).

(** The state the function threads: the writer, the three close helpers and
    the log of the fallible calls made so far with their results. *)
Record State : Type := mkState {
  writer : W;
  pointIterCloser : closeHelper;
  rangeDelIterCloser : closeHelper;
  rangeKeyIterCloser : closeHelper;
  calls : list (Call * option error)
}.

Definition logCall (c : Call) (r : option error) (st : State) : State :=
  {| writer := writer st;
     pointIterCloser := pointIterCloser st;
     rangeDelIterCloser := rangeDelIterCloser st;
     rangeKeyIterCloser := rangeKeyIterCloser st;
     calls := calls st ++ [(c, r)] |}.

Definition setWriter (w : W) (st : State) : State :=
  {| writer := w;
     pointIterCloser := pointIterCloser st;
     rangeDelIterCloser := rangeDelIterCloser st;
     rangeKeyIterCloser := rangeKeyIterCloser st;
     calls := calls st |}.

Definition getCloser (it : IterId) (st : State) : closeHelper :=
  match it with
  | PointIter => pointIterCloser st
  | RangeDelIter => rangeDelIterCloser st
  | RangeKeyIter => rangeKeyIterCloser st
  end.

Definition clearCloser (it : IterId) (st : State) : State :=
  {| writer := writer st;
     pointIterCloser :=
       match it with PointIter => None | _ => pointIterCloser st end;
     rangeDelIterCloser :=
       match it with RangeDelIter => None | _ => rangeDelIterCloser st end;
     rangeKeyIterCloser :=
       match it with RangeKeyIter => None | _ => rangeKeyIterCloser st end;
     calls := calls st |}.

(** A computation either returns early with an error or goes on with a
    value; the state survives both, since the deferred calls run on it. *)
Definition M (A : Type) : Type := State -> (error + A) * State.

Definition ret {A : Type} (a : A) : M A := fun st => (inr a, st).

Definition fail {A : Type} (e : error) : M A := fun st => (inl e, st).

Definition bind {A B : Type} (m : M A) (k : A -> M B) : M B :=
  fun st =>
    match m st with
    | (inl e, st') => (inl e, st')
    | (inr a, st') => k a st'
    end.

(** [if err := call; err != nil { return nil, err }] *)
Definition check (c : Call) (r : option error) : M unit :=
  fun st =>
    (match r with Some e => inl e | None => inr tt end, logCall c r st).

Definition onWriter (c : Call) (f : W -> W * option error) : M unit :=
  fun st =>
    let '(w', r) := f (writer st) in check c r (setWriter w' st).

(** [closeHelper.Close]: closes the wrapped closer unless that was done. *)
Definition closeHelper_Close (it : IterId) (st : State) : option error * State :=
  match getCloser it st with
  | None => (None, st)
  | Some r => (r, logCall (CallIterClose it) r (clearCloser it st))
  end.

Definition closeOrReturn (it : IterId) : M unit :=
  fun st =>
    let '(r, st') := closeHelper_Close it st in
    (match r with Some e => inl e | None => inr tt end, st').

(** A deferred [Close]: its result is dropped. *)
Definition deferredClose (it : IterId) (st : State) : State :=
  snd (closeHelper_Close it st).

Definition outputKey (key : bytes) : bytes :=
  if negb (IsSet syntheticPrefix) && negb (IsSet syntheticSuffix) then key
  else
    let key1 :=
      if IsSet syntheticPrefix then SyntheticPrefix_Apply syntheticPrefix key
      else key in
    if IsSet syntheticSuffix
    then firstn (Split cmp key1) key1 ++ syntheticSuffix
    else key1.

(** [lastUserKey = append(lastUserKey[:0], key.UserKey...)]: appending no
    byte to a nil slice leaves it nil. *)
Definition resetAppend (lastUserKey : option bytes) (userKey : bytes)
  : option bytes :=
  match lastUserKey, userKey with
  | None, [] => None
  | _, _ => Some userKey
  end.

(** The test of the loop that ignores duplicate keys. *)
Definition isDuplicate (lastUserKey : option bytes) (userKey : bytes) : bool :=
  match lastUserKey with
  | None => false
  | Some last =>
      let this := userKey in
      let last' := if uniquePrefixes then firstn (Split cmp last) last else last in
      let this' := if uniquePrefixes then firstn (Split cmp this) this else this in
      Equal cmp last' this'
  end.

Fixpoint pointLoop (records : list (InternalKey * LazyValue))
  (lastUserKey : option bytes) : M unit :=
  match records with
  | [] => ret tt
  | (key, value) :: rest =>
      if isDuplicate lastUserKey (UserKey key) then pointLoop rest lastUserKey
      else
        let lastUserKey' := resetAppend lastUserKey (UserKey key) in
        let key1 := SetSeqNum key SeqNumZero in
        let '(key2, value2) :=
          if (targetFMV <? FormatDeleteSizedAndObsolete)
             && (Kind key1 =? InternalKeyKindDeleteSized)
          then (SetKind key1 InternalKeyKindDelete, LazyValue_zero)
          else (key1, value) in
        match Value value2 with
        | inl err => check (CallValue value2) (Some err)
        | inr valBytes =>
            bind (check (CallValue value2) None) (fun _ =>
            let k := withUserKey key2 (outputKey (UserKey key2)) in
            bind (onWriter (CallAdd k valBytes) (fun w => wAdd ops w k valBytes))
              (fun _ => pointLoop rest lastUserKey'))
        end
  end.

Fixpoint rangeDelLoop (spans : list Keyspan.Span) : M unit :=
  match spans with
  | [] => ret tt
  | span :: rest =>
      let s := outputKey (Keyspan.Start span) in
      let e := outputKey (Keyspan.End span) in
      bind (onWriter (CallDeleteRange s e) (fun w => wDeleteRange ops w s e))
        (fun _ => rangeDelLoop rest)
  end.

Definition zeroTrailer (k : Keyspan.Key) : Keyspan.Key :=
  {| Keyspan.Trailer := MakeTrailer 0 (Keyspan.Kind k);
     Keyspan.Suffix := Keyspan.Suffix k;
     Keyspan.Value := Keyspan.Value k |}.

(** The span handed to [rangekey.Encode] for one input span. *)
Definition collapsedSpan (span : Keyspan.Span) : Keyspan.Span :=
  {| Keyspan.Start := outputKey (Keyspan.Start span);
     Keyspan.End := outputKey (Keyspan.End span);
     Keyspan.Keys :=
       Keyspan.SortKeysByTrailer
         (map zeroTrailer (Keyspan.Coalesce cmp (Keyspan.Keys span))) |}.

Fixpoint rangeKeyLoop (spans : list Keyspan.Span) : M unit :=
  match spans with
  | [] => ret tt
  | span :: rest =>
      let collapsed := collapsedSpan span in
      bind (onWriter (CallEncode collapsed)
              (fun w => wEncodeRangeKey ops w collapsed))
        (fun _ => rangeKeyLoop rest)
  end.

Definition fragments (it : IterId) (loop : list Keyspan.Span -> M unit)
  (iter : option FragmentIterator) : M unit :=
  match iter with
  | None => ret tt
  | Some i =>
      bind (loop (fragSpans i)) (fun _ =>
      bind (check (CallIterEnd it) (fragErr i)) (fun _ =>
      closeOrReturn it))
  end.

Definition finish : M Meta :=
  bind (onWriter CallWriterClose (fun w => wClose ops w)) (fun _ =>
  fun st =>
    match wMetadata ops (writer st) with
    | inl e => (inl e, logCall CallMetadata (Some e) st)
    | inr m => (inr m, logCall CallMetadata None st)
    end).

(** The function body between the [defer] statements and the return. *)
Definition body (pointIter : PointIterator)
  (rangeDelIter rangeKeyIter : option FragmentIterator) : M Meta :=
  bind (pointLoop (pointRecords pointIter) None) (fun _ =>
  bind (closeOrReturn PointIter) (fun _ =>
  bind (fragments RangeDelIter rangeDelLoop rangeDelIter) (fun _ =>
  bind (fragments RangeKeyIter rangeKeyLoop rangeKeyIter) (fun _ =>
  finish)))).

(** The records the loop does not skip, in the order it meets them. *)
Fixpoint survivors (records : list (InternalKey * LazyValue))
  (lastUserKey : option bytes) : list (InternalKey * LazyValue) :=
  match records with
  | [] => []
  | (key, value) :: rest =>
      if isDuplicate lastUserKey (UserKey key) then survivors rest lastUserKey
      else (key, value) :: survivors rest (resetAppend lastUserKey (UserKey key))
  end.

(** The identity key of a record: its user key, or the prefix of its user
    key in unique-prefixes mode. *)
Definition identityKey (userKey : bytes) : bytes :=
  if uniquePrefixes then firstn (Split cmp userKey) userKey else userKey.

(** The deduplicator in the words of the specification: a record is emitted
    when no earlier record of the stream had an equal identity key. *)
Fixpoint firstSeen (seen : list bytes) (records : list (InternalKey * LazyValue))
  : list (InternalKey * LazyValue) :=
  match records with
  | [] => []
  | (key, value) :: rest =>
      if existsb (fun s => Equal cmp s (identityKey (UserKey key))) seen
      then firstSeen seen rest
      else (key, value) :: firstSeen (identityKey (UserKey key) :: seen) rest
  end.

(** The size-annotated delete kind is not supported by the target format. *)
Definition deleteSizedUnsupported : bool :=
  targetFMV <? FormatDeleteSizedAndObsolete.

(** The kind and the value of the [Add] call [out] made for the surviving
    record [rec]: a size-annotated delete that the target format does not
    support becomes a plain delete with no value; anything else keeps its
    kind and its value. *)
Definition translated (rec : InternalKey * LazyValue) (out : InternalKey * bytes)
  : Prop :=
  if deleteSizedUnsupported && (Kind (fst rec) =? InternalKeyKindDeleteSized)
  then Kind (fst out) = InternalKeyKindDelete /\ snd out = []
  else Kind (fst out) = Kind (fst rec) /\ Value (snd rec) = inr (snd out).

(** How a surviving record [rec] shows in the [Add] call [out] made for it. *)
Definition writtenAs (rec : InternalKey * LazyValue) (out : InternalKey * bytes)
  : Prop :=
  UserKey (fst out) = outputKey (UserKey (fst rec))
  /\ SeqNum (fst out) = SeqNumZero
  /\ translated rec out.

Definition initState (w : W) (pointIter : PointIterator)
  (rangeDelIter rangeKeyIter : option FragmentIterator) : State :=
  {| writer := w;
     pointIterCloser := CloseHelper_point pointIter;
     rangeDelIterCloser := CloseHelper_frag rangeDelIter;
     rangeKeyIterCloser := CloseHelper_frag rangeKeyIter;
     calls := [] |}.

(** [writeSSTForIngestion]: the body, then the deferred closes, the one
    deferred last running first. *)
Definition writeSSTForIngestion (w : W) (pointIter : PointIterator)
  (rangeDelIter rangeKeyIter : option FragmentIterator)
  : (error + Meta) * State :=
  let '(r, st) :=
    body pointIter rangeDelIter rangeKeyIter
      (initState w pointIter rangeDelIter rangeKeyIter) in
  (r, deferredClose PointIter
        (deferredClose RangeDelIter (deferredClose RangeKeyIter st))).

End WriteSSTForIngestion.

(** Projections of a log of calls. *)
Definition addsOf (l : list (Call * option error)) : list (InternalKey * bytes) :=
  flat_map (fun c => match fst c with CallAdd k v => [(k, v)] | _ => [] end) l.

Definition closesOf (l : list (Call * option error)) : list IterId :=
  flat_map (fun c => match fst c with CallIterClose it => [it] | _ => [] end) l.

Definition encodesOf (l : list (Call * option error)) : list Keyspan.Span :=
  flat_map (fun c => match fst c with CallEncode s => [s] | _ => [] end) l.

Definition errOf {A : Type} (r : error + A) : option error :=
  match r with inl e => Some e | inr _ => None end.

(** The order in which the body closes the iterators. *)
Definition iterOrder : list IterId := [PointIter; RangeDelIter; RangeKeyIter].

(** The iterators handed to the function that are not nil. *)
Definition given (rangeDelIter rangeKeyIter : option FragmentIterator)
  (it : IterId) : bool :=
  match it with
  | PointIter => true
  | RangeDelIter => match rangeDelIter with Some _ => true | None => false end
  | RangeKeyIter => match rangeKeyIter with Some _ => true | None => false end
  end.

(** The closes of a run whose body got past the first [k] iterators: those
    in order, then the remaining ones in the reverse order of the deferred
    calls. *)
Definition closeSequence (rangeDelIter rangeKeyIter : option FragmentIterator)
  (k : nat) : list IterId :=
  List.filter (given rangeDelIter rangeKeyIter) (firstn k iterOrder)
  ++ rev (List.filter (given rangeDelIter rangeKeyIter) (skipn k iterOrder)).

Definition rangeKeySpans (rangeKeyIter : option FragmentIterator)
  : list Keyspan.Span :=
  match rangeKeyIter with Some i => fragSpans i | None => [] end.

Fixpoint firstError (l : list (Call * option error)) : option error :=
  match l with
  | [] => None
  | (_, Some e) :: _ => Some e
  | (_, None) :: r => firstError r
  end.

(** A writer that accepts everything and keeps nothing. *)
Definition nullWriter : WriterOps unit unit :=
  {| wAdd := fun w _ _ => (w, None);
     wDeleteRange := fun w _ _ => (w, None);
     wEncodeRangeKey := fun w _ => (w, None);
     wClose := fun w => (w, None);
     wMetadata := fun _ => inr tt |}.

(** The bounds of the [DeleteRange] calls of a log. *)
Definition deletesOf (l : list (Call * option error)) : list (bytes * bytes) :=
  flat_map
    (fun c => match fst c with CallDeleteRange s e => [(s, e)] | _ => [] end) l.

Definition rangeDelSpans (rangeDelIter : option FragmentIterator)
  : list Keyspan.Span :=
  match rangeDelIter with Some i => fragSpans i | None => [] end.

(** The calls that are made on the writer. *)
Definition isWriterCall (c : Call) : bool :=
  match c with
  | CallAdd _ _ | CallDeleteRange _ _ | CallEncode _
  | CallWriterClose | CallMetadata => true
  | CallValue _ | CallIterEnd _ | CallIterClose _ => false
  end.

Definition writerCallsOf (l : list (Call * option error)) : list Call :=
  flat_map (fun c => if isWriterCall (fst c) then [fst c] else []) l.

(** The calls of a log that follow the first call that returned an error. *)
Fixpoint afterFailure (l : list (Call * option error))
  : list (Call * option error) :=
  match l with
  | [] => []
  | (_, Some _) :: r => r
  | (_, None) :: r => afterFailure r
  end.

(** [buildForIngest]: builds a local table file from a batch.  The test [t]
    gives the file system ([PathJoin], [Create]) and the directory [tmpDir];
    [newWriter] makes the writer over the created file; [sorted] is what
    [private.BatchSort] returns for the batch and [dbFMV] the format major
    version of the database.  Returned are the path, the metadata or the
    error, and the calls made. *)
Section BuildForIngest.
Context (cmp : Comparer) {W Meta File : Type} (ops : WriterOps W Meta).
Context (FormatDeleteSizedAndObsolete : Z).
Context (PathJoin : string -> string -> string).
Context (Create : string -> error + File) (tmpDir : string).
Context (newWriter : File -> W).

(** [t.opts.FS.PathJoin(t.tmpDir, fmt.Sprintf("ext%d-%d", dbID.slot(), i))] *)
Definition extPath (slot i : Z) : string :=
  PathJoin tmpDir
    ("ext" ++ Strconv.FormatInt slot ++ "-" ++ Strconv.FormatInt i)%string.

Definition buildForIngest (slot : Z)
  (sorted : PointIterator * option FragmentIterator * option FragmentIterator)
  (dbFMV : Z) (i : Z)
  : string * (error + Meta) * list (Call * option error) :=
  let path := extPath slot i in
  match Create path with
  | inl err => (""%string, inl err, [])
  | inr f =>
      let '(iter, rangeDelIter, rangeKeyIter) := sorted in
      let '(meta, st) :=
        writeSSTForIngestion cmp ops FormatDeleteSizedAndObsolete
          false [] [] dbFMV (newWriter f) iter rangeDelIter rangeKeyIter in
      (path, meta, calls st)
  end.

End BuildForIngest.

End Metamorphic.

(** ** Virtual tables (package [sstable]), as the data-driven test
    [sstable/testdata/virtual_reader] drives them *)

Module Sstable.

Import Base.

(** Bounds: an inclusive start, an end and whether the end is inclusive. *)
Record Bounds : Type := mkBounds {
  bStart : bytes;
  bEnd : bytes;
  bEndInclusive : bool
}.

Record PhysicalTable : Type := mkPhysicalTable {
  points : list (InternalKey * bytes);
  rangeDels : list Keyspan.Span;
  rangeKeys : list Keyspan.Span
}.

(** A virtual table: the backing table and the two boundary keys that the
    [virtualize] command of the test gives. *)
Record VirtualTable : Type := mkVirtualTable {
  backing : PhysicalTable;
  smallest : InternalKey;
  largest : InternalKey
}.

Definition virtualBounds (vt : VirtualTable) : Bounds :=
  {| bStart := UserKey (smallest vt);
     bEnd := UserKey (largest vt);
     bEndInclusive := negb (IsExclusiveSentinel (largest vt)) |}.

Section Virtual.
Variable cmp : Comparer.

Definition ltK (a b : bytes) : bool :=
  match Compare cmp a b with Lt => true | _ => false end.

Definition maxKey (a b : bytes) : bytes := if ltK a b then b else a.

Definition minKey (a b : bytes) : bytes := if ltK b a then b else a.

(** The keys a bounds pair denotes. *)
Definition inBounds (b : Bounds) (k : bytes) : bool :=
  negb (ltK k (bStart b))
  && match Compare cmp k (bEnd b) with
     | Lt => true
     | Eq => bEndInclusive b
     | Gt => false
     end.

(** The query end is within the virtual range: [qEnd < vEnd], or
    [qEnd == vEnd] with matching inclusivity (an exclusive query end matches
    either virtual end: the test constrains [bb,c,false] against [[b,c]] to
    [bb,c,false]). *)
Definition withinVirtual (q v : Bounds) : bool :=
  match Compare cmp (bEnd q) (bEnd v) with
  | Lt => true
  | Eq => implb (bEndInclusive q) (bEndInclusive v)
  | Gt => false
  end.

(** Modelled from the spec: the bounds-constraining function of the virtual
    reader is not among the sources (its test cases are).  The effective
    start is the maximum of the two starts; an end within the virtual range
    is kept with its inclusivity; otherwise the end is clamped to the virtual
    end and made inclusive. *)
Definition constrainBounds (q v : Bounds) : Bounds :=
  {| bStart := maxKey (bStart q) (bStart v);
     bEnd := if withinVirtual q v then bEnd q else bEnd v;
     bEndInclusive := if withinVirtual q v then bEndInclusive q else true |}.

(** Modelled from the spec: a record at the end boundary of a table whose
    end boundary is an exclusive sentinel is never surfaced by point
    iteration. *)
Definition suppressed (vt : VirtualTable) (k : bytes) : bool :=
  IsExclusiveSentinel (largest vt)
  && match Compare cmp k (UserKey (largest vt)) with Eq => true | _ => false end.

(** Modelled from the spec: bounds supplied to an iterator are
    [[lower, upper)] and go through [constrainBounds]; without them the
    table's own bounds apply. *)
Definition effectiveBounds (vt : VirtualTable) (q : option (bytes * bytes))
  : Bounds :=
  match q with
  | None => virtualBounds vt
  | Some (lower, upper) =>
      constrainBounds
        {| bStart := lower; bEnd := upper; bEndInclusive := false |}
        (virtualBounds vt)
  end.

(** Modelled from the spec: the point iterator of a virtual table is not
    among the sources.  It surfaces the backing records within the effective
    bounds, except the suppressed ones. *)
Definition visible (vt : VirtualTable) (q : option (bytes * bytes))
  : list (InternalKey * bytes) :=
  List.filter
    (fun r => inBounds (effectiveBounds vt q) (UserKey (fst r))
              && negb (suppressed vt (UserKey (fst r))))
    (points (backing vt)).

(** Modelled from the spec: the positioning primitives of the iterator are
    not among the sources.  An iterator has the records it can surface and
    its position among them, [-1] before the first and [length] after the
    last; a primitive moves the position and the record there is the one
    surfaced. *)
Record Iterator : Type := mkIterator {
  shown : list (InternalKey * bytes);
  pos : Z
}.

Definition NewIter (vt : VirtualTable) (q : option (bytes * bytes)) : Iterator :=
  {| shown := visible vt q; pos := -1 |}.

Definition current (it : Iterator) : option (InternalKey * bytes) :=
  if pos it <? 0 then None else nth_error (shown it) (Z.to_nat (pos it)).

Definition moveTo (it : Iterator) (p : Z) : Iterator :=
  {| shown := shown it;
     pos := Z.max (-1) (Z.min p (Z.of_nat (List.length (shown it)))) |}.

(** The number of leading records whose key sorts before [k]. *)
Fixpoint countBefore (k : bytes) (l : list (InternalKey * bytes)) : Z :=
  match l with
  | [] => 0
  | r :: rest => if ltK (UserKey (fst r)) k then 1 + countBefore k rest else 0
  end.

Definition First (it : Iterator) : Iterator := moveTo it 0.
Definition Last (it : Iterator) : Iterator :=
  moveTo it (Z.of_nat (List.length (shown it)) - 1).
Definition Next (it : Iterator) : Iterator := moveTo it (pos it + 1).
Definition Prev (it : Iterator) : Iterator := moveTo it (pos it - 1).
Definition SeekGE (it : Iterator) (k : bytes) : Iterator :=
  moveTo it (countBefore k (shown it)).
Definition SeekLT (it : Iterator) (k : bytes) : Iterator :=
  moveTo it (countBefore k (shown it) - 1).
Definition SeekPrefixGE (it : Iterator) (k : bytes) : Iterator := SeekGE it k.

(** The positioning primitives, and an iterator after a sequence of them. *)
Inductive Positioning : Type :=
| PFirst
| PLast
| PNext
| PPrev
| PSeekGE (k : bytes)
| PSeekLT (k : bytes)
| PSeekPrefixGE (k : bytes).

Definition position (it : Iterator) (p : Positioning) : Iterator :=
  match p with
  | PFirst => First it
  | PLast => Last it
  | PNext => Next it
  | PPrev => Prev it
  | PSeekGE k => SeekGE it k
  | PSeekLT k => SeekLT it k
  | PSeekPrefixGE k => SeekPrefixGE it k
  end.

Definition positions (it : Iterator) (ps : list Positioning) : Iterator :=
  fold_left position ps it.

(** Two bounds pairs have no overlap when no key is within both. *)
Definition noOverlap (q v : Bounds) : Prop :=
  forall k, inBounds q k = true -> inBounds v k = true -> False.


(** Modelled from the spec: the compaction iterator is not among the
    sources.  It surfaces the point records of the table in order, with no
    bounds of its own. *)
Definition compactionIter (vt : VirtualTable) : list (InternalKey * bytes) :=
  visible vt None.

(** Modelled from the spec: the span iterators of a virtual table are not
    among the sources.  Every backing span is truncated to the virtual bounds
    when the iterator is opened; a span left empty is not reported. *)
Definition truncateSpan (vt : VirtualTable) (s : Keyspan.Span)
  : option Keyspan.Span :=
  let st := maxKey (Keyspan.Start s) (UserKey (smallest vt)) in
  let en := minKey (Keyspan.End s) (UserKey (largest vt)) in
  if ltK st en
  then Some {| Keyspan.Start := st; Keyspan.End := en;
               Keyspan.Keys := Keyspan.Keys s |}
  else None.

Fixpoint truncateSpans (vt : VirtualTable) (l : list Keyspan.Span)
  : list Keyspan.Span :=
  match l with
  | [] => []
  | s :: rest =>
      match truncateSpan vt s with
      | Some s' => s' :: truncateSpans vt rest
      | None => truncateSpans vt rest
      end
  end.

Definition NewRawRangeDelIter (vt : VirtualTable) : list Keyspan.Span :=
  truncateSpans vt (rangeDels (backing vt)).

Definition NewRawRangeKeyIter (vt : VirtualTable) : list Keyspan.Span :=
  truncateSpans vt (rangeKeys (backing vt)).

End Virtual.

End Sstable.

(** ** Ingestion of externally built files, as the data-driven test
    [ingest-external] drives it *)

Module Ingest.

(** One line of an [ingest-external] command: the object, its bounds
    [[StartKey, EndKey)] and the optional synthetic prefix and suffix. *)
Record ExternalFile : Type := mkExternalFile {
  ObjName : string;
  StartKey : bytes;
  EndKey : bytes;
  SyntheticPrefix : bytes;
  SyntheticSuffix : bytes
}.

(** The typed validation errors, named after their messages. *)
Inductive IngestError : Type :=
| ErrBoundsInvalid (f : ExternalFile)
| ErrStartKeyHasSuffix (f : ExternalFile)
| ErrEndKeyHasSuffix (f : ExternalFile)
| ErrOverlappingRanges
| ErrTooOldForSyntheticPrefix
| ErrTooOldForSyntheticSuffix.

(** The part of the store that ingestion changes: the registered files. *)
Record DB : Type := mkDB {
  FormatMajorVersion : Z;
  registered : list ExternalFile
}.

Section IngestExternal.
Variable cmp : Comparer.
Variable FormatSyntheticPrefixSuffix : Z.

Definition hasSuffix (k : bytes) : bool :=
  negb (Nat.eqb (Split cmp k) (List.length k)).

Definition validateFile (fmv : Z) (f : ExternalFile) : option IngestError :=
  match Compare cmp (StartKey f) (EndKey f) with
  | Gt => Some (ErrBoundsInvalid f)
  | _ =>
      if hasSuffix (StartKey f) then Some (ErrStartKeyHasSuffix f)
      else if hasSuffix (EndKey f) then Some (ErrEndKeyHasSuffix f)
      else if Metamorphic.IsSet (SyntheticPrefix f)
              && (fmv <? FormatSyntheticPrefixSuffix)
      then Some ErrTooOldForSyntheticPrefix
      else if Metamorphic.IsSet (SyntheticSuffix f)
              && (fmv <? FormatSyntheticPrefixSuffix)
      then Some ErrTooOldForSyntheticSuffix
      else None
  end.

Fixpoint validateFiles (fmv : Z) (batch : list ExternalFile)
  : option IngestError :=
  match batch with
  | [] => None
  | f :: rest =>
      match validateFile fmv f with
      | Some e => Some e
      | None => validateFiles fmv rest
      end
  end.

(** The files of a batch are ordered by start key before they are checked
    against each other. *)
Fixpoint insertByStart (f : ExternalFile) (l : list ExternalFile)
  : list ExternalFile :=
  match l with
  | [] => [f]
  | g :: r =>
      match Compare cmp (StartKey f) (StartKey g) with
      | Gt => g :: insertByStart f r
      | _ => f :: g :: r
      end
  end.

Fixpoint sortByStart (l : list ExternalFile) : list ExternalFile :=
  match l with
  | [] => []
  | f :: r => insertByStart f (sortByStart r)
  end.

(** Two neighbours overlap when the later one starts before the exclusive
    end of the earlier one. *)
Fixpoint overlapsNext (l : list ExternalFile) : bool :=
  match l with
  | f :: (g :: _) as r =>
      match Compare cmp (StartKey g) (EndKey f) with
      | Lt => true
      | _ => overlapsNext r
      end
  | _ => false
  end.

(** Modelled from the spec: the ingestion of external files is not among the
    sources (its test cases are).  Every file of the batch is validated, then
    the batch is checked for overlapping ranges, and only then are the files
    registered. *)
Definition ingestExternal (db : DB) (batch : list ExternalFile)
  : DB * option IngestError :=
  match validateFiles (FormatMajorVersion db) batch with
  | Some e => (db, Some e)
  | None =>
      let sorted := sortByStart batch in
      if overlapsNext sorted then (db, Some ErrOverlappingRanges)
      else ({| FormatMajorVersion := FormatMajorVersion db;
               registered := registered db ++ sorted |}, None)
  end.

(** The validation failures of a file and of a batch. *)
Definition boundsReversed (f : ExternalFile) : Prop :=
  Compare cmp (StartKey f) (EndKey f) = Gt.

Definition tooOldFor (fmv : Z) (transform : bytes) : Prop :=
  Metamorphic.IsSet transform = true /\ fmv < FormatSyntheticPrefixSuffix.

Definition invalidFile (fmv : Z) (f : ExternalFile) : Prop :=
  boundsReversed f
  \/ hasSuffix (StartKey f) = true
  \/ hasSuffix (EndKey f) = true
  \/ tooOldFor fmv (SyntheticPrefix f)
  \/ tooOldFor fmv (SyntheticSuffix f).

(** Two files overlap when each starts before the exclusive end of the
    other. *)
Definition overlap (f g : ExternalFile) : Prop :=
  Compare cmp (StartKey f) (EndKey g) = Lt
  /\ Compare cmp (StartKey g) (EndKey f) = Lt.

Definition batchOverlaps (batch : list ExternalFile) : Prop :=
  exists l1 f l2 g l3, batch = l1 ++ f :: l2 ++ g :: l3 /\ overlap f g.

(** The error [e] corresponds to a failure that the batch has. *)
Definition errorFits (e : IngestError) (fmv : Z) (batch : list ExternalFile)
  : Prop :=
  match e with
  | ErrBoundsInvalid f => In f batch /\ boundsReversed f
  | ErrStartKeyHasSuffix f => In f batch /\ hasSuffix (StartKey f) = true
  | ErrEndKeyHasSuffix f => In f batch /\ hasSuffix (EndKey f) = true
  | ErrTooOldForSyntheticPrefix =>
      exists f, In f batch /\ tooOldFor fmv (SyntheticPrefix f)
  | ErrTooOldForSyntheticSuffix =>
      exists f, In f batch /\ tooOldFor fmv (SyntheticSuffix f)
  | ErrOverlappingRanges =>
      exists l1 f g l2,
        Permutation batch (l1 ++ f :: g :: l2)
        /\ leK cmp (StartKey f) (StartKey g)
        /\ Compare cmp (StartKey g) (EndKey f) = Lt
  end.

End IngestExternal.

End Ingest.

(** ** [vfs/vfstest/open_files.go]: tracking of open files *)

Module Vfstest.

(** A resolved stack frame of the goroutine that opened a file. *)
Record Frame : Type := mkFrame {
  Function : string;
  File : string;
  Line : nat
}.

Definition zeroFrame : Frame := {| Function := ""; File := ""; Line := 0 |}.

(** The calls of the wrapped file system that return a file. *)
Inductive OpenCall : Type :=
| CallCreate (name : string)
| CallOpen (name : string)
| CallOpenReadWrite (name : string)
| CallOpenDir (name : string)
| CallReuseForWrite (oldname newname : string).

(** The calls that are handed to the wrapped file system as they are.  What
    they return besides an error is of no concern here. *)
Inductive PassCall : Type :=
| CallLink (oldname newname : string)
| CallRemove (name : string)
| CallRemoveAll (name : string)
| CallRename (oldname newname : string)
| CallMkdirAll (dir : string) (perm : nat)
| CallLock (name : string)
| CallList (dir : string)
| CallStat (name : string)
| CallGetDiskUsage (path : string).

(** The wrapped file system [inner] and its files: an interface, so a record
    of operations over a state of its own.  A call returns a file, which may
    be nil, and an error. *)
Record InnerFS (I F : Type) : Type := mkInnerFS {
  innerCreate : I -> string -> I * option F * option error;
  innerOpen : I -> string -> I * option F * option error;
  innerOpenReadWrite : I -> string -> I * option F * option error;
  innerOpenDir : I -> string -> I * option F * option error;
  innerReuseForWrite : I -> string -> string -> I * option F * option error;
  innerPass : I -> PassCall -> I * option error;
  innerFileClose : I -> F -> I * option error
}.

Arguments innerCreate {I F} _ _ _.
Arguments innerOpen {I F} _ _ _.
Arguments innerOpenReadWrite {I F} _ _ _.
Arguments innerOpenDir {I F} _ _ _.
Arguments innerReuseForWrite {I F} _ _ _ _.
Arguments innerPass {I F} _ _ _.
Arguments innerFileClose {I F} _ _ _.

Import stdpp.base stdpp.gmap stdpp.pretty.

(** An [openFile]: the wrapped file and the program counters captured when it
    was opened (at most 20), here already resolved to frames. *)
Record openFile (F : Type) : Type := mkOpenFile {
  ofFile : F;
  pcs : list Frame
}.

Arguments mkOpenFile {F} _ _.
Arguments ofFile {F} _.
Arguments pcs {F} _.

(** [openFilesFS]: the wrapped file system and the set [files] of pointers to
    the open files.  A pointer is an address; [heap] holds what the addresses
    allocated so far point to and [nextAddr] is the next one to allocate. *)
Record openFilesFS (I F : Type) : Type := mkOpenFilesFS {
  inner : I;
  files : gset nat;
  heap : gmap nat (openFile F);
  nextAddr : nat
}.

Arguments mkOpenFilesFS {I F} _ _ _ _.
Arguments inner {I F} _.
Arguments files {I F} _.
Arguments heap {I F} _.
Arguments nextAddr {I F} _.

Section OpenFiles.
Context {I F : Type} (ifs : InnerFS I F).

Definition WithOpenFileTracking (i : I) : openFilesFS I F :=
  {| inner := i; files := ∅; heap := ∅; nextAddr := 0 |}.

Definition setInner (i : I) (fs : openFilesFS I F) : openFilesFS I F :=
  {| inner := i; files := files fs; heap := heap fs; nextAddr := nextAddr fs |}.

(** [wrapOpenFile]: a nil file is returned as it is; any other file is
    wrapped in a newly allocated [openFile] whose address joins [files]. *)
Definition wrapOpenFile (fs : openFilesFS I F) (f : option F)
  (callers : list Frame) : openFilesFS I F * option nat :=
  match f with
  | None => (fs, None)
  | Some f' =>
      let ptr := nextAddr fs in
      ({| inner := inner fs;
          files := {[ptr]} ∪ files fs;
          heap := <[ptr := mkOpenFile f' (take 20 callers)]> (heap fs);
          nextAddr := S (nextAddr fs) |}, Some ptr)
  end.

Definition callInner (c : OpenCall) (i : I) : I * option F * option error :=
  match c with
  | CallCreate name => innerCreate ifs i name
  | CallOpen name => innerOpen ifs i name
  | CallOpenReadWrite name => innerOpenReadWrite ifs i name
  | CallOpenDir name => innerOpenDir ifs i name
  | CallReuseForWrite oldname newname => innerReuseForWrite ifs i oldname newname
  end.

(** The shape the five file-returning methods share:
    [f, err := fs.inner.X(...); return fs.wrapOpenFile(f), err]. *)
Definition openWith (c : OpenCall) (fs : openFilesFS I F) (callers : list Frame)
  : openFilesFS I F * option nat * option error :=
  let '(i', f, err) := callInner c (inner fs) in
  let '(fs', ptr) := wrapOpenFile (setInner i' fs) f callers in
  (fs', ptr, err).

Definition Create (fs : openFilesFS I F) (name : string) :=
  openWith (CallCreate name) fs.
Definition Open (fs : openFilesFS I F) (name : string) :=
  openWith (CallOpen name) fs.
Definition OpenReadWrite (fs : openFilesFS I F) (name : string) :=
  openWith (CallOpenReadWrite name) fs.
Definition OpenDir (fs : openFilesFS I F) (name : string) :=
  openWith (CallOpenDir name) fs.
Definition ReuseForWrite (fs : openFilesFS I F) (oldname newname : string) :=
  openWith (CallReuseForWrite oldname newname) fs.

(** [Link], [Remove], [RemoveAll], [Rename], [MkdirAll], [Lock], [List],
    [Stat] and [GetDiskUsage] call the wrapped file system and return what it
    returns. *)
Definition passThrough (fs : openFilesFS I F) (c : PassCall)
  : openFilesFS I F * option error :=
  let '(i', err) := innerPass ifs (inner fs) c in (setInner i' fs, err).

(** [openFile.Close]: closes the wrapped file, removes the file from the set
    and returns the error of the wrapped close.  The receiver is a pointer
    that an earlier call returned, so it is allocated. *)
Definition Close (fs : openFilesFS I F) (ptr : nat)
  : openFilesFS I F * option error :=
  match heap fs !! ptr with
  | None => (fs, None)
  | Some o =>
      let '(i', err) := innerFileClose ifs (inner fs) (ofFile o) in
      ({| inner := i';
          files := files fs ∖ {[ptr]};
          heap := heap fs;
          nextAddr := nextAddr fs |}, err)
  end.

End OpenFiles.

Definition newline : string := String (Ascii.ascii_of_nat 10) EmptyString.

(** What [openFile.dumpStack] writes: a line pair per frame, and the pair of
    the zero frame when no frame was captured. *)
Definition frameLines (fr : Frame) : string :=
  (Function fr +:+ newline +:+ " " +:+ File fr +:+ ":" +:+ pretty (Line fr)
     +:+ newline)%string.

Definition dumpStack {F : Type} (f : openFile F) : string :=
  match pcs f with
  | [] => frameLines zeroFrame
  | fr :: rest => String.concat "" (map frameLines (fr :: rest))
  end.

(** What [dumpStacks] writes.  The files are visited in the order of
    [elements]; the order Go visits a map in is not specified. *)
Definition dumpStacks {I F : Type} (fs : openFilesFS I F) : string :=
  if decide (size (files fs) = 0)%nat then ""%string
  else
    (pretty (size (files fs)) +:+ " open files:" +:+ newline
     +:+ String.concat ""
           (map (fun ptr =>
                   match heap fs !! ptr with
                   | Some o => (dumpStack o +:+ newline)%string
                   | None => newline
                   end) (elements (files fs))))%string.

(** A run of the tracked file system: the calls made on it and on the files
    it returned, with what each call returned. *)
Inductive Action : Type :=
| ActOpen (c : OpenCall) (callers : list Frame)
| ActPass (c : PassCall)
| ActClose (ptr : nat).

Inductive Outcome : Type :=
| Opened (ptr : option nat) (err : option error)
| Passed (err : option error)
| Closed (err : option error).

Section Run.
Context {I F : Type} (ifs : InnerFS I F).

Definition step (fs : openFilesFS I F) (a : Action)
  : openFilesFS I F * Outcome :=
  match a with
  | ActOpen c callers =>
      let '(fs', ptr, err) := openWith ifs c fs callers in (fs', Opened ptr err)
  | ActPass c =>
      let '(fs', err) := passThrough ifs fs c in (fs', Passed err)
  | ActClose ptr =>
      let '(fs', err) := Close ifs fs ptr in (fs', Closed err)
  end.

Fixpoint run (fs : openFilesFS I F) (acts : list Action)
  : openFilesFS I F * list (Action * Outcome) :=
  match acts with
  | [] => (fs, [])
  | a :: rest =>
      let '(fs', o) := step fs a in
      let '(fs'', log) := run fs' rest in
      (fs'', (a, o) :: log)
  end.

End Run.

(** The files that the calls of a log returned, in the order of the calls. *)
Definition handlesOf (log : list (Action * Outcome)) : list nat :=
  flat_map
    (fun x => match snd x with Opened (Some p) _ => [p] | _ => [] end) log.

(** The callers of the call of a log that returned the file at address
    [p]: those of the first such call, and none when there is no such
    call. *)
Definition openingCallers (log : list (Action * Outcome)) (p : nat)
  : list Frame :=
  match
    List.find
      (fun x =>
         match x with
         | (ActOpen _ _, Opened (Some q) _) => Nat.eqb q p
         | _ => false
         end) log
  with
  | Some (ActOpen _ callers, _) => callers
  | _ => []
  end.

(** The text of a stack of frames as [openFile.dumpStack] writes it: the
    line pairs of the frames, and the pair of the zero frame for no
    frame. *)
Definition stackText (frames : list Frame) : string :=
  String.concat ""
    (map frameLines match frames with [] => [zeroFrame] | _ => frames end).

(** The file at address [p] was returned by a call of the log, and no later
    call of the log closed it. *)
Definition openedAndNotClosed (p : nat) (log : list (Action * Outcome)) : Prop :=
  exists pre a err post,
    log = pre ++ (a, Opened (Some p) err) :: post
    /\ Forall (fun x => fst x <> ActClose p) post.

End Vfstest.
(** ** [fmt.Sscanf] with the verb [%d] *)

Module Fmt.
Import Ascii.

Definition isDigit (c : ascii) : bool :=
  (48 <=? nat_of_ascii c)%nat && (nat_of_ascii c <=? 57)%nat.

(** The one-byte spaces other than the newline: tab, vertical tab, form
    feed, carriage return and the blank. *)
Definition isSpaceByte (c : ascii) : bool :=
  let n := nat_of_ascii c in
  (n =? 9)%nat || (n =? 11)%nat || (n =? 12)%nat || (n =? 13)%nat
  || (n =? 32)%nat.

(** The spaces that take two or three bytes in UTF-8: U+0085, U+00A0,
    U+1680, U+2000 to U+200A, U+2028, U+2029, U+202F, U+205F and U+3000. *)
Definition isSpace2 (c1 c2 : ascii) : bool :=
  (nat_of_ascii c1 =? 194)%nat
  && ((nat_of_ascii c2 =? 133)%nat || (nat_of_ascii c2 =? 160)%nat).

Definition isSpace3 (c1 c2 c3 : ascii) : bool :=
  let n1 := nat_of_ascii c1 in
  let n2 := nat_of_ascii c2 in
  let n3 := nat_of_ascii c3 in
  ((n1 =? 225) && (n2 =? 154) && (n3 =? 128))%nat
  || ((n1 =? 226) && (n2 =? 128)
      && (((128 <=? n3) && (n3 <=? 138)) || (n3 =? 168) || (n3 =? 169)
          || (n3 =? 175)))%nat
  || ((n1 =? 226) && (n2 =? 129) && (n3 =? 159))%nat
  || ((n1 =? 227) && (n2 =? 128) && (n3 =? 128))%nat.

(** [SkipSpace] of a scan in which a newline is not a space: the spaces at
    the front are dropped, and a newline there is an error. *)
Fixpoint SkipSpace (s : string) : option string :=
  match s with
  | EmptyString => Some s
  | String c1 r1 =>
      if isSpaceByte c1 then SkipSpace r1
      else if (nat_of_ascii c1 =? 10)%nat then None
      else
        match r1 with
        | String c2 r2 =>
            if isSpace2 c1 c2 then SkipSpace r2
            else
              match r2 with
              | String c3 r3 => if isSpace3 c1 c2 c3 then SkipSpace r3 else Some s
              | EmptyString => Some s
              end
        | EmptyString => Some s
        end
  end.

(** The longest prefix of bytes that meet [p]. *)
Fixpoint takeWhile (p : ascii -> bool) (s : string) : string :=
  match s with
  | String c r => if p c then String c (takeWhile p r) else EmptyString
  | EmptyString => EmptyString
  end.

(** The verb [%d] into an [int]: spaces are skipped, a sign is taken if
    there is one, then the decimal digits that follow, at least one; the
    token is read by [strconv.ParseInt] in base 10.  What follows the token,
    from the first byte that is no digit, is left unread.  [None] is an
    error. *)
Definition scanInt (s : string) : option Z :=
  match SkipSpace s with
  | None | Some EmptyString => None
  | Some (String c r as s1) =>
      let '(sign, s2) :=
        if Ascii.eqb c "+" || Ascii.eqb c "-"
        then (String c EmptyString, r) else (EmptyString, s1) in
      match s2 with
      | EmptyString => None
      | String d _ =>
          if isDigit d
          then Strconv.ParseInt (sign ++ takeWhile isDigit s2)%string
          else None
      end
  end.

(** The text of a format before its verb has to be at the front of the
    input, byte for byte (the text holds no space and no [%]). *)
Fixpoint literal (text input : string) : option string :=
  match text, input with
  | EmptyString, _ => Some input
  | String a text', String b input' =>
      if Ascii.eqb a b then literal text' input' else None
  | String _ _, EmptyString => None
  end.

(** [fmt.Sscanf(input, text + "%d", &n)] *)
Definition Sscanf_d (input text : string) : option Z :=
  match literal text input with
  | Some rest => scanInt rest
  | None => None
  end.

End Fmt.

(** ** [metamorphic/options.go]: the options of a test run *)

Module Options.
Import stdpp.base stdpp.gmap stdpp.strings.
Local Open Scope Z_scope.

Definition newline : string := String (Ascii.ascii_of_nat 10) EmptyString.

(** *** Filter policies and their names *)

(** A [pebble.FilterPolicy] as [options.go] makes them: [bloom.FilterPolicy(n)]
    or a [testingFilterPolicy] around one.  No policy is [nil]. *)
Inductive Policy : Type :=
| BloomFilterPolicy (bitsPerKey : Z)
| TestingFilterPolicy (bitsPerKey : Z).

Definition newTestingFilterPolicy (bitsPerKey : Z) : Policy :=
  TestingFilterPolicy bitsPerKey.

Definition testingFilterPolicyText : string :=
  "testing_bloom_filter/bits_per_key=".

(** The method [Name] of a [testingFilterPolicy], on the bits per key of
    the policy. *)
Definition testingFilterPolicy_Name (bitsPerKey : Z) : string :=
  if bitsPerKey =? 10 then "rocksdb.BuiltinBloomFilter"%string
  else (testingFilterPolicyText ++ Strconv.FormatInt bitsPerKey)%string.

Definition filterPolicyFromName (name : string) : error + option Policy :=
  if String.eqb name "none" then inr None
  else if String.eqb name "rocksdb.BuiltinBloomFilter"
  then inr (Some (BloomFilterPolicy 10))
  else
    match Fmt.Sscanf_d name testingFilterPolicyText with
    | None => inl ("Invalid filter policy name '" ++ name ++ "'")%string
    | Some bitsPerKey => inr (Some (newTestingFilterPolicy bitsPerKey))
    end.

(** *** The values of other packages that [options.go] stores *)

(** [vfs.NewMem()], [vfs.NewStrictMem()] and [vfs.Default]. *)
Inductive vfsFS : Type := MemFS | StrictMemFS | DefaultFS.

(** [remote.NewInMem()] *)
Inductive RemoteStorageFS : Type := InMemStorage.

Inductive CreateOnSharedStrategy : Type :=
| CreateOnSharedNone | CreateOnSharedLower | CreateOnSharedAll.

Inductive BlockPropertyCollector : Type := NewTestKeysBlockPropertyCollector.

Inductive CleanerKind : Type := ArchiveCleaner.
Inductive ComparerKind : Type := testkeysComparer.
Inductive DebugCheckKind : Type := DebugCheckLevels.
Inductive RetryPolicyKind : Type := NeverRetry.

Inductive CompressionKind : Type :=
| DefaultCompression | NoCompression | SnappyCompression | ZstdCompression.

(** The function stored in [Experimental.IngestSplit]: one that returns
    [true], or the one of [RandomOptions] that reads [testOpts.ingestSplit]
    when it is called. *)
Inductive IngestSplitFunc : Type := ReturnsTrue | ReadsIngestSplit.

(** A duration is a number of nanoseconds. *)
Definition Millisecond : Z := 1000000.
Definition Second : Z := 1000000000.

(** [wal.Dir] *)
Record Dir : Type := mkDir {
  DirFS : vfsFS;
  Dirname : string
}.

(** [wal.FailoverOptions]; the function stored in
    [UnhealthyOperationLatencyThreshold] is given by what it returns. *)
Record FailoverOptions : Type := mkFailoverOptions {
  PrimaryDirProbeInterval : Z;
  HealthyProbeLatencyThreshold : Z;
  HealthyInterval : Z;
  UnhealthySamplingInterval : Z;
  UnhealthyOperationLatencyThreshold : option (Z * bool);
  ElevatedWriteStallThresholdLag : Z
}.

Record WALFailoverOptions : Type := mkWALFailoverOptions {
  Secondary : Dir;
  Failover : FailoverOptions
}.

Record LevelOptions : Type := mkLevelOptions {
  BlockRestartInterval : Z;
  BlockSize : Z;
  BlockSizeThreshold : Z;
  IndexBlockSize : Z;
  TargetFileSize : Z;
  FilterPolicy : option Policy;
  Compression : CompressionKind
}.

(** [CustomOption]: what [options.go] reads of one are its name and its
    value. *)
Record CustomOption : Type := mkCustomOption {
  Name : string;
  Value : string
}.

(** [pebble.MultiLevelHeuristic]: [NoMultiLevel{}] or a
    [WriteAmpHeuristic]. *)
Inductive Heuristic (Float : Type) : Type :=
| NoMultiLevel
| WriteAmpHeuristic (AddPropensity : Float) (AllowL0 : bool).

Arguments NoMultiLevel {Float}.
Arguments WriteAmpHeuristic {Float} _ _.

(** The fields of [pebble.Options.Experimental] that [options.go] reads or
    writes.  A field that holds a function holds what the function
    returns, and [None] when the function is nil. *)
Record ExperimentalOptions (Float : Type) : Type := mkExperimentalOptions {
  L0CompactionConcurrency : Z;
  LevelMultiplier : Z;
  ValidateOnIngest : bool;
  MaxWriterConcurrency : Z;
  ForceWriterParallelism : bool;
  DisableIngestAsFlushable : option bool;
  MultiLevelCompactionHeuristic : option (Heuristic Float);
  EnableValueBlocks : option bool;
  CreateOnShared : CreateOnSharedStrategy;
  SecondaryCacheSizeBytes : Z;
  IngestSplit : option IngestSplitFunc;
  RemoteStorage : option (gmap string (option RemoteStorageFS))
}.

Arguments mkExperimentalOptions {Float}.
Arguments L0CompactionConcurrency {Float} _.
Arguments LevelMultiplier {Float} _.
Arguments ValidateOnIngest {Float} _.
Arguments MaxWriterConcurrency {Float} _.
Arguments ForceWriterParallelism {Float} _.
Arguments DisableIngestAsFlushable {Float} _.
Arguments MultiLevelCompactionHeuristic {Float} _.
Arguments EnableValueBlocks {Float} _.
Arguments CreateOnShared {Float} _.
Arguments SecondaryCacheSizeBytes {Float} _.
Arguments IngestSplit {Float} _.
Arguments RemoteStorage {Float} _.

Definition setExperimental_L0CompactionConcurrency {Float : Type} (v : Z)
  (t : ExperimentalOptions Float) : ExperimentalOptions Float :=
  mkExperimentalOptions
    v (LevelMultiplier t) (ValidateOnIngest t) (MaxWriterConcurrency t)
    (ForceWriterParallelism t) (DisableIngestAsFlushable t)
    (MultiLevelCompactionHeuristic t) (EnableValueBlocks t) (CreateOnShared t)
    (SecondaryCacheSizeBytes t) (IngestSplit t) (RemoteStorage t).

Definition setExperimental_LevelMultiplier {Float : Type} (v : Z)
  (t : ExperimentalOptions Float) : ExperimentalOptions Float :=
  mkExperimentalOptions
    (L0CompactionConcurrency t) v (ValidateOnIngest t)
    (MaxWriterConcurrency t) (ForceWriterParallelism t)
    (DisableIngestAsFlushable t) (MultiLevelCompactionHeuristic t)
    (EnableValueBlocks t) (CreateOnShared t) (SecondaryCacheSizeBytes t)
    (IngestSplit t) (RemoteStorage t).

Definition setExperimental_ValidateOnIngest {Float : Type} (v : bool)
  (t : ExperimentalOptions Float) : ExperimentalOptions Float :=
  mkExperimentalOptions
    (L0CompactionConcurrency t) (LevelMultiplier t) v (MaxWriterConcurrency t)
    (ForceWriterParallelism t) (DisableIngestAsFlushable t)
    (MultiLevelCompactionHeuristic t) (EnableValueBlocks t) (CreateOnShared t)
    (SecondaryCacheSizeBytes t) (IngestSplit t) (RemoteStorage t).

Definition setExperimental_MaxWriterConcurrency {Float : Type} (v : Z)
  (t : ExperimentalOptions Float) : ExperimentalOptions Float :=
  mkExperimentalOptions
    (L0CompactionConcurrency t) (LevelMultiplier t) (ValidateOnIngest t) v
    (ForceWriterParallelism t) (DisableIngestAsFlushable t)
    (MultiLevelCompactionHeuristic t) (EnableValueBlocks t) (CreateOnShared t)
    (SecondaryCacheSizeBytes t) (IngestSplit t) (RemoteStorage t).

Definition setExperimental_ForceWriterParallelism {Float : Type} (v : bool)
  (t : ExperimentalOptions Float) : ExperimentalOptions Float :=
  mkExperimentalOptions
    (L0CompactionConcurrency t) (LevelMultiplier t) (ValidateOnIngest t)
    (MaxWriterConcurrency t) v (DisableIngestAsFlushable t)
    (MultiLevelCompactionHeuristic t) (EnableValueBlocks t) (CreateOnShared t)
    (SecondaryCacheSizeBytes t) (IngestSplit t) (RemoteStorage t).

Definition setExperimental_DisableIngestAsFlushable {Float : Type} (v : option bool)
  (t : ExperimentalOptions Float) : ExperimentalOptions Float :=
  mkExperimentalOptions
    (L0CompactionConcurrency t) (LevelMultiplier t) (ValidateOnIngest t)
    (MaxWriterConcurrency t) (ForceWriterParallelism t) v
    (MultiLevelCompactionHeuristic t) (EnableValueBlocks t) (CreateOnShared t)
    (SecondaryCacheSizeBytes t) (IngestSplit t) (RemoteStorage t).

Definition setExperimental_MultiLevelCompactionHeuristic {Float : Type} (v : option (Heuristic Float))
  (t : ExperimentalOptions Float) : ExperimentalOptions Float :=
  mkExperimentalOptions
    (L0CompactionConcurrency t) (LevelMultiplier t) (ValidateOnIngest t)
    (MaxWriterConcurrency t) (ForceWriterParallelism t)
    (DisableIngestAsFlushable t) v (EnableValueBlocks t) (CreateOnShared t)
    (SecondaryCacheSizeBytes t) (IngestSplit t) (RemoteStorage t).

Definition setExperimental_EnableValueBlocks {Float : Type} (v : option bool)
  (t : ExperimentalOptions Float) : ExperimentalOptions Float :=
  mkExperimentalOptions
    (L0CompactionConcurrency t) (LevelMultiplier t) (ValidateOnIngest t)
    (MaxWriterConcurrency t) (ForceWriterParallelism t)
    (DisableIngestAsFlushable t) (MultiLevelCompactionHeuristic t) v
    (CreateOnShared t) (SecondaryCacheSizeBytes t) (IngestSplit t)
    (RemoteStorage t).

Definition setExperimental_CreateOnShared {Float : Type} (v : CreateOnSharedStrategy)
  (t : ExperimentalOptions Float) : ExperimentalOptions Float :=
  mkExperimentalOptions
    (L0CompactionConcurrency t) (LevelMultiplier t) (ValidateOnIngest t)
    (MaxWriterConcurrency t) (ForceWriterParallelism t)
    (DisableIngestAsFlushable t) (MultiLevelCompactionHeuristic t)
    (EnableValueBlocks t) v (SecondaryCacheSizeBytes t) (IngestSplit t)
    (RemoteStorage t).

Definition setExperimental_SecondaryCacheSizeBytes {Float : Type} (v : Z)
  (t : ExperimentalOptions Float) : ExperimentalOptions Float :=
  mkExperimentalOptions
    (L0CompactionConcurrency t) (LevelMultiplier t) (ValidateOnIngest t)
    (MaxWriterConcurrency t) (ForceWriterParallelism t)
    (DisableIngestAsFlushable t) (MultiLevelCompactionHeuristic t)
    (EnableValueBlocks t) (CreateOnShared t) v (IngestSplit t)
    (RemoteStorage t).

Definition setExperimental_IngestSplit {Float : Type} (v : option IngestSplitFunc)
  (t : ExperimentalOptions Float) : ExperimentalOptions Float :=
  mkExperimentalOptions
    (L0CompactionConcurrency t) (LevelMultiplier t) (ValidateOnIngest t)
    (MaxWriterConcurrency t) (ForceWriterParallelism t)
    (DisableIngestAsFlushable t) (MultiLevelCompactionHeuristic t)
    (EnableValueBlocks t) (CreateOnShared t) (SecondaryCacheSizeBytes t) v
    (RemoteStorage t).

Definition setExperimental_RemoteStorage {Float : Type} (v : option (gmap string (option RemoteStorageFS)))
  (t : ExperimentalOptions Float) : ExperimentalOptions Float :=
  mkExperimentalOptions
    (L0CompactionConcurrency t) (LevelMultiplier t) (ValidateOnIngest t)
    (MaxWriterConcurrency t) (ForceWriterParallelism t)
    (DisableIngestAsFlushable t) (MultiLevelCompactionHeuristic t)
    (EnableValueBlocks t) (CreateOnShared t) (SecondaryCacheSizeBytes t)
    (IngestSplit t) v.


(** The fields of [pebble.Options] that [options.go] reads or writes. *)
Record Options (Float : Type) : Type := mkOptions {
  BytesPerSync : Z;
  Cache : option Z;
  Cleaner : option CleanerKind;
  Comparer : option ComparerKind;
  DebugCheck : option DebugCheckKind;
  DisableWAL : bool;
  FlushDelayDeleteRange : Z;
  FlushDelayRangeKey : Z;
  FlushSplitBytes : Z;
  FormatMajorVersion : Z;
  Experimental : ExperimentalOptions Float;
  TargetByteDeletionRate : Z;
  L0CompactionThreshold : Z;
  L0CompactionFileThreshold : Z;
  L0StopWritesThreshold : Z;
  LBaseMaxBytes : Z;
  MaxConcurrentCompactions : option Z;
  MaxManifestFileSize : Z;
  MemTableSize : Z;
  MemTableStopWritesThreshold : Z;
  WALDir : string;
  WALFailover : option WALFailoverOptions;
  Filters : gmap string Policy;
  Levels : list LevelOptions;
  FS : vfsFS;
  BlockPropertyCollectors : list BlockPropertyCollector
}.

Arguments mkOptions {Float}.
Arguments BytesPerSync {Float} _.
Arguments Cache {Float} _.
Arguments Cleaner {Float} _.
Arguments Comparer {Float} _.
Arguments DebugCheck {Float} _.
Arguments DisableWAL {Float} _.
Arguments FlushDelayDeleteRange {Float} _.
Arguments FlushDelayRangeKey {Float} _.
Arguments FlushSplitBytes {Float} _.
Arguments FormatMajorVersion {Float} _.
Arguments Experimental {Float} _.
Arguments TargetByteDeletionRate {Float} _.
Arguments L0CompactionThreshold {Float} _.
Arguments L0CompactionFileThreshold {Float} _.
Arguments L0StopWritesThreshold {Float} _.
Arguments LBaseMaxBytes {Float} _.
Arguments MaxConcurrentCompactions {Float} _.
Arguments MaxManifestFileSize {Float} _.
Arguments MemTableSize {Float} _.
Arguments MemTableStopWritesThreshold {Float} _.
Arguments WALDir {Float} _.
Arguments WALFailover {Float} _.
Arguments Filters {Float} _.
Arguments Levels {Float} _.
Arguments FS {Float} _.
Arguments BlockPropertyCollectors {Float} _.

Definition setOptions_BytesPerSync {Float : Type} (v : Z)
  (t : Options Float) : Options Float :=
  mkOptions
    v (Cache t) (Cleaner t) (Comparer t) (DebugCheck t) (DisableWAL t)
    (FlushDelayDeleteRange t) (FlushDelayRangeKey t) (FlushSplitBytes t)
    (FormatMajorVersion t) (Experimental t) (TargetByteDeletionRate t)
    (L0CompactionThreshold t) (L0CompactionFileThreshold t)
    (L0StopWritesThreshold t) (LBaseMaxBytes t) (MaxConcurrentCompactions t)
    (MaxManifestFileSize t) (MemTableSize t) (MemTableStopWritesThreshold t)
    (WALDir t) (WALFailover t) (Filters t) (Levels t) (FS t)
    (BlockPropertyCollectors t).

Definition setOptions_Cache {Float : Type} (v : option Z)
  (t : Options Float) : Options Float :=
  mkOptions
    (BytesPerSync t) v (Cleaner t) (Comparer t) (DebugCheck t) (DisableWAL t)
    (FlushDelayDeleteRange t) (FlushDelayRangeKey t) (FlushSplitBytes t)
    (FormatMajorVersion t) (Experimental t) (TargetByteDeletionRate t)
    (L0CompactionThreshold t) (L0CompactionFileThreshold t)
    (L0StopWritesThreshold t) (LBaseMaxBytes t) (MaxConcurrentCompactions t)
    (MaxManifestFileSize t) (MemTableSize t) (MemTableStopWritesThreshold t)
    (WALDir t) (WALFailover t) (Filters t) (Levels t) (FS t)
    (BlockPropertyCollectors t).

Definition setOptions_DisableWAL {Float : Type} (v : bool)
  (t : Options Float) : Options Float :=
  mkOptions
    (BytesPerSync t) (Cache t) (Cleaner t) (Comparer t) (DebugCheck t) v
    (FlushDelayDeleteRange t) (FlushDelayRangeKey t) (FlushSplitBytes t)
    (FormatMajorVersion t) (Experimental t) (TargetByteDeletionRate t)
    (L0CompactionThreshold t) (L0CompactionFileThreshold t)
    (L0StopWritesThreshold t) (LBaseMaxBytes t) (MaxConcurrentCompactions t)
    (MaxManifestFileSize t) (MemTableSize t) (MemTableStopWritesThreshold t)
    (WALDir t) (WALFailover t) (Filters t) (Levels t) (FS t)
    (BlockPropertyCollectors t).

Definition setOptions_FlushDelayDeleteRange {Float : Type} (v : Z)
  (t : Options Float) : Options Float :=
  mkOptions
    (BytesPerSync t) (Cache t) (Cleaner t) (Comparer t) (DebugCheck t)
    (DisableWAL t) v (FlushDelayRangeKey t) (FlushSplitBytes t)
    (FormatMajorVersion t) (Experimental t) (TargetByteDeletionRate t)
    (L0CompactionThreshold t) (L0CompactionFileThreshold t)
    (L0StopWritesThreshold t) (LBaseMaxBytes t) (MaxConcurrentCompactions t)
    (MaxManifestFileSize t) (MemTableSize t) (MemTableStopWritesThreshold t)
    (WALDir t) (WALFailover t) (Filters t) (Levels t) (FS t)
    (BlockPropertyCollectors t).

Definition setOptions_FlushDelayRangeKey {Float : Type} (v : Z)
  (t : Options Float) : Options Float :=
  mkOptions
    (BytesPerSync t) (Cache t) (Cleaner t) (Comparer t) (DebugCheck t)
    (DisableWAL t) (FlushDelayDeleteRange t) v (FlushSplitBytes t)
    (FormatMajorVersion t) (Experimental t) (TargetByteDeletionRate t)
    (L0CompactionThreshold t) (L0CompactionFileThreshold t)
    (L0StopWritesThreshold t) (LBaseMaxBytes t) (MaxConcurrentCompactions t)
    (MaxManifestFileSize t) (MemTableSize t) (MemTableStopWritesThreshold t)
    (WALDir t) (WALFailover t) (Filters t) (Levels t) (FS t)
    (BlockPropertyCollectors t).

Definition setOptions_FlushSplitBytes {Float : Type} (v : Z)
  (t : Options Float) : Options Float :=
  mkOptions
    (BytesPerSync t) (Cache t) (Cleaner t) (Comparer t) (DebugCheck t)
    (DisableWAL t) (FlushDelayDeleteRange t) (FlushDelayRangeKey t) v
    (FormatMajorVersion t) (Experimental t) (TargetByteDeletionRate t)
    (L0CompactionThreshold t) (L0CompactionFileThreshold t)
    (L0StopWritesThreshold t) (LBaseMaxBytes t) (MaxConcurrentCompactions t)
    (MaxManifestFileSize t) (MemTableSize t) (MemTableStopWritesThreshold t)
    (WALDir t) (WALFailover t) (Filters t) (Levels t) (FS t)
    (BlockPropertyCollectors t).

Definition setOptions_FormatMajorVersion {Float : Type} (v : Z)
  (t : Options Float) : Options Float :=
  mkOptions
    (BytesPerSync t) (Cache t) (Cleaner t) (Comparer t) (DebugCheck t)
    (DisableWAL t) (FlushDelayDeleteRange t) (FlushDelayRangeKey t)
    (FlushSplitBytes t) v (Experimental t) (TargetByteDeletionRate t)
    (L0CompactionThreshold t) (L0CompactionFileThreshold t)
    (L0StopWritesThreshold t) (LBaseMaxBytes t) (MaxConcurrentCompactions t)
    (MaxManifestFileSize t) (MemTableSize t) (MemTableStopWritesThreshold t)
    (WALDir t) (WALFailover t) (Filters t) (Levels t) (FS t)
    (BlockPropertyCollectors t).

Definition setOptions_Experimental {Float : Type} (v : ExperimentalOptions Float)
  (t : Options Float) : Options Float :=
  mkOptions
    (BytesPerSync t) (Cache t) (Cleaner t) (Comparer t) (DebugCheck t)
    (DisableWAL t) (FlushDelayDeleteRange t) (FlushDelayRangeKey t)
    (FlushSplitBytes t) (FormatMajorVersion t) v (TargetByteDeletionRate t)
    (L0CompactionThreshold t) (L0CompactionFileThreshold t)
    (L0StopWritesThreshold t) (LBaseMaxBytes t) (MaxConcurrentCompactions t)
    (MaxManifestFileSize t) (MemTableSize t) (MemTableStopWritesThreshold t)
    (WALDir t) (WALFailover t) (Filters t) (Levels t) (FS t)
    (BlockPropertyCollectors t).

Definition setOptions_TargetByteDeletionRate {Float : Type} (v : Z)
  (t : Options Float) : Options Float :=
  mkOptions
    (BytesPerSync t) (Cache t) (Cleaner t) (Comparer t) (DebugCheck t)
    (DisableWAL t) (FlushDelayDeleteRange t) (FlushDelayRangeKey t)
    (FlushSplitBytes t) (FormatMajorVersion t) (Experimental t) v
    (L0CompactionThreshold t) (L0CompactionFileThreshold t)
    (L0StopWritesThreshold t) (LBaseMaxBytes t) (MaxConcurrentCompactions t)
    (MaxManifestFileSize t) (MemTableSize t) (MemTableStopWritesThreshold t)
    (WALDir t) (WALFailover t) (Filters t) (Levels t) (FS t)
    (BlockPropertyCollectors t).

Definition setOptions_L0CompactionThreshold {Float : Type} (v : Z)
  (t : Options Float) : Options Float :=
  mkOptions
    (BytesPerSync t) (Cache t) (Cleaner t) (Comparer t) (DebugCheck t)
    (DisableWAL t) (FlushDelayDeleteRange t) (FlushDelayRangeKey t)
    (FlushSplitBytes t) (FormatMajorVersion t) (Experimental t)
    (TargetByteDeletionRate t) v (L0CompactionFileThreshold t)
    (L0StopWritesThreshold t) (LBaseMaxBytes t) (MaxConcurrentCompactions t)
    (MaxManifestFileSize t) (MemTableSize t) (MemTableStopWritesThreshold t)
    (WALDir t) (WALFailover t) (Filters t) (Levels t) (FS t)
    (BlockPropertyCollectors t).

Definition setOptions_L0CompactionFileThreshold {Float : Type} (v : Z)
  (t : Options Float) : Options Float :=
  mkOptions
    (BytesPerSync t) (Cache t) (Cleaner t) (Comparer t) (DebugCheck t)
    (DisableWAL t) (FlushDelayDeleteRange t) (FlushDelayRangeKey t)
    (FlushSplitBytes t) (FormatMajorVersion t) (Experimental t)
    (TargetByteDeletionRate t) (L0CompactionThreshold t) v
    (L0StopWritesThreshold t) (LBaseMaxBytes t) (MaxConcurrentCompactions t)
    (MaxManifestFileSize t) (MemTableSize t) (MemTableStopWritesThreshold t)
    (WALDir t) (WALFailover t) (Filters t) (Levels t) (FS t)
    (BlockPropertyCollectors t).

Definition setOptions_L0StopWritesThreshold {Float : Type} (v : Z)
  (t : Options Float) : Options Float :=
  mkOptions
    (BytesPerSync t) (Cache t) (Cleaner t) (Comparer t) (DebugCheck t)
    (DisableWAL t) (FlushDelayDeleteRange t) (FlushDelayRangeKey t)
    (FlushSplitBytes t) (FormatMajorVersion t) (Experimental t)
    (TargetByteDeletionRate t) (L0CompactionThreshold t)
    (L0CompactionFileThreshold t) v (LBaseMaxBytes t)
    (MaxConcurrentCompactions t) (MaxManifestFileSize t) (MemTableSize t)
    (MemTableStopWritesThreshold t) (WALDir t) (WALFailover t) (Filters t)
    (Levels t) (FS t) (BlockPropertyCollectors t).

Definition setOptions_LBaseMaxBytes {Float : Type} (v : Z)
  (t : Options Float) : Options Float :=
  mkOptions
    (BytesPerSync t) (Cache t) (Cleaner t) (Comparer t) (DebugCheck t)
    (DisableWAL t) (FlushDelayDeleteRange t) (FlushDelayRangeKey t)
    (FlushSplitBytes t) (FormatMajorVersion t) (Experimental t)
    (TargetByteDeletionRate t) (L0CompactionThreshold t)
    (L0CompactionFileThreshold t) (L0StopWritesThreshold t) v
    (MaxConcurrentCompactions t) (MaxManifestFileSize t) (MemTableSize t)
    (MemTableStopWritesThreshold t) (WALDir t) (WALFailover t) (Filters t)
    (Levels t) (FS t) (BlockPropertyCollectors t).

Definition setOptions_MaxConcurrentCompactions {Float : Type} (v : option Z)
  (t : Options Float) : Options Float :=
  mkOptions
    (BytesPerSync t) (Cache t) (Cleaner t) (Comparer t) (DebugCheck t)
    (DisableWAL t) (FlushDelayDeleteRange t) (FlushDelayRangeKey t)
    (FlushSplitBytes t) (FormatMajorVersion t) (Experimental t)
    (TargetByteDeletionRate t) (L0CompactionThreshold t)
    (L0CompactionFileThreshold t) (L0StopWritesThreshold t) (LBaseMaxBytes t)
    v (MaxManifestFileSize t) (MemTableSize t) (MemTableStopWritesThreshold t)
    (WALDir t) (WALFailover t) (Filters t) (Levels t) (FS t)
    (BlockPropertyCollectors t).

Definition setOptions_MaxManifestFileSize {Float : Type} (v : Z)
  (t : Options Float) : Options Float :=
  mkOptions
    (BytesPerSync t) (Cache t) (Cleaner t) (Comparer t) (DebugCheck t)
    (DisableWAL t) (FlushDelayDeleteRange t) (FlushDelayRangeKey t)
    (FlushSplitBytes t) (FormatMajorVersion t) (Experimental t)
    (TargetByteDeletionRate t) (L0CompactionThreshold t)
    (L0CompactionFileThreshold t) (L0StopWritesThreshold t) (LBaseMaxBytes t)
    (MaxConcurrentCompactions t) v (MemTableSize t)
    (MemTableStopWritesThreshold t) (WALDir t) (WALFailover t) (Filters t)
    (Levels t) (FS t) (BlockPropertyCollectors t).

Definition setOptions_MemTableSize {Float : Type} (v : Z)
  (t : Options Float) : Options Float :=
  mkOptions
    (BytesPerSync t) (Cache t) (Cleaner t) (Comparer t) (DebugCheck t)
    (DisableWAL t) (FlushDelayDeleteRange t) (FlushDelayRangeKey t)
    (FlushSplitBytes t) (FormatMajorVersion t) (Experimental t)
    (TargetByteDeletionRate t) (L0CompactionThreshold t)
    (L0CompactionFileThreshold t) (L0StopWritesThreshold t) (LBaseMaxBytes t)
    (MaxConcurrentCompactions t) (MaxManifestFileSize t) v
    (MemTableStopWritesThreshold t) (WALDir t) (WALFailover t) (Filters t)
    (Levels t) (FS t) (BlockPropertyCollectors t).

Definition setOptions_MemTableStopWritesThreshold {Float : Type} (v : Z)
  (t : Options Float) : Options Float :=
  mkOptions
    (BytesPerSync t) (Cache t) (Cleaner t) (Comparer t) (DebugCheck t)
    (DisableWAL t) (FlushDelayDeleteRange t) (FlushDelayRangeKey t)
    (FlushSplitBytes t) (FormatMajorVersion t) (Experimental t)
    (TargetByteDeletionRate t) (L0CompactionThreshold t)
    (L0CompactionFileThreshold t) (L0StopWritesThreshold t) (LBaseMaxBytes t)
    (MaxConcurrentCompactions t) (MaxManifestFileSize t) (MemTableSize t) v
    (WALDir t) (WALFailover t) (Filters t) (Levels t) (FS t)
    (BlockPropertyCollectors t).

Definition setOptions_WALDir {Float : Type} (v : string)
  (t : Options Float) : Options Float :=
  mkOptions
    (BytesPerSync t) (Cache t) (Cleaner t) (Comparer t) (DebugCheck t)
    (DisableWAL t) (FlushDelayDeleteRange t) (FlushDelayRangeKey t)
    (FlushSplitBytes t) (FormatMajorVersion t) (Experimental t)
    (TargetByteDeletionRate t) (L0CompactionThreshold t)
    (L0CompactionFileThreshold t) (L0StopWritesThreshold t) (LBaseMaxBytes t)
    (MaxConcurrentCompactions t) (MaxManifestFileSize t) (MemTableSize t)
    (MemTableStopWritesThreshold t) v (WALFailover t) (Filters t) (Levels t)
    (FS t) (BlockPropertyCollectors t).

Definition setOptions_WALFailover {Float : Type} (v : option WALFailoverOptions)
  (t : Options Float) : Options Float :=
  mkOptions
    (BytesPerSync t) (Cache t) (Cleaner t) (Comparer t) (DebugCheck t)
    (DisableWAL t) (FlushDelayDeleteRange t) (FlushDelayRangeKey t)
    (FlushSplitBytes t) (FormatMajorVersion t) (Experimental t)
    (TargetByteDeletionRate t) (L0CompactionThreshold t)
    (L0CompactionFileThreshold t) (L0StopWritesThreshold t) (LBaseMaxBytes t)
    (MaxConcurrentCompactions t) (MaxManifestFileSize t) (MemTableSize t)
    (MemTableStopWritesThreshold t) (WALDir t) v (Filters t) (Levels t) (FS t)
    (BlockPropertyCollectors t).

Definition setOptions_Filters {Float : Type} (v : gmap string Policy)
  (t : Options Float) : Options Float :=
  mkOptions
    (BytesPerSync t) (Cache t) (Cleaner t) (Comparer t) (DebugCheck t)
    (DisableWAL t) (FlushDelayDeleteRange t) (FlushDelayRangeKey t)
    (FlushSplitBytes t) (FormatMajorVersion t) (Experimental t)
    (TargetByteDeletionRate t) (L0CompactionThreshold t)
    (L0CompactionFileThreshold t) (L0StopWritesThreshold t) (LBaseMaxBytes t)
    (MaxConcurrentCompactions t) (MaxManifestFileSize t) (MemTableSize t)
    (MemTableStopWritesThreshold t) (WALDir t) (WALFailover t) v (Levels t)
    (FS t) (BlockPropertyCollectors t).

Definition setOptions_Levels {Float : Type} (v : list LevelOptions)
  (t : Options Float) : Options Float :=
  mkOptions
    (BytesPerSync t) (Cache t) (Cleaner t) (Comparer t) (DebugCheck t)
    (DisableWAL t) (FlushDelayDeleteRange t) (FlushDelayRangeKey t)
    (FlushSplitBytes t) (FormatMajorVersion t) (Experimental t)
    (TargetByteDeletionRate t) (L0CompactionThreshold t)
    (L0CompactionFileThreshold t) (L0StopWritesThreshold t) (LBaseMaxBytes t)
    (MaxConcurrentCompactions t) (MaxManifestFileSize t) (MemTableSize t)
    (MemTableStopWritesThreshold t) (WALDir t) (WALFailover t) (Filters t) v
    (FS t) (BlockPropertyCollectors t).

Definition setOptions_FS {Float : Type} (v : vfsFS)
  (t : Options Float) : Options Float :=
  mkOptions
    (BytesPerSync t) (Cache t) (Cleaner t) (Comparer t) (DebugCheck t)
    (DisableWAL t) (FlushDelayDeleteRange t) (FlushDelayRangeKey t)
    (FlushSplitBytes t) (FormatMajorVersion t) (Experimental t)
    (TargetByteDeletionRate t) (L0CompactionThreshold t)
    (L0CompactionFileThreshold t) (L0StopWritesThreshold t) (LBaseMaxBytes t)
    (MaxConcurrentCompactions t) (MaxManifestFileSize t) (MemTableSize t)
    (MemTableStopWritesThreshold t) (WALDir t) (WALFailover t) (Filters t)
    (Levels t) v (BlockPropertyCollectors t).

Definition setOptions_BlockPropertyCollectors {Float : Type} (v : list BlockPropertyCollector)
  (t : Options Float) : Options Float :=
  mkOptions
    (BytesPerSync t) (Cache t) (Cleaner t) (Comparer t) (DebugCheck t)
    (DisableWAL t) (FlushDelayDeleteRange t) (FlushDelayRangeKey t)
    (FlushSplitBytes t) (FormatMajorVersion t) (Experimental t)
    (TargetByteDeletionRate t) (L0CompactionThreshold t)
    (L0CompactionFileThreshold t) (L0StopWritesThreshold t) (LBaseMaxBytes t)
    (MaxConcurrentCompactions t) (MaxManifestFileSize t) (MemTableSize t)
    (MemTableStopWritesThreshold t) (WALDir t) (WALFailover t) (Filters t)
    (Levels t) (FS t) v.


(** [TestOptions] *)
Record TestOptions (Float : Type) : Type := mkTestOptions {
  Opts : Options Float;
  Threads : Z;
  RetryPolicy : RetryPolicyKind;
  CustomOpts : list CustomOption;
  useDisk : bool;
  strictFS : bool;
  ingestUsingApply : bool;
  deleteSized : bool;
  replaceSingleDelete : bool;
  initialStatePath : string;
  initialStateDesc : string;
  disableBlockPropertyCollector : bool;
  enableValueBlocks : bool;
  disableValueBlocksForIngestSSTables : bool;
  asyncApplyToDB : bool;
  sharedStorageEnabled : bool;
  sharedStorageFS : option RemoteStorageFS;
  externalStorageEnabled : bool;
  externalStorageFS : option RemoteStorageFS;
  useSharedReplicate : bool;
  secondaryCacheEnabled : bool;
  seedEFOS : Z;
  ioLatencyProbability : Float;
  ioLatencySeed : Z;
  ioLatencyMean : Z;
  ingestSplit : bool;
  useExcise : bool
}.

Arguments mkTestOptions {Float}.
Arguments Opts {Float} _.
Arguments Threads {Float} _.
Arguments RetryPolicy {Float} _.
Arguments CustomOpts {Float} _.
Arguments useDisk {Float} _.
Arguments strictFS {Float} _.
Arguments ingestUsingApply {Float} _.
Arguments deleteSized {Float} _.
Arguments replaceSingleDelete {Float} _.
Arguments initialStatePath {Float} _.
Arguments initialStateDesc {Float} _.
Arguments disableBlockPropertyCollector {Float} _.
Arguments enableValueBlocks {Float} _.
Arguments disableValueBlocksForIngestSSTables {Float} _.
Arguments asyncApplyToDB {Float} _.
Arguments sharedStorageEnabled {Float} _.
Arguments sharedStorageFS {Float} _.
Arguments externalStorageEnabled {Float} _.
Arguments externalStorageFS {Float} _.
Arguments useSharedReplicate {Float} _.
Arguments secondaryCacheEnabled {Float} _.
Arguments seedEFOS {Float} _.
Arguments ioLatencyProbability {Float} _.
Arguments ioLatencySeed {Float} _.
Arguments ioLatencyMean {Float} _.
Arguments ingestSplit {Float} _.
Arguments useExcise {Float} _.

Definition set_Opts {Float : Type} (v : Options Float)
  (t : TestOptions Float) : TestOptions Float :=
  mkTestOptions
    v (Threads t) (RetryPolicy t) (CustomOpts t) (useDisk t) (strictFS t)
    (ingestUsingApply t) (deleteSized t) (replaceSingleDelete t)
    (initialStatePath t) (initialStateDesc t)
    (disableBlockPropertyCollector t) (enableValueBlocks t)
    (disableValueBlocksForIngestSSTables t) (asyncApplyToDB t)
    (sharedStorageEnabled t) (sharedStorageFS t) (externalStorageEnabled t)
    (externalStorageFS t) (useSharedReplicate t) (secondaryCacheEnabled t)
    (seedEFOS t) (ioLatencyProbability t) (ioLatencySeed t) (ioLatencyMean t)
    (ingestSplit t) (useExcise t).

Definition set_Threads {Float : Type} (v : Z)
  (t : TestOptions Float) : TestOptions Float :=
  mkTestOptions
    (Opts t) v (RetryPolicy t) (CustomOpts t) (useDisk t) (strictFS t)
    (ingestUsingApply t) (deleteSized t) (replaceSingleDelete t)
    (initialStatePath t) (initialStateDesc t)
    (disableBlockPropertyCollector t) (enableValueBlocks t)
    (disableValueBlocksForIngestSSTables t) (asyncApplyToDB t)
    (sharedStorageEnabled t) (sharedStorageFS t) (externalStorageEnabled t)
    (externalStorageFS t) (useSharedReplicate t) (secondaryCacheEnabled t)
    (seedEFOS t) (ioLatencyProbability t) (ioLatencySeed t) (ioLatencyMean t)
    (ingestSplit t) (useExcise t).

Definition set_CustomOpts {Float : Type} (v : list CustomOption)
  (t : TestOptions Float) : TestOptions Float :=
  mkTestOptions
    (Opts t) (Threads t) (RetryPolicy t) v (useDisk t) (strictFS t)
    (ingestUsingApply t) (deleteSized t) (replaceSingleDelete t)
    (initialStatePath t) (initialStateDesc t)
    (disableBlockPropertyCollector t) (enableValueBlocks t)
    (disableValueBlocksForIngestSSTables t) (asyncApplyToDB t)
    (sharedStorageEnabled t) (sharedStorageFS t) (externalStorageEnabled t)
    (externalStorageFS t) (useSharedReplicate t) (secondaryCacheEnabled t)
    (seedEFOS t) (ioLatencyProbability t) (ioLatencySeed t) (ioLatencyMean t)
    (ingestSplit t) (useExcise t).

Definition set_useDisk {Float : Type} (v : bool)
  (t : TestOptions Float) : TestOptions Float :=
  mkTestOptions
    (Opts t) (Threads t) (RetryPolicy t) (CustomOpts t) v (strictFS t)
    (ingestUsingApply t) (deleteSized t) (replaceSingleDelete t)
    (initialStatePath t) (initialStateDesc t)
    (disableBlockPropertyCollector t) (enableValueBlocks t)
    (disableValueBlocksForIngestSSTables t) (asyncApplyToDB t)
    (sharedStorageEnabled t) (sharedStorageFS t) (externalStorageEnabled t)
    (externalStorageFS t) (useSharedReplicate t) (secondaryCacheEnabled t)
    (seedEFOS t) (ioLatencyProbability t) (ioLatencySeed t) (ioLatencyMean t)
    (ingestSplit t) (useExcise t).

Definition set_strictFS {Float : Type} (v : bool)
  (t : TestOptions Float) : TestOptions Float :=
  mkTestOptions
    (Opts t) (Threads t) (RetryPolicy t) (CustomOpts t) (useDisk t) v
    (ingestUsingApply t) (deleteSized t) (replaceSingleDelete t)
    (initialStatePath t) (initialStateDesc t)
    (disableBlockPropertyCollector t) (enableValueBlocks t)
    (disableValueBlocksForIngestSSTables t) (asyncApplyToDB t)
    (sharedStorageEnabled t) (sharedStorageFS t) (externalStorageEnabled t)
    (externalStorageFS t) (useSharedReplicate t) (secondaryCacheEnabled t)
    (seedEFOS t) (ioLatencyProbability t) (ioLatencySeed t) (ioLatencyMean t)
    (ingestSplit t) (useExcise t).

Definition set_ingestUsingApply {Float : Type} (v : bool)
  (t : TestOptions Float) : TestOptions Float :=
  mkTestOptions
    (Opts t) (Threads t) (RetryPolicy t) (CustomOpts t) (useDisk t)
    (strictFS t) v (deleteSized t) (replaceSingleDelete t)
    (initialStatePath t) (initialStateDesc t)
    (disableBlockPropertyCollector t) (enableValueBlocks t)
    (disableValueBlocksForIngestSSTables t) (asyncApplyToDB t)
    (sharedStorageEnabled t) (sharedStorageFS t) (externalStorageEnabled t)
    (externalStorageFS t) (useSharedReplicate t) (secondaryCacheEnabled t)
    (seedEFOS t) (ioLatencyProbability t) (ioLatencySeed t) (ioLatencyMean t)
    (ingestSplit t) (useExcise t).

Definition set_deleteSized {Float : Type} (v : bool)
  (t : TestOptions Float) : TestOptions Float :=
  mkTestOptions
    (Opts t) (Threads t) (RetryPolicy t) (CustomOpts t) (useDisk t)
    (strictFS t) (ingestUsingApply t) v (replaceSingleDelete t)
    (initialStatePath t) (initialStateDesc t)
    (disableBlockPropertyCollector t) (enableValueBlocks t)
    (disableValueBlocksForIngestSSTables t) (asyncApplyToDB t)
    (sharedStorageEnabled t) (sharedStorageFS t) (externalStorageEnabled t)
    (externalStorageFS t) (useSharedReplicate t) (secondaryCacheEnabled t)
    (seedEFOS t) (ioLatencyProbability t) (ioLatencySeed t) (ioLatencyMean t)
    (ingestSplit t) (useExcise t).

Definition set_replaceSingleDelete {Float : Type} (v : bool)
  (t : TestOptions Float) : TestOptions Float :=
  mkTestOptions
    (Opts t) (Threads t) (RetryPolicy t) (CustomOpts t) (useDisk t)
    (strictFS t) (ingestUsingApply t) (deleteSized t) v (initialStatePath t)
    (initialStateDesc t) (disableBlockPropertyCollector t)
    (enableValueBlocks t) (disableValueBlocksForIngestSSTables t)
    (asyncApplyToDB t) (sharedStorageEnabled t) (sharedStorageFS t)
    (externalStorageEnabled t) (externalStorageFS t) (useSharedReplicate t)
    (secondaryCacheEnabled t) (seedEFOS t) (ioLatencyProbability t)
    (ioLatencySeed t) (ioLatencyMean t) (ingestSplit t) (useExcise t).

Definition set_initialStatePath {Float : Type} (v : string)
  (t : TestOptions Float) : TestOptions Float :=
  mkTestOptions
    (Opts t) (Threads t) (RetryPolicy t) (CustomOpts t) (useDisk t)
    (strictFS t) (ingestUsingApply t) (deleteSized t) (replaceSingleDelete t)
    v (initialStateDesc t) (disableBlockPropertyCollector t)
    (enableValueBlocks t) (disableValueBlocksForIngestSSTables t)
    (asyncApplyToDB t) (sharedStorageEnabled t) (sharedStorageFS t)
    (externalStorageEnabled t) (externalStorageFS t) (useSharedReplicate t)
    (secondaryCacheEnabled t) (seedEFOS t) (ioLatencyProbability t)
    (ioLatencySeed t) (ioLatencyMean t) (ingestSplit t) (useExcise t).

Definition set_initialStateDesc {Float : Type} (v : string)
  (t : TestOptions Float) : TestOptions Float :=
  mkTestOptions
    (Opts t) (Threads t) (RetryPolicy t) (CustomOpts t) (useDisk t)
    (strictFS t) (ingestUsingApply t) (deleteSized t) (replaceSingleDelete t)
    (initialStatePath t) v (disableBlockPropertyCollector t)
    (enableValueBlocks t) (disableValueBlocksForIngestSSTables t)
    (asyncApplyToDB t) (sharedStorageEnabled t) (sharedStorageFS t)
    (externalStorageEnabled t) (externalStorageFS t) (useSharedReplicate t)
    (secondaryCacheEnabled t) (seedEFOS t) (ioLatencyProbability t)
    (ioLatencySeed t) (ioLatencyMean t) (ingestSplit t) (useExcise t).

Definition set_disableBlockPropertyCollector {Float : Type} (v : bool)
  (t : TestOptions Float) : TestOptions Float :=
  mkTestOptions
    (Opts t) (Threads t) (RetryPolicy t) (CustomOpts t) (useDisk t)
    (strictFS t) (ingestUsingApply t) (deleteSized t) (replaceSingleDelete t)
    (initialStatePath t) (initialStateDesc t) v (enableValueBlocks t)
    (disableValueBlocksForIngestSSTables t) (asyncApplyToDB t)
    (sharedStorageEnabled t) (sharedStorageFS t) (externalStorageEnabled t)
    (externalStorageFS t) (useSharedReplicate t) (secondaryCacheEnabled t)
    (seedEFOS t) (ioLatencyProbability t) (ioLatencySeed t) (ioLatencyMean t)
    (ingestSplit t) (useExcise t).

Definition set_enableValueBlocks {Float : Type} (v : bool)
  (t : TestOptions Float) : TestOptions Float :=
  mkTestOptions
    (Opts t) (Threads t) (RetryPolicy t) (CustomOpts t) (useDisk t)
    (strictFS t) (ingestUsingApply t) (deleteSized t) (replaceSingleDelete t)
    (initialStatePath t) (initialStateDesc t)
    (disableBlockPropertyCollector t) v
    (disableValueBlocksForIngestSSTables t) (asyncApplyToDB t)
    (sharedStorageEnabled t) (sharedStorageFS t) (externalStorageEnabled t)
    (externalStorageFS t) (useSharedReplicate t) (secondaryCacheEnabled t)
    (seedEFOS t) (ioLatencyProbability t) (ioLatencySeed t) (ioLatencyMean t)
    (ingestSplit t) (useExcise t).

Definition set_disableValueBlocksForIngestSSTables {Float : Type} (v : bool)
  (t : TestOptions Float) : TestOptions Float :=
  mkTestOptions
    (Opts t) (Threads t) (RetryPolicy t) (CustomOpts t) (useDisk t)
    (strictFS t) (ingestUsingApply t) (deleteSized t) (replaceSingleDelete t)
    (initialStatePath t) (initialStateDesc t)
    (disableBlockPropertyCollector t) (enableValueBlocks t) v
    (asyncApplyToDB t) (sharedStorageEnabled t) (sharedStorageFS t)
    (externalStorageEnabled t) (externalStorageFS t) (useSharedReplicate t)
    (secondaryCacheEnabled t) (seedEFOS t) (ioLatencyProbability t)
    (ioLatencySeed t) (ioLatencyMean t) (ingestSplit t) (useExcise t).

Definition set_asyncApplyToDB {Float : Type} (v : bool)
  (t : TestOptions Float) : TestOptions Float :=
  mkTestOptions
    (Opts t) (Threads t) (RetryPolicy t) (CustomOpts t) (useDisk t)
    (strictFS t) (ingestUsingApply t) (deleteSized t) (replaceSingleDelete t)
    (initialStatePath t) (initialStateDesc t)
    (disableBlockPropertyCollector t) (enableValueBlocks t)
    (disableValueBlocksForIngestSSTables t) v (sharedStorageEnabled t)
    (sharedStorageFS t) (externalStorageEnabled t) (externalStorageFS t)
    (useSharedReplicate t) (secondaryCacheEnabled t) (seedEFOS t)
    (ioLatencyProbability t) (ioLatencySeed t) (ioLatencyMean t)
    (ingestSplit t) (useExcise t).

Definition set_sharedStorageEnabled {Float : Type} (v : bool)
  (t : TestOptions Float) : TestOptions Float :=
  mkTestOptions
    (Opts t) (Threads t) (RetryPolicy t) (CustomOpts t) (useDisk t)
    (strictFS t) (ingestUsingApply t) (deleteSized t) (replaceSingleDelete t)
    (initialStatePath t) (initialStateDesc t)
    (disableBlockPropertyCollector t) (enableValueBlocks t)
    (disableValueBlocksForIngestSSTables t) (asyncApplyToDB t) v
    (sharedStorageFS t) (externalStorageEnabled t) (externalStorageFS t)
    (useSharedReplicate t) (secondaryCacheEnabled t) (seedEFOS t)
    (ioLatencyProbability t) (ioLatencySeed t) (ioLatencyMean t)
    (ingestSplit t) (useExcise t).

Definition set_sharedStorageFS {Float : Type} (v : option RemoteStorageFS)
  (t : TestOptions Float) : TestOptions Float :=
  mkTestOptions
    (Opts t) (Threads t) (RetryPolicy t) (CustomOpts t) (useDisk t)
    (strictFS t) (ingestUsingApply t) (deleteSized t) (replaceSingleDelete t)
    (initialStatePath t) (initialStateDesc t)
    (disableBlockPropertyCollector t) (enableValueBlocks t)
    (disableValueBlocksForIngestSSTables t) (asyncApplyToDB t)
    (sharedStorageEnabled t) v (externalStorageEnabled t)
    (externalStorageFS t) (useSharedReplicate t) (secondaryCacheEnabled t)
    (seedEFOS t) (ioLatencyProbability t) (ioLatencySeed t) (ioLatencyMean t)
    (ingestSplit t) (useExcise t).

Definition set_externalStorageEnabled {Float : Type} (v : bool)
  (t : TestOptions Float) : TestOptions Float :=
  mkTestOptions
    (Opts t) (Threads t) (RetryPolicy t) (CustomOpts t) (useDisk t)
    (strictFS t) (ingestUsingApply t) (deleteSized t) (replaceSingleDelete t)
    (initialStatePath t) (initialStateDesc t)
    (disableBlockPropertyCollector t) (enableValueBlocks t)
    (disableValueBlocksForIngestSSTables t) (asyncApplyToDB t)
    (sharedStorageEnabled t) (sharedStorageFS t) v (externalStorageFS t)
    (useSharedReplicate t) (secondaryCacheEnabled t) (seedEFOS t)
    (ioLatencyProbability t) (ioLatencySeed t) (ioLatencyMean t)
    (ingestSplit t) (useExcise t).

Definition set_externalStorageFS {Float : Type} (v : option RemoteStorageFS)
  (t : TestOptions Float) : TestOptions Float :=
  mkTestOptions
    (Opts t) (Threads t) (RetryPolicy t) (CustomOpts t) (useDisk t)
    (strictFS t) (ingestUsingApply t) (deleteSized t) (replaceSingleDelete t)
    (initialStatePath t) (initialStateDesc t)
    (disableBlockPropertyCollector t) (enableValueBlocks t)
    (disableValueBlocksForIngestSSTables t) (asyncApplyToDB t)
    (sharedStorageEnabled t) (sharedStorageFS t) (externalStorageEnabled t) v
    (useSharedReplicate t) (secondaryCacheEnabled t) (seedEFOS t)
    (ioLatencyProbability t) (ioLatencySeed t) (ioLatencyMean t)
    (ingestSplit t) (useExcise t).

Definition set_useSharedReplicate {Float : Type} (v : bool)
  (t : TestOptions Float) : TestOptions Float :=
  mkTestOptions
    (Opts t) (Threads t) (RetryPolicy t) (CustomOpts t) (useDisk t)
    (strictFS t) (ingestUsingApply t) (deleteSized t) (replaceSingleDelete t)
    (initialStatePath t) (initialStateDesc t)
    (disableBlockPropertyCollector t) (enableValueBlocks t)
    (disableValueBlocksForIngestSSTables t) (asyncApplyToDB t)
    (sharedStorageEnabled t) (sharedStorageFS t) (externalStorageEnabled t)
    (externalStorageFS t) v (secondaryCacheEnabled t) (seedEFOS t)
    (ioLatencyProbability t) (ioLatencySeed t) (ioLatencyMean t)
    (ingestSplit t) (useExcise t).

Definition set_secondaryCacheEnabled {Float : Type} (v : bool)
  (t : TestOptions Float) : TestOptions Float :=
  mkTestOptions
    (Opts t) (Threads t) (RetryPolicy t) (CustomOpts t) (useDisk t)
    (strictFS t) (ingestUsingApply t) (deleteSized t) (replaceSingleDelete t)
    (initialStatePath t) (initialStateDesc t)
    (disableBlockPropertyCollector t) (enableValueBlocks t)
    (disableValueBlocksForIngestSSTables t) (asyncApplyToDB t)
    (sharedStorageEnabled t) (sharedStorageFS t) (externalStorageEnabled t)
    (externalStorageFS t) (useSharedReplicate t) v (seedEFOS t)
    (ioLatencyProbability t) (ioLatencySeed t) (ioLatencyMean t)
    (ingestSplit t) (useExcise t).

Definition set_seedEFOS {Float : Type} (v : Z)
  (t : TestOptions Float) : TestOptions Float :=
  mkTestOptions
    (Opts t) (Threads t) (RetryPolicy t) (CustomOpts t) (useDisk t)
    (strictFS t) (ingestUsingApply t) (deleteSized t) (replaceSingleDelete t)
    (initialStatePath t) (initialStateDesc t)
    (disableBlockPropertyCollector t) (enableValueBlocks t)
    (disableValueBlocksForIngestSSTables t) (asyncApplyToDB t)
    (sharedStorageEnabled t) (sharedStorageFS t) (externalStorageEnabled t)
    (externalStorageFS t) (useSharedReplicate t) (secondaryCacheEnabled t) v
    (ioLatencyProbability t) (ioLatencySeed t) (ioLatencyMean t)
    (ingestSplit t) (useExcise t).

Definition set_ioLatencyProbability {Float : Type} (v : Float)
  (t : TestOptions Float) : TestOptions Float :=
  mkTestOptions
    (Opts t) (Threads t) (RetryPolicy t) (CustomOpts t) (useDisk t)
    (strictFS t) (ingestUsingApply t) (deleteSized t) (replaceSingleDelete t)
    (initialStatePath t) (initialStateDesc t)
    (disableBlockPropertyCollector t) (enableValueBlocks t)
    (disableValueBlocksForIngestSSTables t) (asyncApplyToDB t)
    (sharedStorageEnabled t) (sharedStorageFS t) (externalStorageEnabled t)
    (externalStorageFS t) (useSharedReplicate t) (secondaryCacheEnabled t)
    (seedEFOS t) v (ioLatencySeed t) (ioLatencyMean t) (ingestSplit t)
    (useExcise t).

Definition set_ioLatencySeed {Float : Type} (v : Z)
  (t : TestOptions Float) : TestOptions Float :=
  mkTestOptions
    (Opts t) (Threads t) (RetryPolicy t) (CustomOpts t) (useDisk t)
    (strictFS t) (ingestUsingApply t) (deleteSized t) (replaceSingleDelete t)
    (initialStatePath t) (initialStateDesc t)
    (disableBlockPropertyCollector t) (enableValueBlocks t)
    (disableValueBlocksForIngestSSTables t) (asyncApplyToDB t)
    (sharedStorageEnabled t) (sharedStorageFS t) (externalStorageEnabled t)
    (externalStorageFS t) (useSharedReplicate t) (secondaryCacheEnabled t)
    (seedEFOS t) (ioLatencyProbability t) v (ioLatencyMean t) (ingestSplit t)
    (useExcise t).

Definition set_ioLatencyMean {Float : Type} (v : Z)
  (t : TestOptions Float) : TestOptions Float :=
  mkTestOptions
    (Opts t) (Threads t) (RetryPolicy t) (CustomOpts t) (useDisk t)
    (strictFS t) (ingestUsingApply t) (deleteSized t) (replaceSingleDelete t)
    (initialStatePath t) (initialStateDesc t)
    (disableBlockPropertyCollector t) (enableValueBlocks t)
    (disableValueBlocksForIngestSSTables t) (asyncApplyToDB t)
    (sharedStorageEnabled t) (sharedStorageFS t) (externalStorageEnabled t)
    (externalStorageFS t) (useSharedReplicate t) (secondaryCacheEnabled t)
    (seedEFOS t) (ioLatencyProbability t) (ioLatencySeed t) v (ingestSplit t)
    (useExcise t).

Definition set_ingestSplit {Float : Type} (v : bool)
  (t : TestOptions Float) : TestOptions Float :=
  mkTestOptions
    (Opts t) (Threads t) (RetryPolicy t) (CustomOpts t) (useDisk t)
    (strictFS t) (ingestUsingApply t) (deleteSized t) (replaceSingleDelete t)
    (initialStatePath t) (initialStateDesc t)
    (disableBlockPropertyCollector t) (enableValueBlocks t)
    (disableValueBlocksForIngestSSTables t) (asyncApplyToDB t)
    (sharedStorageEnabled t) (sharedStorageFS t) (externalStorageEnabled t)
    (externalStorageFS t) (useSharedReplicate t) (secondaryCacheEnabled t)
    (seedEFOS t) (ioLatencyProbability t) (ioLatencySeed t) (ioLatencyMean t)
    v (useExcise t).

Definition set_useExcise {Float : Type} (v : bool)
  (t : TestOptions Float) : TestOptions Float :=
  mkTestOptions
    (Opts t) (Threads t) (RetryPolicy t) (CustomOpts t) (useDisk t)
    (strictFS t) (ingestUsingApply t) (deleteSized t) (replaceSingleDelete t)
    (initialStatePath t) (initialStateDesc t)
    (disableBlockPropertyCollector t) (enableValueBlocks t)
    (disableValueBlocksForIngestSSTables t) (asyncApplyToDB t)
    (sharedStorageEnabled t) (sharedStorageFS t) (externalStorageEnabled t)
    (externalStorageFS t) (useSharedReplicate t) (secondaryCacheEnabled t)
    (seedEFOS t) (ioLatencyProbability t) (ioLatencySeed t) (ioLatencyMean t)
    (ingestSplit t) v.


(** *** What the packages of Go and of the engine do for [options.go] *)

(** The arithmetic on [float64], and how [fmt] and [strconv] write and read
    one: kept abstract. *)
Record Float64Ops (Float : Type) : Type := mkFloat64Ops {
  fzero : Float;
  fpositive : Float -> bool;
  fratio : Z -> Z -> Float;
  fadd : Float -> Float -> Float;
  fsub : Float -> Float -> Float;
  fmul : Float -> Float -> Float;
  fofInt : Z -> Float;
  fRound : Float -> Float;
  ftoInt : Float -> Z;
  FormatFloat : Float -> string;
  ParseFloat : string -> option Float
}.

Arguments fzero {Float} _.
Arguments fpositive {Float} _ _.
Arguments fratio {Float} _ _ _.
Arguments fadd {Float} _ _ _.
Arguments fsub {Float} _ _ _.
Arguments fmul {Float} _ _ _.
Arguments fofInt {Float} _ _.
Arguments fRound {Float} _ _.
Arguments ftoInt {Float} _ _.
Arguments FormatFloat {Float} _ _.
Arguments ParseFloat {Float} _ _.

(** [time.Duration.String] and [time.ParseDuration]. *)
Record TimeOps : Type := mkTimeOps {
  DurationString : Z -> string;
  ParseDuration : string -> option Z
}.

(** The hooks that [parseOptions] hands to [pebble.Options.Parse].  A hook
    that panics gives [None]. *)
Record ParseHooks (Float : Type) : Type := mkParseHooks {
  NewFilterPolicy : string -> error + option Policy;
  SkipUnknown :
    string -> string -> TestOptions Float -> option (TestOptions Float * bool)
}.

Arguments mkParseHooks {Float} _ _.
Arguments NewFilterPolicy {Float} _ _.
Arguments SkipUnknown {Float} _ _ _ _.

(** The engine: its format major versions, [Options.String],
    [Options.Parse] and [Options.EnsureDefaults].  [Parse] works on the
    options of the test and may call the hooks, which work on the test
    options around them; it returns its error, or [None] when a hook
    panics. *)
Record Pebble (Float : Type) : Type := mkPebble {
  FormatMinSupported : Z;
  FormatNewest : Z;
  FormatMinForSharedObjects : Z;
  FormatSyntheticPrefixSuffix : Z;
  FormatVirtualSSTables : Z;
  OptionsString : Options Float -> string;
  Parse :
    ParseHooks Float -> string -> TestOptions Float ->
    option (TestOptions Float * option error);
  EnsureDefaults : Options Float -> Options Float
}.

Arguments FormatMinSupported {Float} _.
Arguments FormatNewest {Float} _.
Arguments FormatMinForSharedObjects {Float} _.
Arguments FormatSyntheticPrefixSuffix {Float} _.
Arguments FormatVirtualSSTables {Float} _.
Arguments OptionsString {Float} _ _.
Arguments Parse {Float} _ _ _ _.
Arguments EnsureDefaults {Float} _ _.

(** [strings.TrimPrefix] *)
Definition TrimPrefix (s prefix : string) : string :=
  match Fmt.literal prefix s with
  | Some rest => rest
  | None => s
  end.

(** *** Lines that are read back as they are written *)

(** The engine reads a stanza line by line.  A line [key=value] is read
    back as it was written when its key is made of printable bytes other
    than the blank, [=], [#], [;] and the square brackets, and is not
    empty, and its value is made of printable bytes and blanks, with no
    blank at either end. *)
Definition isKeyByte (c : Ascii.ascii) : bool :=
  let n := Ascii.nat_of_ascii c in
  ((33 <=? n) && (n <=? 126)
   && negb ((n =? 61) || (n =? 35) || (n =? 59) || (n =? 91) || (n =? 93)))%nat.

Definition isValueByte (c : Ascii.ascii) : bool :=
  let n := Ascii.nat_of_ascii c in ((32 <=? n) && (n <=? 126))%nat.

Definition isBlank (c : Ascii.ascii) : bool :=
  (Ascii.nat_of_ascii c =? 32)%nat.

Fixpoint lastByte (c : Ascii.ascii) (r : string) : Ascii.ascii :=
  match r with
  | EmptyString => c
  | String c' r' => lastByte c' r'
  end.

Definition plainKey (s : string) : bool :=
  negb (String.eqb s "") && Strconv.allb isKeyByte s.

Definition plainValue (s : string) : bool :=
  Strconv.allb isValueByte s
  && match s with
     | EmptyString => true
     | String c r => negb (isBlank c) && negb (isBlank (lastByte c r))
     end.

Definition plainLine (kv : string * string) : bool :=
  plainKey (fst kv) && plainValue (snd kv).

Section TestOptions.
Context {Float : Type} (float : Float64Ops Float) (time : TimeOps).
Context (pebble : Pebble Float).

Definition minimumFormatMajorVersion : Z := FormatMinSupported pebble.
Definition defaultFormatMajorVersion : Z := FormatMinSupported pebble.
Definition newestFormatMajorVersionToTest : Z := FormatNewest pebble.

(** [opts.Opts.f = v] and [opts.Opts.Experimental.f = v] *)
Definition onOpts (f : Options Float -> Options Float)
  (opts : TestOptions Float) : TestOptions Float :=
  set_Opts (f (Opts opts)) opts.

Definition onExperimental
  (f : ExperimentalOptions Float -> ExperimentalOptions Float)
  (opts : TestOptions Float) : TestOptions Float :=
  onOpts (fun o => setOptions_Experimental (f (Experimental o)) o) opts.

(** [InitRemoteStorageFactory]: [remote.MakeSimpleFactory(m)] is the map
    [m]. *)
Definition InitRemoteStorageFactory (testOpts : TestOptions Float)
  : TestOptions Float :=
  if sharedStorageEnabled testOpts || externalStorageEnabled testOpts then
    let m : gmap string (option RemoteStorageFS) := ∅ in
    let m :=
      if sharedStorageEnabled testOpts
      then <[""%string := sharedStorageFS testOpts]> m else m in
    let m :=
      if externalStorageEnabled testOpts
      then <["external"%string := externalStorageFS testOpts]> m else m in
    onExperimental (setExperimental_RemoteStorage (Some m)) testOpts
  else testOpts.

(** The function that [parseOptions] stores in [hooks.SkipUnknown]. *)
Definition skipUnknown
  (customOptionParsers : option (gmap string (string -> option CustomOption)))
  (name value : string) (opts : TestOptions Float)
  : option (TestOptions Float * bool) :=
  if String.eqb name "TestOptions" then Some (opts, true)
  else if String.eqb name "TestOptions.strictfs" then
    Some (onOpts (setOptions_FS StrictMemFS) (set_strictFS true opts), true)
  else if String.eqb name "TestOptions.ingest_using_apply" then
    Some (set_ingestUsingApply true opts, true)
  else if String.eqb name "TestOptions.delete_sized" then
    Some (set_deleteSized true opts, true)
  else if String.eqb name "TestOptions.replace_single_delete" then
    Some (set_replaceSingleDelete true opts, true)
  else if String.eqb name "TestOptions.use_disk" then
    Some (onOpts (setOptions_FS DefaultFS) (set_useDisk true opts), true)
  else if String.eqb name "TestOptions.initial_state_desc" then
    Some (set_initialStateDesc value opts, true)
  else if String.eqb name "TestOptions.initial_state_path" then
    Some (set_initialStatePath value opts, true)
  else if String.eqb name "TestOptions.threads" then
    match Strconv.ParseInt value with
    | None => None
    | Some v => Some (set_Threads v opts, true)
    end
  else if String.eqb name "TestOptions.disable_block_property_collector" then
    match Strconv.ParseBool value with
    | None => None
    | Some v =>
        let opts := set_disableBlockPropertyCollector v opts in
        Some (if v then onOpts (setOptions_BlockPropertyCollectors []) opts
              else opts, true)
    end
  else if String.eqb name "TestOptions.enable_value_blocks" then
    Some (onExperimental (setExperimental_EnableValueBlocks (Some true))
            (set_enableValueBlocks true opts), true)
  else if String.eqb name "TestOptions.disable_value_blocks_for_ingest_sstables"
  then Some (set_disableValueBlocksForIngestSSTables true opts, true)
  else if String.eqb name "TestOptions.async_apply_to_db" then
    Some (set_asyncApplyToDB true opts, true)
  else if String.eqb name "TestOptions.shared_storage_enabled" then
    let opts :=
      set_sharedStorageFS (Some InMemStorage)
        (set_sharedStorageEnabled true opts) in
    Some (match CreateOnShared (Experimental (Opts opts)) with
          | CreateOnSharedNone =>
              onExperimental (setExperimental_CreateOnShared CreateOnSharedAll)
                opts
          | _ => opts
          end, true)
  else if String.eqb name "TestOptions.external_storage_enabled" then
    Some (set_externalStorageFS (Some InMemStorage)
            (set_externalStorageEnabled true opts), true)
  else if String.eqb name "TestOptions.secondary_cache_enabled" then
    Some (onExperimental
            (setExperimental_SecondaryCacheSizeBytes (1024 * 1024 * 32))
            (set_secondaryCacheEnabled true opts), true)
  else if String.eqb name "TestOptions.seed_efos" then
    match Strconv.ParseUint value with
    | None => None
    | Some v => Some (set_seedEFOS v opts, true)
    end
  else if String.eqb name "TestOptions.io_latency_mean" then
    match ParseDuration time value with
    | None => None
    | Some v => Some (set_ioLatencyMean v opts, true)
    end
  else if String.eqb name "TestOptions.io_latency_probability" then
    match ParseFloat float value with
    | None => None
    | Some v => Some (set_ioLatencyProbability v opts, true)
    end
  else if String.eqb name "TestOptions.io_latency_seed" then
    match Strconv.ParseInt value with
    | None => None
    | Some v => Some (set_ioLatencySeed v opts, true)
    end
  else if String.eqb name "TestOptions.ingest_split" then
    Some (onExperimental (setExperimental_IngestSplit (Some ReturnsTrue))
            (set_ingestSplit true opts), true)
  else if String.eqb name "TestOptions.use_shared_replicate" then
    Some (set_useSharedReplicate true opts, true)
  else if String.eqb name "TestOptions.use_excise" then
    Some (set_useExcise true opts, true)
  else
    match customOptionParsers with
    | None => Some (opts, false)
    | Some parsers =>
        let name := TrimPrefix name "TestOptions." in
        match parsers !! name with
        | Some p =>
            match p value with
            | Some customOpt =>
                Some (set_CustomOpts (CustomOpts opts ++ [customOpt]) opts, true)
            | None => Some (opts, false)
            end
        | None => Some (opts, false)
        end
    end.

(** [parseOptions]: the error of [Parse] is returned after the lines that
    follow the call; a panic of a hook ends the function. *)
Definition parseOptions (opts : TestOptions Float) (data : string)
  (customOptionParsers : option (gmap string (string -> option CustomOption)))
  : option (TestOptions Float * option error) :=
  let hooks :=
    {| NewFilterPolicy := filterPolicyFromName;
       SkipUnknown := skipUnknown customOptionParsers |} in
  match Parse pebble hooks data opts with
  | None => None
  | Some (opts, err) =>
      let opts :=
        match WALFailover (Opts opts) with
        | Some w =>
            onOpts
              (setOptions_WALFailover
                 (Some {| Secondary :=
                            {| DirFS := FS (Opts opts);
                               Dirname := Dirname (Secondary w) |};
                          Failover := Failover w |})) opts
        | None => opts
        end in
      let opts := InitRemoteStorageFactory opts in
      let opts := onOpts (EnsureDefaults pebble) opts in
      Some (opts, err)
  end.

(** The lines that [optionsToString] writes in the stanza of the test
    options, each a key and a value. *)
Definition flagLine (set : bool) (key : string) : list (string * string) :=
  if set then [(key, Strconv.FormatBool set)] else [].

Definition testOptionsLines (opts : TestOptions Float)
  : list (string * string) :=
  (if strictFS opts then [("strictfs", "true")] else [])
  ++ (if ingestUsingApply opts then [("ingest_using_apply", "true")] else [])
  ++ (if deleteSized opts then [("delete_sized", "true")] else [])
  ++ (if replaceSingleDelete opts
      then [("replace_single_delete", "true")] else [])
  ++ (if useDisk opts then [("use_disk", "true")] else [])
  ++ (if negb (String.eqb (initialStatePath opts) "")
      then [("initial_state_path", initialStatePath opts)] else [])
  ++ (if negb (String.eqb (initialStateDesc opts) "")
      then [("initial_state_desc", initialStateDesc opts)] else [])
  ++ (if negb (Threads opts =? 0)
      then [("threads", Strconv.FormatInt (Threads opts))] else [])
  ++ flagLine (disableBlockPropertyCollector opts)
       "disable_block_property_collector"
  ++ flagLine (enableValueBlocks opts) "enable_value_blocks"
  ++ flagLine (disableValueBlocksForIngestSSTables opts)
       "disable_value_blocks_for_ingest_sstables"
  ++ (if asyncApplyToDB opts then [("async_apply_to_db", "true")] else [])
  ++ (if sharedStorageEnabled opts
      then [("shared_storage_enabled", "true")] else [])
  ++ (if externalStorageEnabled opts
      then [("external_storage_enabled", "true")] else [])
  ++ (if secondaryCacheEnabled opts
      then [("secondary_cache_enabled", "true")] else [])
  ++ (if negb (seedEFOS opts =? 0)
      then [("seed_efos", Strconv.FormatInt (seedEFOS opts))] else [])
  ++ flagLine (ingestSplit opts) "ingest_split"
  ++ (if fpositive float (ioLatencyProbability opts)
      then [("io_latency_mean", DurationString time (ioLatencyMean opts));
            ("io_latency_probability",
             FormatFloat float (ioLatencyProbability opts));
            ("io_latency_seed", Strconv.FormatInt (ioLatencySeed opts))]
      else [])
  ++ flagLine (useSharedReplicate opts) "use_shared_replicate"
  ++ flagLine (useExcise opts) "use_excise"
  ++ map (fun customOpt => (Name customOpt, Value customOpt))
       (CustomOpts opts).

(** A line as it is written: ["  key=value\n"]. *)
Definition renderLine (kv : string * string) : string :=
  ("  " ++ fst kv ++ "=" ++ snd kv ++ newline)%string.

(** The text [s] of the options of the engine with the stanza of the
    lines after it, when there is a line. *)
Definition withStanza (s : string) (lines : list (string * string))
  : string :=
  let buf := String.concat "" (map renderLine lines) in
  if String.eqb buf "" then s
  else (s ++ newline ++ "[TestOptions]" ++ newline ++ buf)%string.

Definition optionsToString (opts : TestOptions Float) : string :=
  withStanza (OptionsString pebble (Opts opts)) (testOptionsLines opts).

(** The texts of the test options are such that their lines are read back
    as they are written. *)
Definition plainTexts (opts : TestOptions Float) : Prop :=
  plainValue (initialStatePath opts) = true
  /\ plainValue (initialStateDesc opts) = true
  /\ Forall (fun customOpt =>
               plainKey (Name customOpt) = true
               /\ plainValue (Value customOpt) = true) (CustomOpts opts).

(** The zero values of the structures. *)
Definition zeroExperimental : ExperimentalOptions Float :=
  {| L0CompactionConcurrency := 0; LevelMultiplier := 0;
     ValidateOnIngest := false; MaxWriterConcurrency := 0;
     ForceWriterParallelism := false; DisableIngestAsFlushable := None;
     MultiLevelCompactionHeuristic := None; EnableValueBlocks := None;
     CreateOnShared := CreateOnSharedNone; SecondaryCacheSizeBytes := 0;
     IngestSplit := None; RemoteStorage := None |}.

Definition zeroLevelOptions : LevelOptions :=
  {| BlockRestartInterval := 0; BlockSize := 0; BlockSizeThreshold := 0;
     IndexBlockSize := 0; TargetFileSize := 0; FilterPolicy := None;
     Compression := DefaultCompression |}.

Definition blockPropertyCollectorConstructors : list BlockPropertyCollector :=
  [NewTestKeysBlockPropertyCollector].

Definition defaultOptions : Options Float :=
  {| BytesPerSync := 0; Cache := None;
     Cleaner := Some ArchiveCleaner;
     Comparer := Some testkeysComparer;
     DebugCheck := Some DebugCheckLevels;
     DisableWAL := false; FlushDelayDeleteRange := 0;
     FlushDelayRangeKey := 0; FlushSplitBytes := 0;
     FormatMajorVersion := defaultFormatMajorVersion;
     Experimental := zeroExperimental; TargetByteDeletionRate := 0;
     L0CompactionThreshold := 0; L0CompactionFileThreshold := 0;
     L0StopWritesThreshold := 0; LBaseMaxBytes := 0;
     MaxConcurrentCompactions := None; MaxManifestFileSize := 0;
     MemTableSize := 0; MemTableStopWritesThreshold := 0;
     WALDir := ""; WALFailover := None;
     Filters := ∅;
     Levels :=
       [{| BlockRestartInterval := 0; BlockSize := 0; BlockSizeThreshold := 0;
           IndexBlockSize := 0; TargetFileSize := 0;
           FilterPolicy := Some (BloomFilterPolicy 10);
           Compression := DefaultCompression |}];
     FS := MemFS;
     BlockPropertyCollectors := blockPropertyCollectorConstructors |}.

Definition defaultTestOptions : TestOptions Float :=
  {| Opts := defaultOptions; Threads := 16; RetryPolicy := NeverRetry;
     CustomOpts := []; useDisk := false; strictFS := false;
     ingestUsingApply := false; deleteSized := false;
     replaceSingleDelete := false; initialStatePath := "";
     initialStateDesc := ""; disableBlockPropertyCollector := false;
     enableValueBlocks := false;
     disableValueBlocksForIngestSSTables := false;
     asyncApplyToDB := false; sharedStorageEnabled := false;
     sharedStorageFS := None; externalStorageEnabled := false;
     externalStorageFS := None; useSharedReplicate := false;
     secondaryCacheEnabled := false; seedEFOS := 0;
     ioLatencyProbability := fzero float; ioLatencySeed := 0;
     ioLatencyMean := 0; ingestSplit := false; useExcise := false |}.

(** The stanza read back: the lines are handed to the hook one after the
    other, each under the name of its key in the stanza, as
    [Options.Parse] hands over what it does not know.  [None] is a panic;
    the flag tells whether the hook took every line. *)
Fixpoint readBack
  (customOptionParsers : option (gmap string (string -> option CustomOption)))
  (lines : list (string * string)) (opts : TestOptions Float)
  : option (TestOptions Float * bool) :=
  match lines with
  | [] => Some (opts, true)
  | (key, value) :: rest =>
      match skipUnknown customOptionParsers ("TestOptions." ++ key) value opts with
      | None => None
      | Some (opts', taken) =>
          match readBack customOptionParsers rest opts' with
          | None => None
          | Some (opts'', all) => Some (opts'', taken && all)
          end
      end
  end.

(** The names that the hook knows. *)
Definition builtinNames : list string :=
  ["TestOptions"; "TestOptions.strictfs"; "TestOptions.ingest_using_apply";
   "TestOptions.delete_sized"; "TestOptions.replace_single_delete";
   "TestOptions.use_disk"; "TestOptions.initial_state_desc";
   "TestOptions.initial_state_path"; "TestOptions.threads";
   "TestOptions.disable_block_property_collector";
   "TestOptions.enable_value_blocks";
   "TestOptions.disable_value_blocks_for_ingest_sstables";
   "TestOptions.async_apply_to_db"; "TestOptions.shared_storage_enabled";
   "TestOptions.external_storage_enabled";
   "TestOptions.secondary_cache_enabled"; "TestOptions.seed_efos";
   "TestOptions.io_latency_mean"; "TestOptions.io_latency_probability";
   "TestOptions.io_latency_seed"; "TestOptions.ingest_split";
   "TestOptions.use_shared_replicate"; "TestOptions.use_excise"]%string.

(** A custom option can be read back: its name is not one the hook knows,
    and the parser registered under its name makes the option from its
    value. *)
Definition readable
  (customOptionParsers : option (gmap string (string -> option CustomOption)))
  (customOpt : CustomOption) : Prop :=
  ~ In ("TestOptions." ++ Name customOpt)%string builtinNames
  /\ exists parsers p,
       customOptionParsers = Some parsers
       /\ parsers !! Name customOpt = Some p
       /\ p (Value customOpt) = Some customOpt.

(** The flags that take no value, under the names the hook knows them by. *)
Definition valueLessFlags : list (string * (TestOptions Float -> bool)) :=
  [("TestOptions.strictfs", strictFS);
   ("TestOptions.ingest_using_apply", ingestUsingApply);
   ("TestOptions.delete_sized", deleteSized);
   ("TestOptions.replace_single_delete", replaceSingleDelete);
   ("TestOptions.use_disk", useDisk);
   ("TestOptions.enable_value_blocks", enableValueBlocks);
   ("TestOptions.disable_value_blocks_for_ingest_sstables",
    disableValueBlocksForIngestSSTables);
   ("TestOptions.async_apply_to_db", asyncApplyToDB);
   ("TestOptions.shared_storage_enabled", sharedStorageEnabled);
   ("TestOptions.external_storage_enabled", externalStorageEnabled);
   ("TestOptions.secondary_cache_enabled", secondaryCacheEnabled);
   ("TestOptions.ingest_split", ingestSplit);
   ("TestOptions.use_shared_replicate", useSharedReplicate);
   ("TestOptions.use_excise", useExcise)]%string.

(** The test options that the stanza holds: the threads, the custom
    options, the flags, the two texts of the initial state and the seed.
    [written a b]: they are the same in [a] and [b]. *)
Definition written (a b : TestOptions Float) : Prop :=
  Threads a = Threads b
  /\ CustomOpts a = CustomOpts b
  /\ useDisk a = useDisk b
  /\ strictFS a = strictFS b
  /\ ingestUsingApply a = ingestUsingApply b
  /\ deleteSized a = deleteSized b
  /\ replaceSingleDelete a = replaceSingleDelete b
  /\ initialStatePath a = initialStatePath b
  /\ initialStateDesc a = initialStateDesc b
  /\ disableBlockPropertyCollector a = disableBlockPropertyCollector b
  /\ enableValueBlocks a = enableValueBlocks b
  /\ disableValueBlocksForIngestSSTables a
     = disableValueBlocksForIngestSSTables b
  /\ asyncApplyToDB a = asyncApplyToDB b
  /\ sharedStorageEnabled a = sharedStorageEnabled b
  /\ externalStorageEnabled a = externalStorageEnabled b
  /\ useSharedReplicate a = useSharedReplicate b
  /\ secondaryCacheEnabled a = secondaryCacheEnabled b
  /\ seedEFOS a = seedEFOS b
  /\ ingestSplit a = ingestSplit b
  /\ useExcise a = useExcise b.

(** Test options in which nothing of that is set, but for the threads. *)
Definition unset (a : TestOptions Float) : Prop :=
  CustomOpts a = []
  /\ useDisk a = false
  /\ strictFS a = false
  /\ ingestUsingApply a = false
  /\ deleteSized a = false
  /\ replaceSingleDelete a = false
  /\ initialStatePath a = ""%string
  /\ initialStateDesc a = ""%string
  /\ disableBlockPropertyCollector a = false
  /\ enableValueBlocks a = false
  /\ disableValueBlocksForIngestSSTables a = false
  /\ asyncApplyToDB a = false
  /\ sharedStorageEnabled a = false
  /\ externalStorageEnabled a = false
  /\ useSharedReplicate a = false
  /\ secondaryCacheEnabled a = false
  /\ seedEFOS a = 0
  /\ ingestSplit a = false
  /\ useExcise a = false.

End TestOptions.


(** *** [RandomOptions] *)

(** The methods of [*rand.Rand] that [options.go] calls, each on the state
    of the generator. *)
Record Rand (R Float : Type) : Type := mkRand {
  randIntn : R -> Z -> Z * R;
  randInt63 : R -> Z * R;
  randUint64 : R -> Z * R;
  randFloat64 : R -> Float * R;
  randExpFloat64 : R -> Float * R
}.

Arguments mkRand {R Float} _ _ _ _ _.
Arguments randIntn {R Float} _ _ _.
Arguments randInt63 {R Float} _ _.
Arguments randUint64 {R Float} _ _.
Arguments randFloat64 {R Float} _ _.
Arguments randExpFloat64 {R Float} _ _.

Section RandomOptions.
Context {Float R : Type} (float : Float64Ops Float) (time : TimeOps).
Context (pebble : Pebble Float) (rand : Rand R Float).
(** [runtime.GOMAXPROCS(0)] *)
Context (GOMAXPROCS : Z).

(** [RandomOptions] works on the test options that it has made and on the
    generator; [None] is a panic. *)
Definition Rnd (A : Type) : Type :=
  TestOptions Float -> R -> option (A * TestOptions Float * R).

Definition ret {A : Type} (a : A) : Rnd A :=
  fun testOpts rng => Some (a, testOpts, rng).

Definition bind {A B : Type} (m : Rnd A) (k : A -> Rnd B) : Rnd B :=
  fun testOpts rng =>
    match m testOpts rng with
    | None => None
    | Some (a, testOpts, rng) => k a testOpts rng
    end.

Local Notation "x <- m ;; k" := (bind m (fun x => k))
  (at level 100, m at next level, right associativity).
Local Notation "m ;;; k" := (bind m (fun _ => k))
  (at level 100, right associativity).

Definition get : Rnd (TestOptions Float) :=
  fun testOpts rng => Some (testOpts, testOpts, rng).

Definition modify (f : TestOptions Float -> TestOptions Float) : Rnd unit :=
  fun testOpts rng => Some (tt, f testOpts, rng).

(** [opts.f = v], where [opts] is [testOpts.Opts], and
    [opts.Experimental.f = v] *)
Definition opts (f : Options Float -> Options Float) : Rnd unit :=
  modify (onOpts f).

Definition experimental
  (f : ExperimentalOptions Float -> ExperimentalOptions Float) : Rnd unit :=
  modify (onExperimental f).

Definition when (c : bool) (m : Rnd unit) : Rnd unit :=
  if c then m else ret tt.

(** [rng.Intn(n)] panics when [n <= 0]. *)
Definition Intn (n : Z) : Rnd Z :=
  fun testOpts rng =>
    if n <=? 0 then None
    else let '(v, rng) := randIntn rand rng n in Some (v, testOpts, rng).

Definition Int63 : Rnd Z :=
  fun testOpts rng =>
    let '(v, rng) := randInt63 rand rng in Some (v, testOpts, rng).

Definition Uint64 : Rnd Z :=
  fun testOpts rng =>
    let '(v, rng) := randUint64 rand rng in Some (v, testOpts, rng).

Definition Float64 : Rnd Float :=
  fun testOpts rng =>
    let '(v, rng) := randFloat64 rand rng in Some (v, testOpts, rng).

Definition ExpFloat64 : Rnd Float :=
  fun testOpts rng =>
    let '(v, rng) := randExpFloat64 rand rng in Some (v, testOpts, rng).

Definition expRandDuration (meanDur maxDur : Z) : Rnd Z :=
  x <- ExpFloat64;;
  ret (Z.min maxDur
         (ftoInt float (fRound float (fmul float x (fofInt float meanDur))))).

(** The closure [scaleDuration] of [RandomOptions]. *)
Definition scaleDuration (d : Z) (minFactor maxFactor : Float) : Rnd Z :=
  x <- Float64;;
  ret (ftoInt float
         (fmul float (fofInt float d)
            (fadd float minFactor
               (fmul float x (fsub float maxFactor minFactor))))).

(** What the three draws write into the buffer [privateOpts]. *)
Definition privateOptions (deleteOnly elisionOnly lazyCombined : Z)
  : string :=
  ("[Options]" ++ newline
   ++ (if (deleteOnly =? 0)%Z
       then "  disable_delete_only_compactions=true" ++ newline else "")
   ++ (if (elisionOnly =? 0)%Z
       then "  disable_elision_only_compactions=true" ++ newline else "")
   ++ (if (lazyCombined =? 0)%Z
       then "  disable_lazy_combined_iteration=true" ++ newline else ""))%string.

(** The call of [parseOptions] in [RandomOptions], which drops the error. *)
Definition parsePrivate (data : string)
  (customOptionParsers : option (gmap string (string -> option CustomOption)))
  : Rnd unit :=
  fun testOpts rng =>
    match parseOptions float time pebble testOpts data customOptionParsers with
    | None => None
    | Some (testOpts, _) => Some (tt, testOpts, rng)
    end.

(** [if testOpts.Opts.FormatMajorVersion < v { ... = v }] *)
Definition raiseFormatMajorVersion (v : Z) : Rnd unit :=
  modify (fun testOpts =>
    if FormatMajorVersion (Opts testOpts) <? v
    then onOpts (setOptions_FormatMajorVersion v) testOpts
    else testOpts).

(** The part of [RandomOptions] that enables WAL failover. *)
Definition randomWALFailover : Rnd unit :=
  testOpts <- get;;
  let referenceDur := Millisecond in
  let referenceDur :=
    if useDisk testOpts then referenceDur * 10 else referenceDur in
  unhealthyThreshold <- expRandDuration (3 * referenceDur) Second;;
  healthyThreshold <- expRandDuration (3 * referenceDur) Second;;
  healthyInterval <-
    scaleDuration healthyThreshold (fratio float 1 1) (fratio float 10 1);;
  primaryDirProbeInterval <-
    scaleDuration healthyThreshold
      (fratio float 10 100) (fratio float 50 100);;
  unhealthySamplingInterval <-
    scaleDuration unhealthyThreshold
      (fratio float 10 100) (fratio float 50 100);;
  elevatedWriteStallThresholdLag <-
    expRandDuration (5 * referenceDur) (2 * Second);;
  opts (setOptions_WALFailover
          (Some {| Secondary :=
                     {| DirFS := DefaultFS; Dirname := "data/wal_secondary" |};
                   Failover :=
                     {| PrimaryDirProbeInterval := primaryDirProbeInterval;
                        HealthyProbeLatencyThreshold := healthyThreshold;
                        HealthyInterval := healthyInterval;
                        UnhealthySamplingInterval := unhealthySamplingInterval;
                        UnhealthyOperationLatencyThreshold :=
                          Some (unhealthyThreshold, true);
                        ElevatedWriteStallThresholdLag :=
                          elevatedWriteStallThresholdLag |} |})).

(** The three cases of the multilevel compaction heuristic. *)
Definition randomMultiLevel : Rnd unit :=
  d <- Intn 3;;
  if d =? 0 then
    experimental
      (setExperimental_MultiLevelCompactionHeuristic (Some NoMultiLevel))
  else if d =? 1 then
    experimental
      (setExperimental_MultiLevelCompactionHeuristic
         (Some (WriteAmpHeuristic (fzero float) false)))
  else
    x <- Float64;;
    i <- Intn 3;;
    allowL0 <- Intn 4;;
    experimental
      (setExperimental_MultiLevelCompactionHeuristic
         (Some (WriteAmpHeuristic (fmul float x (fofInt float i))
                  (allowL0 =? 1)))).

(** The level options [lopts], and [opts.Filters = nil] between the
    draws. *)
Definition randomLevels : Rnd unit :=
  blockRestartInterval <- Intn 64;;
  blockSize <- Intn 24;;
  blockSizeThreshold <- Intn 50;;
  indexBlockSize <- Intn 24;;
  targetFileSize <- Intn 28;;
  opts (setOptions_Filters ∅);;;
  d <- Intn 3;;
  filterPolicy <-
    (if d =? 0 then ret None
     else if d =? 1 then ret (Some (BloomFilterPolicy 10))
     else b <- Intn 5;; ret (Some (newTestingFilterPolicy (Z.shiftl 1 b))));;
  d <- Intn 3;;
  let compression :=
    if d =? 0 then NoCompression
    else if d =? 1 then ZstdCompression
    else SnappyCompression in
  opts (setOptions_Levels
          [{| BlockRestartInterval := 1 + blockRestartInterval;
              BlockSize := Z.shiftl 1 blockSize;
              BlockSizeThreshold := 50 + blockSizeThreshold;
              IndexBlockSize := Z.shiftl 1 indexBlockSize;
              TargetFileSize := Z.shiftl 1 targetFileSize;
              FilterPolicy := filterPolicy;
              Compression := compression |}]).

(** The part of [RandomOptions] that enables shared storage. *)
Definition randomSharedStorage : Rnd unit :=
  modify (set_sharedStorageEnabled true);;;
  raiseFormatMajorVersion (FormatMinForSharedObjects pebble);;;
  modify (set_sharedStorageFS (Some InMemStorage));;;
  experimental (setExperimental_CreateOnShared CreateOnSharedAll);;;
  d <- Intn 2;;
  when (d =? 0)
    (experimental (setExperimental_CreateOnShared CreateOnSharedLower));;;
  d <- Intn 2;;
  when (d =? 0)
    (modify (set_secondaryCacheEnabled true);;;
     experimental (setExperimental_SecondaryCacheSizeBytes (1024 * 1024 * 32)));;;
  d <- Intn 2;;
  modify (set_useSharedReplicate (d =? 0)).

Definition randomExternalStorage : Rnd unit :=
  modify (set_externalStorageEnabled true);;;
  raiseFormatMajorVersion (FormatSyntheticPrefixSuffix pebble);;;
  modify (set_externalStorageFS (Some InMemStorage)).

(** [RandomOptions] after [testOpts := defaultTestOptions()], statement by
    statement. *)
Definition randomOptions
  (customOptionParsers : option (gmap string (string -> option CustomOption)))
  : Rnd unit :=
  deleteOnly <- Intn 3;;
  elisionOnly <- Intn 3;;
  lazyCombined <- Intn 5;;
  let privateOptsStr := privateOptions deleteOnly elisionOnly lazyCombined in
  when (negb (String.eqb privateOptsStr "[Options]\n"))
    (parsePrivate privateOptsStr customOptionParsers);;;
  d <- Intn 28;; opts (setOptions_BytesPerSync (Z.shiftl 1 d));;;
  d <- Intn 30;; opts (setOptions_Cache (Some (Z.shiftl 1 d)));;;
  d <- Intn 2;; opts (setOptions_DisableWAL (d =? 0));;;
  d <- Intn 245;;
  opts (setOptions_FlushDelayDeleteRange (Millisecond * (5 * d)));;;
  d <- Intn 245;;
  opts (setOptions_FlushDelayRangeKey (Millisecond * (5 * d)));;;
  d <- Intn 20;; opts (setOptions_FlushSplitBytes (Z.shiftl 1 d));;;
  opts (setOptions_FormatMajorVersion (minimumFormatMajorVersion pebble));;;
  testOpts <- get;;
  let n :=
    newestFormatMajorVersionToTest pebble
    - FormatMajorVersion (Opts testOpts) in
  d <- Intn (n + 1);;
  opts (fun o => setOptions_FormatMajorVersion (FormatMajorVersion o + d) o);;;
  d <- Intn 4;;
  experimental (setExperimental_L0CompactionConcurrency (1 + d));;;
  d <- Intn 7;; experimental (setExperimental_LevelMultiplier (Z.shiftl 5 d));;;
  d <- Intn 10;; opts (setOptions_TargetByteDeletionRate (Z.shiftl 1 (20 + d)));;;
  d <- Intn 2;; experimental (setExperimental_ValidateOnIngest (negb (d =? 0)));;;
  d <- Intn 100;; opts (setOptions_L0CompactionThreshold (1 + d));;;
  d <- Intn 11;; opts (setOptions_L0CompactionFileThreshold (Z.shiftl 1 d));;;
  d <- Intn 100;; opts (setOptions_L0StopWritesThreshold (1 + d));;;
  opts (fun o =>
    if L0StopWritesThreshold o <? L0CompactionThreshold o
    then setOptions_L0StopWritesThreshold (L0CompactionThreshold o) o
    else o);;;
  d <- Intn 30;; opts (setOptions_LBaseMaxBytes (Z.shiftl 1 d));;;
  d <- Intn 3;;
  let maxConcurrentCompactions := d + 1 in
  opts (setOptions_MaxConcurrentCompactions (Some maxConcurrentCompactions));;;
  d <- Intn 30;; opts (setOptions_MaxManifestFileSize (Z.shiftl 1 d));;;
  d <- Intn 16;; opts (setOptions_MemTableSize (Z.shiftl 2 (10 + d)));;;
  d <- Intn 5;; opts (setOptions_MemTableStopWritesThreshold (2 + d));;;
  d <- Intn 2;; when (d =? 0) (opts (setOptions_WALDir "data/wal"));;;
  d <- Intn 2;; when (d =? 0) randomWALFailover;;;
  d <- Intn 4;;
  when (d =? 0)
    (experimental (setExperimental_MaxWriterConcurrency 2);;;
     experimental (setExperimental_ForceWriterParallelism true));;;
  d <- Intn 2;;
  when (d =? 0)
    (experimental (setExperimental_DisableIngestAsFlushable (Some true)));;;
  randomMultiLevel;;;
  randomLevels;;;
  modify (set_useDisk false);;;
  d <- Intn 2;; modify (set_strictFS (negb (d =? 0)));;;
  d <- Intn 2;;
  when (d =? 0)
    (mean <- expRandDuration (3 * Millisecond) Second;;
     modify (set_ioLatencyMean mean);;;
     x <- Float64;;
     modify (set_ioLatencyProbability (fmul float (fratio float 1 100) x));;;
     seed <- Int63;;
     modify (set_ioLatencySeed seed));;;
  d <- Intn GOMAXPROCS;; modify (set_Threads (d + 1));;;
  testOpts <- get;;
  (if strictFS testOpts then
     opts (setOptions_DisableWAL false);;;
     opts (setOptions_FS StrictMemFS)
   else if negb (useDisk testOpts) then opts (setOptions_FS MemFS)
   else ret tt);;;
  opts (fun o =>
    match WALFailover o with
    | Some w =>
        setOptions_WALFailover
          (Some {| Secondary :=
                     {| DirFS := FS o; Dirname := Dirname (Secondary w) |};
                   Failover := Failover w |}) o
    | None => o
    end);;;
  d <- Intn 2;; modify (set_ingestUsingApply (negb (d =? 0)));;;
  d <- Intn 2;; modify (set_deleteSized (negb (d =? 0)));;;
  d <- Intn 2;; modify (set_replaceSingleDelete (negb (d =? 0)));;;
  d <- Intn 2;; modify (set_disableBlockPropertyCollector (d =? 1));;;
  testOpts <- get;;
  when (disableBlockPropertyCollector testOpts)
    (opts (setOptions_BlockPropertyCollectors []));;;
  d <- Intn 2;; modify (set_enableValueBlocks (negb (d =? 0)));;;
  testOpts <- get;;
  when (enableValueBlocks testOpts)
    (experimental (setExperimental_EnableValueBlocks (Some true)));;;
  d <- Intn 2;;
  modify (set_disableValueBlocksForIngestSSTables (d =? 0));;;
  d <- Intn 2;; modify (set_asyncApplyToDB (negb (d =? 0)));;;
  d <- Intn 5;; when (d =? 0) randomSharedStorage;;;
  d <- Intn 2;; when (d =? 0) randomExternalStorage;;;
  seed <- Uint64;; modify (set_seedEFOS seed);;;
  experimental (setExperimental_IngestSplit (Some ReadsIngestSplit));;;
  d <- Intn 2;; modify (set_useExcise (d =? 0));;;
  testOpts <- get;;
  when (useExcise testOpts)
    (raiseFormatMajorVersion (FormatVirtualSSTables pebble));;;
  modify InitRemoteStorageFactory;;;
  opts (EnsureDefaults pebble).

Definition RandomOptions (rng : R)
  (customOptionParsers : option (gmap string (string -> option CustomOption)))
  : option (TestOptions Float * R) :=
  match randomOptions customOptionParsers
          (defaultTestOptions float pebble) rng with
  | None => None
  | Some (_, testOpts, rng) => Some (testOpts, rng)
  end.

End RandomOptions.

End Options.

(** * Properties *)

(** ** The bytewise comparer meets the comparer contract *)

Lemma bytesCompare_antisym (a b : bytes) :
  bytesCompare b a = CompOpp (bytesCompare a b).
Proof.
  revert b; induction a as [|x a IH]; intros [|y b]; simpl; try reflexivity.
  rewrite (N.compare_antisym (Byte.to_N x) (Byte.to_N y)).
  destruct (N.compare (Byte.to_N x) (Byte.to_N y)); simpl; auto.
Qed.

Lemma bytesCompare_trans (a b d : bytes) :
  bytesCompare a b <> Gt -> bytesCompare b d <> Gt -> bytesCompare a d <> Gt.
Proof.
  revert b d; induction a as [|x a IH]; intros [|y b] [|z d]; simpl;
    try congruence.
  destruct (N.compare_spec (Byte.to_N x) (Byte.to_N y)) as [E1|L1|G1];
    destruct (N.compare_spec (Byte.to_N y) (Byte.to_N z)) as [E2|L2|G2];
    destruct (N.compare_spec (Byte.to_N x) (Byte.to_N z)) as [E3|L3|G3];
    try congruence; try lia; eauto.
Qed.

Lemma bytewise_ok : ComparerOk bytewise.
Proof.
  constructor; unfold leK; simpl.
  - apply bytesCompare_antisym.
  - apply bytesCompare_trans.
  - intros a b. unfold bytesEqual.
    destruct (bytesCompare a b); split; congruence.
  - intros [|x a] [|y b]; simpl; try congruence.
    destruct (N.compare (Byte.to_N x) (Byte.to_N y)); congruence.
Qed.

(** ** Consequences of the comparer contract *)

Section ComparerFacts.
Context {cmp : Comparer} (Hok : ComparerOk cmp).

Lemma leK_refl (a : bytes) : leK cmp a a.
Proof.
  unfold leK. pose proof (Compare_antisym Hok a a) as H.
  destruct (Compare cmp a a); simpl in H; congruence.
Qed.

Lemma Compare_Eq_sym (a b : bytes) :
  Compare cmp a b = Eq -> Compare cmp b a = Eq.
Proof. intros H. rewrite (Compare_antisym Hok a b), H. reflexivity. Qed.

Lemma Compare_Lt_Gt (a b : bytes) :
  Compare cmp a b = Lt <-> Compare cmp b a = Gt.
Proof.
  rewrite (Compare_antisym Hok a b).
  destruct (Compare cmp a b); simpl; split; congruence.
Qed.

Lemma leK_total (a b : bytes) : leK cmp a b \/ leK cmp b a.
Proof.
  unfold leK. rewrite (Compare_antisym Hok a b).
  destruct (Compare cmp a b); simpl; [left|left|right]; congruence.
Qed.

Lemma leK_antisym (a b : bytes) :
  leK cmp a b -> leK cmp b a -> Compare cmp a b = Eq.
Proof.
  unfold leK. rewrite (Compare_antisym Hok a b).
  destruct (Compare cmp a b); simpl; congruence.
Qed.

Lemma Eq_leK (a b : bytes) : Compare cmp a b = Eq -> leK cmp a b.
Proof. unfold leK; congruence. Qed.

Lemma Lt_leK (a b : bytes) : Compare cmp a b = Lt -> leK cmp a b.
Proof. unfold leK; congruence. Qed.

Lemma not_leK_Lt (a b : bytes) : ~ leK cmp a b -> Compare cmp b a = Lt.
Proof.
  unfold leK. rewrite (Compare_antisym Hok a b).
  destruct (Compare cmp a b); simpl; intros H; try reflexivity;
    exfalso; apply H; congruence.
Qed.

Lemma Lt_leK_trans (a b d : bytes) :
  Compare cmp a b = Lt -> leK cmp b d -> Compare cmp a d = Lt.
Proof.
  intros H1 H2.
  destruct (Compare cmp a d) eqn:E; try reflexivity; exfalso.
  - apply Compare_Eq_sym in E.
    assert (leK cmp b a) by (eapply (Compare_trans Hok); [eassumption|now apply Eq_leK]).
    apply Compare_Lt_Gt in H1. unfold leK in H. congruence.
  - apply Compare_Lt_Gt in E.
    assert (leK cmp b a) by (eapply (Compare_trans Hok); [eassumption|now apply Lt_leK]).
    apply Compare_Lt_Gt in H1. unfold leK in H. congruence.
Qed.

Lemma leK_Lt_trans (a b d : bytes) :
  leK cmp a b -> Compare cmp b d = Lt -> Compare cmp a d = Lt.
Proof.
  intros H1 H2.
  destruct (Compare cmp a d) eqn:E; try reflexivity; exfalso.
  - apply Compare_Eq_sym in E.
    assert (leK cmp d b) by (eapply (Compare_trans Hok); [apply Eq_leK; eassumption|assumption]).
    apply Compare_Lt_Gt in H2. unfold leK in H. congruence.
  - apply Compare_Lt_Gt in E.
    assert (leK cmp d b) by (eapply (Compare_trans Hok); [apply Lt_leK; eassumption|assumption]).
    apply Compare_Lt_Gt in H2. unfold leK in H. congruence.
Qed.

Lemma Equal_sym (a b : bytes) : Equal cmp a b = Equal cmp b a.
Proof.
  destruct (Equal cmp a b) eqn:E1, (Equal cmp b a) eqn:E2; try reflexivity.
  - apply (Equal_Compare Hok) in E1. apply Compare_Eq_sym in E1.
    apply (Equal_Compare Hok) in E1. congruence.
  - apply (Equal_Compare Hok) in E2. apply Compare_Eq_sym in E2.
    apply (Equal_Compare Hok) in E2. congruence.
Qed.

Lemma Equal_false_iff (a b : bytes) :
  Equal cmp a b = false <-> Compare cmp a b <> Eq.
Proof.
  rewrite <- (Equal_Compare Hok). destruct (Equal cmp a b); split; congruence.
Qed.

End ComparerFacts.

(** ** Trailers *)

Module BaseFacts.
Import Base.

Lemma land_255_bounds (t : Z) : 0 <= Z.land t 255 < 256.
Proof.
  change 255 with (Z.ones 8). rewrite Z.land_ones by lia.
  apply Z.mod_pos_bound. lia.
Qed.

Lemma shiftr_8_small (t : Z) : 0 <= t < 256 -> Z.shiftr t 8 = 0.
Proof.
  intros H. rewrite Z.shiftr_div_pow2 by lia. apply Z.div_small. lia.
Qed.

Lemma SeqNum_SetSeqNum_Zero (k : InternalKey) :
  SeqNum (SetSeqNum k SeqNumZero) = SeqNumZero.
Proof.
  unfold SeqNum, SetSeqNum, SeqNumZero, u64; simpl.
  change (Z.shiftl 0 8 mod 2 ^ 64) with 0. rewrite Z.lor_0_l.
  apply shiftr_8_small, land_255_bounds.
Qed.

Lemma Kind_SetSeqNum_Zero (k : InternalKey) :
  Kind (SetSeqNum k SeqNumZero) = Kind k.
Proof.
  unfold Kind, SetSeqNum, SeqNumZero, u64; simpl.
  change (Z.shiftl 0 8 mod 2 ^ 64) with 0. rewrite Z.lor_0_l.
  rewrite <- Z.land_assoc. reflexivity.
Qed.

Lemma Kind_SetKind_Delete (k : InternalKey) :
  Kind (SetKind k InternalKeyKindDelete) = InternalKeyKindDelete.
Proof.
  unfold Kind, SetKind, InternalKeyKindDelete; simpl.
  rewrite Z.lor_0_r. apply Z.land_ldiff.
Qed.

Lemma SeqNum_SetKind (k : InternalKey) (kind : Z) :
  0 <= kind < 256 -> SeqNum (SetKind k kind) = SeqNum k.
Proof.
  intros Hk. unfold SeqNum, SetKind; simpl.
  apply Z.bits_inj'. intros n Hn.
  rewrite !Z.shiftr_spec, Z.lor_spec, Z.ldiff_spec by lia.
  change 255 with (Z.ones 8). rewrite Z.ones_spec_high by lia.
  assert (Z.testbit kind (n + 8) = false) as ->.
  { destruct (Z.eq_dec kind 0) as [->|Hne]; [apply Z.bits_0|].
    apply Z.bits_above_log2; [lia|].
    assert (Z.log2 kind < 8); [|lia].
    apply Z.log2_lt_pow2; lia. }
  rewrite andb_true_r, orb_false_r. reflexivity.
Qed.

Lemma Kind_MakeTrailer_Zero (kind : Z) :
  0 <= kind < 256 -> Z.land (MakeTrailer 0 kind) 255 = kind.
Proof.
  intros Hk. unfold MakeTrailer, u64; simpl.
  change (Z.shiftl 0 8 mod 2 ^ 64) with 0. rewrite Z.lor_0_l.
  change 255 with (Z.ones 8). rewrite Z.land_ones by lia.
  apply Z.mod_small. lia.
Qed.

Lemma SeqNum_MakeTrailer_Zero (kind : Z) :
  0 <= kind < 256 -> Z.shiftr (MakeTrailer 0 kind) 8 = 0.
Proof.
  intros Hk. unfold MakeTrailer, u64; simpl.
  change (Z.shiftl 0 8 mod 2 ^ 64) with 0. rewrite Z.lor_0_l.
  now apply shiftr_8_small.
Qed.

End BaseFacts.

(** ** Coalescing and sorting the keys of a span *)

Module KeyspanFacts.
Import Keyspan.

Lemma ForallOrdPairs_Permutation {A : Type} (R : A -> A -> Prop) (l l' : list A) :
  (forall a b, R a b -> R b a) ->
  Permutation l l' -> ForallOrdPairs R l -> ForallOrdPairs R l'.
Proof.
  intros Hsym Hp. induction Hp as [|x l l' Hp IH|x y l|l l' l'' H1 IH1 H2 IH2];
    intros H.
  - exact H.
  - inversion H as [|a l0 Hx Hl]; subst. constructor; auto.
    eapply Permutation_Forall; eassumption.
  - inversion H as [|a l0 Hy Hl]; subst.
    inversion Hl as [|a l0 Hx Hl']; subst.
    inversion Hy as [|a l0 Hyx Hyl]; subst.
    constructor; [constructor; auto|constructor; auto].
  - auto.
Qed.

Lemma ForallOrdPairs_map {A B : Type} (R : A -> A -> Prop) (R' : B -> B -> Prop)
  (f : A -> B) (l : list A) :
  (forall a b, R a b -> R' (f a) (f b)) ->
  ForallOrdPairs R l -> ForallOrdPairs R' (map f l).
Proof.
  intros Hf H. induction H as [|a l Ha Hl IH]; simpl; constructor; auto.
  apply Forall_map. eapply Forall_impl; [|exact Ha]. auto.
Qed.

Lemma insertByTrailer_Permutation (k : Key) (l : list Key) :
  Permutation (k :: l) (insertByTrailer k l).
Proof.
  induction l as [|x r IH]; simpl; [reflexivity|].
  destruct (Trailer x <=? Trailer k); [reflexivity|].
  rewrite perm_swap. now apply perm_skip.
Qed.

Lemma SortKeysByTrailer_Permutation (l : list Key) :
  Permutation l (SortKeysByTrailer l).
Proof.
  induction l as [|k r IH]; simpl; [reflexivity|].
  rewrite <- insertByTrailer_Permutation. now apply perm_skip.
Qed.

Lemma insertByTrailer_descending (k : Key) (l : list Key) :
  trailerDescending l -> trailerDescending (insertByTrailer k l).
Proof.
  unfold trailerDescending. intros H.
  induction H as [|x r Hr IH Hx]; simpl.
  - constructor; constructor.
  - destruct (Z.leb_spec (Trailer x) (Trailer k)).
    + constructor; [constructor; assumption|].
      constructor; [lia|]. eapply Forall_impl; [|exact Hx].
      simpl; intros; lia.
    + constructor; [exact IH|].
      eapply Permutation_Forall; [apply insertByTrailer_Permutation|].
      constructor; [lia|exact Hx].
Qed.

Lemma SortKeysByTrailer_descending (l : list Key) :
  trailerDescending (SortKeysByTrailer l).
Proof.
  induction l as [|k r IH]; simpl; [constructor|].
  now apply insertByTrailer_descending.
Qed.

Section CoalesceFacts.
Context (cmp : Comparer).

(** What [coalesceFrom] keeps is pairwise distinct, and a set or unset it
    keeps has a suffix equal to none of those seen before. *)
Lemma coalesceFrom_distinct (seen : list bytes) (keys : list Key) :
  distinctOps cmp (coalesceFrom cmp seen keys)
  /\ Forall (fun k => Kind k = Base.InternalKeyKindRangeKeyDelete
                      \/ Forall (fun s => Equal cmp s (Suffix k) = false) seen)
       (coalesceFrom cmp seen keys).
Proof.
  revert seen; induction keys as [|k rest IH]; intros seen; simpl.
  - split; constructor.
  - destruct (Z.eqb_spec (Kind k) Base.InternalKeyKindRangeKeyDelete) as [Hd|Hd].
    + split; [constructor; constructor|]. constructor; [now left|constructor].
    + destruct (existsb (fun s => Equal cmp s (Suffix k)) seen) eqn:Hex;
        [apply IH|].
      destruct (IH (Suffix k :: seen)) as [Hdist Hall]. split.
      * constructor; [|exact Hdist].
        eapply Forall_impl; [|exact Hall].
        intros x [Hx|Hx] [Hkind Heq].
        -- congruence.
        -- inversion Hx; subst. congruence.
      * constructor.
        -- right. apply Forall_forall. intros s Hs.
           destruct (Equal cmp s (Suffix k)) eqn:E; [|reflexivity].
           assert (existsb (fun s => Equal cmp s (Suffix k)) seen = true)
             by (apply existsb_exists; eauto).
           congruence.
        -- eapply Forall_impl; [|exact Hall].
           intros x [Hx|Hx]; [now left|right]. now inversion Hx.
Qed.

Lemma Kind_bounds (k : Key) : 0 <= Kind k < 256.
Proof. apply BaseFacts.land_255_bounds. Qed.

Context (Hok : ComparerOk cmp).

Lemma sameOp_sym (a b : Key) : ~ sameOp cmp a b -> ~ sameOp cmp b a.
Proof.
  intros H [H1 H2]. apply H. split; [congruence|].
  now rewrite (Equal_sym Hok).
Qed.

End CoalesceFacts.

End KeyspanFacts.

(** ** [writeSSTForIngestion] *)

Module MetamorphicFacts.
Import Base Metamorphic.

Lemma firstError_app (l1 l2 : list (Call * option error)) :
  firstError (l1 ++ l2) =
  match firstError l1 with Some e => Some e | None => firstError l2 end.
Proof.
  induction l1 as [|[c [e|]] l1 IH]; simpl; auto.
Qed.

Lemma addsOf_app (l1 l2 : list (Call * option error)) :
  addsOf (l1 ++ l2) = addsOf l1 ++ addsOf l2.
Proof. apply flat_map_app. Qed.

Lemma closesOf_app (l1 l2 : list (Call * option error)) :
  closesOf (l1 ++ l2) = closesOf l1 ++ closesOf l2.
Proof. apply flat_map_app. Qed.

Lemma encodesOf_app (l1 l2 : list (Call * option error)) :
  encodesOf (l1 ++ l2) = encodesOf l1 ++ encodesOf l2.
Proof. apply flat_map_app. Qed.

Section Triples.
Context {W : Type}.

(** A triple on the computations of the function: from a state that meets
    [P], the result and the state left meet [Q]. *)
Definition triple {A : Type} (P : @State W -> Prop) (m : M A)
  (Q : error + A -> @State W -> Prop) : Prop :=
  forall st, P st -> Q (fst (m st)) (snd (m st)).

Lemma triple_bind {A B : Type} (P : @State W -> Prop) (m : M A) (k : A -> M B)
  (Q : error + A -> @State W -> Prop) (R : error + B -> @State W -> Prop) :
  triple P m Q ->
  (forall e st, Q (inl e) st -> R (inl e) st) ->
  (forall a, triple (Q (inr a)) (k a) R) ->
  triple P (bind m k) R.
Proof.
  intros Hm He Hk st HP. specialize (Hm st HP). unfold bind.
  destruct (m st) as [[e|a] st']; simpl in *.
  - now apply He.
  - now apply Hk.
Qed.

Lemma triple_ret {A : Type} (P : @State W -> Prop) (a : A)
  (Q : error + A -> @State W -> Prop) :
  (forall st, P st -> Q (inr a) st) -> triple P (ret a) Q.
Proof. intros H st HP. now apply H. Qed.

Lemma triple_weaken {A : Type} (P P' : @State W -> Prop) (m : M A)
  (Q Q' : error + A -> @State W -> Prop) :
  triple P m Q -> (forall st, P' st -> P st) ->
  (forall r st, Q r st -> Q' r st) -> triple P' m Q'.
Proof. intros H HP HQ st Hst. apply HQ, H, HP, Hst. Qed.

(** A computation leaves an observation [f] of the state alone. *)
Definition keeps {A X : Type} (f : @State W -> X) (m : M A) : Prop :=
  forall st, f (snd (m st)) = f st.

Lemma keeps_bind {A B X : Type} (f : @State W -> X) (m : M A) (k : A -> M B) :
  keeps f m -> (forall a, keeps f (k a)) -> keeps f (bind m k).
Proof.
  intros Hm Hk st. unfold bind. specialize (Hm st).
  destruct (m st) as [[e|a] st']; simpl in *; auto.
  rewrite Hk. exact Hm.
Qed.

Lemma keeps_ret {A X : Type} (f : @State W -> X) (a : A) : keeps f (ret a).
Proof. intros st. reflexivity. Qed.

(** The observations the proofs follow. *)
Definition closers (st : @State W) : closeHelper * closeHelper * closeHelper :=
  (pointIterCloser st, rangeDelIterCloser st, rangeKeyIterCloser st).

Definition closed (st : @State W) : list IterId := closesOf (calls st).
Definition added (st : @State W) : list (InternalKey * bytes) := addsOf (calls st).
Definition encoded (st : @State W) : list Keyspan.Span := encodesOf (calls st).

Lemma keeps_closers_check (c : Call) (r : option error) :
  keeps closers (check c r).
Proof. intros st. reflexivity. Qed.

Lemma keeps_closers_onWriter (c : Call) (f : W -> W * option error) :
  keeps closers (onWriter c f).
Proof. intros st. unfold onWriter. destruct (f (writer st)). reflexivity. Qed.

Lemma closed_logCall (c : Call) (r : option error) (st : @State W) :
  closed (logCall c r st) =
  closed st ++ match c with CallIterClose it => [it] | _ => [] end.
Proof.
  unfold closed; simpl. rewrite closesOf_app. simpl. now rewrite app_nil_r.
Qed.

Lemma added_logCall (c : Call) (r : option error) (st : @State W) :
  added (logCall c r st) =
  added st ++ match c with CallAdd k v => [(k, v)] | _ => [] end.
Proof.
  unfold added; simpl. rewrite addsOf_app. simpl. now rewrite app_nil_r.
Qed.

Lemma encoded_logCall (c : Call) (r : option error) (st : @State W) :
  encoded (logCall c r st) =
  encoded st ++ match c with CallEncode s => [s] | _ => [] end.
Proof.
  unfold encoded; simpl. rewrite encodesOf_app. simpl. now rewrite app_nil_r.
Qed.

Definition isAdd (c : Call) : bool :=
  match c with CallAdd _ _ => true | _ => false end.
Definition isClose (c : Call) : bool :=
  match c with CallIterClose _ => true | _ => false end.
Definition isEncode (c : Call) : bool :=
  match c with CallEncode _ => true | _ => false end.

Lemma keeps_closed_check (c : Call) (r : option error) :
  isClose c = false -> keeps closed (check c r).
Proof.
  intros H st. unfold check; simpl. rewrite closed_logCall.
  destruct c; try discriminate; apply app_nil_r.
Qed.

Lemma keeps_added_check (c : Call) (r : option error) :
  isAdd c = false -> keeps added (check c r).
Proof.
  intros H st. unfold check; simpl. rewrite added_logCall.
  destruct c; try discriminate; apply app_nil_r.
Qed.

Lemma keeps_encoded_check (c : Call) (r : option error) :
  isEncode c = false -> keeps encoded (check c r).
Proof.
  intros H st. unfold check; simpl. rewrite encoded_logCall.
  destruct c; try discriminate; apply app_nil_r.
Qed.

Lemma keeps_closed_onWriter (c : Call) (f : W -> W * option error) :
  isClose c = false -> keeps closed (onWriter c f).
Proof.
  intros H st. unfold onWriter. destruct (f (writer st)) as [w r].
  now rewrite (keeps_closed_check c r H).
Qed.

Lemma keeps_added_onWriter (c : Call) (f : W -> W * option error) :
  isAdd c = false -> keeps added (onWriter c f).
Proof.
  intros H st. unfold onWriter. destruct (f (writer st)) as [w r].
  now rewrite (keeps_added_check c r H).
Qed.

Lemma keeps_encoded_onWriter (c : Call) (f : W -> W * option error) :
  isEncode c = false -> keeps encoded (onWriter c f).
Proof.
  intros H st. unfold onWriter. destruct (f (writer st)) as [w r].
  now rewrite (keeps_encoded_check c r H).
Qed.

Lemma keeps_added_closeOrReturn (it : IterId) : keeps added (closeOrReturn it).
Proof.
  intros st. unfold closeOrReturn, closeHelper_Close.
  destruct (getCloser it st); simpl; [|reflexivity].
  rewrite added_logCall. apply app_nil_r.
Qed.

Lemma keeps_encoded_closeOrReturn (it : IterId) :
  keeps encoded (closeOrReturn it).
Proof.
  intros st. unfold closeOrReturn, closeHelper_Close.
  destruct (getCloser it st); simpl; [|reflexivity].
  rewrite encoded_logCall. apply app_nil_r.
Qed.

(** The error a computation returns is the first one its calls met. *)
Definition reportsFirst {A : Type} (m : M A) : Prop :=
  triple (fun st => firstError (calls st) = None) m
    (fun r st => firstError (calls st) = errOf r).

Lemma reportsFirst_bind {A B : Type} (m : M A) (k : A -> M B) :
  reportsFirst m -> (forall a, reportsFirst (k a)) -> reportsFirst (bind m k).
Proof.
  intros Hm Hk. eapply triple_bind; [exact Hm| |exact Hk].
  intros e st H; exact H.
Qed.

Lemma reportsFirst_ret {A : Type} (a : A) : reportsFirst (ret (A:=A) (W:=W) a).
Proof. intros st H; exact H. Qed.

Lemma reportsFirst_check (c : Call) (r : option error) :
  reportsFirst (check c r).
Proof.
  intros st H. unfold check; simpl. rewrite firstError_app, H.
  destruct r; reflexivity.
Qed.

Lemma reportsFirst_onWriter (c : Call) (f : W -> W * option error) :
  reportsFirst (onWriter c f).
Proof.
  intros st H. unfold onWriter. destruct (f (writer st)) as [w r].
  apply (reportsFirst_check c r (setWriter w st)). exact H.
Qed.

Lemma reportsFirst_closeOrReturn (it : IterId) :
  reportsFirst (closeOrReturn it).
Proof.
  intros st H. unfold closeOrReturn, closeHelper_Close.
  destruct (getCloser it st) as [r|]; simpl; [|exact H].
  rewrite firstError_app; simpl. rewrite H. destruct r; reflexivity.
Qed.

End Triples.

Section BuildFacts.
Context (cmp : Comparer) {W Meta : Type} (ops : WriterOps W Meta).
Context (FormatDeleteSizedAndObsolete : Z).
Context (uniquePrefixes : bool) (syntheticSuffix syntheticPrefix : bytes).
Context (targetFMV : Z).

Local Abbreviation pointLoop_ :=
  (pointLoop cmp ops FormatDeleteSizedAndObsolete uniquePrefixes
     syntheticSuffix syntheticPrefix targetFMV).
Local Abbreviation rangeDelLoop_ :=
  (rangeDelLoop cmp ops syntheticSuffix syntheticPrefix).
Local Abbreviation rangeKeyLoop_ :=
  (rangeKeyLoop cmp ops syntheticSuffix syntheticPrefix).
Local Abbreviation outputKey_ := (outputKey cmp syntheticSuffix syntheticPrefix).
Local Abbreviation collapsedSpan_ :=
  (collapsedSpan cmp syntheticSuffix syntheticPrefix).
Local Abbreviation survivors_ := (survivors cmp uniquePrefixes).
Local Abbreviation writtenAs_ :=
  (writtenAs cmp FormatDeleteSizedAndObsolete syntheticSuffix syntheticPrefix
     targetFMV).
Local Abbreviation body_ :=
  (body cmp ops FormatDeleteSizedAndObsolete uniquePrefixes syntheticSuffix
     syntheticPrefix targetFMV).
Local Abbreviation writeSSTForIngestion_ :=
  (writeSSTForIngestion cmp ops FormatDeleteSizedAndObsolete uniquePrefixes
     syntheticSuffix syntheticPrefix targetFMV).

(** The key and the value the loop prepares for a record it keeps. *)
Definition prepared (key : InternalKey) (value : LazyValue)
  : InternalKey * LazyValue :=
  if (targetFMV <? FormatDeleteSizedAndObsolete)
     && (Kind (SetSeqNum key SeqNumZero) =? InternalKeyKindDeleteSized)
  then (SetKind (SetSeqNum key SeqNumZero) InternalKeyKindDelete, LazyValue_zero)
  else (SetSeqNum key SeqNumZero, value).

Lemma pointLoop_cons (key : InternalKey) (value : LazyValue)
  (rest : list (InternalKey * LazyValue)) (last : option bytes) :
  pointLoop_ ((key, value) :: rest) last =
  if isDuplicate cmp uniquePrefixes last (UserKey key) then pointLoop_ rest last
  else
    match Value (snd (prepared key value)) with
    | inl err => check (CallValue (snd (prepared key value))) (Some err)
    | inr valBytes =>
        bind (check (CallValue (snd (prepared key value))) None) (fun _ =>
        bind (onWriter
                (CallAdd (withUserKey (fst (prepared key value))
                            (outputKey_ (UserKey (fst (prepared key value)))))
                   valBytes)
                (fun w => wAdd ops w
                   (withUserKey (fst (prepared key value))
                      (outputKey_ (UserKey (fst (prepared key value)))))
                   valBytes))
          (fun _ => pointLoop_ rest (resetAppend last (UserKey key))))
    end.
Proof.
  simpl. unfold prepared.
  destruct (isDuplicate cmp uniquePrefixes last (UserKey key)); [reflexivity|].
  destruct ((targetFMV <? FormatDeleteSizedAndObsolete)
            && (Kind (SetSeqNum key SeqNumZero) =? InternalKeyKindDeleteSized));
    reflexivity.
Qed.

Lemma prepared_UserKey (key : InternalKey) (value : LazyValue) :
  UserKey (fst (prepared key value)) = UserKey key.
Proof. unfold prepared. destruct (_ && _); reflexivity. Qed.

Lemma prepared_writtenAs (key : InternalKey) (value : LazyValue)
  (valBytes : bytes) :
  Value (snd (prepared key value)) = inr valBytes ->
  writtenAs_ (key, value)
    (withUserKey (fst (prepared key value))
       (outputKey_ (UserKey (fst (prepared key value)))), valBytes).
Proof.
  intros Hv. unfold writtenAs, translated, deleteSizedUnsupported; simpl.
  rewrite prepared_UserKey. split; [reflexivity|].
  unfold prepared in *. rewrite BaseFacts.Kind_SetSeqNum_Zero in *.
  destruct ((targetFMV <? FormatDeleteSizedAndObsolete)
            && (Kind key =? InternalKeyKindDeleteSized)); simpl in *.
  - split; [|split].
    + change (SeqNum (SetKind (SetSeqNum key SeqNumZero) InternalKeyKindDelete)
              = SeqNumZero).
      rewrite BaseFacts.SeqNum_SetKind by (unfold InternalKeyKindDelete; lia).
      apply BaseFacts.SeqNum_SetSeqNum_Zero.
    + apply (BaseFacts.Kind_SetKind_Delete (SetSeqNum key SeqNumZero)).
    + unfold Value, LazyValue_zero in Hv. congruence.
  - split; [|split].
    + apply (BaseFacts.SeqNum_SetSeqNum_Zero key).
    + apply (BaseFacts.Kind_SetSeqNum_Zero key).
    + exact Hv.
Qed.

Lemma pointLoop_keeps_closers records last :
  keeps closers (pointLoop_ records last).
Proof.
  revert last; induction records as [|[key value] rest IH]; intros last.
  - apply keeps_ret.
  - rewrite pointLoop_cons.
    destruct (isDuplicate _ _ _ _); [apply IH|].
    destruct (Value _); [apply keeps_closers_check|].
    repeat (apply keeps_bind; intros);
      auto using keeps_closers_check, keeps_closers_onWriter.
Qed.

Lemma pointLoop_keeps_closed records last :
  keeps closed (pointLoop_ records last).
Proof.
  revert last; induction records as [|[key value] rest IH]; intros last.
  - apply keeps_ret.
  - rewrite pointLoop_cons.
    destruct (isDuplicate _ _ _ _); [apply IH|].
    destruct (Value _); [now apply keeps_closed_check|].
    repeat (apply keeps_bind; intros);
      auto using keeps_closed_check, keeps_closed_onWriter.
Qed.

Lemma pointLoop_keeps_encoded records last :
  keeps encoded (pointLoop_ records last).
Proof.
  revert last; induction records as [|[key value] rest IH]; intros last.
  - apply keeps_ret.
  - rewrite pointLoop_cons.
    destruct (isDuplicate _ _ _ _); [apply IH|].
    destruct (Value _); [now apply keeps_encoded_check|].
    repeat (apply keeps_bind; intros);
      auto using keeps_encoded_check, keeps_encoded_onWriter.
Qed.

Lemma pointLoop_reportsFirst records last :
  reportsFirst (pointLoop_ records last).
Proof.
  revert last; induction records as [|[key value] rest IH]; intros last.
  - apply reportsFirst_ret.
  - rewrite pointLoop_cons.
    destruct (isDuplicate _ _ _ _); [apply IH|].
    destruct (Value _); [apply reportsFirst_check|].
    repeat (apply reportsFirst_bind; intros);
      auto using reportsFirst_check, reportsFirst_onWriter.
Qed.

(** The [Add] calls of the loop are made for the surviving records, in
    order, each as [writtenAs] says; a loop that ends without an error has
    made one for every survivor. *)
Lemma pointLoop_added records last (st : @State W) :
  exists outs n,
    added (snd (pointLoop_ records last st)) = added st ++ outs
    /\ Forall2 writtenAs_ (firstn n (survivors_ records last)) outs
    /\ (errOf (fst (pointLoop_ records last st)) = None ->
        Forall2 writtenAs_ (survivors_ records last) outs).
Proof.
  revert last st; induction records as [|[key value] rest IH]; intros last st.
  - exists [], 0%nat. simpl. rewrite app_nil_r. repeat split; constructor.
  - rewrite pointLoop_cons. simpl survivors.
    destruct (isDuplicate _ _ _ _); [apply IH|].
    destruct (Value (snd (prepared key value))) as [err|valBytes] eqn:Hv.
    + exists [], 0%nat. unfold check; simpl. rewrite added_logCall; simpl.
      repeat split; try constructor. discriminate.
    + pose proof (prepared_writtenAs key value valBytes Hv) as Hw.
      set (k := withUserKey (fst (prepared key value))
                  (outputKey_ (UserKey (fst (prepared key value))))) in *.
set (st1 := logCall (CallValue (snd (prepared key value))) None st).
      assert (Hst1 : added st1 = added st)
        by (unfold st1; rewrite added_logCall; apply app_nil_r).
      match goal with |- context [bind ?a ?b st] => set (m := bind a b) end.
      assert (Hm : m st =
                   match wAdd ops (writer st) k valBytes with
                   | (w', Some e) =>
                       (inl e, logCall (CallAdd k valBytes) (Some e)
                                 (setWriter w' st1))
                   | (w', None) =>
                       pointLoop_ rest (resetAppend last (UserKey key))
                         (logCall (CallAdd k valBytes) None (setWriter w' st1))
                   end).
      { unfold m, bind, check, onWriter; simpl. fold st1.
        destruct (wAdd ops (writer st) k valBytes) as [w' [e|]]; reflexivity. }
      rewrite Hm. clear Hm m.
      destruct (wAdd ops (writer st) k valBytes) as [w' [e|]].
      * exists [(k, valBytes)], 1%nat. simpl fst; simpl snd.
        rewrite added_logCall; simpl.
        change (added (setWriter w' st1)) with (added st1).
        rewrite Hst1. repeat split.
        -- constructor; [exact Hw|constructor].
        -- discriminate.
      * set (st2 := logCall (CallAdd k valBytes) None (setWriter w' st1)).
        destruct (IH (resetAppend last (UserKey key)) st2)
          as (outs & n & Hadded & Hn & Hall).
        exists ((k, valBytes) :: outs), (S n). repeat split.
        -- rewrite Hadded. unfold st2. rewrite added_logCall; simpl.
           change (added (setWriter w' st1)) with (added st1).
           rewrite Hst1, <- app_assoc. reflexivity.
        -- simpl. constructor; assumption.
        -- intros H. constructor; [exact Hw|auto].
Qed.

Lemma rangeDelLoop_keeps_closers spans : keeps closers (rangeDelLoop_ spans).
Proof.
  induction spans as [|span rest IH]; simpl; [apply keeps_ret|].
  apply keeps_bind; intros; auto using keeps_closers_onWriter.
Qed.

Lemma rangeDelLoop_keeps_closed spans : keeps closed (rangeDelLoop_ spans).
Proof.
  induction spans as [|span rest IH]; simpl; [apply keeps_ret|].
  apply keeps_bind; intros; auto using keeps_closed_onWriter.
Qed.

Lemma rangeDelLoop_keeps_added spans : keeps added (rangeDelLoop_ spans).
Proof.
  induction spans as [|span rest IH]; simpl; [apply keeps_ret|].
  apply keeps_bind; intros; auto using keeps_added_onWriter.
Qed.

Lemma rangeDelLoop_keeps_encoded spans : keeps encoded (rangeDelLoop_ spans).
Proof.
  induction spans as [|span rest IH]; simpl; [apply keeps_ret|].
  apply keeps_bind; intros; auto using keeps_encoded_onWriter.
Qed.

Lemma rangeDelLoop_reportsFirst spans : reportsFirst (rangeDelLoop_ spans).
Proof.
  induction spans as [|span rest IH]; simpl; [apply reportsFirst_ret|].
  apply reportsFirst_bind; intros; auto using reportsFirst_onWriter.
Qed.

Lemma rangeKeyLoop_keeps_closers spans : keeps closers (rangeKeyLoop_ spans).
Proof.
  induction spans as [|span rest IH]; simpl; [apply keeps_ret|].
  apply keeps_bind; intros; auto using keeps_closers_onWriter.
Qed.

Lemma rangeKeyLoop_keeps_closed spans : keeps closed (rangeKeyLoop_ spans).
Proof.
  induction spans as [|span rest IH]; simpl; [apply keeps_ret|].
  apply keeps_bind; intros; auto using keeps_closed_onWriter.
Qed.

Lemma rangeKeyLoop_keeps_added spans : keeps added (rangeKeyLoop_ spans).
Proof.
  induction spans as [|span rest IH]; simpl; [apply keeps_ret|].
  apply keeps_bind; intros; auto using keeps_added_onWriter.
Qed.

Lemma rangeKeyLoop_reportsFirst spans : reportsFirst (rangeKeyLoop_ spans).
Proof.
  induction spans as [|span rest IH]; simpl; [apply reportsFirst_ret|].
  apply reportsFirst_bind; intros; auto using reportsFirst_onWriter.
Qed.

(** The spans the loop hands to the encoder are the collapsed input spans,
    in order; a loop that ends without an error has handed over all. *)
Lemma rangeKeyLoop_encoded spans (st : @State W) :
  exists n,
    encoded (snd (rangeKeyLoop_ spans st)) =
      encoded st ++ map collapsedSpan_ (firstn n spans)
    /\ (errOf (fst (rangeKeyLoop_ spans st)) = None ->
        encoded (snd (rangeKeyLoop_ spans st)) =
          encoded st ++ map collapsedSpan_ spans).
Proof.
  revert st; induction spans as [|span rest IH]; intros st.
  - exists 0%nat. simpl. rewrite app_nil_r. auto.
  - assert (Hm : rangeKeyLoop_ (span :: rest) st =
                 match wEncodeRangeKey ops (writer st) (collapsedSpan_ span) with
                 | (w', Some e) =>
                     (inl e, logCall (CallEncode (collapsedSpan_ span)) (Some e)
                               (setWriter w' st))
                 | (w', None) =>
                     rangeKeyLoop_ rest
                       (logCall (CallEncode (collapsedSpan_ span)) None
                          (setWriter w' st))
                 end).
    { simpl rangeKeyLoop. unfold bind, onWriter, check.
      destruct (wEncodeRangeKey ops (writer st) (collapsedSpan_ span))
        as [w' [e|]]; reflexivity. }
    rewrite Hm. clear Hm.
    destruct (wEncodeRangeKey ops (writer st) (collapsedSpan_ span))
      as [w' [e|]].
    + exists 1%nat. simpl fst; simpl snd. rewrite encoded_logCall. simpl. split; [reflexivity|].
      discriminate.
    + set (st1 := logCall (CallEncode (collapsedSpan_ span)) None
                    (setWriter w' st)).
      destruct (IH st1) as (n & Hn & Hall).
      assert (Hst1 : encoded st1 = encoded st ++ [collapsedSpan_ span])
        by (unfold st1; rewrite encoded_logCall; reflexivity).
      exists (S n). split.
      * etransitivity; [exact Hn|]. rewrite Hst1, <- app_assoc. reflexivity.
      * intros H. etransitivity; [exact (Hall H)|].
        rewrite Hst1, <- app_assoc. reflexivity.
Qed.

Lemma finish_keeps_closers : keeps closers (finish ops).
Proof.
  unfold finish. apply keeps_bind; [apply keeps_closers_onWriter|].
  intros _ st. destruct (wMetadata ops (writer st)); reflexivity.
Qed.

Lemma finish_keeps_closed : keeps closed (finish ops).
Proof.
  unfold finish. apply keeps_bind; [now apply keeps_closed_onWriter|].
  intros _ st. destruct (wMetadata ops (writer st)); simpl;
    rewrite closed_logCall; apply app_nil_r.
Qed.

Lemma finish_keeps_added : keeps added (finish ops).
Proof.
  unfold finish. apply keeps_bind; [now apply keeps_added_onWriter|].
  intros _ st. destruct (wMetadata ops (writer st)); simpl;
    rewrite added_logCall; apply app_nil_r.
Qed.

Lemma finish_keeps_encoded : keeps encoded (finish ops).
Proof.
  unfold finish. apply keeps_bind; [now apply keeps_encoded_onWriter|].
  intros _ st. destruct (wMetadata ops (writer st)); simpl;
    rewrite encoded_logCall; apply app_nil_r.
Qed.

Lemma finish_reportsFirst : reportsFirst (finish ops).
Proof.
  unfold finish. apply reportsFirst_bind; [apply reportsFirst_onWriter|].
  intros _ st H. destruct (wMetadata ops (writer st)); simpl;
    rewrite firstError_app, H; reflexivity.
Qed.

Lemma fragments_keeps_added it loop iter :
  (forall spans, keeps added (loop spans)) ->
  keeps (W:=W) added (fragments it loop iter).
Proof.
  intros H. destruct iter as [i|]; simpl; [|apply keeps_ret].
  repeat (apply keeps_bind; intros); auto.
  - now apply keeps_added_check.
  - apply keeps_added_closeOrReturn.
Qed.

Lemma fragments_keeps_encoded it loop iter :
  (forall spans, keeps encoded (loop spans)) ->
  keeps (W:=W) encoded (fragments it loop iter).
Proof.
  intros H. destruct iter as [i|]; simpl; [|apply keeps_ret].
  repeat (apply keeps_bind; intros); auto.
  - now apply keeps_encoded_check.
  - apply keeps_encoded_closeOrReturn.
Qed.

Lemma fragments_reportsFirst it loop iter :
  (forall spans, reportsFirst (loop spans)) ->
  reportsFirst (W:=W) (fragments it loop iter).
Proof.
  intros H. destruct iter as [i|]; simpl; [|apply reportsFirst_ret].
  repeat (apply reportsFirst_bind; intros); auto.
  - apply reportsFirst_check.
  - apply reportsFirst_closeOrReturn.
Qed.

Lemma body_reportsFirst pointIter rangeDelIter rangeKeyIter :
  reportsFirst (body_ pointIter rangeDelIter rangeKeyIter).
Proof.
  unfold body.
  apply reportsFirst_bind; [apply pointLoop_reportsFirst|intros _].
  apply reportsFirst_bind; [apply reportsFirst_closeOrReturn|intros _].
  apply reportsFirst_bind;
    [apply fragments_reportsFirst, rangeDelLoop_reportsFirst|intros _].
  apply reportsFirst_bind;
    [apply fragments_reportsFirst, rangeKeyLoop_reportsFirst|intros _].
  apply finish_reportsFirst.
Qed.

Lemma bind_unfold {A B : Type} (m : M A) (k : A -> M B) (st : @State W) :
  bind m k st =
  match m st with
  | (inl e, st') => (inl e, st')
  | (inr a, st') => k a st'
  end.
Proof. reflexivity. Qed.

Lemma keeps_triple {A X : Type} (f : @State W -> X) (m : M A) (P : X -> Prop) :
  keeps f m -> triple (fun st => P (f st)) m (fun _ st => P (f st)).
Proof. intros H st HP. now rewrite H. Qed.

(** What follows the point loop makes no [Add] call. *)
Lemma afterPoints_keeps_added rangeDelIter rangeKeyIter :
  keeps added
    (bind (closeOrReturn PointIter) (fun _ =>
     bind (fragments RangeDelIter rangeDelLoop_ rangeDelIter) (fun _ =>
     bind (fragments RangeKeyIter rangeKeyLoop_ rangeKeyIter) (fun _ =>
     finish ops)))).
Proof.
  apply keeps_bind; [apply keeps_added_closeOrReturn|intros _].
  apply keeps_bind;
    [apply fragments_keeps_added, rangeDelLoop_keeps_added|intros _].
  apply keeps_bind;
    [apply fragments_keeps_added, rangeKeyLoop_keeps_added|intros _].
  apply finish_keeps_added.
Qed.

Lemma body_added pointIter rangeDelIter rangeKeyIter (st : @State W) :
  exists outs n,
    added (snd (body_ pointIter rangeDelIter rangeKeyIter st)) = added st ++ outs
    /\ Forall2 writtenAs_
         (firstn n (survivors_ (pointRecords pointIter) None)) outs
    /\ (errOf (fst (body_ pointIter rangeDelIter rangeKeyIter st)) = None ->
        Forall2 writtenAs_ (survivors_ (pointRecords pointIter) None) outs).
Proof.
  destruct (pointLoop_added (pointRecords pointIter) None st)
    as (outs & n & Hadded & Hn & Hall).
  exists outs, n. unfold body. rewrite bind_unfold.
  destruct (pointLoop_ (pointRecords pointIter) None st) as [[e|[]] st1];
    simpl fst in *; simpl snd in *.
  - repeat split; auto.
  - rewrite afterPoints_keeps_added. repeat split; auto.
Qed.

Lemma fragments_rangeKey_encoded rangeKeyIter (st : @State W) :
  exists n,
    encoded (snd (fragments RangeKeyIter rangeKeyLoop_ rangeKeyIter st)) =
      encoded st ++ map collapsedSpan_ (firstn n (rangeKeySpans rangeKeyIter))
    /\ (errOf (fst (fragments RangeKeyIter rangeKeyLoop_ rangeKeyIter st)) = None ->
        encoded (snd (fragments RangeKeyIter rangeKeyLoop_ rangeKeyIter st)) =
          encoded st ++ map collapsedSpan_ (rangeKeySpans rangeKeyIter)).
Proof.
  destruct rangeKeyIter as [i|]; simpl.
  - destruct (rangeKeyLoop_encoded (fragSpans i) st) as (n & Hn & Hall).
    rewrite bind_unfold.
    destruct (rangeKeyLoop_ (fragSpans i) st) as [[e|[]] st1];
      simpl fst in *; simpl snd in *.
    + exists n. split; [exact Hn|discriminate].
    + assert (Hk : keeps encoded
                (bind (check (CallIterEnd RangeKeyIter) (fragErr i))
                   (fun _ => closeOrReturn (W:=W) RangeKeyIter))).
      { apply keeps_bind; [now apply keeps_encoded_check|intros _].
        apply keeps_encoded_closeOrReturn. }
      rewrite Hk. exists (List.length (fragSpans i)).
      rewrite firstn_all. split; auto.
  - exists 0%nat. simpl. rewrite app_nil_r. auto.
Qed.

Lemma body_encoded pointIter rangeDelIter rangeKeyIter (st : @State W) :
  exists n,
    encoded (snd (body_ pointIter rangeDelIter rangeKeyIter st)) =
      encoded st ++ map collapsedSpan_ (firstn n (rangeKeySpans rangeKeyIter))
    /\ (errOf (fst (body_ pointIter rangeDelIter rangeKeyIter st)) = None ->
        encoded (snd (body_ pointIter rangeDelIter rangeKeyIter st)) =
          encoded st ++ map collapsedSpan_ (rangeKeySpans rangeKeyIter)).
Proof.
  set (Q := fun (A : Type) (r : error + A) (st' : @State W) =>
              exists n,
                encoded st' =
                  encoded st
                  ++ map collapsedSpan_ (firstn n (rangeKeySpans rangeKeyIter))
                /\ (errOf r = None ->
                    encoded st' =
                      encoded st
                      ++ map collapsedSpan_ (rangeKeySpans rangeKeyIter))).
  assert (Q0 : forall A e st', encoded st' = encoded st -> Q A (inl e) st').
  { intros A e st' H. exists 0%nat. simpl. rewrite app_nil_r.
    split; [exact H|discriminate]. }
  assert (Qall : forall A r st',
             encoded st' =
               encoded st ++ map collapsedSpan_ (rangeKeySpans rangeKeyIter) ->
             Q A r st').
  { intros A r st' H. exists (List.length (rangeKeySpans rangeKeyIter)).
    rewrite firstn_all. auto. }
  assert (H : triple (fun st' => encoded st' = encoded st)
                (body_ pointIter rangeDelIter rangeKeyIter) (Q Meta)).
  { unfold body.
    eapply triple_bind;
      [apply (keeps_triple encoded _ (fun x => x = encoded st)),
         pointLoop_keeps_encoded
      |intros; now apply Q0|intros ?; cbv beta].
    eapply triple_bind;
      [apply (keeps_triple encoded _ (fun x => x = encoded st)),
         keeps_encoded_closeOrReturn
      |intros; now apply Q0|intros ?; cbv beta].
    eapply triple_bind;
      [apply (keeps_triple encoded _ (fun x => x = encoded st)),
         fragments_keeps_encoded, rangeDelLoop_keeps_encoded
      |intros; now apply Q0|intros ?; cbv beta].
    eapply triple_bind with (Q := Q unit).
    - intros st' Hst'.
      destruct (fragments_rangeKey_encoded rangeKeyIter st') as (n & Hn & Hall).
      exists n. rewrite <- Hst'. auto.
    - intros e st' (n & Hn & _). exists n. split; [exact Hn|discriminate].
    - intros [] st' (n & _ & Hall). apply Qall.
      rewrite finish_keeps_encoded. now apply Hall. }
  exact (H st eq_refl).
Qed.

(** *** The order of the closes *)

Definition idx (it : IterId) : nat :=
  match it with PointIter => 0 | RangeDelIter => 1 | RangeKeyIter => 2 end.

Definition isOpen (h : closeHelper) : bool :=
  match h with Some _ => true | None => false end.

(** The body has got past the first [k] iterators: those that were given
    have been closed, in order, and the others are as they were given. *)
Definition stage (rangeDelIter rangeKeyIter : option FragmentIterator)
  (k : nat) (st : @State W) : Prop :=
  closed st = List.filter (given rangeDelIter rangeKeyIter) (firstn k iterOrder)
  /\ forall it,
       isOpen (getCloser it st) =
       given rangeDelIter rangeKeyIter it && negb (idx it <? k)%nat.

Lemma stage_keeps {A : Type} rd rk (k : nat) (m : M A) :
  keeps closers m -> keeps closed m ->
  triple (stage rd rk k) m (fun _ => stage rd rk k).
Proof.
  intros Hc Hd st [H1 H2]. split; [now rewrite Hd|].
  intros it. specialize (Hc st). unfold closers in Hc.
  injection Hc as Hp Hrd Hrk. rewrite <- H2.
  destruct it; simpl; congruence.
Qed.

Lemma stage_close rd rk (it : IterId) :
  triple (stage rd rk (idx it)) (closeOrReturn it)
    (fun _ => stage rd rk (S (idx it))).
Proof.
  intros st [H1 H2]. unfold closeOrReturn, closeHelper_Close.
  pose proof (H2 it) as Hit. rewrite Nat.ltb_irrefl, andb_true_r in Hit.
  destruct (getCloser it st) as [r|] eqn:E; simpl fst; simpl snd;
    simpl isOpen in Hit.
  - split.
    + rewrite closed_logCall.
      change (closed (clearCloser it st)) with (closed st). rewrite H1.
      destruct it; simpl in *; try discriminate; rewrite <- ?Hit;
        destruct rd; reflexivity.
    + intros it'. specialize (H2 it').
      change (getCloser it' (logCall (CallIterClose it) r (clearCloser it st)))
        with (getCloser it' (clearCloser it st)).
      destruct it, it'; simpl in *; auto; now rewrite andb_false_r.
  - split.
    + rewrite H1.
      destruct it; simpl in *; try discriminate; rewrite <- ?Hit;
        destruct rd; reflexivity.
    + intros it'. specialize (H2 it').
      destruct it, it'; simpl in *; auto; rewrite ?E, ?andb_false_r;
        try reflexivity; try discriminate.
Qed.

(** Where the body stands when it returns: past all three iterators when it
    succeeds, and anywhere when it fails. *)
Definition reached (rd rk : option FragmentIterator) (lo hi : nat)
  {A : Type} (r : error + A) (st : @State W) : Prop :=
  exists k, (lo <= k <= hi)%nat /\ stage rd rk k st /\ (errOf r = None -> k = hi).

Lemma stage_fragments rd rk (it : IterId) (loop : list Keyspan.Span -> M unit)
  (iter : option FragmentIterator) :
  given rd rk it = match iter with Some _ => true | None => false end ->
  (forall spans, keeps closers (loop spans)) ->
  (forall spans, keeps closed (loop spans)) ->
  triple (stage rd rk (idx it)) (fragments it loop iter)
    (reached rd rk (idx it) (S (idx it))).
Proof.
  intros Hg Hc Hd. destruct iter as [i|]; simpl.
  - eapply triple_bind; [apply stage_keeps; auto| |intros ?; cbv beta].
    { intros e st H. exists (idx it). split; [lia|]. split; [exact H|discriminate]. }
    eapply triple_bind;
      [apply stage_keeps;
         [apply keeps_closers_check|now apply keeps_closed_check]
      | |intros ?; cbv beta].
    { intros e st H. exists (idx it). split; [lia|]. split; [exact H|discriminate]. }
    eapply triple_weaken; [apply stage_close|intros ? H; exact H|].
    intros r st H. exists (S (idx it)). split; [lia|]. split; auto.
  - intros st H. exists (S (idx it)). split; [lia|]. split; auto.
    pose proof (stage_close rd rk it st H) as H'.
    unfold closeOrReturn, closeHelper_Close in H'.
    destruct H as [H1 H2]. specialize (H2 it). rewrite Hg in H2.
    destruct (getCloser it st); [discriminate|exact H'].
Qed.

Lemma body_reached pointIter rangeDelIter rangeKeyIter :
  triple (stage rangeDelIter rangeKeyIter 0)
    (body_ pointIter rangeDelIter rangeKeyIter)
    (reached rangeDelIter rangeKeyIter 0 3).
Proof.
  unfold body.
  eapply triple_bind;
    [apply stage_keeps;
       [apply pointLoop_keeps_closers|apply pointLoop_keeps_closed]
    | |intros ?; cbv beta].
  { intros e st H. exists 0%nat. split; [lia|]. split; [exact H|discriminate]. }
  eapply triple_bind; [apply (stage_close rangeDelIter rangeKeyIter PointIter)| |intros ?; cbv beta].
  { intros e st H. exists 1%nat. split; [lia|]. split; [exact H|discriminate]. }
  eapply triple_bind;
    [apply (stage_fragments rangeDelIter rangeKeyIter RangeDelIter);
       [reflexivity|apply rangeDelLoop_keeps_closers
       |apply rangeDelLoop_keeps_closed]
    | |intros ?; cbv beta].
  { intros e st (k & Hk & Hs & _). exists k. simpl in Hk.
    split; [lia|]. split; [exact Hs|discriminate]. }
  eapply triple_weaken with
    (P := stage rangeDelIter rangeKeyIter 2)
    (Q := reached rangeDelIter rangeKeyIter 2 3).
  - eapply triple_bind;
      [apply (stage_fragments rangeDelIter rangeKeyIter RangeKeyIter);
         [reflexivity|apply rangeKeyLoop_keeps_closers
         |apply rangeKeyLoop_keeps_closed]
      | |intros ?; cbv beta].
    { intros e st (k & Hk & Hs & _). exists k. simpl in Hk.
      split; [lia|]. split; [exact Hs|discriminate]. }
    eapply triple_weaken with (P := stage rangeDelIter rangeKeyIter 3);
      [apply stage_keeps; [apply finish_keeps_closers|apply finish_keeps_closed]
      | |].
    + intros st (k & Hk & Hs & Hall). simpl in *.
      rewrite (Hall eq_refl) in Hs. exact Hs.
    + intros r st H. exists 3%nat. split; [lia|]. split; auto.
  - intros st (k & Hk & Hs & Hall). simpl in *.
    rewrite (Hall eq_refl) in Hs. exact Hs.
  - intros r st (k & Hk & Hs & Hall). exists k. split; [lia|]. split; auto.
Qed.

(** The deferred closes: what is still open is closed, the range-key
    iterator first and the point iterator last; nothing else is called. *)
Lemma deferred_closes rd rk (k : nat) (st : @State W) :
  stage rd rk k st -> (k <= 3)%nat ->
  exists l,
    calls (deferredClose PointIter
             (deferredClose RangeDelIter (deferredClose RangeKeyIter st)))
    = calls st ++ l
    /\ closesOf (calls st ++ l) = closeSequence rd rk k
    /\ addsOf l = [] /\ encodesOf l = []
    /\ (k = 3%nat -> l = []).
Proof.
  intros [H1 H2] Hk.
  pose proof (H2 PointIter) as HP. pose proof (H2 RangeDelIter) as HD.
  pose proof (H2 RangeKeyIter) as HK. clear H2.
  destruct st as [w pc rdc rkc cs].
  exists ((match rkc with
           | Some r => [(CallIterClose RangeKeyIter, r)] | None => [] end)
          ++ (match rdc with
              | Some r => [(CallIterClose RangeDelIter, r)] | None => [] end)
          ++ (match pc with
              | Some r => [(CallIterClose PointIter, r)] | None => [] end)).
  unfold closed, deferredClose, closeHelper_Close, closeSequence in *.
  simpl in HP, HD, HK, H1.
  split.
  { destruct pc, rdc, rkc; simpl; rewrite ?app_nil_r, <- ?app_assoc;
      reflexivity. }
  cbn [calls]. rewrite closesOf_app, H1.
  destruct k as [|[|[|[|k]]]]; try lia;
    destruct pc as [pc|], rdc as [rdc|], rkc as [rkc|];
    simpl in HP, HD, HK; try discriminate;
    destruct rd, rk; simpl in HP, HD, HK; try discriminate;
    simpl; repeat split; try reflexivity; try discriminate; try lia.
Qed.

Lemma stage_initState (w : W) pointIter rangeDelIter rangeKeyIter :
  stage rangeDelIter rangeKeyIter 0
    (initState w pointIter rangeDelIter rangeKeyIter).
Proof.
  split; [reflexivity|].
  intros []; destruct rangeDelIter, rangeKeyIter; reflexivity.
Qed.

Lemma closeSequence_Permutation rd rk (k : nat) :
  Permutation (closeSequence rd rk k) (List.filter (given rd rk) iterOrder).
Proof.
  unfold closeSequence.
  rewrite <- (firstn_skipn k iterOrder) at 3. rewrite filter_app.
  apply Permutation_app_head. symmetry. apply Permutation_rev.
Qed.

(** The run of [writeSSTForIngestion] in terms of its body. *)
Lemma writeSSTForIngestion_run (w : W) pointIter rangeDelIter rangeKeyIter :
  exists (k : nat) (l : list (Call * option error)),
    let st0 := initState w pointIter rangeDelIter rangeKeyIter in
    let b := body_ pointIter rangeDelIter rangeKeyIter st0 in
    let res := writeSSTForIngestion_ w pointIter rangeDelIter rangeKeyIter in
    fst res = fst b
    /\ calls (snd res) = calls (snd b) ++ l
    /\ (k <= 3)%nat
    /\ (errOf (fst b) = None -> k = 3%nat)
    /\ closesOf (calls (snd res)) = closeSequence rangeDelIter rangeKeyIter k
    /\ addsOf l = [] /\ encodesOf l = []
    /\ (k = 3%nat -> l = []).
Proof.
  pose proof (body_reached pointIter rangeDelIter rangeKeyIter _
                (stage_initState w pointIter rangeDelIter rangeKeyIter))
    as (k & Hk & Hs & Hall).
  destruct (deferred_closes _ _ _ _ Hs) as (l & Hl & Hc & Ha & He & H3); [lia|].
  exists k, l. unfold writeSSTForIngestion.
  destruct (body_ pointIter rangeDelIter rangeKeyIter
              (initState w pointIter rangeDelIter rangeKeyIter)) as [r st].
  simpl in *. rewrite Hl. repeat split; auto. lia.
Qed.

Lemma run_reportsFirst (w : W) pointIter rangeDelIter rangeKeyIter :
  firstError
    (calls (snd (writeSSTForIngestion_ w pointIter rangeDelIter rangeKeyIter)))
  = errOf (fst (writeSSTForIngestion_ w pointIter rangeDelIter rangeKeyIter)).
Proof.
  destruct (writeSSTForIngestion_run w pointIter rangeDelIter rangeKeyIter)
    as (k & l & Hr & Hc & Hk & Hall & _ & _ & _ & H3).
  cbv zeta in *. rewrite Hr, Hc, firstError_app.
  rewrite (body_reportsFirst pointIter rangeDelIter rangeKeyIter
             (initState w pointIter rangeDelIter rangeKeyIter) eq_refl).
  destruct (errOf _) eqn:E; [reflexivity|].
  rewrite (H3 (Hall eq_refl)). reflexivity.
Qed.

Lemma run_added (w : W) pointIter rangeDelIter rangeKeyIter :
  exists n,
    Forall2 writtenAs_ (firstn n (survivors_ (pointRecords pointIter) None))
      (addsOf (calls (snd (writeSSTForIngestion_ w pointIter rangeDelIter
                             rangeKeyIter))))
    /\ (errOf (fst (writeSSTForIngestion_ w pointIter rangeDelIter rangeKeyIter))
        = None ->
        Forall2 writtenAs_ (survivors_ (pointRecords pointIter) None)
          (addsOf (calls (snd (writeSSTForIngestion_ w pointIter rangeDelIter
                                 rangeKeyIter))))).
Proof.
  destruct (writeSSTForIngestion_run w pointIter rangeDelIter rangeKeyIter)
    as (k & l & Hr & Hc & _ & _ & _ & Ha & _ & _).
  destruct (body_added pointIter rangeDelIter rangeKeyIter
              (initState w pointIter rangeDelIter rangeKeyIter))
    as (outs & n & Hadded & Hn & Hfull).
  cbv zeta in *. rewrite Hr, Hc, addsOf_app, Ha, app_nil_r.
  unfold added in Hadded. simpl in Hadded. rewrite Hadded.
  exists n. split; assumption.
Qed.

Lemma run_encoded (w : W) pointIter rangeDelIter rangeKeyIter :
  exists n,
    encodesOf (calls (snd (writeSSTForIngestion_ w pointIter rangeDelIter
                             rangeKeyIter)))
    = map collapsedSpan_ (firstn n (rangeKeySpans rangeKeyIter))
    /\ (errOf (fst (writeSSTForIngestion_ w pointIter rangeDelIter rangeKeyIter))
        = None ->
        encodesOf (calls (snd (writeSSTForIngestion_ w pointIter rangeDelIter
                                 rangeKeyIter)))
        = map collapsedSpan_ (rangeKeySpans rangeKeyIter)).
Proof.
  destruct (writeSSTForIngestion_run w pointIter rangeDelIter rangeKeyIter)
    as (k & l & Hr & Hc & _ & _ & _ & _ & He & _).
  destruct (body_encoded pointIter rangeDelIter rangeKeyIter
              (initState w pointIter rangeDelIter rangeKeyIter))
    as (n & Hn & Hfull).
  cbv zeta in *. rewrite Hr, Hc, encodesOf_app, He, app_nil_r.
  unfold encoded in *. simpl in Hn, Hfull.
  exists n. split; assumption.
Qed.

(** C4, as amended.  On every exit path each iterator that was given is
    closed exactly once.  The body closes them in the order point,
    range-deletion, range-key, and a run that succeeds has closed all three
    in that order; when the body fails after closing the first [k], the
    deferred calls close the remaining ones in reverse order.  The error
    returned is the first error any call met: the result of a deferred close
    is dropped. *)
Theorem closes_and_first_error (w : W) pointIter rangeDelIter rangeKeyIter :
  let res := writeSSTForIngestion_ w pointIter rangeDelIter rangeKeyIter in
  Permutation (closesOf (calls (snd res)))
    (List.filter (given rangeDelIter rangeKeyIter) iterOrder)
  /\ (exists k, (k <= 3)%nat
        /\ closesOf (calls (snd res)) = closeSequence rangeDelIter rangeKeyIter k
        /\ (errOf (fst res) = None -> k = 3%nat))
  /\ (errOf (fst res) = None ->
      closesOf (calls (snd res))
      = List.filter (given rangeDelIter rangeKeyIter) iterOrder)
  /\ firstError (calls (snd res)) = errOf (fst res).
Proof.
  intros res.
  destruct (writeSSTForIngestion_run w pointIter rangeDelIter rangeKeyIter)
    as (k & l & Hr & Hc & Hk & Hall & Hcl & _ & _ & _).
  cbv zeta in *. fold res in Hr, Hc, Hcl.
  repeat split.
  - rewrite Hcl. apply closeSequence_Permutation.
  - exists k. rewrite Hr. auto.
  - intros H. rewrite Hr in H. rewrite Hcl, (Hall H).
    unfold closeSequence. simpl rev. rewrite app_nil_r. reflexivity.
  - apply run_reportsFirst.
Qed.

(** C5.  Every key handed to the writer's [Add] carries the sequence number
    [SeqNumZero], whatever sequence number the record had in the input; and a
    run that succeeds has handed over every surviving record, in order, under
    its output key and with that sequence number. *)
Theorem added_keys_have_SeqNumZero (w : W) pointIter rangeDelIter rangeKeyIter :
  let res := writeSSTForIngestion_ w pointIter rangeDelIter rangeKeyIter in
  Forall (fun kv => SeqNum (fst kv) = SeqNumZero) (addsOf (calls (snd res)))
  /\ (errOf (fst res) = None ->
      Forall2
        (fun rec out =>
           UserKey (fst out) = outputKey_ (UserKey (fst rec))
           /\ SeqNum (fst out) = SeqNumZero)
        (survivors_ (pointRecords pointIter) None) (addsOf (calls (snd res)))).
Proof.
  intros res.
  destruct (run_added w pointIter rangeDelIter rangeKeyIter) as (n & Hn & Hfull).
  fold res in Hn, Hfull. split.
  - clear Hfull.
    induction Hn as [|rec out recs outs Hw _ IH]; constructor; auto.
    apply Hw.
  - intros H. specialize (Hfull H). clear Hn H.
    induction Hfull as [|rec out recs outs Hw _ IH]; constructor; auto.
    split; apply Hw.
Qed.

(** C8.  The [Add] calls are made for the surviving records in order.  The
    call made for a size-annotated delete, when the target format does not
    support that kind, has the plain delete kind and an empty value; every
    other call has the kind and the value of its record.  A run that
    succeeds has made the call for every survivor. *)
Theorem delete_sized_translated (w : W) pointIter rangeDelIter rangeKeyIter :
  let res := writeSSTForIngestion_ w pointIter rangeDelIter rangeKeyIter in
  let translated_ :=
    translated FormatDeleteSizedAndObsolete targetFMV in
  (exists n,
     Forall2 translated_ (firstn n (survivors_ (pointRecords pointIter) None))
       (addsOf (calls (snd res))))
  /\ (errOf (fst res) = None ->
      Forall2 translated_ (survivors_ (pointRecords pointIter) None)
        (addsOf (calls (snd res)))).
Proof.
  intros res translated_.
  destruct (run_added w pointIter rangeDelIter rangeKeyIter) as (n & Hn & Hfull).
  fold res in Hn, Hfull.
  assert (Hweak : forall l1 l2, Forall2 writtenAs_ l1 l2 ->
                                Forall2 translated_ l1 l2).
  { intros l1 l2 H. induction H as [|a b l1 l2 Hab _ IH]; constructor; auto.
    apply Hab. }
  split; [exists n|]; auto.
Qed.

End BuildFacts.

Section OrderedFacts.
Context (cmp : Comparer) (Hok : ComparerOk cmp).
Context {W Meta : Type} (ops : WriterOps W Meta).
Context (FormatDeleteSizedAndObsolete : Z).
Context (uniquePrefixes : bool) (syntheticSuffix syntheticPrefix : bytes).
Context (targetFMV : Z).

Local Abbreviation collapsedSpan_ :=
  (collapsedSpan cmp syntheticSuffix syntheticPrefix).
Local Abbreviation survivors_ := (survivors cmp uniquePrefixes).
Local Abbreviation firstSeen_ := (firstSeen cmp uniquePrefixes).
Local Abbreviation identityKey_ := (identityKey cmp uniquePrefixes).
Local Abbreviation writeSSTForIngestion_ :=
  (writeSSTForIngestion cmp ops FormatDeleteSizedAndObsolete uniquePrefixes
     syntheticSuffix syntheticPrefix targetFMV).

Lemma Kind_zeroTrailer (k : Keyspan.Key) :
  Keyspan.Kind (zeroTrailer k) = Keyspan.Kind k.
Proof.
  unfold zeroTrailer, Keyspan.Kind at 1; simpl.
  apply BaseFacts.Kind_MakeTrailer_Zero, KeyspanFacts.Kind_bounds.
Qed.

Lemma SeqNum_zeroTrailer (k : Keyspan.Key) :
  Keyspan.SeqNum (zeroTrailer k) = SeqNumZero.
Proof.
  unfold zeroTrailer, Keyspan.SeqNum; simpl.
  apply BaseFacts.SeqNum_MakeTrailer_Zero, KeyspanFacts.Kind_bounds.
Qed.

Lemma collapsedSpan_canonical (span : Keyspan.Span) :
  Keyspan.canonical cmp (Keyspan.Keys (collapsedSpan_ span)).
Proof.
  unfold collapsedSpan; simpl. split; [|split].
  - eapply KeyspanFacts.ForallOrdPairs_Permutation;
      [intros a b; apply (KeyspanFacts.sameOp_sym cmp Hok)
      |apply KeyspanFacts.SortKeysByTrailer_Permutation|].
    eapply KeyspanFacts.ForallOrdPairs_map;
      [|apply (KeyspanFacts.coalesceFrom_distinct cmp [] (Keyspan.Keys span))].
    intros a b Hab [Hk Hs]. apply Hab.
    rewrite !Kind_zeroTrailer in Hk. split; assumption.
  - eapply Permutation_Forall;
      [apply KeyspanFacts.SortKeysByTrailer_Permutation|].
    apply Forall_map, Forall_forall. intros k _. apply SeqNum_zeroTrailer.
  - apply KeyspanFacts.SortKeysByTrailer_descending.
Qed.

(** C9.  The spans handed to the range-key encoder are the collapsed input
    spans, in order, all of them when the run succeeds.  The keys of each
    hold at most one operation per kind and suffix, all carry the sequence
    number zero, and they are sorted by trailer, descending. *)
Theorem encoded_spans_canonical (w : W) pointIter rangeDelIter rangeKeyIter :
  let res := writeSSTForIngestion_ w pointIter rangeDelIter rangeKeyIter in
  (exists n, encodesOf (calls (snd res))
             = map collapsedSpan_ (firstn n (rangeKeySpans rangeKeyIter)))
  /\ (errOf (fst res) = None ->
      encodesOf (calls (snd res))
      = map collapsedSpan_ (rangeKeySpans rangeKeyIter))
  /\ Forall (fun s => Keyspan.canonical cmp (Keyspan.Keys s))
       (encodesOf (calls (snd res))).
Proof.
  intros res.
  destruct (run_encoded cmp ops FormatDeleteSizedAndObsolete uniquePrefixes
              syntheticSuffix syntheticPrefix targetFMV w pointIter
              rangeDelIter rangeKeyIter) as (n & Hn & Hfull).
  fold res in Hn, Hfull. repeat split; eauto.
  rewrite Hn. apply Forall_map, Forall_forall.
  intros s _. apply collapsedSpan_canonical.
Qed.

(** *** The deduplicating loop against the deduplicator of the specification *)

Definition keysSorted (records : list (InternalKey * LazyValue)) : Prop :=
  StronglySorted
    (fun a b => leK cmp (UserKey (fst a)) (UserKey (fst b))) records.

Definition keysNonEmpty (records : list (InternalKey * LazyValue)) : Prop :=
  Forall (fun r => UserKey (fst r) <> []) records.

Lemma identityKey_mono (a b : bytes) :
  leK cmp a b -> leK cmp (identityKey_ a) (identityKey_ b).
Proof.
  unfold identityKey. destruct uniquePrefixes; [apply (Split_mono Hok)|auto].
Qed.

Lemma isDuplicate_Some (last key : bytes) :
  isDuplicate cmp uniquePrefixes (Some last) key
  = Equal cmp (identityKey_ last) (identityKey_ key).
Proof. unfold isDuplicate, identityKey. destruct uniquePrefixes; reflexivity. Qed.

Lemma survivors_firstSeen_from (records : list (InternalKey * LazyValue))
  (last : bytes) (seen : list bytes) :
  In (identityKey_ last) seen ->
  Forall (fun s => leK cmp s (identityKey_ last)) seen ->
  Forall (fun r => leK cmp last (UserKey (fst r))) records ->
  keysSorted records ->
  survivors_ records (Some last) = firstSeen_ seen records.
Proof.
  revert last seen; induction records as [|[key value] rest IH];
    intros last seen Hin Hseen Hge Hsorted; [reflexivity|].
  cbn [survivors firstSeen fst snd]. rewrite isDuplicate_Some.
  inversion Hge as [|r l Hlast Hge']; subst.
  inversion Hsorted as [|r l Hsorted' Hkey]; subst. simpl in Hlast, Hkey.
  pose proof (identityKey_mono _ _ Hlast) as Hmono.
  destruct (Equal cmp (identityKey_ last) (identityKey_ (UserKey key))) eqn:E.
  - assert (existsb (fun s => Equal cmp s (identityKey_ (UserKey key))) seen
            = true) as -> by (apply existsb_exists; eauto).
    apply IH; auto.
  - assert (existsb (fun s => Equal cmp s (identityKey_ (UserKey key))) seen
            = false) as ->.
    { destruct (existsb _ seen) eqn:Hex; [|reflexivity].
      apply existsb_exists in Hex. destruct Hex as (s & Hs & Heq).
      apply (Equal_Compare Hok) in Heq.
      rewrite Forall_forall in Hseen. specialize (Hseen s Hs).
      assert (leK cmp (identityKey_ (UserKey key)) (identityKey_ last))
        by (eapply (Compare_trans Hok);
            [apply Eq_leK, (Compare_Eq_sym Hok), Heq|exact Hseen]).
      pose proof (leK_antisym Hok _ _ Hmono H) as Heq'.
      apply (Equal_Compare Hok) in Heq'. congruence. }
    f_equal. change (resetAppend (Some last) (UserKey key)) with (Some (UserKey key)).
    apply IH.
    + now left.
    + constructor; [apply (leK_refl Hok)|].
      eapply Forall_impl; [|exact Hseen].
      intros s Hs. cbv beta in Hs. exact (Compare_trans Hok _ _ _ Hs Hmono).
    + exact Hkey.
    + exact Hsorted'.
Qed.

(** On a stream sorted by user key whose keys are not empty, the loop keeps
    exactly the records that the deduplicator of the specification emits:
    the first record of every identity key. *)
Theorem survivors_firstSeen (records : list (InternalKey * LazyValue)) :
  keysSorted records -> keysNonEmpty records ->
  survivors_ records None = firstSeen_ [] records.
Proof.
  intros Hsorted Hne. destruct records as [|[key value] rest]; [reflexivity|].
  simpl. inversion Hne as [|r l Hk _]; subst. simpl in Hk.
  inversion Hsorted as [|r l Hsorted' Hkey]; subst.
  f_equal. destruct (UserKey key) as [|b k'] eqn:Ek; [congruence|].
  change (resetAppend None (b :: k')) with (Some (b :: k')).
  rewrite <- Ek in *. apply survivors_firstSeen_from.
  - now left.
  - constructor; [apply (leK_refl Hok)|constructor].
  - exact Hkey.
  - exact Hsorted'.
Qed.

End OrderedFacts.

(** *** What the writer is handed, and what follows a failure *)

Lemma deletesOf_app (l1 l2 : list (Call * option error)) :
  deletesOf (l1 ++ l2) = deletesOf l1 ++ deletesOf l2.
Proof. apply flat_map_app. Qed.

Lemma writerCallsOf_app (l1 l2 : list (Call * option error)) :
  writerCallsOf (l1 ++ l2) = writerCallsOf l1 ++ writerCallsOf l2.
Proof. apply flat_map_app. Qed.

Lemma firstError_clean (l : list (Call * option error)) :
  firstError l = None -> Forall (fun c => snd c = None) l.
Proof.
  induction l as [|[c [e|]] l IH]; simpl; intros H;
    [constructor|discriminate|constructor; auto].
Qed.

Lemma afterFailure_app (l1 l2 : list (Call * option error)) :
  firstError l1 = None -> afterFailure (l1 ++ l2) = afterFailure l2.
Proof.
  induction l1 as [|[c [e|]] l1 IH]; simpl; auto. discriminate.
Qed.

Definition isDelete (c : Call) : bool :=
  match c with CallDeleteRange _ _ => true | _ => false end.

(** The calls of the three parts of the body, and the calls on iterators. *)
Definition inPoints (c : Call) : bool :=
  match c with CallValue _ | CallAdd _ _ => true | _ => false end.

Definition onIterator (c : Call) : bool :=
  match c with CallIterEnd _ | CallIterClose _ => true | _ => false end.

Lemma only_closes (l : list (Call * option error)) :
  Forall (fun c => isClose (fst c) = true) l ->
  addsOf l = [] /\ deletesOf l = [] /\ encodesOf l = []
  /\ writerCallsOf l = [].
Proof.
  induction 1 as [|[c r] l Hc _ IH]; [repeat split|].
  destruct c; try discriminate. exact IH.
Qed.

Section Invariants.
Context {W : Type}.

(** A set of logs is kept by the calls [ok] when it is closed under
    appending such a call, whatever the call returns. *)
Definition keptBy (ok : Call -> bool)
  (I : list (Call * option error) -> Prop) : Prop :=
  forall l c r, ok c = true -> I l -> I (l ++ [(c, r)]).

(** A computation keeps the log inside [I]. *)
Definition inv {A : Type} (I : list (Call * option error) -> Prop)
  (m : M (W:=W) A) : Prop :=
  triple (fun st => I (calls st)) m (fun _ st => I (calls st)).

Lemma keptBy_weaken (ok ok' : Call -> bool) I :
  keptBy ok I -> (forall c, ok' c = true -> ok c = true) -> keptBy ok' I.
Proof. intros H Hok l c r Hc. apply H, Hok, Hc. Qed.

Lemma inv_ret {A : Type} I (a : A) : inv I (ret a).
Proof. intros st H. exact H. Qed.

Lemma inv_bind {A B : Type} I (m : M A) (k : A -> M B) :
  inv I m -> (forall a, inv I (k a)) -> inv I (bind m k).
Proof.
  intros Hm Hk. eapply triple_bind; [exact Hm| |exact Hk].
  intros e st H. exact H.
Qed.

Lemma inv_check ok I (c : Call) (r : option error) :
  keptBy ok I -> ok c = true -> inv I (check c r).
Proof. intros HI Hc st H. unfold check; simpl. now apply HI. Qed.

Lemma inv_onWriter ok I (c : Call) (f : W -> W * option error) :
  keptBy ok I -> ok c = true -> inv I (onWriter c f).
Proof.
  intros HI Hc st H. unfold onWriter. destruct (f (writer st)) as [w r].
  apply (inv_check ok I c r HI Hc (setWriter w st)). exact H.
Qed.

Lemma inv_closeOrReturn ok I (it : IterId) :
  keptBy ok I -> ok (CallIterClose it) = true -> inv I (closeOrReturn it).
Proof.
  intros HI Hc st H. unfold closeOrReturn, closeHelper_Close.
  destruct (getCloser it st) as [r|]; simpl; [|exact H].
  now apply HI.
Qed.

Lemma inv_fragments ok I (it : IterId) (loop : list Keyspan.Span -> M unit)
  (iter : option FragmentIterator) :
  keptBy ok I -> (forall c, onIterator c = true -> ok c = true) ->
  (forall spans, inv I (loop spans)) -> inv I (fragments it loop iter).
Proof.
  intros HI Hok Hloop. destruct iter as [i|]; simpl; [|apply inv_ret].
  apply inv_bind; [apply Hloop|intros _].
  apply inv_bind; [apply (inv_check ok); auto|intros _].
  apply (inv_closeOrReturn ok); auto.
Qed.

(** A computation stops at the first call that fails: when it returns an
    error, that error is the result of the last call it made, and no call
    before it failed. *)
Definition stopped {A : Type} (r : error + A) (l : list (Call * option error))
  : Prop :=
  match r with
  | inr _ => firstError l = None
  | inl e => exists l1 c, l = l1 ++ [(c, Some e)] /\ firstError l1 = None
  end.

Definition stops {A : Type} (m : M (W:=W) A) : Prop :=
  triple (fun st => firstError (calls st) = None) m
    (fun r st => stopped r (calls st)).

Lemma stops_ret {A : Type} (a : A) : stops (ret a).
Proof. intros st H. exact H. Qed.

Lemma stops_bind {A B : Type} (m : M A) (k : A -> M B) :
  stops m -> (forall a, stops (k a)) -> stops (bind m k).
Proof.
  intros Hm Hk.
  eapply triple_bind with (Q := fun r st => stopped r (calls st));
    [exact Hm| |].
  - intros e st H. exact H.
  - intros a st H. apply Hk. exact H.
Qed.

Lemma stops_check (c : Call) (r : option error) : stops (check c r).
Proof.
  intros st H. unfold check; simpl. destruct r as [e|]; simpl.
  - exists (calls st), c. split; [reflexivity|exact H].
  - rewrite firstError_app, H. reflexivity.
Qed.

Lemma stops_onWriter (c : Call) (f : W -> W * option error) :
  stops (onWriter c f).
Proof.
  intros st H. unfold onWriter. destruct (f (writer st)) as [w r].
  apply (stops_check c r (setWriter w st)). exact H.
Qed.

Lemma stops_closeOrReturn (it : IterId) : stops (closeOrReturn it).
Proof.
  intros st H. unfold closeOrReturn, closeHelper_Close.
  destruct (getCloser it st) as [[e|]|]; simpl.
  - exists (calls st), (CallIterClose it). split; [reflexivity|exact H].
  - rewrite firstError_app, H. reflexivity.
  - exact H.
Qed.

Lemma stops_fragments (it : IterId) (loop : list Keyspan.Span -> M unit)
  (iter : option FragmentIterator) :
  (forall spans, stops (loop spans)) -> stops (fragments it loop iter).
Proof.
  intros Hloop. destruct iter as [i|]; simpl; [|apply stops_ret].
  apply stops_bind; [apply Hloop|intros _].
  apply stops_bind; [apply stops_check|intros _].
  apply stops_closeOrReturn.
Qed.

(** The deferred closes make no call but closes. *)
Lemma deferred_only_closes (st : @State W) :
  exists l,
    calls (deferredClose PointIter
             (deferredClose RangeDelIter (deferredClose RangeKeyIter st)))
    = calls st ++ l
    /\ Forall (fun c => isClose (fst c) = true) l.
Proof.
  destruct st as [w pc rdc rkc cs].
  exists ((match rkc with
           | Some r => [(CallIterClose RangeKeyIter, r)] | None => [] end)
          ++ (match rdc with
              | Some r => [(CallIterClose RangeDelIter, r)] | None => [] end)
          ++ (match pc with
              | Some r => [(CallIterClose PointIter, r)] | None => [] end)).
  unfold deferredClose, closeHelper_Close. split.
  - destruct pc, rdc, rkc; simpl; rewrite ?app_nil_r, <- ?app_assoc;
      reflexivity.
  - destruct pc, rdc, rkc; simpl; repeat constructor.
Qed.

End Invariants.

Section Protocol.
Context (cmp : Comparer) {W Meta : Type} (ops : WriterOps W Meta).
Context (FormatDeleteSizedAndObsolete : Z).
Context (uniquePrefixes : bool) (syntheticSuffix syntheticPrefix : bytes).
Context (targetFMV : Z).

Local Abbreviation pointLoop_ :=
  (pointLoop cmp ops FormatDeleteSizedAndObsolete uniquePrefixes
     syntheticSuffix syntheticPrefix targetFMV).
Local Abbreviation rangeDelLoop_ :=
  (rangeDelLoop cmp ops syntheticSuffix syntheticPrefix).
Local Abbreviation rangeKeyLoop_ :=
  (rangeKeyLoop cmp ops syntheticSuffix syntheticPrefix).
Local Abbreviation outputKey_ := (outputKey cmp syntheticSuffix syntheticPrefix).
Local Abbreviation body_ :=
  (body cmp ops FormatDeleteSizedAndObsolete uniquePrefixes syntheticSuffix
     syntheticPrefix targetFMV).
Local Abbreviation writeSSTForIngestion_ :=
  (writeSSTForIngestion cmp ops FormatDeleteSizedAndObsolete uniquePrefixes
     syntheticSuffix syntheticPrefix targetFMV).

Lemma pointLoop_inv I records last :
  keptBy inPoints I -> inv I (pointLoop_ records last).
Proof.
  intros HI. revert last; induction records as [|[key value] rest IH];
    intros last.
  - apply inv_ret.
  - rewrite pointLoop_cons.
    destruct (isDuplicate _ _ _ _); [apply IH|].
    destruct (Value _); [now apply (inv_check inPoints)|].
    apply inv_bind; [now apply (inv_check inPoints)|intros _].
    apply inv_bind; [now apply (inv_onWriter inPoints)|intros _].
    apply IH.
Qed.

Lemma rangeDelLoop_inv I spans :
  keptBy isDelete I -> inv I (rangeDelLoop_ spans).
Proof.
  intros HI. induction spans as [|span rest IH]; simpl; [apply inv_ret|].
  apply inv_bind; [now apply (inv_onWriter isDelete)|intros _; exact IH].
Qed.

Lemma rangeKeyLoop_inv I spans :
  keptBy isEncode I -> inv I (rangeKeyLoop_ spans).
Proof.
  intros HI. induction spans as [|span rest IH]; simpl; [apply inv_ret|].
  apply inv_bind; [now apply (inv_onWriter isEncode)|intros _; exact IH].
Qed.

Lemma pointLoop_stops records last : stops (pointLoop_ records last).
Proof.
  revert last; induction records as [|[key value] rest IH]; intros last.
  - apply stops_ret.
  - rewrite pointLoop_cons.
    destruct (isDuplicate _ _ _ _); [apply IH|].
    destruct (Value _); [apply stops_check|].
    apply stops_bind; [apply stops_check|intros _].
    apply stops_bind; [apply stops_onWriter|intros _].
    apply IH.
Qed.

Lemma rangeDelLoop_stops spans : stops (rangeDelLoop_ spans).
Proof.
  induction spans as [|span rest IH]; simpl; [apply stops_ret|].
  apply stops_bind; [apply stops_onWriter|intros _; exact IH].
Qed.

Lemma rangeKeyLoop_stops spans : stops (rangeKeyLoop_ spans).
Proof.
  induction spans as [|span rest IH]; simpl; [apply stops_ret|].
  apply stops_bind; [apply stops_onWriter|intros _; exact IH].
Qed.

Lemma finish_stops : stops (finish ops).
Proof.
  unfold finish. apply stops_bind; [apply stops_onWriter|].
  intros _ st H. destruct (wMetadata ops (writer st)) as [e|m]; simpl.
  - exists (calls st), CallMetadata. split; [reflexivity|exact H].
  - rewrite firstError_app, H. reflexivity.
Qed.

Lemma body_stops pointIter rangeDelIter rangeKeyIter :
  stops (body_ pointIter rangeDelIter rangeKeyIter).
Proof.
  unfold body.
  apply stops_bind; [apply pointLoop_stops|intros _].
  apply stops_bind; [apply stops_closeOrReturn|intros _].
  apply stops_bind; [apply stops_fragments, rangeDelLoop_stops|intros _].
  apply stops_bind; [apply stops_fragments, rangeKeyLoop_stops|intros _].
  apply finish_stops.
Qed.

(** Once a call has failed, nothing more is read from the iterators and
    nothing more is handed to the writer, which is not closed either: the
    calls that follow the first failed call are the closes of the iterators
    still open.  A run that succeeds has no failed call: every call of its
    log, the closes included, has returned without an error. *)
Theorem after_failure_only_closes (w : W) pointIter rangeDelIter rangeKeyIter :
  let res := writeSSTForIngestion_ w pointIter rangeDelIter rangeKeyIter in
  Forall (fun c => exists it, fst c = CallIterClose it)
    (afterFailure (calls (snd res)))
  /\ (errOf (fst res) = None ->
      Forall (fun c => snd c = None) (calls (snd res))).
Proof.
  intros res.
  pose proof (body_stops pointIter rangeDelIter rangeKeyIter
                (initState w pointIter rangeDelIter rangeKeyIter) eq_refl)
    as Hb.
  pose proof (run_reportsFirst cmp ops FormatDeleteSizedAndObsolete
                uniquePrefixes syntheticSuffix syntheticPrefix targetFMV
                w pointIter rangeDelIter rangeKeyIter) as Hfirst.
  fold res in Hfirst. split.
  - unfold res, writeSSTForIngestion.
    destruct (body_ pointIter rangeDelIter rangeKeyIter
                (initState w pointIter rangeDelIter rangeKeyIter))
      as [r st].
    simpl in Hb. cbn [snd].
    destruct (deferred_only_closes st) as (l & Hl & Hcl). rewrite Hl.
    assert (Hl' : Forall (fun c : Call * option error =>
                            exists it, fst c = CallIterClose it) l).
    { eapply Forall_impl; [|exact Hcl].
      intros [c r0] H. destruct c; try discriminate. simpl. eauto. }
    destruct r as [e|m]; simpl in Hb.
    + destruct Hb as (l1 & c & Hc & Hl1). rewrite Hc, <- app_assoc.
      rewrite afterFailure_app by exact Hl1. exact Hl'.
    + rewrite afterFailure_app by exact Hb.
      clear -Hl'. induction Hl' as [|[c [e|]] l Hc Hl' IH]; simpl; auto.
  - intros H. apply firstError_clean. now rewrite Hfirst.
Qed.

End Protocol.
Section WriterView.
Context (cmp : Comparer) {W Meta : Type} (ops : WriterOps W Meta).
Context (FormatDeleteSizedAndObsolete : Z).
Context (uniquePrefixes : bool) (syntheticSuffix syntheticPrefix : bytes).
Context (targetFMV : Z).

Local Abbreviation pointLoop_ :=
  (pointLoop cmp ops FormatDeleteSizedAndObsolete uniquePrefixes
     syntheticSuffix syntheticPrefix targetFMV).
Local Abbreviation rangeDelLoop_ :=
  (rangeDelLoop cmp ops syntheticSuffix syntheticPrefix).
Local Abbreviation rangeKeyLoop_ :=
  (rangeKeyLoop cmp ops syntheticSuffix syntheticPrefix).
Local Abbreviation outputKey_ := (outputKey cmp syntheticSuffix syntheticPrefix).
Local Abbreviation body_ :=
  (body cmp ops FormatDeleteSizedAndObsolete uniquePrefixes syntheticSuffix
     syntheticPrefix targetFMV).
Local Abbreviation writeSSTForIngestion_ :=
  (writeSSTForIngestion cmp ops FormatDeleteSizedAndObsolete uniquePrefixes
     syntheticSuffix syntheticPrefix targetFMV).

(** The point records, the range deletions and the range keys of a log, as
    the calls that handed them to the writer. *)
Definition handedOver (l : list (Call * option error)) : list Call :=
  map (fun kv => CallAdd (fst kv) (snd kv)) (addsOf l)
  ++ map (fun se => CallDeleteRange (fst se) (snd se)) (deletesOf l)
  ++ map CallEncode (encodesOf l).

(** The log while the points are written, while the range deletions are,
    and while the range keys are. *)
Definition atPoints (l : list (Call * option error)) : Prop :=
  writerCallsOf l = handedOver l /\ deletesOf l = [] /\ encodesOf l = [].

Definition atRangeDels (l : list (Call * option error)) : Prop :=
  writerCallsOf l = handedOver l /\ encodesOf l = [].

Definition atRangeKeys (l : list (Call * option error)) : Prop :=
  writerCallsOf l = handedOver l.

Lemma atPoints_atRangeDels l : atPoints l -> atRangeDels l.
Proof. intros (H & _ & He). split; assumption. Qed.

Lemma atRangeDels_atRangeKeys l : atRangeDels l -> atRangeKeys l.
Proof. intros (H & _). exact H. Qed.

Lemma handedOver_snoc (l : list (Call * option error)) (c : Call)
  (r : option error) :
  handedOver (l ++ [(c, r)]) =
  map (fun kv => CallAdd (fst kv) (snd kv))
    (addsOf l ++ match c with CallAdd k v => [(k, v)] | _ => [] end)
  ++ map (fun se => CallDeleteRange (fst se) (snd se))
       (deletesOf l ++ match c with CallDeleteRange s e => [(s, e)] | _ => [] end)
  ++ map CallEncode
       (encodesOf l ++ match c with CallEncode s => [s] | _ => [] end).
Proof.
  unfold handedOver. rewrite addsOf_app, deletesOf_app, encodesOf_app.
  simpl. rewrite !app_nil_r. reflexivity.
Qed.

Lemma writerCallsOf_snoc (l : list (Call * option error)) (c : Call)
  (r : option error) :
  writerCallsOf (l ++ [(c, r)]) =
  writerCallsOf l ++ (if isWriterCall c then [c] else []).
Proof. rewrite writerCallsOf_app. simpl. now rewrite app_nil_r. Qed.

Lemma atPoints_kept :
  keptBy (fun c => inPoints c || onIterator c) atPoints.
Proof.
  intros l c r Hc (Hw & Hd & He). unfold atPoints.
  rewrite writerCallsOf_snoc, handedOver_snoc, deletesOf_app, encodesOf_app.
  unfold handedOver in Hw. rewrite Hd, He in *. simpl in Hw.
  rewrite app_nil_r in Hw.
  destruct c; try discriminate; simpl; rewrite ?app_nil_r; auto.
  rewrite map_app, Hw. auto.
Qed.

Lemma atRangeDels_kept :
  keptBy (fun c => isDelete c || onIterator c) atRangeDels.
Proof.
  intros l c r Hc (Hw & He). unfold atRangeDels.
  rewrite writerCallsOf_snoc, handedOver_snoc, encodesOf_app.
  unfold handedOver in Hw. rewrite He in *. simpl in Hw.
  rewrite app_nil_r in Hw.
  destruct c; try discriminate; simpl; rewrite ?app_nil_r; auto.
  rewrite map_app, Hw, <- app_assoc. auto.
Qed.

Lemma atRangeKeys_kept :
  keptBy (fun c => isEncode c || onIterator c) atRangeKeys.
Proof.
  intros l c r Hc Hw. unfold atRangeKeys.
  rewrite writerCallsOf_snoc, handedOver_snoc.
  unfold atRangeKeys, handedOver in Hw.
  destruct c; try discriminate; simpl; rewrite ?app_nil_r; auto.
  rewrite map_app, Hw, <- !app_assoc. auto.
Qed.

(** The log when the body returns. *)
Definition finished {A : Type} (r : error + A)
  (l : list (Call * option error)) : Prop :=
  exists tail,
    writerCallsOf l = handedOver l ++ tail
    /\ (tail = [] \/ tail = [CallWriterClose]
        \/ tail = [CallWriterClose; CallMetadata])
    /\ (errOf r = None -> tail = [CallWriterClose; CallMetadata]).

Lemma atRangeKeys_finished {A : Type} (e : error)
  (l : list (Call * option error)) :
  atRangeKeys l -> finished (A:=A) (inl e) l.
Proof.
  intros H. exists []. rewrite app_nil_r.
  split; [exact H|]. split; [now left|discriminate].
Qed.

Lemma handedOver_tail (l : list (Call * option error)) (c : Call)
  (r : option error) :
  c = CallWriterClose \/ c = CallMetadata ->
  handedOver (l ++ [(c, r)]) = handedOver l.
Proof.
  intros [-> | ->]; rewrite handedOver_snoc; simpl; now rewrite !app_nil_r.
Qed.

Lemma finish_finished :
  triple (fun st => atRangeKeys (calls st)) (finish ops)
    (fun r st => finished r (calls st)).
Proof.
  intros st H. unfold finish. rewrite bind_unfold. unfold onWriter, check.
  destruct (wClose ops (writer st)) as [w' [e|]]; cbn [fst snd].
  - exists [CallWriterClose]. cbn [calls logCall setWriter].
    rewrite writerCallsOf_snoc, handedOver_tail by auto. simpl.
    split; [now rewrite H|]. split; [auto|discriminate].
  - exists [CallWriterClose; CallMetadata].
    assert (Hl : exists r,
               calls (snd (match wMetadata ops
                                   (writer (logCall CallWriterClose None
                                              (setWriter w' st))) with
                           | inl e => (inl e, logCall CallMetadata (Some e)
                                                (logCall CallWriterClose None
                                                   (setWriter w' st)))
                           | inr m => (inr m, logCall CallMetadata None
                                                (logCall CallWriterClose None
                                                   (setWriter w' st)))
                           end))
               = (calls st ++ [(CallWriterClose, None)]) ++ [(CallMetadata, r)]).
    { destruct (wMetadata ops _); simpl; eauto. }
    destruct Hl as (r & Hl). rewrite Hl.
    rewrite !writerCallsOf_snoc, !handedOver_tail by auto. simpl.
    split; [now rewrite H, <- app_assoc|]. split; auto.
Qed.

Lemma body_finished pointIter rangeDelIter rangeKeyIter :
  triple (fun st => atPoints (calls st))
    (body_ pointIter rangeDelIter rangeKeyIter)
    (fun r st => finished r (calls st)).
Proof.
  unfold body.
  eapply triple_bind;
    [apply (pointLoop_inv cmp ops FormatDeleteSizedAndObsolete uniquePrefixes
              syntheticSuffix syntheticPrefix targetFMV atPoints)| |
     intros ?; cbv beta].
  { eapply keptBy_weaken; [apply atPoints_kept|].
    intros c Hc. cbv beta. now rewrite Hc. }
  { intros e st H.
    now apply atRangeKeys_finished, atRangeDels_atRangeKeys,
      atPoints_atRangeDels. }
  eapply triple_bind;
    [apply (inv_closeOrReturn _ atPoints PointIter atPoints_kept eq_refl)| |
     intros ?; cbv beta].
  { intros e st H.
    now apply atRangeKeys_finished, atRangeDels_atRangeKeys,
      atPoints_atRangeDels. }
  eapply triple_bind with (Q := fun _ st => atRangeDels (calls st)).
  { eapply triple_weaken with (P := fun st => atRangeDels (calls st));
      [apply (inv_fragments _ atRangeDels RangeDelIter _ rangeDelIter
                atRangeDels_kept)| |].
    - intros c Hc. cbv beta. rewrite Hc. apply orb_true_r.
    - intros spans.
      apply (rangeDelLoop_inv cmp ops syntheticSuffix syntheticPrefix).
      eapply keptBy_weaken; [apply atRangeDels_kept|].
      intros c Hc. cbv beta. now rewrite Hc.
    - intros st H. now apply atPoints_atRangeDels.
    - intros r st H. exact H. }
  { intros e st H. now apply atRangeKeys_finished, atRangeDels_atRangeKeys. }
  intros ?; cbv beta.
  eapply triple_bind with (Q := fun _ st => atRangeKeys (calls st)).
  { eapply triple_weaken with (P := fun st => atRangeKeys (calls st));
      [apply (inv_fragments _ atRangeKeys RangeKeyIter _ rangeKeyIter
                atRangeKeys_kept)| |].
    - intros c Hc. cbv beta. rewrite Hc. apply orb_true_r.
    - intros spans.
      apply (rangeKeyLoop_inv cmp ops syntheticSuffix syntheticPrefix).
      eapply keptBy_weaken; [apply atRangeKeys_kept|].
      intros c Hc. cbv beta. now rewrite Hc.
    - intros st H. now apply atRangeDels_atRangeKeys.
    - intros r st H. exact H. }
  { intros e st H. now apply atRangeKeys_finished. }
  intros ?; cbv beta. apply finish_finished.
Qed.

(** The writer is handed the point records first, then the range
    deletions, then the range keys; after these come at most one [Close]
    and, after a [Close], at most one [Metadata].  A run that succeeds ends
    with both. *)
Theorem writer_calls_in_order (w : W) pointIter rangeDelIter rangeKeyIter :
  let res := writeSSTForIngestion_ w pointIter rangeDelIter rangeKeyIter in
  let log := calls (snd res) in
  exists tail,
    writerCallsOf log =
      map (fun kv => CallAdd (fst kv) (snd kv)) (addsOf log)
      ++ map (fun se => CallDeleteRange (fst se) (snd se)) (deletesOf log)
      ++ map CallEncode (encodesOf log) ++ tail
    /\ (tail = [] \/ tail = [CallWriterClose]
        \/ tail = [CallWriterClose; CallMetadata])
    /\ (errOf (fst res) = None -> tail = [CallWriterClose; CallMetadata]).
Proof.
  intros res log.
  assert (H0 : atPoints (calls (initState w pointIter rangeDelIter rangeKeyIter)))
    by (repeat split).
  pose proof (body_finished pointIter rangeDelIter rangeKeyIter _ H0) as Hb.
  unfold log, res, writeSSTForIngestion.
  destruct (body_ pointIter rangeDelIter rangeKeyIter
              (initState w pointIter rangeDelIter rangeKeyIter)) as [r st].
  cbn [fst snd] in *.
  destruct (deferred_only_closes st) as (l & Hl & Hcl). rewrite Hl.
  destruct (only_closes l Hcl) as (Ha & Hd & He & Hw).
  destruct Hb as (tail & Hshape & Htail & Hok). exists tail.
  rewrite writerCallsOf_app, addsOf_app, deletesOf_app, encodesOf_app.
  rewrite Ha, Hd, He, Hw, !app_nil_r. unfold handedOver in Hshape.
  rewrite Hshape, <- !app_assoc. auto.
Qed.

(** *** The range deletions *)

Definition deleted (st : @State W) : list (bytes * bytes) :=
  deletesOf (calls st).

Definition boundsOut (span : Keyspan.Span) : bytes * bytes :=
  (outputKey_ (Keyspan.Start span), outputKey_ (Keyspan.End span)).

Lemma deleted_logCall (c : Call) (r : option error) (st : @State W) :
  deleted (logCall c r st) =
  deleted st ++ match c with CallDeleteRange s e => [(s, e)] | _ => [] end.
Proof.
  unfold deleted; simpl. rewrite deletesOf_app. simpl. now rewrite app_nil_r.
Qed.

Lemma deletes_kept (X : list (bytes * bytes)) :
  keptBy (fun c => negb (isDelete c)) (fun l => deletesOf l = X).
Proof.
  intros l c r Hc H. rewrite deletesOf_app, H. simpl.
  destruct c; try discriminate; apply app_nil_r.
Qed.

(** The loop hands the bounds of the spans to [DeleteRange], in order, under
    their output keys; a loop that ends without an error has handed over
    all. *)
Lemma rangeDelLoop_deleted spans (st : @State W) :
  exists n,
    deleted (snd (rangeDelLoop_ spans st)) =
      deleted st ++ map boundsOut (firstn n spans)
    /\ (errOf (fst (rangeDelLoop_ spans st)) = None ->
        deleted (snd (rangeDelLoop_ spans st)) =
          deleted st ++ map boundsOut spans).
Proof.
  revert st; induction spans as [|span rest IH]; intros st.
  - exists 0%nat. simpl. rewrite app_nil_r. auto.
  - set (s := outputKey_ (Keyspan.Start span)).
    set (e := outputKey_ (Keyspan.End span)).
    assert (Hm : rangeDelLoop_ (span :: rest) st =
                 match wDeleteRange ops (writer st) s e with
                 | (w', Some err) =>
                     (inl err, logCall (CallDeleteRange s e) (Some err)
                                 (setWriter w' st))
                 | (w', None) =>
                     rangeDelLoop_ rest
                       (logCall (CallDeleteRange s e) None (setWriter w' st))
                 end).
    { simpl rangeDelLoop. unfold bind, onWriter, check. fold s e.
      destruct (wDeleteRange ops (writer st) s e) as [w' [err|]]; reflexivity. }
    rewrite Hm. clear Hm.
    destruct (wDeleteRange ops (writer st) s e) as [w' [err|]].
    + exists 1%nat. cbn [fst snd]. rewrite deleted_logCall. simpl.
      split; [reflexivity|discriminate].
    + set (st1 := logCall (CallDeleteRange s e) None (setWriter w' st)).
      destruct (IH st1) as (n & Hn & Hall).
      assert (Hst1 : deleted st1 = deleted st ++ [boundsOut span])
        by (unfold st1; rewrite deleted_logCall; reflexivity).
      exists (S n). split.
      * etransitivity; [exact Hn|]. rewrite Hst1, <- app_assoc. reflexivity.
      * intros H. etransitivity; [exact (Hall H)|].
        rewrite Hst1, <- app_assoc. reflexivity.
Qed.

Lemma finish_inv ok I :
  keptBy ok I -> ok CallWriterClose = true -> ok CallMetadata = true ->
  inv I (finish ops).
Proof.
  intros HI Hc Hm. unfold finish.
  apply inv_bind; [now apply (inv_onWriter ok)|].
  intros _ st H. destruct (wMetadata ops (writer st)); simpl; now apply HI.
Qed.

Lemma body_deleted pointIter rangeDelIter rangeKeyIter (st : @State W) :
  exists n,
    deleted (snd (body_ pointIter rangeDelIter rangeKeyIter st)) =
      deleted st ++ map boundsOut (firstn n (rangeDelSpans rangeDelIter))
    /\ (errOf (fst (body_ pointIter rangeDelIter rangeKeyIter st)) = None ->
        deleted (snd (body_ pointIter rangeDelIter rangeKeyIter st)) =
          deleted st ++ map boundsOut (rangeDelSpans rangeDelIter)).
Proof.
  set (Q := fun (A : Type) (r : error + A) (st' : @State W) =>
              exists n,
                deleted st' =
                  deleted st
                  ++ map boundsOut (firstn n (rangeDelSpans rangeDelIter))
                /\ (errOf r = None ->
                    deleted st' =
                      deleted st
                      ++ map boundsOut (rangeDelSpans rangeDelIter))).
  assert (Q0 : forall A e st', deleted st' = deleted st -> Q A (inl e) st').
  { intros A e st' H. exists 0%nat. simpl. rewrite app_nil_r.
    split; [exact H|discriminate]. }
  assert (Qall : forall A r st',
             deleted st' =
               deleted st ++ map boundsOut (rangeDelSpans rangeDelIter) ->
             Q A r st').
  { intros A r st' H. exists (List.length (rangeDelSpans rangeDelIter)).
    rewrite firstn_all. auto. }
  assert (Hother : forall X,
             keptBy (fun c => negb (isDelete c))
               (fun l => deletesOf l = X)) by apply deletes_kept.
  assert (H : triple (fun st' => deleted st' = deleted st)
                (body_ pointIter rangeDelIter rangeKeyIter) (Q Meta)).
  { unfold body.
    eapply triple_bind;
      [apply (pointLoop_inv cmp ops FormatDeleteSizedAndObsolete
                uniquePrefixes syntheticSuffix syntheticPrefix targetFMV
                (fun l => deletesOf l = deleted st))
      |intros; now apply Q0|intros ?; cbv beta].
    { eapply keptBy_weaken; [apply Hother|]. now intros []. }
    eapply triple_bind;
      [apply (inv_closeOrReturn (fun c => negb (isDelete c))
                (fun l => deletesOf l = deleted st) PointIter (Hother _)
                eq_refl)
      |intros; now apply Q0|intros ?; cbv beta].
    eapply triple_bind with (Q := Q unit).
    - intros st' Hst'. destruct rangeDelIter as [i|]; simpl.
      + destruct (rangeDelLoop_deleted (fragSpans i) st') as (n & Hn & Hall).
        rewrite bind_unfold.
        destruct (rangeDelLoop_ (fragSpans i) st') as [[e|[]] st1];
          cbn [fst snd] in *.
        * exists n. rewrite <- Hst'. split; [exact Hn|discriminate].
        * apply Qall. simpl rangeDelSpans.
          assert (Hk : inv (fun l => deletesOf l = deleted st1)
                         (bind (check (CallIterEnd RangeDelIter) (fragErr i))
                            (fun _ => closeOrReturn (W:=W) RangeDelIter))).
          { apply inv_bind;
              [apply (inv_check (fun c => negb (isDelete c)) _
                        (CallIterEnd RangeDelIter) _ (Hother _) eq_refl)
              |intros _].
            apply (inv_closeOrReturn (fun c => negb (isDelete c)) _
                     RangeDelIter (Hother _) eq_refl). }
          specialize (Hk st1 eq_refl). cbv beta in Hk.
          unfold deleted at 1. rewrite Hk, (Hall eq_refl).
          unfold deleted at 1. now rewrite Hst'.
      + apply Qall. simpl. rewrite app_nil_r. exact Hst'.
    - intros e st' (n & Hn & _). exists n. split; [exact Hn|discriminate].
    - intros [] st1 (n & _ & Hall). specialize (Hall eq_refl).
      apply Qall. rewrite <- Hall.
      assert (Hk : inv (fun l => deletesOf l = deleted st1)
                     (bind (fragments RangeKeyIter rangeKeyLoop_ rangeKeyIter)
                        (fun _ => finish ops))).
      { apply inv_bind.
        - apply (inv_fragments (fun c => negb (isDelete c))
                   (fun l => deletesOf l = deleted st1) RangeKeyIter
                   _ rangeKeyIter (Hother _)).
          + now intros [].
          + intros spans.
            apply (rangeKeyLoop_inv cmp ops syntheticSuffix syntheticPrefix).
            eapply keptBy_weaken; [apply Hother|]. now intros [].
        - intros _.
          apply (finish_inv (fun c => negb (isDelete c))
                   (fun l => deletesOf l = deleted st1) (Hother _));
            reflexivity. }
      exact (Hk st1 eq_refl). }
  exact (H st eq_refl).
Qed.

(** The range deletions reach the writer as they are read: one
    [DeleteRange] per span of the range-deletion iterator, in order, with
    the start and the end of the span under their output keys; the keys of
    the span play no part.  A run that fails has made the calls for a
    prefix of the spans, a run that succeeds for all of them, and a nil
    iterator gives no call. *)
Theorem range_deletions_passed_through (w : W) pointIter rangeDelIter
  rangeKeyIter :
  let res := writeSSTForIngestion_ w pointIter rangeDelIter rangeKeyIter in
  let out := fun span : Keyspan.Span =>
    (outputKey_ (Keyspan.Start span), outputKey_ (Keyspan.End span)) in
  (exists n, deletesOf (calls (snd res))
             = map out (firstn n (rangeDelSpans rangeDelIter)))
  /\ (errOf (fst res) = None ->
      deletesOf (calls (snd res)) = map out (rangeDelSpans rangeDelIter))
  /\ (rangeDelIter = None -> deletesOf (calls (snd res)) = []).
Proof.
  intros res out.
  destruct (body_deleted pointIter rangeDelIter rangeKeyIter
              (initState w pointIter rangeDelIter rangeKeyIter))
    as (n & Hn & Hall).
  unfold deleted in Hn, Hall. simpl in Hn, Hall.
  assert (Hlog : deletesOf (calls (snd res))
                 = deletesOf (calls (snd (body_ pointIter rangeDelIter
                     rangeKeyIter
                     (initState w pointIter rangeDelIter rangeKeyIter))))
                   /\ fst res = fst (body_ pointIter rangeDelIter rangeKeyIter
                     (initState w pointIter rangeDelIter rangeKeyIter))).
  { unfold res, writeSSTForIngestion.
    destruct (body_ pointIter rangeDelIter rangeKeyIter
                (initState w pointIter rangeDelIter rangeKeyIter)) as [r st].
    cbn [fst snd]. split; [|reflexivity].
    destruct (deferred_only_closes st) as (l & Hl & Hcl). rewrite Hl.
    destruct (only_closes l Hcl) as (_ & Hd & _).
    now rewrite deletesOf_app, Hd, app_nil_r. }
  destruct Hlog as (Hlog & Hres). rewrite Hlog, Hres.
  split; [exists n; exact Hn|]. split; [exact Hall|].
  intros ->. rewrite Hn. simpl. now rewrite firstn_nil.
Qed.

End WriterView.

(** *** [buildForIngest] *)

Section BuildForIngestFacts.
Context (cmp : Comparer) {W Meta File : Type} (ops : WriterOps W Meta).
Context (FormatDeleteSizedAndObsolete : Z).
Context (PathJoin : string -> string -> string).
Context (Create : string -> error + File) (tmpDir : string).
Context (newWriter : File -> W).

Local Abbreviation buildForIngest_ :=
  (buildForIngest cmp ops FormatDeleteSizedAndObsolete PathJoin Create tmpDir
     newWriter).
Local Abbreviation extPath_ := (extPath PathJoin tmpDir).

(** Without a synthetic prefix and a synthetic suffix a key is written as it
    is. *)
Lemma outputKey_unset (key : bytes) : outputKey cmp [] [] key = key.
Proof. reflexivity. Qed.

(** [buildForIngest] writes the batch under its own keys.  When the file
    cannot be created, the error is returned with an empty path and nothing
    is read or written.  Otherwise the path [tmpDir/ext<slot>-<i>] is
    returned, also when the build fails; the records written are the
    records that the loop of [writeSSTForIngestion] keeps when it compares
    whole user keys ([survivors], without unique prefixes): a record is
    dropped when the user key kept last is not nil and equal to its own, so
    that records of the empty user key at the head of the batch are all
    kept.  Each record is written under its user key unchanged and with the
    sequence number zero, and the range deletions are written with their
    bounds unchanged.  A build that succeeds has written all of them. *)
Theorem buildForIngest_keeps_keys (slot : Z) (iter : PointIterator)
  (rangeDelIter rangeKeyIter : option FragmentIterator) (dbFMV i : Z) :
  let '(path, meta, log) :=
    buildForIngest_ slot (iter, rangeDelIter, rangeKeyIter) dbFMV i in
  let sameKey := fun (rec : InternalKey * LazyValue) (out : InternalKey * bytes) =>
    UserKey (fst out) = UserKey (fst rec) /\ SeqNum (fst out) = SeqNumZero in
  let bounds := fun span : Keyspan.Span =>
    (Keyspan.Start span, Keyspan.End span) in
  match Create (extPath_ slot i) with
  | inl err => path = ""%string /\ meta = inl err /\ log = []
  | inr _ =>
      path = extPath_ slot i
      /\ (exists n m,
            Forall2 sameKey
              (firstn n (survivors cmp false (pointRecords iter) None))
              (addsOf log)
            /\ deletesOf log = map bounds (firstn m (rangeDelSpans rangeDelIter)))
      /\ (errOf meta = None ->
          Forall2 sameKey (survivors cmp false (pointRecords iter) None)
            (addsOf log)
          /\ deletesOf log = map bounds (rangeDelSpans rangeDelIter))
  end.
Proof.
  unfold buildForIngest.
  destruct (Create (extPath_ slot i)) as [err|f]; [repeat split|].
  pose proof (run_added cmp ops FormatDeleteSizedAndObsolete false [] [] dbFMV
                (newWriter f) iter rangeDelIter rangeKeyIter)
    as (n & Hn & Hall).
  pose proof (body_deleted cmp ops FormatDeleteSizedAndObsolete false [] []
                dbFMV iter rangeDelIter rangeKeyIter
                (initState (newWriter f) iter rangeDelIter rangeKeyIter))
    as (m & Hm & Hmall).
  assert (Hlog : deletesOf (calls (snd (writeSSTForIngestion cmp ops
                    FormatDeleteSizedAndObsolete false [] [] dbFMV
                    (newWriter f) iter rangeDelIter rangeKeyIter)))
                 = deleted (snd (body cmp ops FormatDeleteSizedAndObsolete
                     false [] [] dbFMV iter rangeDelIter rangeKeyIter
                     (initState (newWriter f) iter rangeDelIter rangeKeyIter)))
                 /\ fst (writeSSTForIngestion cmp ops
                    FormatDeleteSizedAndObsolete false [] [] dbFMV
                    (newWriter f) iter rangeDelIter rangeKeyIter)
                    = fst (body cmp ops FormatDeleteSizedAndObsolete
                     false [] [] dbFMV iter rangeDelIter rangeKeyIter
                     (initState (newWriter f) iter rangeDelIter rangeKeyIter))).
  { unfold writeSSTForIngestion.
    destruct (body cmp ops FormatDeleteSizedAndObsolete false [] [] dbFMV iter
                rangeDelIter rangeKeyIter
                (initState (newWriter f) iter rangeDelIter rangeKeyIter))
      as [r st].
    cbn [fst snd]. split; [|reflexivity].
    destruct (deferred_only_closes st) as (l & Hl & Hcl). rewrite Hl.
    destruct (only_closes l Hcl) as (_ & Hd & _).
    unfold deleted. now rewrite deletesOf_app, Hd, app_nil_r. }
  destruct Hlog as (Hlog & Hres).
  destruct (writeSSTForIngestion cmp ops FormatDeleteSizedAndObsolete false
              [] [] dbFMV (newWriter f) iter rangeDelIter rangeKeyIter)
    as [meta st].
  cbn [fst snd] in *.
  assert (Hweak : forall l1 l2,
             Forall2 (writtenAs cmp FormatDeleteSizedAndObsolete [] [] dbFMV)
               l1 l2 ->
             Forall2
               (fun (rec : InternalKey * LazyValue) (out : InternalKey * bytes) =>
                  UserKey (fst out) = UserKey (fst rec)
                  /\ SeqNum (fst out) = SeqNumZero) l1 l2).
  { intros l1 l2 H. induction H as [|a b l1 l2 Hab _ IH]; constructor; auto.
    destruct Hab as (Hk & Hs & _). split; [exact Hk|exact Hs]. }
  assert (Hbounds : forall spans,
             map (boundsOut cmp [] []) spans
             = map (fun span : Keyspan.Span =>
                      (Keyspan.Start span, Keyspan.End span)) spans)
    by reflexivity.
  simpl in Hm, Hmall. rewrite Hbounds in Hm, Hmall.
  split; [reflexivity|]. split.
  - exists n, m. split; [now apply Hweak|]. now rewrite Hlog.
  - intros H. split; [now apply Hweak, Hall|].
    rewrite Hlog. apply Hmall. now rewrite <- Hres.
Qed.

End BuildForIngestFacts.

End MetamorphicFacts.

(** *** Runs on concrete inputs *)

Module MetamorphicExamples.
Import Base Metamorphic MetamorphicFacts.

(** Two records of the empty user key, the newer one first. *)
Definition emptyKeyTwice : list (InternalKey * LazyValue) :=
  [(MakeInternalKey [] 2 InternalKeyKindSet, inr (bs "x"));
   (MakeInternalKey [] 1 InternalKeyKindSet, inr (bs "y"))].

(** A writer whose [Add] fails. *)
Definition brokenWriter : WriterOps unit unit :=
  {| wAdd := fun w _ _ => (w, Some "write failed"%string);
     wDeleteRange := fun w _ _ => (w, None);
     wEncodeRangeKey := fun w _ => (w, None);
     wClose := fun w => (w, None);
     wMetadata := fun _ => inr tt |}.

Definition noSpans : FragmentIterator :=
  {| fragSpans := []; fragErr := None; fragCloseErr := None |}.

Definition oneRecord : PointIterator :=
  {| pointRecords := [(MakeInternalKey (bs "a") 7 InternalKeyKindSet, inr (bs "v"))];
     pointCloseErr := None |}.

(** A range-key span whose keys set and unset one suffix, set another,
    delete, and set a third below the delete. *)
Definition busySpan : Keyspan.Span :=
  {| Keyspan.Start := bs "a";
     Keyspan.End := bs "d";
     Keyspan.Keys :=
       [ Keyspan.mkKey (MakeTrailer 10 InternalKeyKindRangeKeySet) (bs "@5") (bs "foo");
         Keyspan.mkKey (MakeTrailer 8 InternalKeyKindRangeKeyUnset) (bs "@5") [];
         Keyspan.mkKey (MakeTrailer 7 InternalKeyKindRangeKeySet) (bs "@3") (bs "bar");
         Keyspan.mkKey (MakeTrailer 5 InternalKeyKindRangeKeyDelete) [] [];
         Keyspan.mkKey (MakeTrailer 2 InternalKeyKindRangeKeySet) (bs "@1") (bs "baz") ] |}.

Definition busyRangeKeys : FragmentIterator :=
  {| fragSpans := [busySpan]; fragErr := None; fragCloseErr := None |}.

Example collapsed_busySpan :
  Keyspan.Keys (collapsedSpan bytewise [] [] busySpan)
  = [ Keyspan.mkKey (MakeTrailer 0 InternalKeyKindRangeKeySet) (bs "@5") (bs "foo");
      Keyspan.mkKey (MakeTrailer 0 InternalKeyKindRangeKeySet) (bs "@3") (bs "bar");
      Keyspan.mkKey (MakeTrailer 0 InternalKeyKindRangeKeyDelete) [] [] ].
Proof. reflexivity. Qed.

(** C1, at the input the code fails on.  The stream holds two records of
    the empty user key and is sorted.  The deduplicator of the specification
    emits the first one only; the loop keeps both, in either mode, because
    [lastUserKey] is still nil after an empty key was stored in it, and both
    reach the writer's [Add]. *)
Theorem empty_key_duplicate_not_dropped :
  keysSorted bytewise emptyKeyTwice
  /\ firstSeen bytewise false [] emptyKeyTwice
     = [(MakeInternalKey [] 2 InternalKeyKindSet, inr (bs "x"))]
  /\ survivors bytewise false emptyKeyTwice None = emptyKeyTwice
  /\ survivors bytewise true emptyKeyTwice None = emptyKeyTwice
  /\ addsOf (calls (snd (writeSSTForIngestion bytewise nullWriter 15 false [] []
                           15 tt (mkPointIterator emptyKeyTwice None) None None)))
     = [(MakeInternalKey [] 0 InternalKeyKindSet, bs "x");
        (MakeInternalKey [] 0 InternalKeyKindSet, bs "y")].
Proof.
  split; [|repeat split; reflexivity].
  repeat constructor; unfold leK; simpl; discriminate.
Qed.

(** A sorted stream with non-empty keys on which the loop, in
    unique-prefixes mode, keeps what the specification's deduplicator
    emits: [a@2] for the prefix [a] and [b@1] for the prefix [b]. *)
Definition prefixStream : list (InternalKey * LazyValue) :=
  [(MakeInternalKey (bs "a@2") 3 InternalKeyKindSet, inr (bs "x"));
   (MakeInternalKey (bs "a@2") 2 InternalKeyKindDelete, inr []);
   (MakeInternalKey (bs "a@3") 5 InternalKeyKindSet, inr (bs "y"));
   (MakeInternalKey (bs "b@1") 1 InternalKeyKindSet, inr (bs "z"))].

Lemma prefixStream_deduplicated :
  survivors bytewise true prefixStream None
  = firstSeen bytewise true [] prefixStream
  /\ map (fun r => string_of_list_byte (UserKey (fst r)))
       (survivors bytewise true prefixStream None)
     = ["a@2"; "b@1"]%string.
Proof.
  split; [|reflexivity].
  apply (survivors_firstSeen bytewise bytewise_ok).
  - repeat constructor; unfold leK; simpl; discriminate.
  - repeat constructor; discriminate.
Defined.

(** C4, refuted as stated.  When the writer's [Add] fails, the three
    iterators are closed by the deferred calls: the range-key iterator
    first and the point iterator last. *)
Lemma failed_build_closes_in_reverse :
  let res := writeSSTForIngestion bytewise brokenWriter 15 false [] [] 15 tt
               oneRecord (Some noSpans) (Some noSpans) in
  fst res = inl "write failed"%string
  /\ closesOf (calls (snd res)) = [RangeKeyIter; RangeDelIter; PointIter]
  /\ closesOf (calls (snd res)) <> [PointIter; RangeDelIter; RangeKeyIter].
Proof.
  cbv zeta. split; [reflexivity|]. split; [reflexivity|].
  intros H. vm_compute in H. discriminate H.
Qed.

Lemma encoded_spans_canonical_witness :
  Forall (fun s => Keyspan.canonical bytewise (Keyspan.Keys s))
    (encodesOf (calls (snd (writeSSTForIngestion bytewise nullWriter 15 false
                              [] [] 15 tt oneRecord None (Some busyRangeKeys))))).
Proof.
  exact (proj2 (proj2 (encoded_spans_canonical bytewise bytewise_ok nullWriter 15 false
                         [] [] 15 tt oneRecord None (Some busyRangeKeys)))).
Defined.

End MetamorphicExamples.

(** ** Virtual tables *)

Module SstableFacts.
Import Base Sstable.

Section VirtualFacts.
Context (cmp : Comparer) (Hok : ComparerOk cmp).

Lemma ltK_true (a b : bytes) : ltK cmp a b = true <-> Compare cmp a b = Lt.
Proof. unfold ltK. destruct (Compare cmp a b); split; congruence. Qed.

Lemma ltK_false (a b : bytes) : ltK cmp a b = false <-> leK cmp b a.
Proof.
  unfold ltK, leK. rewrite (Compare_antisym Hok a b).
  destruct (Compare cmp a b); simpl; split; congruence.
Qed.

Lemma maxKey_ge_l (a b : bytes) : leK cmp a (maxKey cmp a b).
Proof.
  unfold maxKey. destruct (ltK cmp a b) eqn:E.
  - apply ltK_true in E. now apply Lt_leK.
  - apply (leK_refl Hok).
Qed.

Lemma maxKey_ge_r (a b : bytes) : leK cmp b (maxKey cmp a b).
Proof.
  unfold maxKey. destruct (ltK cmp a b) eqn:E.
  - apply (leK_refl Hok).
  - now apply ltK_false.
Qed.

Lemma inBounds_true (b : Bounds) (k : bytes) :
  inBounds cmp b k = true <->
  leK cmp (bStart b) k
  /\ (Compare cmp k (bEnd b) = Lt
      \/ (Compare cmp k (bEnd b) = Eq /\ bEndInclusive b = true)).
Proof.
  unfold inBounds. rewrite andb_true_iff, negb_true_iff, ltK_false.
  destruct (Compare cmp k (bEnd b)); intuition congruence.
Qed.

(** The effective bounds lie within the query bounds, and within the virtual
    bounds except, when the virtual end is exclusive, for the end key. *)
Lemma constrainBounds_sound (q v : Bounds) (k : bytes) :
  inBounds cmp (constrainBounds cmp q v) k = true ->
  inBounds cmp q k = true
  /\ (inBounds cmp v k = true
      \/ (bEndInclusive v = false /\ Compare cmp k (bEnd v) = Eq)).
Proof.
  rewrite !inBounds_true. unfold constrainBounds, withinVirtual; simpl.
  intros [Hs He].
  assert (Hq : leK cmp (bStart q) k)
    by (eapply (Compare_trans Hok); [apply maxKey_ge_l|exact Hs]).
  assert (Hv : leK cmp (bStart v) k)
    by (eapply (Compare_trans Hok); [apply maxKey_ge_r|exact Hs]).
  destruct (Compare cmp (bEnd q) (bEnd v)) eqn:Ec.
  - (* the two ends are equal *)
    assert (Hkv : Compare cmp k (bEnd q) = Lt -> Compare cmp k (bEnd v) = Lt)
      by (intros H; eapply (Lt_leK_trans Hok); [exact H|now apply Eq_leK]).
    assert (Hke : Compare cmp k (bEnd q) = Eq -> Compare cmp k (bEnd v) = Eq).
    { intros H. apply (leK_antisym Hok).
      - eapply (Compare_trans Hok); apply Eq_leK; eassumption.
      - eapply (Compare_trans Hok); apply Eq_leK, (Compare_Eq_sym Hok);
          eassumption. }
    assert (Hvk : Compare cmp k (bEnd v) = Lt -> Compare cmp k (bEnd q) = Lt).
    { intros H. eapply (Lt_leK_trans Hok); [exact H|].
      apply Eq_leK, (Compare_Eq_sym Hok), Ec. }
    assert (Hek : Compare cmp k (bEnd v) = Eq -> Compare cmp k (bEnd q) = Eq).
    { intros H. apply (leK_antisym Hok).
      - eapply (Compare_trans Hok); [apply Eq_leK, H|].
        apply Eq_leK, (Compare_Eq_sym Hok), Ec.
      - eapply (Compare_trans Hok); [apply Eq_leK, Ec|].
        apply Eq_leK, (Compare_Eq_sym Hok), H. }
    destruct (bEndInclusive q) eqn:Eq, (bEndInclusive v) eqn:Ev; simpl in He;
      intuition auto.
  - (* the query ends first *)
    split; [auto|left]. split; [exact Hv|left].
    destruct He as [He|[He _]].
    + eapply (Lt_leK_trans Hok); [exact He|now apply Lt_leK].
    + eapply (leK_Lt_trans Hok); [apply Eq_leK, He|exact Ec].
  - (* the query ends beyond the virtual end *)
    assert (Hvq : Compare cmp (bEnd v) (bEnd q) = Lt)
      by (now apply (Compare_Lt_Gt Hok)).
    split.
    + split; [exact Hq|left].
      destruct He as [He|[He _]].
      * eapply (Lt_leK_trans Hok); [exact He|now apply Lt_leK].
      * eapply (leK_Lt_trans Hok); [apply Eq_leK, He|exact Hvq].
    + destruct (bEndInclusive v); intuition auto.
Qed.

(** The effective start is the maximum of the two starts. *)
Lemma constrainBounds_start (q v : Bounds) :
  leK cmp (bStart q) (bStart (constrainBounds cmp q v))
  /\ leK cmp (bStart v) (bStart (constrainBounds cmp q v))
  /\ (bStart (constrainBounds cmp q v) = bStart q
      \/ bStart (constrainBounds cmp q v) = bStart v).
Proof.
  split; [apply maxKey_ge_l|split; [apply maxKey_ge_r|]].
  unfold constrainBounds, maxKey; simpl.
  destruct (ltK cmp (bStart q) (bStart v)); auto.
Qed.

(** A query end beyond the virtual end is clamped. *)
Lemma constrainBounds_clamped (q v : Bounds) :
  Compare cmp (bEnd q) (bEnd v) = Gt ->
  bEnd (constrainBounds cmp q v) = bEnd v
  /\ bEndInclusive (constrainBounds cmp q v) = true.
Proof.
  intros H. unfold constrainBounds, withinVirtual; simpl. rewrite H. auto.
Qed.

(** Any other query end is kept. *)
Lemma constrainBounds_kept (q v : Bounds) :
  Compare cmp (bEnd q) (bEnd v) <> Gt ->
  Compare cmp (bEnd (constrainBounds cmp q v)) (bEnd q) = Eq
  /\ bEndInclusive (constrainBounds cmp q v) = bEndInclusive q
  /\ (Compare cmp (bEnd q) (bEnd v) = Lt \/ bEndInclusive v = true ->
      bEnd (constrainBounds cmp q v) = bEnd q).
Proof.
  intros H. unfold constrainBounds, withinVirtual; simpl.
  destruct (Compare cmp (bEnd q) (bEnd v)) eqn:Ec; [| |congruence].
  - destruct (bEndInclusive q), (bEndInclusive v); simpl;
      repeat split; auto;
      try (apply (leK_antisym Hok); apply (leK_refl Hok));
      try (now apply (Compare_Eq_sym Hok));
      intros [?|?]; congruence.
  - repeat split; auto. apply (leK_antisym Hok); apply (leK_refl Hok).
Qed.


(** *** Ranges with no overlap *)

Lemma noOverlap_before (q v : Bounds) :
  Compare cmp (bEnd q) (bStart v) = Lt -> noOverlap cmp q v.
Proof.
  intros H k Hq Hv. apply inBounds_true in Hq, Hv.
  destruct Hq as [_ Hq], Hv as [Hv _].
  assert (Compare cmp k (bStart v) = Lt).
  { destruct Hq as [Hq|[Hq _]].
    - eapply (Lt_leK_trans Hok); [exact Hq|now apply Lt_leK].
    - eapply (leK_Lt_trans Hok); [apply Eq_leK, Hq|exact H]. }
  apply (Compare_Lt_Gt Hok) in H0. unfold leK in Hv. congruence.
Qed.

Lemma noOverlap_touching (q v : Bounds) :
  Compare cmp (bEnd q) (bStart v) = Eq -> bEndInclusive q = false ->
  noOverlap cmp q v.
Proof.
  intros H Hi k Hq Hv. apply inBounds_true in Hq, Hv.
  destruct Hq as [_ Hq], Hv as [Hv _].
  destruct Hq as [Hq|[_ Hq]]; [|congruence].
  assert (Compare cmp k (bStart v) = Lt)
    by (eapply (Lt_leK_trans Hok); [exact Hq|now apply Eq_leK]).
  apply (Compare_Lt_Gt Hok) in H0. unfold leK in Hv. congruence.
Qed.

Lemma outside_start_after_end (q v : Bounds) :
  Compare cmp (bEnd q) (bStart v) = Lt \/ Compare cmp (bEnd v) (bStart q) = Lt ->
  Compare cmp (bStart (constrainBounds cmp q v))
    (bEnd (constrainBounds cmp q v)) = Gt.
Proof.
  intros H. apply (Compare_Lt_Gt Hok).
  destruct (constrainBounds_start q v) as (Hsq & Hsv & _).
  pose proof (constrainBounds_clamped q v) as Hgt.
  pose proof (constrainBounds_kept q v) as Hle.
  set (e := constrainBounds cmp q v) in *.
  destruct (Compare cmp (bEnd q) (bEnd v)) eqn:Ec.
  - destruct Hle as (He & _); [congruence|].
    destruct H as [H|H].
    + eapply (leK_Lt_trans Hok); [apply Eq_leK, He|].
      eapply (Lt_leK_trans Hok); [exact H|exact Hsv].
    + eapply (leK_Lt_trans Hok); [apply Eq_leK, He|].
      eapply (leK_Lt_trans Hok); [apply Eq_leK, Ec|].
      eapply (Lt_leK_trans Hok); [exact H|exact Hsq].
  - destruct Hle as (He & _); [congruence|].
    destruct H as [H|H].
    + eapply (leK_Lt_trans Hok); [apply Eq_leK, He|].
      eapply (Lt_leK_trans Hok); [exact H|exact Hsv].
    + eapply (leK_Lt_trans Hok); [apply Eq_leK, He|].
      eapply (Lt_leK_trans Hok); [exact Ec|].
      eapply (Compare_trans Hok); [apply Lt_leK, H|exact Hsq].
  - destruct (Hgt eq_refl) as [He _]. rewrite He.
    destruct H as [H|H].
    + apply (Compare_Lt_Gt Hok) in Ec.
      eapply (Lt_leK_trans Hok); [exact Ec|].
      eapply (Compare_trans Hok); [apply Lt_leK, H|exact Hsv].
    + eapply (Lt_leK_trans Hok); [exact H|exact Hsq].
Qed.

Lemma shown_moveTo (it : Iterator) (p : Z) : shown (moveTo it p) = shown it.
Proof. reflexivity. Qed.

Lemma shown_position (it : Iterator) (p : Positioning) :
  shown (position cmp it p) = shown it.
Proof. destruct p; reflexivity. Qed.

Lemma shown_positions (ps : list Positioning) (it : Iterator) :
  shown (positions cmp it ps) = shown it.
Proof.
  unfold positions. revert it; induction ps as [|p ps IH]; intros it; simpl;
    [reflexivity|].
  rewrite IH. apply shown_position.
Qed.

Lemma current_In (it : Iterator) (r : InternalKey * bytes) :
  current it = Some r -> In r (shown it).
Proof.
  unfold current. destruct (pos it <? 0); [discriminate|].
  apply nth_error_In.
Qed.

Lemma visible_In (vt : VirtualTable) (q : option (bytes * bytes))
  (r : InternalKey * bytes) :
  In r (visible cmp vt q) ->
  In r (points (backing vt))
  /\ inBounds cmp (effectiveBounds cmp vt q) (UserKey (fst r)) = true
  /\ suppressed cmp vt (UserKey (fst r)) = false.
Proof.
  unfold visible. rewrite filter_In, andb_true_iff, negb_true_iff. tauto.
Qed.

(** C6, as amended.  When the bounds given to an iterator have no overlap
    with the bounds of the virtual table, the iterator surfaces no record,
    wherever it is positioned.  When the query lies before the virtual start
    or after the virtual end, the effective start sorts after the effective
    end. *)
Theorem no_overlap_no_keys (vt : VirtualTable) (lower upper : bytes) :
  let q := {| bStart := lower; bEnd := upper; bEndInclusive := false |} in
  let v := virtualBounds vt in
  noOverlap cmp q v ->
  visible cmp vt (Some (lower, upper)) = []
  /\ (forall ps,
        current (positions cmp (NewIter cmp vt (Some (lower, upper))) ps) = None)
  /\ (Compare cmp upper (bStart v) = Lt \/ Compare cmp (bEnd v) lower = Lt ->
      Compare cmp (bStart (constrainBounds cmp q v))
        (bEnd (constrainBounds cmp q v)) = Gt).
Proof.
  intros q v Hno.
  assert (Hvis : visible cmp vt (Some (lower, upper)) = []).
  { destruct (visible cmp vt (Some (lower, upper))) as [|r l] eqn:E;
      [reflexivity|exfalso].
    assert (Hr : In r (visible cmp vt (Some (lower, upper))))
      by (rewrite E; now left).
    apply visible_In in Hr. destruct Hr as (_ & Hb & Hs).
    simpl in Hb. fold q v in Hb. apply constrainBounds_sound in Hb.
    destruct Hb as [Hq [Hv|[Hi Heq]]]; [exact (Hno _ Hq Hv)|].
    unfold suppressed in Hs. unfold v in Hi, Heq; simpl in Hi, Heq.
    apply negb_false_iff in Hi. rewrite Hi, Heq in Hs. discriminate. }
  split; [exact Hvis|split].
  - intros ps.
    destruct (current (positions cmp (NewIter cmp vt (Some (lower, upper))) ps))
      as [r|] eqn:E; [exfalso|reflexivity].
    apply current_In in E. rewrite shown_positions in E. simpl in E.
    rewrite Hvis in E. exact E.
  - apply (outside_start_after_end q v).
Qed.

(** C2.  In a virtual table whose end boundary is an exclusive sentinel, no
    record that an iterator surfaces, wherever it is positioned, and no
    record of the compaction iterator has a user key equal to the end
    boundary; a range deletion of the backing table that starts within the
    table and ends at the end boundary is reported by the range-deletion
    iterator as it is. *)
Theorem sentinel_key_hidden (vt : VirtualTable) :
  IsExclusiveSentinel (largest vt) = true ->
  (forall q ps r,
     current (positions cmp (NewIter cmp vt q) ps) = Some r ->
     Compare cmp (UserKey (fst r)) (UserKey (largest vt)) <> Eq)
  /\ Forall (fun r => Compare cmp (UserKey (fst r)) (UserKey (largest vt)) <> Eq)
       (compactionIter cmp vt)
  /\ (forall s,
        In s (rangeDels (backing vt)) ->
        Compare cmp (Keyspan.End s) (UserKey (largest vt)) = Eq ->
        leK cmp (UserKey (smallest vt)) (Keyspan.Start s) ->
        Compare cmp (Keyspan.Start s) (Keyspan.End s) = Lt ->
        In s (NewRawRangeDelIter cmp vt)).
Proof.
  intros Hsent.
  assert (Hvis : forall q r, In r (visible cmp vt q) ->
                 Compare cmp (UserKey (fst r)) (UserKey (largest vt)) <> Eq).
  { intros q r Hr Heq. apply visible_In in Hr. destruct Hr as (_ & _ & Hs).
    unfold suppressed in Hs. rewrite Hsent, Heq in Hs. discriminate. }
  split; [|split].
  - intros q ps r Hc. apply current_In in Hc. rewrite shown_positions in Hc.
    now apply (Hvis q).
  - apply Forall_forall. intros r Hr. now apply (Hvis None).
  - intros s Hin Hend Hstart Hlt. unfold NewRawRangeDelIter.
    assert (Ht : truncateSpan cmp vt s = Some s).
    { unfold truncateSpan, maxKey, minKey.
      assert (ltK cmp (Keyspan.Start s) (UserKey (smallest vt)) = false) as ->
        by (now apply ltK_false).
      assert (ltK cmp (UserKey (largest vt)) (Keyspan.End s) = false) as ->
        by (apply ltK_false; now apply Eq_leK).
      assert (ltK cmp (Keyspan.Start s) (Keyspan.End s) = true) as ->
        by (now apply ltK_true).
      destruct s; reflexivity. }
    induction (rangeDels (backing vt)) as [|x l IH]; [contradiction|].
    simpl. destruct Hin as [->|Hin].
    + rewrite Ht. now left.
    + destruct (truncateSpan cmp vt x); [right|]; auto.
Qed.

End VirtualFacts.
End SstableFacts.

(** *** The cases of [sstable/testdata/virtual_reader] *)

Module SstableExamples.
Import Base Sstable SstableFacts.

Definition set (key : string) (seqNum : Z) : InternalKey * bytes :=
  (MakeInternalKey (bs key) seqNum InternalKeyKindSet, bs key).

Definition rangeDel (startKey endKey : string) (seqNum : Z) : Keyspan.Span :=
  {| Keyspan.Start := bs startKey;
     Keyspan.End := bs endKey;
     Keyspan.Keys :=
       [Keyspan.mkKey (MakeTrailer seqNum InternalKeyKindRangeDelete) [] []] |}.

Definition rangeKeySet (startKey endKey : string) (seqNum : Z)
  (suffix value : string) : Keyspan.Span :=
  {| Keyspan.Start := bs startKey;
     Keyspan.End := bs endKey;
     Keyspan.Keys :=
       [Keyspan.mkKey (MakeTrailer seqNum InternalKeyKindRangeKeySet)
          (bs suffix) (bs value)] |}.

(** What the test prints for a record: the user key and the sequence
    number. *)
Definition shownAs (r : option (InternalKey * bytes)) : option (string * Z) :=
  option_map (fun r => (string_of_list_byte (UserKey (fst r)), SeqNum (fst r))) r.

Definition boundsAs (b : Bounds) : string * string * bool :=
  (string_of_list_byte (bStart b), string_of_list_byte (bEnd b), bEndInclusive b).

(** The [constrain] cases: the virtual bounds are [[b, c]]. *)
Definition boundsBC : Bounds :=
  {| bStart := bs "b"; bEnd := bs "c"; bEndInclusive := true |}.

Definition constrain (lower upper : string) (inclusive : bool)
  : string * string * bool :=
  boundsAs (constrainBounds bytewise
              {| bStart := bs lower; bEnd := bs upper;
                 bEndInclusive := inclusive |} boundsBC).

Example constrain_cases :
  constrain "a" "bb" false = ("b", "bb", false)%string
  /\ constrain "a" "bb" true = ("b", "bb", true)%string
  /\ constrain "bb" "c" false = ("bb", "c", false)%string
  /\ constrain "bb" "c" true = ("bb", "c", true)%string
  /\ constrain "bb" "e" false = ("bb", "c", true)%string
  /\ constrain "bb" "e" true = ("bb", "c", true)%string
  /\ constrain "bb" "bbb" false = ("bb", "bbb", false)%string
  /\ constrain "a" "d" false = ("b", "c", true)%string
  /\ constrain "a" "aa" false = ("b", "aa", false)%string.
Proof. repeat split; reflexivity. Qed.

(** Test 3: spans are cut to the virtual bounds [[a, f]]. *)
Definition table3 : PhysicalTable :=
  {| points := [set "a" 1; set "d" 2; set "f" 3];
     rangeDels := [rangeDel "d" "e" 4; rangeDel "g" "l" 5];
     rangeKeys := [rangeKeySet "a" "d" 11 "@t10" "foo";
                   rangeKeySet "y" "z" 12 "@t11" "foo"] |}.

Definition virtual3 : VirtualTable :=
  {| backing := table3;
     smallest := MakeInternalKey (bs "a") 1 InternalKeyKindSet;
     largest := MakeInternalKey (bs "f") 1 InternalKeyKindSet |}.

Example test3_spans :
  NewRawRangeDelIter bytewise virtual3 = [rangeDel "d" "e" 4]
  /\ NewRawRangeKeyIter bytewise virtual3 = [rangeKeySet "a" "d" 11 "@t10" "foo"].
Proof. split; reflexivity. Qed.

(** Test 4: the virtual bounds are [[c, f]]. *)
Definition table4 : PhysicalTable :=
  {| points := [set "a" 1; set "b" 2; set "c" 3; set "d" 4; set "e" 5;
                set "f" 6; set "g" 8; set "h" 9];
     rangeDels := [];
     rangeKeys := [] |}.

Definition virtual4 : VirtualTable :=
  {| backing := table4;
     smallest := MakeInternalKey (bs "c") 3 InternalKeyKindSet;
     largest := MakeInternalKey (bs "f") 6 InternalKeyKindSet |}.

Definition scan (vt : VirtualTable) (q : option (bytes * bytes))
  : list (option (string * Z)) :=
  map (fun r => shownAs (Some r)) (visible bytewise vt q).

Definition seek (vt : VirtualTable) (q : option (bytes * bytes))
  (ps : list Positioning) : option (string * Z) :=
  shownAs (current (positions bytewise (NewIter bytewise vt q) ps)).

Example test4_bounds :
  scan virtual4 None
  = [Some ("c", 3); Some ("d", 4); Some ("e", 5); Some ("f", 6)]%string
  /\ scan virtual4 (Some (bs "a", bs "d")) = [Some ("c", 3)]%string
  /\ scan virtual4 (Some (bs "d", bs "g"))
     = [Some ("d", 4); Some ("e", 5); Some ("f", 6)]%string
  /\ scan virtual4 (Some (bs "d", bs "e")) = [Some ("d", 4)]%string.
Proof. repeat split; reflexivity. Qed.

Example test4_seeks :
  seek virtual4 None [PSeekGE (bs "b")] = Some ("c", 3)%string
  /\ seek virtual4 None [PSeekGE (bs "g")] = None
  /\ seek virtual4 None [PSeekGE (bs "d"); PPrev] = Some ("c", 3)%string
  /\ seek virtual4 None [PSeekGE (bs "d"); PPrev; PNext] = Some ("d", 4)%string
  /\ seek virtual4 None [PSeekGE (bs "d"); PPrev; PNext; PPrev; PPrev] = None
  /\ seek virtual4 None [PSeekLT (bs "h")] = Some ("f", 6)%string
  /\ seek virtual4 None [PLast] = Some ("f", 6)%string.
Proof. repeat split; reflexivity. Qed.

(** The [SeekLT] test: two records of the user key [f], and the virtual
    bounds [[c, f]]. *)
Definition table5 : PhysicalTable :=
  {| points := [set "a" 1; set "b" 2; set "c" 3; set "d" 4; set "e" 5;
                set "f" 6;
                (MakeInternalKey (bs "f") 1 InternalKeyKindSet, bs "ff");
                set "g" 8; set "h" 9];
     rangeDels := [];
     rangeKeys := [] |}.

Definition virtual5 : VirtualTable :=
  {| backing := table5;
     smallest := MakeInternalKey (bs "c") 3 InternalKeyKindSet;
     largest := MakeInternalKey (bs "f") 0 InternalKeyKindSet |}.

Example test5_seeks :
  seek virtual5 (Some (bs "d", bs "e")) [PSeekLT (bs "e")] = Some ("d", 4)%string
  /\ seek virtual5 None [PSeekGE (bs "f")] = Some ("f", 6)%string
  /\ seek virtual5 None [PSeekGE (bs "f"); PNext] = Some ("f", 1)%string
  /\ seek virtual5 None [PSeekGE (bs "f"); PNext; PNext] = None
  /\ seek virtual5 None [PSeekLT (bs "f")] = Some ("e", 5)%string
  /\ seek virtual5 None [PSeekLT (bs "f"); PNext; PNext; PPrev; PPrev; PPrev; PPrev]
     = Some ("c", 3)%string
  /\ seek virtual5 None
       [PSeekLT (bs "f"); PNext; PNext; PPrev; PPrev; PPrev; PPrev; PPrev] = None
  /\ seek virtual5 None [PSeekLT (bs "h")] = Some ("f", 1)%string
  /\ seek virtual5 None [PLast] = Some ("f", 1)%string.
Proof. repeat split; reflexivity. Qed.

(** Test 6: the end boundary [e] is an exclusive sentinel. *)
Definition table6 : PhysicalTable :=
  {| points := [set "a" 1; set "d" 2; set "e" 3; set "f" 5];
     rangeDels := [rangeDel "d" "e" 4];
     rangeKeys := [] |}.

Definition virtual6 : VirtualTable :=
  {| backing := table6;
     smallest := MakeInternalKey (bs "a") 1 InternalKeyKindSet;
     largest := MakeInternalKey (bs "e") SeqNumMax InternalKeyKindRangeDelete |}.

Example test6_sentinel :
  Trailer (largest virtual6) = 72057594037927935 * 256 + 15
  /\ seek virtual6 None [PFirst] = Some ("a", 1)%string
  /\ seek virtual6 None [PFirst; PNext] = Some ("d", 2)%string
  /\ seek virtual6 None [PFirst; PNext; PNext] = None
  /\ seek virtual6 None [PFirst; PNext; PNext; PSeekLT (bs "f")]
     = Some ("d", 2)%string
  /\ map (fun r => shownAs (Some r)) (compactionIter bytewise virtual6)
     = [Some ("a", 1); Some ("d", 2)]%string
  /\ NewRawRangeDelIter bytewise virtual6 = [rangeDel "d" "e" 4].
Proof. repeat split; reflexivity. Qed.

Lemma sentinel_key_hidden_witness :
  IsExclusiveSentinel (largest virtual6) = true
  /\ Forall (fun r => bytesCompare (UserKey (fst r)) (bs "e") <> Eq)
       (compactionIter bytewise virtual6)
  /\ In (rangeDel "d" "e" 4) (NewRawRangeDelIter bytewise virtual6).
Proof.
  split; [reflexivity|].
  destruct (sentinel_key_hidden bytewise bytewise_ok virtual6 eq_refl) as (_ & Hc & Hr).
  split; [exact Hc|].
  apply Hr; [now left|reflexivity|unfold leK; simpl; discriminate|reflexivity].
Defined.



(** C6, refuted as stated.  The query [[a, b)] has no overlap with the
    virtual bounds [[b, c]], yet the effective bounds are [[b, b)]: the
    effective start equals the effective end and does not sort after it. *)
Lemma touching_bounds_start_not_after_end :
  let q := {| bStart := bs "a"; bEnd := bs "b"; bEndInclusive := false |} in
  let e := constrainBounds bytewise q boundsBC in
  noOverlap bytewise q boundsBC
  /\ boundsAs e = ("b", "b", false)%string
  /\ Compare bytewise (bStart e) (bEnd e) <> Gt.
Proof.
  cbv zeta. split; [|split; [reflexivity|discriminate]].
  apply (noOverlap_touching bytewise bytewise_ok); reflexivity.
Qed.

Lemma no_overlap_no_keys_witness :
  noOverlap bytewise
    {| bStart := bs "a"; bEnd := bs "b"; bEndInclusive := false |}
    (virtualBounds virtual4)
  /\ visible bytewise virtual4 (Some (bs "a", bs "b")) = [].
Proof.
  assert (H : noOverlap bytewise
                {| bStart := bs "a"; bEnd := bs "b"; bEndInclusive := false |}
                (virtualBounds virtual4))
    by (apply (noOverlap_before bytewise bytewise_ok); reflexivity).
  split; [exact H|].
  exact (proj1 (no_overlap_no_keys bytewise bytewise_ok virtual4 (bs "a") (bs "b") H)).
Defined.

End SstableExamples.

(** ** Ingestion of external files *)

Module IngestFacts.
Import Ingest.

Section IngestExternalFacts.
Context (cmp : Comparer) (Hok : ComparerOk cmp).
Context (FormatSyntheticPrefixSuffix : Z).

Local Abbreviation validateFile_ := (validateFile cmp FormatSyntheticPrefixSuffix).
Local Abbreviation validateFiles_ := (validateFiles cmp FormatSyntheticPrefixSuffix).
Local Abbreviation ingestExternal_ :=
  (ingestExternal cmp FormatSyntheticPrefixSuffix).
Local Abbreviation invalidFile_ := (invalidFile cmp FormatSyntheticPrefixSuffix).
Local Abbreviation errorFits_ := (errorFits cmp FormatSyntheticPrefixSuffix).

Lemma validateFile_invalid (fmv : Z) (f : ExternalFile) :
  invalidFile_ fmv f -> validateFile_ fmv f <> None.
Proof.
  unfold invalidFile, validateFile, boundsReversed, tooOldFor.
  intros H.
  destruct (Compare cmp (StartKey f) (EndKey f)); try discriminate;
    destruct (hasSuffix cmp (StartKey f)); try discriminate;
    destruct (hasSuffix cmp (EndKey f)); try discriminate;
    destruct (Metamorphic.IsSet (SyntheticPrefix f)),
             (Metamorphic.IsSet (SyntheticSuffix f)),
             (Z.ltb_spec fmv FormatSyntheticPrefixSuffix);
    simpl; try discriminate;
    intuition (try discriminate; try lia).
Qed.

Lemma validateFile_fits (fmv : Z) (f : ExternalFile) (e : IngestError) :
  validateFile_ fmv f = Some e -> errorFits_ e fmv [f].
Proof.
  unfold validateFile, errorFits, boundsReversed, tooOldFor.
  destruct (Compare cmp (StartKey f) (EndKey f)) eqn:Ec;
    [| |intros [= <-]; split; [now left|assumption]];
    (destruct (hasSuffix cmp (StartKey f)) eqn:Es;
       [intros [= <-]; split; [now left|assumption]|]);
    (destruct (hasSuffix cmp (EndKey f)) eqn:Ee;
       [intros [= <-]; split; [now left|assumption]|]);
    destruct (Metamorphic.IsSet (SyntheticPrefix f)) eqn:Ep,
             (Metamorphic.IsSet (SyntheticSuffix f)) eqn:Ex,
             (Z.ltb_spec fmv FormatSyntheticPrefixSuffix);
    simpl; intros [= <-]; exists f; (split; [now left|split; auto]).
Qed.

Lemma errorFits_incl (e : IngestError) (fmv : Z) (f : ExternalFile)
  (batch : list ExternalFile) :
  e <> ErrOverlappingRanges ->
  errorFits_ e fmv [f] \/ errorFits_ e fmv batch ->
  errorFits_ e fmv (f :: batch).
Proof.
  intros Hne. destruct e; simpl; try congruence;
    intros [H|H];
    try (destruct H as [[->|[]] H]; split; [now left|exact H]);
    try (destruct H as [Hin H]; split; [now right|exact H]);
    try (destruct H as (g & [->|[]] & H); exists g; split; [now left|exact H]);
    try (destruct H as (g & Hin & H); exists g; split; [now right|exact H]).
Qed.

Lemma validateFile_not_overlap (fmv : Z) (f : ExternalFile) :
  validateFile_ fmv f <> Some ErrOverlappingRanges.
Proof.
  unfold validateFile.
  destruct (Compare cmp (StartKey f) (EndKey f)); try discriminate;
    destruct (hasSuffix cmp (StartKey f)); try discriminate;
    destruct (hasSuffix cmp (EndKey f)); try discriminate;
    destruct (_ && _); try discriminate;
    destruct (_ && _); discriminate.
Qed.

Lemma validateFiles_fits (fmv : Z) (batch : list ExternalFile) (e : IngestError) :
  validateFiles_ fmv batch = Some e ->
  e <> ErrOverlappingRanges /\ errorFits_ e fmv batch.
Proof.
  induction batch as [|f rest IH]; simpl; [discriminate|].
  destruct (validateFile_ fmv f) as [e'|] eqn:Ef.
  - intros [= <-].
    assert (e' <> ErrOverlappingRanges)
      by (intros ->; exact (validateFile_not_overlap _ _ Ef)).
    split; [assumption|]. apply errorFits_incl; [assumption|left].
    now apply validateFile_fits.
  - intros H. destruct (IH H) as [Hne Hfit].
    split; [assumption|]. apply errorFits_incl; auto.
Qed.

Lemma validateFiles_invalid (fmv : Z) (batch : list ExternalFile) :
  Exists (invalidFile_ fmv) batch -> validateFiles_ fmv batch <> None.
Proof.
  induction 1 as [f rest Hf|f rest _ IH]; simpl.
  - apply validateFile_invalid in Hf.
    destruct (validateFile_ fmv f); congruence.
  - destruct (validateFile_ fmv f); [discriminate|exact IH].
Qed.

(** *** Overlapping ranges *)

Definition byStart (f g : ExternalFile) : Prop :=
  leK cmp (StartKey f) (StartKey g).

Lemma insertByStart_Permutation (f : ExternalFile) (l : list ExternalFile) :
  Permutation (f :: l) (insertByStart cmp f l).
Proof.
  induction l as [|g r IH]; simpl; [reflexivity|].
  destruct (Compare cmp (StartKey f) (StartKey g)); try reflexivity.
  rewrite perm_swap. now apply perm_skip.
Qed.

Lemma sortByStart_Permutation (l : list ExternalFile) :
  Permutation l (sortByStart cmp l).
Proof.
  induction l as [|f r IH]; simpl; [reflexivity|].
  rewrite <- insertByStart_Permutation. now apply perm_skip.
Qed.

Lemma insertByStart_sorted (f : ExternalFile) (l : list ExternalFile) :
  StronglySorted byStart l -> StronglySorted byStart (insertByStart cmp f l).
Proof.
  intros H. induction H as [|g r Hr IH Hg]; simpl.
  - constructor; constructor.
  - destruct (Compare cmp (StartKey f) (StartKey g)) eqn:Ec.
    + constructor; [constructor; assumption|].
      assert (byStart f g) by (now apply Eq_leK).
      constructor; [assumption|]. eapply Forall_impl; [|exact Hg].
      intros h Hh. eapply (Compare_trans Hok); eassumption.
    + constructor; [constructor; assumption|].
      assert (byStart f g) by (now apply Lt_leK).
      constructor; [assumption|]. eapply Forall_impl; [|exact Hg].
      intros h Hh. eapply (Compare_trans Hok); eassumption.
    + constructor; [exact IH|].
      eapply Permutation_Forall; [apply insertByStart_Permutation|].
      constructor; [|exact Hg].
      apply Lt_leK, (Compare_Lt_Gt Hok), Ec.
Qed.

Lemma sortByStart_sorted (l : list ExternalFile) :
  StronglySorted byStart (sortByStart cmp l).
Proof.
  induction l as [|f r IH]; simpl; [constructor|].
  now apply insertByStart_sorted.
Qed.

Lemma overlap_sym (f g : ExternalFile) : ~ overlap cmp f g -> ~ overlap cmp g f.
Proof. unfold overlap. tauto. Qed.

(** In a list sorted by start key whose neighbours do not overlap, no two
    files overlap. *)
Lemma overlapsNext_false (l : list ExternalFile) :
  StronglySorted byStart l -> overlapsNext cmp l = false ->
  ForallOrdPairs (fun f g => ~ overlap cmp f g) l.
Proof.
  intros H. induction H as [|f r Hr IH Hf]; intros Hn; [constructor|].
  destruct r as [|g r']; [constructor; constructor|].
  simpl in Hn.
  destruct (Compare cmp (StartKey g) (EndKey f)) eqn:Ec; try discriminate;
    (constructor; [|now apply IH]);
    apply Forall_forall; intros h Hh [_ Hlt];
    rewrite Forall_forall in Hf;
    (assert (Hgh : byStart g h)
       by (destruct Hh as [->|Hh]; [apply (leK_refl Hok)|];
           inversion Hr as [|x y _ Hg]; subst;
           rewrite Forall_forall in Hg; now apply Hg));
    (assert (Hfh : leK cmp (EndKey f) (StartKey h))
       by (eapply (Compare_trans Hok); [|exact Hgh];
           unfold leK; rewrite (Compare_antisym Hok), Ec; discriminate));
    apply (Compare_Lt_Gt Hok) in Hlt; unfold leK in Hfh; congruence.
Qed.

Lemma overlapsNext_true (l : list ExternalFile) :
  StronglySorted byStart l -> overlapsNext cmp l = true ->
  exists l1 f g l2,
    l = l1 ++ f :: g :: l2
    /\ byStart f g /\ Compare cmp (StartKey g) (EndKey f) = Lt.
Proof.
  intros H. induction H as [|f r Hr IH Hf]; intros Hn; [discriminate|].
  destruct r as [|g r']; [discriminate|].
  simpl in Hn.
  assert (Hfg : byStart f g) by (inversion Hf; assumption).
  destruct (Compare cmp (StartKey g) (EndKey f)) eqn:Ec;
    try (destruct (IH Hn) as (l1 & f' & g' & l2 & -> & H1 & H2);
         exists (f :: l1), f', g', l2; repeat split; auto).
  exists [], f, g, r'. repeat split; auto.
Qed.

Lemma batchOverlaps_sorted (batch : list ExternalFile) :
  batchOverlaps cmp batch -> overlapsNext cmp (sortByStart cmp batch) = true.
Proof.
  intros (l1 & f & l2 & g & l3 & -> & Hov).
  destruct (overlapsNext cmp (sortByStart cmp _)) eqn:E; [reflexivity|exfalso].
  apply overlapsNext_false in E; [|apply sortByStart_sorted].
  eapply KeyspanFacts.ForallOrdPairs_Permutation in E;
    [|apply overlap_sym|symmetry; apply sortByStart_Permutation].
  assert (Hsplit : forall (l l' : list ExternalFile),
             ForallOrdPairs (fun f g => ~ overlap cmp f g) (l ++ l') ->
             ForallOrdPairs (fun f g => ~ overlap cmp f g) l').
  { induction l as [|x l IH]; simpl; intros l' H; [exact H|].
    inversion H; subst. now apply IH. }
  apply Hsplit in E. inversion E as [|x l Hf _]; subst.
  rewrite Forall_forall in Hf. apply (Hf g); [|exact Hov].
  apply in_or_app. right. now left.
Qed.

(** C7.  A batch that holds a file with reversed bounds, with a suffix on
    its start or end key, or with a synthetic prefix or suffix that the
    format version of the store predates, or that holds two files whose
    ranges overlap, is rejected: the result is an error that corresponds to
    a failure the batch has, and the store is returned as it was, with no
    file of the batch registered. *)
Theorem ingestExternal_rejects (db : DB) (batch : list ExternalFile) :
  Exists (invalidFile_ (FormatMajorVersion db)) batch
  \/ batchOverlaps cmp batch ->
  exists e,
    ingestExternal_ db batch = (db, Some e)
    /\ errorFits_ e (FormatMajorVersion db) batch.
Proof.
  intros H. unfold ingestExternal.
  destruct (validateFiles_ (FormatMajorVersion db) batch) as [e|] eqn:Ev.
  - exists e. split; [reflexivity|]. now apply validateFiles_fits.
  - destruct H as [H|H]; [now apply validateFiles_invalid in H|].
    pose proof (batchOverlaps_sorted batch H) as Ho. rewrite Ho.
    exists ErrOverlappingRanges. split; [reflexivity|].
    destruct (overlapsNext_true _ (sortByStart_sorted batch) Ho)
      as (l1 & f & g & l2 & Hs & H1 & H2).
    exists l1, f, g, l2. rewrite <- Hs.
    split; [apply sortByStart_Permutation|auto].
Qed.

(** A batch that passes validation is registered whole, sorted by start
    key. *)
Lemma ingestExternal_accepts (db : DB) (batch : list ExternalFile) :
  validateFiles_ (FormatMajorVersion db) batch = None ->
  overlapsNext cmp (sortByStart cmp batch) = false ->
  ingestExternal_ db batch
  = ({| FormatMajorVersion := FormatMajorVersion db;
        registered := registered db ++ sortByStart cmp batch |}, None).
Proof. intros Hv Ho. unfold ingestExternal. now rewrite Hv, Ho. Qed.

End IngestExternalFacts.
End IngestFacts.

(** *** The cases of the [ingest-external] test *)

Module IngestExamples.
Import Ingest IngestFacts.

Definition file (name startKey endKey : string) : ExternalFile :=
  {| ObjName := name; StartKey := bs startKey; EndKey := bs endKey;
     SyntheticPrefix := []; SyntheticSuffix := [] |}.

Definition withPrefix (f : ExternalFile) (p : string) : ExternalFile :=
  {| ObjName := ObjName f; StartKey := StartKey f; EndKey := EndKey f;
     SyntheticPrefix := bs p; SyntheticSuffix := SyntheticSuffix f |}.

Definition withSuffix (f : ExternalFile) (s : string) : ExternalFile :=
  {| ObjName := ObjName f; StartKey := StartKey f; EndKey := EndKey f;
     SyntheticPrefix := SyntheticPrefix f; SyntheticSuffix := bs s |}.

(** The format version that introduces synthetic prefixes and suffixes in
    the test: a store at version 16 is too old. *)
Definition FormatSyntheticPrefixSuffix : Z := 17.

Definition store (fmv : Z) : DB :=
  {| FormatMajorVersion := fmv; registered := [file "f2" "a" "c"] |}.

Definition ingest (fmv : Z) (batch : list ExternalFile) : DB * option IngestError :=
  ingestExternal bytewiseAt FormatSyntheticPrefixSuffix (store fmv) batch.

Example overlapping_files_rejected :
  ingest 17 [file "f3" "c" "f"; file "f4" "e" "h"]
  = (store 17, Some ErrOverlappingRanges).
Proof. reflexivity. Qed.

Example adjacent_files_accepted :
  ingest 17 [file "f3" "c" "f"; file "f4" "f" "hh"]
  = ({| FormatMajorVersion := 17;
        registered := [file "f2" "a" "c"; file "f3" "c" "f"; file "f4" "f" "hh"] |},
     None).
Proof. reflexivity. Qed.

Example files_reordered :
  ingest 17 [file "f8" "x" "y"; file "f7" "a" "b"]
  = ({| FormatMajorVersion := 17;
        registered := [file "f2" "a" "c"; file "f7" "a" "b"; file "f8" "x" "y"] |},
     None).
Proof. reflexivity. Qed.

Example old_version_rejects_transforms :
  ingest 16 [withPrefix (file "f5" "ff" "fi") "f"]
  = (store 16, Some ErrTooOldForSyntheticPrefix)
  /\ ingest 16 [withSuffix (file "f5" "ff" "fi") "@5"]
     = (store 16, Some ErrTooOldForSyntheticSuffix)
  /\ snd (ingest 17 [withPrefix (file "f5" "ff" "fi") "f"]) = None.
Proof. repeat split; reflexivity. Qed.

Example suffixed_and_reversed_bounds_rejected :
  ingest 17 [file "f6" "a@1" "z"]
  = (store 17, Some (ErrStartKeyHasSuffix (file "f6" "a@1" "z")))
  /\ ingest 17 [file "f6" "a" "z@10"]
     = (store 17, Some (ErrEndKeyHasSuffix (file "f6" "a" "z@10")))
  /\ ingest 17 [file "f6" "c" "a"]
     = (store 17, Some (ErrBoundsInvalid (file "f6" "c" "a"))).
Proof. repeat split; reflexivity. Qed.

Lemma ingestExternal_rejects_witness :
  exists e,
    ingestExternal bytewise FormatSyntheticPrefixSuffix (store 17)
      [file "f3" "c" "f"; file "f4" "e" "h"] = (store 17, Some e)
    /\ errorFits bytewise FormatSyntheticPrefixSuffix e 17
         [file "f3" "c" "f"; file "f4" "e" "h"].
Proof.
  apply (ingestExternal_rejects bytewise bytewise_ok FormatSyntheticPrefixSuffix
           (store 17) [file "f3" "c" "f"; file "f4" "e" "h"]).
  right. exists [], (file "f3" "c" "f"), [], (file "f4" "e" "h"), [].
  split; [reflexivity|split; reflexivity].
Defined.

End IngestExamples.

(** ** Open-file tracking *)

Module VfstestFacts.
Import Vfstest.
Import stdpp.base stdpp.gmap stdpp.pretty.

Section OpenFilesFacts.
Context {I F : Type} (ifs : InnerFS I F).

(** The addresses in [files] are allocated, and the allocated addresses are
    those below [nextAddr]. *)
Definition allocated (fs : openFilesFS I F) : Prop :=
  (forall p, p ∈ files fs -> p < nextAddr fs)%nat
  /\ (forall p, is_Some (heap fs !! p) <-> p < nextAddr fs)%nat.

Lemma allocated_init (i : I) : allocated (WithOpenFileTracking (F:=F) i).
Proof.
  split; simpl.
  - intros p Hp. now apply not_elem_of_empty in Hp.
  - intros p. rewrite lookup_empty. split; [intros [? ?]; discriminate|lia].
Qed.

Lemma wrapOpenFile_nil (fs : openFilesFS I F) (callers : list Frame) :
  wrapOpenFile fs None callers = (fs, None).
Proof. reflexivity. Qed.

Lemma wrapOpenFile_file (fs : openFilesFS I F) (f : F) (callers : list Frame) :
  files (fst (wrapOpenFile fs (Some f) callers)) = {[nextAddr fs]} ∪ files fs
  /\ snd (wrapOpenFile fs (Some f) callers) = Some (nextAddr fs).
Proof. split; reflexivity. Qed.

Lemma Close_spec (fs : openFilesFS I F) (p : nat) (o : openFile F) :
  heap fs !! p = Some o ->
  files (fst (Close ifs fs p)) = files fs ∖ {[p]}
  /\ snd (Close ifs fs p) = snd (innerFileClose ifs (inner fs) (ofFile o)).
Proof.
  intros H. unfold Close. rewrite H.
  destruct (innerFileClose ifs (inner fs) (ofFile o)). split; reflexivity.
Qed.

(** What one call does to [files]. *)
Lemma step_open (fs : openFilesFS I F) (c : OpenCall) (callers : list Frame) :
  (exists err,
     snd (step ifs fs (ActOpen c callers)) = Opened None err
     /\ files (fst (step ifs fs (ActOpen c callers))) = files fs
     /\ heap (fst (step ifs fs (ActOpen c callers))) = heap fs
     /\ nextAddr (fst (step ifs fs (ActOpen c callers))) = nextAddr fs)
  \/ (exists err f,
        snd (step ifs fs (ActOpen c callers)) = Opened (Some (nextAddr fs)) err
        /\ files (fst (step ifs fs (ActOpen c callers)))
           = {[nextAddr fs]} ∪ files fs
        /\ heap (fst (step ifs fs (ActOpen c callers)))
           = <[nextAddr fs := mkOpenFile f (take 20 callers)]> (heap fs)
        /\ nextAddr (fst (step ifs fs (ActOpen c callers))) = S (nextAddr fs)).
Proof.
  unfold step, openWith.
  destruct (callInner ifs c (inner fs)) as [[i' [f|]] err]; simpl.
  - right. exists err, f. repeat split; reflexivity.
  - left. exists err. repeat split; reflexivity.
Qed.

Lemma step_pass (fs : openFilesFS I F) (c : PassCall) :
  exists err,
    snd (step ifs fs (ActPass c)) = Passed err
    /\ files (fst (step ifs fs (ActPass c))) = files fs
    /\ heap (fst (step ifs fs (ActPass c))) = heap fs
    /\ nextAddr (fst (step ifs fs (ActPass c))) = nextAddr fs.
Proof.
  unfold step, passThrough.
  destruct (innerPass ifs (inner fs) c) as [i' err].
  exists err. repeat split; reflexivity.
Qed.

Lemma step_close (fs : openFilesFS I F) (p : nat) :
  exists err,
    snd (step ifs fs (ActClose p)) = Closed err
    /\ heap (fst (step ifs fs (ActClose p))) = heap fs
    /\ nextAddr (fst (step ifs fs (ActClose p))) = nextAddr fs
    /\ files (fst (step ifs fs (ActClose p)))
       = match heap fs !! p with
         | Some _ => files fs ∖ {[p]}
         | None => files fs
         end.
Proof.
  unfold step, Close. destruct (heap fs !! p) as [o|].
  - destruct (innerFileClose ifs (inner fs) (ofFile o)) as [i' err].
    exists err. repeat split; reflexivity.
  - exists None. repeat split; reflexivity.
Qed.

Lemma allocated_step (fs : openFilesFS I F) (a : Action) :
  allocated fs -> allocated (fst (step ifs fs a)).
Proof.
  intros [H1 H2]. destruct a as [c callers|c|p].
  - destruct (step_open fs c callers)
      as [(err & _ & Hf & Hh & Hn)|(err & f & _ & Hf & Hh & Hn)];
      unfold allocated; rewrite Hf, Hh, Hn.
    + split; assumption.
    + split.
      * intros p Hp. apply elem_of_union in Hp. destruct Hp as [Hp|Hp].
        -- apply elem_of_singleton in Hp. lia.
        -- specialize (H1 p Hp). lia.
      * intros p. destruct (decide (nextAddr fs = p)) as [<-|Hne].
        -- rewrite lookup_insert_eq. split; [lia|eauto].
        -- rewrite lookup_insert_ne by assumption. rewrite H2. lia.
  - destruct (step_pass fs c) as (err & _ & Hf & Hh & Hn).
    unfold allocated. rewrite Hf, Hh, Hn. split; assumption.
  - destruct (step_close fs p) as (err & _ & Hh & Hn & Hf).
    unfold allocated. rewrite Hf, Hh, Hn. split; [|assumption].
    intros q Hq. apply H1. destruct (heap fs !! p); [|exact Hq].
    apply elem_of_difference in Hq. tauto.
Qed.

Lemma run_cons (fs : openFilesFS I F) (a : Action) (rest : list Action) :
  run ifs fs (a :: rest)
  = (fst (run ifs (fst (step ifs fs a)) rest),
     (a, snd (step ifs fs a)) :: snd (run ifs (fst (step ifs fs a)) rest)).
Proof.
  simpl. destruct (step ifs fs a) as [fs' o]. simpl.
  destruct (run ifs fs' rest); reflexivity.
Qed.

Lemma run_actions (fs : openFilesFS I F) (acts : list Action) :
  map fst (snd (run ifs fs acts)) = acts.
Proof.
  revert fs; induction acts as [|a rest IH]; intros fs; [reflexivity|].
  rewrite run_cons. simpl. now rewrite IH.
Qed.

Lemma openedAndNotClosed_cons (p : nat) (x : Action * Outcome)
  (log : list (Action * Outcome)) :
  openedAndNotClosed p (x :: log) <->
  (exists a err, x = (a, Opened (Some p) err)
                 /\ Forall (fun x => fst x <> ActClose p) log)
  \/ openedAndNotClosed p log.
Proof.
  split.
  - intros (pre & a & err & post & Hl & Hp). destruct pre as [|y pre]; simpl in Hl.
    + injection Hl as -> <-. left. eauto.
    + injection Hl as -> ->. right. exists pre, a, err, post. auto.
  - intros [(a & err & -> & Hp)|(pre & a & err & post & -> & Hp)].
    + exists [], a, err, log. auto.
    + exists (x :: pre), a, err, post. auto.
Qed.

Lemma not_closed_log (p : nat) (fs : openFilesFS I F) (acts : list Action) :
  Forall (fun x => fst x <> ActClose p) (snd (run ifs fs acts))
  <-> Forall (fun a => a <> ActClose p) acts.
Proof.
  rewrite <- (run_actions fs acts) at 2. rewrite Forall_map. reflexivity.
Qed.

(** The files tracked after a run: those tracked before that no call
    closed, and those a call returned that no later call closed. *)
Lemma run_files (acts : list Action) (fs : openFilesFS I F) (p : nat) :
  allocated fs ->
  p ∈ files (fst (run ifs fs acts)) <->
  (p ∈ files fs /\ Forall (fun a => a <> ActClose p) acts)
  \/ openedAndNotClosed p (snd (run ifs fs acts)).
Proof.
  revert fs; induction acts as [|a rest IH]; intros fs Hfs.
  - simpl. split.
    + intros H. left. split; [exact H|constructor].
    + intros [[H _]|(pre & a & err & post & Hl & _)]; [exact H|].
      destruct pre; discriminate.
  - rewrite run_cons. simpl fst. simpl snd.
    rewrite (IH _ (allocated_step fs a Hfs)), openedAndNotClosed_cons.
    rewrite Forall_cons.
    destruct Hfs as [H1 H2].
    destruct a as [c callers|c|q].
    + destruct (step_open fs c callers)
        as [(err & Ho & Hf & _)|(err & f & Ho & Hf & _)]; rewrite Ho, Hf.
      * split.
        -- intros [[Hp Hn]|H]; [left|right; right; exact H].
           repeat split; auto; discriminate.
        -- intros [[Hp [_ Hn]]|[(a & err' & Heq & _)|H]];
             [left; auto|discriminate|right; exact H].
      * split.
        -- intros [[Hp Hn]|H]; [|right; right; exact H].
           apply elem_of_union in Hp. destruct Hp as [Hp|Hp].
           ++ apply elem_of_singleton in Hp. subst p. right. left.
              exists (ActOpen c callers), err. split; [reflexivity|].
              apply not_closed_log. exact Hn.
           ++ left. repeat split; auto; discriminate.
        -- intros [[Hp [_ Hn]]|[(a & err' & Heq & Hn)|H]].
           ++ left. split; [apply elem_of_union; now right|exact Hn].
           ++ injection Heq as _ <- _. apply not_closed_log in Hn.
              left. split; [|exact Hn].
              apply elem_of_union. left. now apply elem_of_singleton.
           ++ right. exact H.
    + destruct (step_pass fs c) as (err & Ho & Hf & _). rewrite Ho, Hf.
      split.
      * intros [[Hp Hn]|H]; [left|right; right; exact H].
        repeat split; auto; discriminate.
      * intros [[Hp [_ Hn]]|[(a & err' & Heq & _)|H]];
          [left; auto|discriminate|right; exact H].
    + destruct (step_close fs q) as (err & Ho & _ & _ & Hf). rewrite Ho, Hf.
      split.
      * intros [[Hp Hn]|H]; [left|right; right; exact H].
        destruct (heap fs !! q) eqn:Eq.
        -- apply elem_of_difference in Hp. destruct Hp as [Hp Hne].
           repeat split; auto. intros [= ->].
           apply Hne. now apply elem_of_singleton.
        -- repeat split; auto. intros [= ->].
           specialize (H1 p Hp). apply H2 in H1. rewrite Eq in H1.
           destruct H1; discriminate.
      * intros [[Hp [Hne Hn]]|[(a & err' & Heq & _)|H]];
          [left|discriminate|right; exact H].
        split; [|exact Hn]. destruct (heap fs !! q); [|exact Hp].
        apply elem_of_difference. split; [exact Hp|].
        intros Hq. apply elem_of_singleton in Hq. congruence.
Qed.

End OpenFilesFacts.

Lemma append_nonempty (s1 s2 : string) (c : Ascii.ascii) :
  (s1 +:+ String c s2)%string <> ""%string.
Proof. destruct s1; discriminate. Qed.

Lemma dumpStacks_empty_iff {I F : Type} (fs : openFilesFS I F) :
  dumpStacks fs = ""%string <-> files fs = ∅.
Proof.
  unfold dumpStacks. destruct (decide (size (files fs) = 0)) as [H|H].
  - apply size_empty_iff in H. split; [intros _|reflexivity].
    now apply leibniz_equiv.
  - split.
    + intros Hs. exfalso. revert Hs. apply append_nonempty.
    + intros He. exfalso. apply H. rewrite He. apply size_empty.
Qed.

(** C10.  After any run of calls on a tracked file system, the tracked set
    holds exactly the files that a file-returning call ([Create], [Open],
    [OpenReadWrite], [OpenDir], [ReuseForWrite]) returned and that no later
    call closed.  A nil file is returned as it is and not tracked; [Close]
    removes the closed file and no other, and returns the error of the
    wrapped close; [dumpStacks] writes nothing exactly when the tracked set
    is empty. *)
Theorem tracked_files_are_the_open_files {I F : Type} (ifs : InnerFS I F)
  (i : I) (acts : list Action) :
  let r := run ifs (WithOpenFileTracking i) acts in
  (forall p, p ∈ files (fst r) <-> openedAndNotClosed p (snd r))
  /\ (forall (fs : openFilesFS I F) callers,
        wrapOpenFile fs None callers = (fs, None))
  /\ (forall (fs : openFilesFS I F) p o,
        heap fs !! p = Some o ->
        files (fst (Close ifs fs p)) = files fs ∖ {[p]}
        /\ snd (Close ifs fs p) = snd (innerFileClose ifs (inner fs) (ofFile o)))
  /\ (dumpStacks (fst r) = ""%string <-> files (fst r) = ∅).
Proof.
  intros r. split; [|split; [|split]].
  - intros p. unfold r.
    rewrite (run_files ifs acts _ p (allocated_init i)). simpl.
    split; [intros [[H _]|H]; [now apply not_elem_of_empty in H|exact H]|].
    intros H. now right.
  - intros fs callers. reflexivity.
  - intros fs p o. apply Close_spec.
  - apply dumpStacks_empty_iff.
Qed.

(** *** The stacks kept for the files *)

Section Stacks.
Context {I F : Type} (ifs : InnerFS I F).

(** The calls of [log] that returned a file have left at its address the
    first 20 frames of their callers. *)
Definition stacksKept (h : gmap nat (openFile F))
  (log : list (Action * Outcome)) : Prop :=
  Forall
    (fun x =>
       match x with
       | (ActOpen _ callers, Opened (Some p) _) =>
           exists o, h !! p = Some o /\ pcs o = take 20 callers
       | _ => True
       end) log.

Lemma heap_step (fs : openFilesFS I F) (a : Action) (p : nat) (o : openFile F) :
  allocated fs -> heap fs !! p = Some o ->
  heap (fst (step ifs fs a)) !! p = Some o.
Proof.
  intros [_ H2] Hp. destruct a as [c callers|c|q].
  - destruct (step_open ifs fs c callers)
      as [(err & _ & _ & Hh & _)|(err & f & _ & _ & Hh & _)]; rewrite Hh;
      [exact Hp|].
    rewrite lookup_insert_ne; [exact Hp|].
    intros <-. assert (nextAddr fs < nextAddr fs)%nat; [|lia].
    apply H2. eauto.
  - destruct (step_pass ifs fs c) as (err & _ & _ & Hh & _). now rewrite Hh.
  - destruct (step_close ifs fs q) as (err & _ & Hh & _). now rewrite Hh.
Qed.

Lemma heap_run (acts : list Action) (fs : openFilesFS I F) (p : nat)
  (o : openFile F) :
  allocated fs -> heap fs !! p = Some o ->
  heap (fst (run ifs fs acts)) !! p = Some o.
Proof.
  revert fs; induction acts as [|a rest IH]; intros fs Hfs Hp; [exact Hp|].
  rewrite run_cons. simpl fst.
  apply IH; [now apply allocated_step|now apply heap_step].
Qed.

Lemma nextAddr_step (fs : openFilesFS I F) (a : Action) :
  (nextAddr fs <= nextAddr (fst (step ifs fs a)))%nat.
Proof.
  destruct a as [c callers|c|q].
  - destruct (step_open ifs fs c callers)
      as [(err & _ & _ & _ & Hn)|(err & f & _ & _ & _ & Hn)]; rewrite Hn; lia.
  - destruct (step_pass ifs fs c) as (err & _ & _ & _ & Hn). rewrite Hn; lia.
  - destruct (step_close ifs fs q) as (err & _ & _ & Hn & _). rewrite Hn; lia.
Qed.

(** The files a run returns are at addresses that were not allocated
    before, each at an address above those returned before it. *)
Lemma run_handles (acts : list Action) (fs : openFilesFS I F) :
  Forall (fun p => nextAddr fs <= p)%nat (handlesOf (snd (run ifs fs acts)))
  /\ NoDup (handlesOf (snd (run ifs fs acts))).
Proof.
  revert fs; induction acts as [|a rest IH]; intros fs.
  - split; constructor.
  - rewrite run_cons. cbn [snd handlesOf flat_map].
    fold (handlesOf (snd (run ifs (fst (step ifs fs a)) rest))).
    destruct (IH (fst (step ifs fs a))) as [Hge Hnd].
    pose proof (nextAddr_step fs a) as Hle.
    assert (Hge' : Forall (fun p => nextAddr fs <= p)%nat
                     (handlesOf (snd (run ifs (fst (step ifs fs a)) rest)))).
    { eapply List.Forall_impl; [|exact Hge]. intros p Hp. cbv beta in Hp. lia. }
    destruct a as [c callers|c|q].
    + destruct (step_open ifs fs c callers)
        as [(err & Ho & _)|(err & f & Ho & _ & _ & Hn)]; rewrite Ho; simpl.
      * split; assumption.
      * split; [constructor; [lia|exact Hge']|].
        constructor; [|exact Hnd]. intros Hin.
        rewrite Forall_forall in Hge. specialize (Hge _ Hin). lia.
    + destruct (step_pass ifs fs c) as (err & Ho & _). rewrite Ho. simpl.
      split; assumption.
    + destruct (step_close ifs fs q) as (err & Ho & _). rewrite Ho. simpl.
      split; assumption.
Qed.

Lemma run_stacks (acts : list Action) (fs : openFilesFS I F) :
  allocated fs ->
  stacksKept (heap (fst (run ifs fs acts))) (snd (run ifs fs acts)).
Proof.
  revert fs; induction acts as [|a rest IH]; intros fs Hfs; [constructor|].
  rewrite run_cons. cbn [fst snd].
  pose proof (allocated_step ifs fs a Hfs) as Hfs'.
  constructor; [|now apply IH].
  destruct a as [c callers|c|q];
    [|now destruct (snd (step ifs fs (ActPass c)))
     |now destruct (snd (step ifs fs (ActClose q)))].
  destruct (step_open ifs fs c callers)
    as [(err & Ho & _)|(err & f & Ho & _ & Hh & _)]; rewrite Ho; [exact Logic.I|].
  exists (mkOpenFile f (take 20 callers)). split; [|reflexivity].
  apply heap_run; [exact Hfs'|]. rewrite Hh. apply lookup_insert_eq.
Qed.

End Stacks.

Lemma dumpStack_stackText {F : Type} (o : openFile F) :
  dumpStack o = stackText (pcs o).
Proof. unfold dumpStack, stackText. destruct (pcs o); reflexivity. Qed.

Section Dump.
Context {I F : Type} (ifs : InnerFS I F).

(** Only a file-returning call has the outcome of one. *)
Lemma run_opened (acts : list Action) (fs : openFilesFS I F) :
  Forall
    (fun x =>
       match snd x with
       | Opened _ _ => exists c callers, fst x = ActOpen c callers
       | _ => True
       end) (snd (run ifs fs acts)).
Proof.
  revert fs; induction acts as [|a rest IH]; intros fs; [constructor|].
  rewrite run_cons. cbn [snd]. constructor; [|apply IH].
  cbn [fst snd]. destruct a as [c callers|c|q].
  - destruct (snd (step ifs fs (ActOpen c callers))); eauto.
  - destruct (step_pass ifs fs c) as (err & Ho & _). now rewrite Ho.
  - destruct (step_close ifs fs q) as (err & Ho & _). now rewrite Ho.
Qed.

(** In a log whose calls have returned files at different addresses, the
    callers found for an address are those of the call that returned it. *)
Lemma openingCallers_found (log : list (Action * Outcome)) c callers p err :
  NoDup (handlesOf log) ->
  In (ActOpen c callers, Opened (Some p) err) log ->
  openingCallers log p = callers.
Proof.
  unfold openingCallers.
  induction log as [|x log IH]; intros Hnd Hin; [destruct Hin|].
  destruct Hin as [->|Hin].
  - cbn. now rewrite Nat.eqb_refl.
  - assert (Hp : In p (handlesOf log)).
    { unfold handlesOf. apply in_flat_map.
      exists (ActOpen c callers, Opened (Some p) err).
      split; [exact Hin|now left]. }
    destruct x as [a o]. cbn [List.find].
    destruct a as [c' callers'|c'|q'];
      try (apply IH; [|exact Hin];
           destruct o as [[q|] e|e|e]; cbn in Hnd;
           [now inversion Hnd|exact Hnd|exact Hnd|exact Hnd]).
    destruct o as [[q|] e|e|e]; cbn in Hnd;
      try (apply IH; [exact Hnd|exact Hin]).
    inversion Hnd as [|? ? Hq Hnd']; subst.
    destruct (Nat.eqb_spec q p) as [->|Hne];
      [exfalso; apply Hq, list_elem_of_In; exact Hp|].
    apply IH; [exact Hnd'|exact Hin].
Qed.

(** After a run, the file at a tracked address holds the first 20 frames
    of the callers of the call that returned it. *)
Lemma run_tracked_stack (i : I) (acts : list Action) (p : nat) :
  let r := run ifs (WithOpenFileTracking i) acts in
  p ∈ files (fst r) ->
  exists c err (o : openFile F),
    In (ActOpen c (openingCallers (snd r) p), Opened (Some p) err) (snd r)
    /\ heap (fst r) !! p = Some o
    /\ pcs o = take 20 (openingCallers (snd r) p).
Proof.
  intros r Hp.
  apply (run_files ifs acts _ p (allocated_init i)) in Hp.
  destruct Hp as [[Hp _]|(pre & a & err & post & Hl & _)];
    [now apply not_elem_of_empty in Hp|].
  fold r in Hl.
  assert (Hin : In (a, Opened (Some p) err) (snd r))
    by (rewrite Hl; apply in_or_app; right; now left).
  pose proof (run_opened acts (WithOpenFileTracking i)) as Ho. fold r in Ho.
  rewrite List.Forall_forall in Ho. destruct (Ho _ Hin) as (c & callers & Ha).
  cbn in Ha. subst a.
  pose proof (run_handles ifs acts (WithOpenFileTracking i)) as [_ Hnd].
  fold r in Hnd.
  rewrite (openingCallers_found _ c callers p err Hnd Hin).
  pose proof (run_stacks ifs acts _ (allocated_init i)) as Hs. fold r in Hs.
  unfold stacksKept in Hs. rewrite List.Forall_forall in Hs.
  destruct (Hs _ Hin) as (o & Hh & Hpcs).
  exists c, err, o. repeat split; assumption.
Qed.

End Dump.

(** Every file that a run of calls on a tracked file system returns has a
    stack of its own: no two calls of the run return the same address, and
    a tracked file was returned by a call of the run, of which its address
    still holds the first 20 frames of the callers.  So what [dumpStacks]
    writes after the run is, for each tracked file, the text of the first
    20 frames of the callers of the call that opened it, under the line
    that counts the files. *)
Theorem stacks_are_those_of_the_opening_calls {I F : Type} (ifs : InnerFS I F)
  (i : I) (acts : list Action) :
  let r := run ifs (WithOpenFileTracking i) acts in
  NoDup (handlesOf (snd r))
  /\ (forall p, p ∈ files (fst r) ->
      exists c err,
        In (ActOpen c (openingCallers (snd r) p), Opened (Some p) err) (snd r))
  /\ dumpStacks (fst r)
     = (if decide (size (files (fst r)) = 0)%nat then ""
        else
          pretty (size (files (fst r))) +:+ " open files:" +:+ newline
          +:+ String.concat ""
                (map (fun p =>
                        stackText (take 20 (openingCallers (snd r) p))
                        +:+ newline)
                   (elements (files (fst r)))))%string.
Proof.
  intros r. split; [apply run_handles|]. split.
  - intros p Hp.
    destruct (run_tracked_stack ifs i acts p Hp) as (c & err & o & Hin & _).
    eauto.
  - unfold dumpStacks.
    destruct (decide (size (files (fst r)) = 0)); [reflexivity|].
    do 4 f_equal. apply map_ext_in. intros p Hp.
    assert (Hp' : p ∈ files (fst r))
      by (apply elem_of_elements, list_elem_of_In; exact Hp).
    destruct (run_tracked_stack ifs i acts p Hp')
      as (c & err & o & _ & Hh & Hpcs).
    fold r in Hh, Hpcs. rewrite Hh, dumpStack_stackText, Hpcs. reflexivity.
Qed.

End VfstestFacts.

(** *** A run on a concrete file system *)

Module VfstestExamples.
Import Vfstest VfstestFacts.
Import stdpp.base stdpp.gmap stdpp.pretty.

(** An inner file system whose files are numbered in the order they are
    opened.  Opening the empty name fails with a nil file; closing file [0]
    fails. *)
Definition openNumbered (i : nat) (name : string)
  : nat * option nat * option error :=
  if String.eqb name "" then (i, None, Some "no such file"%string)
  else (S i, Some i, None).

Definition numberedFS : InnerFS nat nat :=
  {| innerCreate := openNumbered;
     innerOpen := openNumbered;
     innerOpenReadWrite := openNumbered;
     innerOpenDir := openNumbered;
     innerReuseForWrite := fun i _ newname => openNumbered i newname;
     innerPass := fun i _ => (i, None);
     innerFileClose :=
       fun i f => (i, if Nat.eqb f 0 then Some "close failed"%string else None) |}.

Definition caller : Frame :=
  {| Function := "main.run"; File := "main.go"; Line := 42 |}.

Definition someCalls : list Action :=
  [ActOpen (CallCreate "a") [caller];
   ActOpen (CallOpen "") [caller];
   ActPass (CallRemove "a");
   ActOpen (CallOpenDir "d") [caller];
   ActClose 0].

Example someCalls_run :
  let r := run numberedFS (WithOpenFileTracking 0%nat) someCalls in
  map snd (snd r)
  = [Opened (Some 0%nat) None;
     Opened None (Some "no such file"%string);
     Passed None;
     Opened (Some 1%nat) None;
     Closed (Some "close failed"%string)]
  /\ elements (files (fst r)) = [1%nat]
  /\ dumpStacks (fst r)
     = ("1 open files:" +:+ newline +:+ "main.run" +:+ newline
        +:+ " main.go:42" +:+ newline +:+ newline)%string
  /\ dumpStacks (WithOpenFileTracking (F:=nat) 0%nat) = ""%string.
Proof. cbv zeta. repeat split; vm_compute; reflexivity. Qed.

End VfstestExamples.
(** ** Numbers written and read back *)

Module StrconvFacts.
Import Ascii Strconv Fmt.

Lemma string_of_uint_digits (d : Decimal.uint) :
  allb isDigit (DecimalString.NilEmpty.string_of_uint d) = true.
Proof. induction d; simpl; auto. Qed.

Lemma string_of_uint_NilZero (d : Decimal.uint) :
  d <> Decimal.Nil ->
  DecimalString.NilZero.string_of_uint d
  = DecimalString.NilEmpty.string_of_uint d.
Proof. destruct d; auto. congruence. Qed.

Lemma string_of_uint_cons (d : Decimal.uint) :
  d <> Decimal.Nil ->
  exists c r,
    DecimalString.NilEmpty.string_of_uint d = String c r
    /\ isDigit c = true.
Proof. destruct d; [congruence|..]; intros _; simpl; eauto. Qed.

Lemma digits_string_of_uint (d : Decimal.uint) :
  d <> Decimal.Nil ->
  digits (DecimalString.NilEmpty.string_of_uint d) = Some (Z.of_uint d).
Proof.
  intros H. unfold digits.
  rewrite <- string_of_uint_NilZero by assumption.
  now rewrite DecimalString.NilZero.usu.
Qed.

Lemma isDigit_not_sign (c : ascii) :
  isDigit c = true -> Ascii.eqb c "+" = false /\ Ascii.eqb c "-" = false.
Proof.
  destruct c as [[] [] [] [] [] [] [] []]; try discriminate; split; reflexivity.
Qed.

Lemma ParseInt_digit (c : ascii) (r : string) :
  isDigit c = true ->
  ParseInt (String c r) =
  match digits (String c r) with
  | Some v => if (- 2 ^ 63 <=? v) && (v <? 2 ^ 63) then Some v else None
  | None => None
  end.
Proof.
  destruct c as [[] [] [] [] [] [] [] []]; try discriminate; reflexivity.
Qed.

Lemma Pos_of_to (p : positive) : Z.of_uint (Pos.to_uint p) = Z.pos p.
Proof. unfold Z.of_uint. now rewrite DecimalPos.Unsigned.of_to. Qed.

(** A number that fits in 64 bits is read back from what [%d] writes for
    it. *)
Lemma ParseInt_FormatInt (z : Z) :
  - 2 ^ 63 <= z < 2 ^ 63 -> ParseInt (FormatInt z) = Some z.
Proof.
  intros Hz. unfold FormatInt. destruct z as [|p|p]; [reflexivity| |].
  - pose proof (DecimalPos.Unsigned.to_uint_nonnil p) as Hn.
    cbn [Z.to_int DecimalString.NilZero.string_of_int].
    rewrite string_of_uint_NilZero by assumption.
    destruct (string_of_uint_cons _ Hn) as (c & r & Hs & Hc).
    rewrite Hs, (ParseInt_digit c r Hc), <- Hs.
    rewrite digits_string_of_uint by assumption. rewrite Pos_of_to.
    destruct (Z.leb_spec (- 2 ^ 63) (Z.pos p)); [|lia].
    destruct (Z.ltb_spec (Z.pos p) (2 ^ 63)); [reflexivity|lia].
  - pose proof (DecimalPos.Unsigned.to_uint_nonnil p) as Hn.
    cbn [Z.to_int DecimalString.NilZero.string_of_int].
    rewrite string_of_uint_NilZero by assumption.
    change (ParseInt (String "-" ?s)) with
      (match option_map Z.opp (digits s) with
       | Some v => if (- 2 ^ 63 <=? v) && (v <? 2 ^ 63) then Some v else None
       | None => None
       end).
    rewrite digits_string_of_uint by assumption. rewrite Pos_of_to.
    cbn [option_map]. change (- Z.pos p) with (Z.neg p).
    destruct (Z.leb_spec (- 2 ^ 63) (Z.neg p)); [|lia].
    destruct (Z.ltb_spec (Z.neg p) (2 ^ 63)); [reflexivity|lia].
Qed.

Lemma ParseUint_FormatInt (z : Z) :
  0 <= z < 2 ^ 64 -> ParseUint (FormatInt z) = Some z.
Proof.
  intros Hz. unfold FormatInt, ParseUint.
  destruct z as [|p|p]; [reflexivity| |lia].
  pose proof (DecimalPos.Unsigned.to_uint_nonnil p) as Hn.
  cbn [Z.to_int DecimalString.NilZero.string_of_int].
  rewrite string_of_uint_NilZero, digits_string_of_uint by assumption.
  rewrite Pos_of_to.
  destruct (Z.ltb_spec (Z.pos p) (2 ^ 64)); [reflexivity|lia].
Qed.

Lemma ParseBool_FormatBool (b : bool) : ParseBool (FormatBool b) = Some b.
Proof. destruct b; reflexivity. Qed.

(** *** Scanning *)

Lemma literal_app (text rest : string) :
  literal text (text ++ rest) = Some rest.
Proof.
  induction text as [|a text IH]; simpl; [reflexivity|].
  now rewrite Ascii.eqb_refl.
Qed.

Lemma SkipSpace_number (c : ascii) (r : string) :
  isDigit c = true \/ c = "-"%char ->
  SkipSpace (String c r) = Some (String c r).
Proof.
  intros [H | ->].
  - destruct c as [[] [] [] [] [] [] [] []]; try discriminate;
      destruct r as [|c2 [|c3 r3]]; reflexivity.
  - destruct r as [|c2 [|c3 r3]]; reflexivity.
Qed.

Lemma takeWhile_all (p : ascii -> bool) (s : string) :
  allb p s = true -> takeWhile p s = s.
Proof.
  induction s as [|c r IH]; simpl; [reflexivity|].
  intros H. apply andb_prop in H. destruct H as [Hc Hr].
  now rewrite Hc, IH.
Qed.

Lemma scanInt_FormatInt (z : Z) :
  - 2 ^ 63 <= z < 2 ^ 63 -> scanInt (FormatInt z) = Some z.
Proof.
  intros Hz. pose proof (ParseInt_FormatInt z Hz) as Hp. revert Hp.
  unfold FormatInt. destruct z as [|p|p]; [reflexivity| |].
  - pose proof (DecimalPos.Unsigned.to_uint_nonnil p) as Hn.
    cbn [Z.to_int DecimalString.NilZero.string_of_int].
    rewrite string_of_uint_NilZero by assumption.
    pose proof (string_of_uint_digits (Pos.to_uint p)) as Hd.
    destruct (string_of_uint_cons _ Hn) as (c & r & Hs & Hc).
    rewrite Hs in *. intros Hp. unfold scanInt.
    rewrite SkipSpace_number by auto.
    destruct (isDigit_not_sign c Hc) as [-> ->]. cbn [orb].
    rewrite Hc. rewrite takeWhile_all by exact Hd.
    exact Hp.
  - pose proof (DecimalPos.Unsigned.to_uint_nonnil p) as Hn.
    cbn [Z.to_int DecimalString.NilZero.string_of_int].
    rewrite string_of_uint_NilZero by assumption.
    pose proof (string_of_uint_digits (Pos.to_uint p)) as Hd.
    destruct (string_of_uint_cons _ Hn) as (c & r & Hs & Hc).
    rewrite Hs in *. intros Hp. unfold scanInt.
    rewrite SkipSpace_number by auto.
    cbn [Ascii.eqb Bool.eqb orb andb].
    rewrite Hc. rewrite takeWhile_all by exact Hd.
    exact Hp.
Qed.

Lemma Sscanf_d_FormatInt (text : string) (z : Z) :
  - 2 ^ 63 <= z < 2 ^ 63 ->
  Sscanf_d (text ++ FormatInt z) text = Some z.
Proof.
  intros Hz. unfold Sscanf_d. rewrite literal_app.
  now apply scanInt_FormatInt.
Qed.

End StrconvFacts.

(** ** An engine that reads the stanza of the test options *)

Module ReadingEngine.
Import Ascii Options.
Local Open Scope string_scope.
Local Open Scope Z_scope.

(** The text up to the first byte [c], and the text after that byte. *)
Fixpoint splitAt (c : Ascii.ascii) (s : string) : option (string * string) :=
  match s with
  | EmptyString => None
  | String a r =>
      if Ascii.eqb a c then Some (EmptyString, r)
      else
        match splitAt c r with
        | Some (x, y) => Some (String a x, y)
        | None => None
        end
  end.

Fixpoint dropBlanks (s : string) : string :=
  match s with
  | String c r => if isBlank c then dropBlanks r else s
  | EmptyString => s
  end.

(** The lines [key=value] of a text, each ended by a line feed. *)
Fixpoint stanzaLines (fuel : nat) (s : string)
  : option (list (string * string)) :=
  match s, fuel with
  | EmptyString, _ => Some []
  | _, O => None
  | _, S fuel =>
      match splitAt (Ascii.ascii_of_nat 10) s with
      | Some (line, rest) =>
          match splitAt "="%char (dropBlanks line) with
          | Some kv =>
              match stanzaLines fuel rest with
              | Some lines => Some (kv :: lines)
              | None => None
              end
          | None => None
          end
      | None => None
      end
  end.

(** The lines handed to the hook of whoever parses. *)
Fixpoint handOver {Float : Type} (h : ParseHooks Float)
  (lines : list (string * string)) (t : TestOptions Float)
  : option (TestOptions Float * bool) :=
  match lines with
  | [] => Some (t, true)
  | (key, value) :: rest =>
      match SkipUnknown h ("TestOptions." ++ key) value t with
      | None => None
      | Some (t', taken) =>
          match handOver h rest t' with
          | None => None
          | Some (t'', all) => Some (t'', taken && all)
          end
      end
  end.

(** An engine whose options are written as the one line [[Options]], and
    whose parser hands the lines of the stanza that follows to the hook. *)
Definition readingParse (h : ParseHooks unit) (data : string)
  (t : TestOptions unit) : option (TestOptions unit * option error) :=
  match Fmt.literal "[Options]" data with
  | Some EmptyString => Some (t, None)
  | Some rest =>
      match Fmt.literal (newline ++ "[TestOptions]" ++ newline) rest with
      | Some stanza =>
          match stanzaLines (String.length stanza) stanza with
          | Some lines =>
              match handOver h lines t with
              | Some (t', all) =>
                  Some (t', if all then None else Some "unknown option"%string)
              | None => None
              end
          | None => Some (t, Some "invalid key=value syntax"%string)
          end
      | None => Some (t, Some "unknown section"%string)
      end
  | None => Some (t, Some "unknown options"%string)
  end.

Definition readingPebble : Pebble unit :=
  {| FormatMinSupported := 13; FormatNewest := 17;
     FormatMinForSharedObjects := 15; FormatSyntheticPrefixSuffix := 17;
     FormatVirtualSSTables := 16;
     OptionsString := fun _ => "[Options]"%string;
     Parse := readingParse;
     EnsureDefaults := fun o => o |}.

Lemma append_cons (x : ascii) (a b : string) :
  String x a ++ b = String x (a ++ b).
Proof. reflexivity. Qed.

Lemma append_assoc (a b c : string) : (a ++ b) ++ c = a ++ (b ++ c).
Proof.
  induction a as [|x a IH]; [reflexivity|].
  rewrite !append_cons. now rewrite IH.
Qed.

Lemma append_empty (a : string) : a ++ "" = a.
Proof.
  induction a as [|x a IH]; [reflexivity|].
  rewrite append_cons. now rewrite IH.
Qed.

Lemma length_append (a b : string) :
  String.length (a ++ b) = (String.length a + String.length b)%nat.
Proof.
  induction a as [|x a IH]; [reflexivity|].
  rewrite append_cons. simpl. now rewrite IH.
Qed.

Lemma concat_cons (x : string) (xs : list string) :
  String.concat "" (x :: xs) = x ++ String.concat "" xs.
Proof.
  destruct xs as [|y ys]; [|reflexivity].
  change (x = x ++ ""). now rewrite append_empty.
Qed.

Lemma allb_app (p : ascii -> bool) (a b : string) :
  Strconv.allb p (a ++ b) = Strconv.allb p a && Strconv.allb p b.
Proof.
  induction a as [|x a IH]; [reflexivity|].
  rewrite append_cons. simpl. now rewrite IH, andb_assoc.
Qed.

Lemma splitAt_app (c : ascii) (x y : string) :
  Strconv.allb (fun a => negb (Ascii.eqb a c)) x = true ->
  splitAt c (x ++ String c y) = Some (x, y).
Proof.
  induction x as [|a x IH].
  - intros _. change (splitAt c (String c y) = Some ("", y)).
    simpl. now rewrite Ascii.eqb_refl.
  - rewrite append_cons. simpl.
    intros H. apply andb_prop in H. destruct H as [Ha Hx].
    apply negb_true_iff in Ha. now rewrite Ha, IH.
Qed.

Lemma allb_impl (p q : ascii -> bool) (s : string) :
  (forall c, p c = true -> q c = true) ->
  Strconv.allb p s = true -> Strconv.allb q s = true.
Proof.
  intros Hpq. induction s as [|c r IH]; simpl; [reflexivity|].
  intros H. apply andb_prop in H. destruct H as [Hc Hr].
  now rewrite (Hpq c Hc), IH.
Qed.

Lemma isKeyByte_spec (c : Ascii.ascii) :
  isKeyByte c = true ->
  negb (Ascii.eqb c "=") = true
  /\ negb (Ascii.eqb c (Ascii.ascii_of_nat 10)) = true
  /\ isBlank c = false.
Proof.
  destruct c as [[] [] [] [] [] [] [] []]; try discriminate;
    repeat split; reflexivity.
Qed.

Lemma isValueByte_spec (c : Ascii.ascii) :
  isValueByte c = true -> negb (Ascii.eqb c (Ascii.ascii_of_nat 10)) = true.
Proof. destruct c as [[] [] [] [] [] [] [] []]; try discriminate; reflexivity. Qed.

(** A plain line is read from its text. *)
Lemma stanzaLines_renderLine (fuel : nat) (kv : string * string)
  (rest : string) :
  plainLine kv = true ->
  stanzaLines (S fuel) (renderLine kv ++ rest)
  = match stanzaLines fuel rest with
    | Some lines => Some (kv :: lines)
    | None => None
    end.
Proof.
  destruct kv as [k v]. unfold plainLine, plainKey, plainValue.
  cbn [fst snd]. intros H.
  apply andb_prop in H. destruct H as [Hk Hv].
  apply andb_prop in Hk. destruct Hk as [Hk0 Hk].
  apply andb_prop in Hv. destruct Hv as [Hv _].
  destruct k as [|c k]; [discriminate Hk0|]. clear Hk0.
  assert (Hc : isKeyByte c = true)
    by (simpl in Hk; apply andb_prop in Hk; tauto).
  destruct (isKeyByte_spec c Hc) as (_ & _ & Hblank).
  unfold renderLine. cbn [fst snd].
  replace (("  " ++ String c k ++ "=" ++ v ++ newline) ++ rest)
    with (("  " ++ String c k ++ "=" ++ v)
          ++ String (ascii_of_nat 10) rest)
    by (rewrite !append_assoc; reflexivity).
  assert (Hsplit :
    splitAt (ascii_of_nat 10)
      (("  " ++ String c k ++ "=" ++ v) ++ String (ascii_of_nat 10) rest)
    = Some ("  " ++ String c k ++ "=" ++ v, rest)).
  { apply splitAt_app. rewrite !allb_app.
    rewrite (allb_impl isKeyByte _ (String c k))
      by (try exact Hk;
          intros a Ha; now destruct (isKeyByte_spec a Ha) as (_ & ? & _)).
    rewrite (allb_impl isValueByte _ v)
      by (try exact Hv; exact isValueByte_spec).
    reflexivity. }
  assert (Hkey :
    splitAt "="%char (dropBlanks ("  " ++ String c k ++ "=" ++ v))
    = Some (String c k, v)).
  { change (dropBlanks ("  " ++ String c k ++ "=" ++ v))
      with (if isBlank c then dropBlanks (k ++ "=" ++ v)
            else String c k ++ String "="%char v).
    rewrite Hblank. apply splitAt_app.
    eapply allb_impl; [|exact Hk].
    intros a Ha. now destruct (isKeyByte_spec a Ha) as (? & _ & _). }
  change (("  " ++ String c k ++ "=" ++ v) ++ String (ascii_of_nat 10) rest)
    with (String " "%char
            ((" " ++ String c k ++ "=" ++ v) ++ String (ascii_of_nat 10) rest))
    in Hsplit |- *.
  cbn [stanzaLines]. rewrite Hsplit, Hkey. reflexivity.
Qed.

Lemma stanzaLines_stanza (lines : list (string * string)) (fuel : nat) :
  Forall (fun kv => plainLine kv = true) lines ->
  (List.length lines <= fuel)%nat ->
  stanzaLines fuel (String.concat "" (map renderLine lines)) = Some lines.
Proof.
  intros H. revert fuel. induction H as [|kv lines Hkv _ IH]; intros fuel Hf.
  - destruct fuel; reflexivity.
  - destruct fuel as [|fuel]; [simpl in Hf; lia|].
    cbn [map]. rewrite concat_cons, stanzaLines_renderLine by exact Hkv.
    rewrite IH by (simpl in Hf; lia). reflexivity.
Qed.

Lemma length_stanza (lines : list (string * string)) :
  (List.length lines
   <= String.length (String.concat "" (map renderLine lines)))%nat.
Proof.
  induction lines as [|kv lines IH]; [simpl; lia|].
  cbn [map]. rewrite concat_cons, length_append.
  unfold renderLine at 1. rewrite append_cons.
  cbn [String.length List.length]. lia.
Qed.

Lemma readingParse_stanza (h : ParseHooks unit) (r : string)
  (t : TestOptions unit) :
  readingParse h
    ("[Options]" ++ newline ++ "[TestOptions]" ++ newline ++ String " " r) t
  = match stanzaLines (String.length (String " " r)) (String " " r) with
    | Some lines =>
        match handOver h lines t with
        | Some (t', all) =>
            Some (t', if all then None else Some "unknown option")
        | None => None
        end
    | None => Some (t, Some "invalid key=value syntax")
    end.
Proof. reflexivity. Qed.

(** The engine reads a stanza of plain lines as the lines it was written
    from. *)
Lemma readingParse_withStanza (h : ParseHooks unit)
  (lines : list (string * string)) (t : TestOptions unit) :
  Forall (fun kv => plainLine kv = true) lines ->
  readingParse h (withStanza "[Options]" lines) t
  = match handOver h lines t with
    | Some (t', all) => Some (t', if all then None else Some "unknown option")
    | None => None
    end.
Proof.
  intros Hplain. unfold withStanza.
  destruct lines as [|kv lines]; [reflexivity|].
  pose proof (stanzaLines_stanza (kv :: lines) _ Hplain
                (length_stanza (kv :: lines))) as Hs.
  assert (Hbuf : exists r,
             String.concat "" (map renderLine (kv :: lines)) = String " " r).
  { cbn [map]. rewrite concat_cons. unfold renderLine at 1.
    rewrite append_assoc, append_cons. eauto. }
  destruct Hbuf as [r Hr]. rewrite Hr in Hs |- *.
  change (String.eqb (String " " r) "") with false. cbv iota.
  now rewrite readingParse_stanza, Hs.
Qed.

End ReadingEngine.
(** ** The options of a test run *)

Module OptionsFacts.
Import Options StrconvFacts.
Import stdpp.base stdpp.gmap stdpp.strings.
Local Open Scope Z_scope.

(** The hooks that [parseOptions] makes. *)
Definition hooks {Float : Type} (float : Float64Ops Float) (time : TimeOps)
  (ps : option (gmap string (string -> option CustomOption)))
  : ParseHooks Float :=
  {| NewFilterPolicy := filterPolicyFromName;
     SkipUnknown := skipUnknown float time ps |}.

Lemma testing_name_not_fixed (digits : string) :
  String.eqb (testingFilterPolicyText ++ digits) "none" = false
  /\ String.eqb (testingFilterPolicyText ++ digits)
       "rocksdb.BuiltinBloomFilter" = false.
Proof. split; reflexivity. Qed.

(** The name of a testing filter policy is read back as a policy with the
    same bits per key: a testing policy, or the bloom filter policy of the
    engine for 10 bits per key, whose name the testing policy then
    takes. *)
Theorem filter_policy_name_read_back (bitsPerKey : Z) :
  - 2 ^ 63 <= bitsPerKey < 2 ^ 63 ->
  filterPolicyFromName (testingFilterPolicy_Name bitsPerKey)
  = inr (Some (if bitsPerKey =? 10 then BloomFilterPolicy 10
               else TestingFilterPolicy bitsPerKey)).
Proof.
  intros Hb. unfold testingFilterPolicy_Name, filterPolicyFromName.
  destruct (bitsPerKey =? 10); [reflexivity|].
  destruct (testing_name_not_fixed (Strconv.FormatInt bitsPerKey)) as [-> ->].
  now rewrite Sscanf_d_FormatInt.
Qed.

Lemma filter_policy_name_read_back_witness :
  filterPolicyFromName (testingFilterPolicy_Name 16)
  = inr (Some (TestingFilterPolicy 16)).
Proof. apply (filter_policy_name_read_back 16). lia. Defined.

(** *** The stanza of the test options, written and read back *)

Section RoundTrip.
Context {Float : Type} (float : Float64Ops Float) (time : TimeOps).
Context (pebble : Pebble Float).
Context (ps : option (gmap string (string -> option CustomOption))).

Local Abbreviation skipUnknown_ := (skipUnknown float time ps).
Local Abbreviation readBack_ := (readBack float time ps).
Local Abbreviation testOptionsLines_ := (testOptionsLines float time).

Lemma readBack_cons (k v : string) (rest : list (string * string))
  (t t' : TestOptions Float) :
  skipUnknown_ ("TestOptions." ++ k)%string v t = Some (t', true) ->
  readBack_ ((k, v) :: rest) t = readBack_ rest t'.
Proof.
  intros H. simpl. rewrite H.
  destruct (readBack_ rest t') as [[o b]|]; reflexivity.
Qed.

Lemma readBack_block (c : bool) (k v : string)
  (X : TestOptions Float -> TestOptions Float)
  (rest : list (string * string)) (t : TestOptions Float) :
  (forall t, skipUnknown_ ("TestOptions." ++ k)%string v t = Some (X t, true)) ->
  readBack_ ((if c then [(k, v)] else []) ++ rest) t
  = readBack_ rest (if c then X t else t).
Proof.
  intros H. destruct c; [apply readBack_cons, H|reflexivity].
Qed.

Lemma flagLine_eq (c : bool) (k : string) :
  flagLine c k = if c then [(k, "true"%string)] else [].
Proof. destruct c; reflexivity. Qed.

Lemma skipUnknown_threads (v : string) (t : TestOptions Float) :
  skipUnknown_ ("TestOptions." ++ "threads")%string v t
  = match Strconv.ParseInt v with
    | None => None
    | Some n => Some (set_Threads n t, true)
    end.
Proof. reflexivity. Qed.

Lemma skipUnknown_seed_efos (v : string) (t : TestOptions Float) :
  skipUnknown_ ("TestOptions." ++ "seed_efos")%string v t
  = match Strconv.ParseUint v with
    | None => None
    | Some n => Some (set_seedEFOS n t, true)
    end.
Proof. reflexivity. Qed.

Lemma TrimPrefix_app (prefix s : string) :
  TrimPrefix (prefix ++ s) prefix = s.
Proof. unfold TrimPrefix. now rewrite literal_app. Qed.

(** A name that the hook does not know goes to the custom parsers. *)
Lemma skipUnknown_other (name value : string) (t : TestOptions Float) :
  ~ In name builtinNames ->
  skipUnknown_ name value t =
  match ps with
  | None => Some (t, false)
  | Some parsers =>
      match parsers !! TrimPrefix name "TestOptions." with
      | Some p =>
          match p value with
          | Some customOpt =>
              Some (set_CustomOpts (CustomOpts t ++ [customOpt]) t, true)
          | None => Some (t, false)
          end
      | None => Some (t, false)
      end
  end.
Proof.
  intros Hn. unfold skipUnknown.
  repeat match goal with
         | |- context [String.eqb name ?b] =>
             destruct (String.eqb_spec name b) as [E|_];
               [exfalso; apply Hn; rewrite E; unfold builtinNames;
                repeat first [left; reflexivity|right]|]
         end.
  reflexivity.
Qed.

Lemma skipUnknown_custom (c : CustomOption) (t : TestOptions Float) :
  readable ps c ->
  skipUnknown_ ("TestOptions." ++ Name c)%string (Value c) t
  = Some (set_CustomOpts (CustomOpts t ++ [c]) t, true).
Proof.
  intros [Hn (parsers & p & Hps & Hp & Hv)].
  rewrite skipUnknown_other by exact Hn.
  now rewrite Hps, TrimPrefix_app, Hp, Hv.
Qed.

Lemma readBack_customs (cs : list CustomOption) (t : TestOptions Float) :
  Forall (readable ps) cs ->
  readBack_ (map (fun c => (Name c, Value c)) cs) t
  = Some (match cs with
          | [] => t
          | _ :: _ => set_CustomOpts (CustomOpts t ++ cs) t
          end, true).
Proof.
  intros H. revert t. induction H as [|c cs Hc _ IH]; intros t; [reflexivity|].
  cbn [map]. rewrite (readBack_cons _ _ _ _ _ (skipUnknown_custom c t Hc)).
  rewrite IH. destruct cs as [|c' cs]; [reflexivity|].
  cbn [CustomOpts set_CustomOpts]. now rewrite <- app_assoc.
Qed.

Lemma if_proj {A B : Type} (f : A -> B) (c : bool) (x y : A) :
  f (if c then x else y) = if c then f x else f y.
Proof. destruct c; reflexivity. Qed.

Lemma if_same {A : Type} (c : bool) (x : A) : (if c then x else x) = x.
Proof. destruct c; reflexivity. Qed.

(** One step of the walk through the stanza: the block of a key is read,
    and the test options it leaves are given a name. *)
Ltac name_state t :=
  match goal with
  | |- context [readBack _ _ _ _ (if ?c then ?a else ?b)] =>
      set (t := if c then a else b)
  end.

Ltac block X t :=
  rewrite (readBack_block _ _ _ X) by (intros; reflexivity); name_state t.

(** The value of a field after the walk: the steps are undone one after
    the other, from the last one. *)
Ltac unwind f :=
  repeat match goal with
         | t := (if _ then _ else _) |- context [f ?x] =>
             constr_eq x t; subst t; rewrite ?(if_proj f); cbn;
             try match goal with
                 | |- context [match CreateOnShared ?e with _ => _ end] =>
                     destruct (CreateOnShared e); cbn
                 end;
             rewrite ?if_same
         end.

(** The stanza read back by the hook, line by line: no line makes the hook
    panic, every line is taken, and the threads, the custom options, the
    flags, the texts of the initial state and the seed end up as they were
    written. *)
Lemma readBack_written (opts base : TestOptions Float) :
  unset base ->
  Threads opts <> 0 ->
  - 2 ^ 63 <= Threads opts < 2 ^ 63 ->
  0 <= seedEFOS opts < 2 ^ 64 ->
  fpositive float (ioLatencyProbability opts) = false ->
  Forall (readable ps) (CustomOpts opts) ->
  exists t,
    readBack_ (testOptionsLines_ opts) base = Some (t, true)
    /\ written t opts.
Proof.
  intros Hbase Ht0 Ht Hs Hl Hc.
  unfold testOptionsLines. rewrite !flagLine_eq, Hl.
  change ([] ++ ?l) with l.
  block (fun t : TestOptions Float =>
           onOpts (setOptions_FS StrictMemFS) (set_strictFS true t)) s01.
  block (@set_ingestUsingApply Float true) s02.
  block (@set_deleteSized Float true) s03.
  block (@set_replaceSingleDelete Float true) s04.
  block (fun t : TestOptions Float =>
           onOpts (setOptions_FS DefaultFS) (set_useDisk true t)) s05.
  block (@set_initialStatePath Float (initialStatePath opts)) s06.
  block (@set_initialStateDesc Float (initialStateDesc opts)) s07.
  rewrite (readBack_block _ _ _ (set_Threads (Threads opts)))
    by (intros; rewrite skipUnknown_threads, ParseInt_FormatInt by exact Ht;
        reflexivity).
  name_state sThreads.
  block (fun t : TestOptions Float =>
           onOpts (setOptions_BlockPropertyCollectors [])
             (set_disableBlockPropertyCollector true t)) s08.
  block (fun t : TestOptions Float =>
           onExperimental (setExperimental_EnableValueBlocks (Some true))
             (set_enableValueBlocks true t)) s09.
  block (@set_disableValueBlocksForIngestSSTables Float true) s10.
  block (@set_asyncApplyToDB Float true) s11.
  block (fun t : TestOptions Float =>
           match CreateOnShared
                   (Experimental
                      (Opts (set_sharedStorageFS (Some InMemStorage)
                               (set_sharedStorageEnabled true t)))) with
           | CreateOnSharedNone =>
               onExperimental
                 (setExperimental_CreateOnShared CreateOnSharedAll)
                 (set_sharedStorageFS (Some InMemStorage)
                    (set_sharedStorageEnabled true t))
           | _ =>
               set_sharedStorageFS (Some InMemStorage)
                 (set_sharedStorageEnabled true t)
           end) s12.
  block (fun t : TestOptions Float =>
           set_externalStorageFS (Some InMemStorage)
             (set_externalStorageEnabled true t)) s13.
  block (fun t : TestOptions Float =>
           onExperimental
             (setExperimental_SecondaryCacheSizeBytes (1024 * 1024 * 32))
             (set_secondaryCacheEnabled true t)) s14.
  rewrite (readBack_block _ _ _ (set_seedEFOS (seedEFOS opts)))
    by (intros; rewrite skipUnknown_seed_efos, ParseUint_FormatInt by exact Hs;
        reflexivity).
  name_state sSeed.
  block (fun t : TestOptions Float =>
           onExperimental (setExperimental_IngestSplit (Some ReturnsTrue))
             (set_ingestSplit true t)) s15.
  block (@set_useSharedReplicate Float true) s16.
  block (@set_useExcise Float true) s17.
  rewrite readBack_customs by exact Hc.
  eexists. split; [reflexivity|].
  destruct Hbase as (B1 & B2 & B3 & B4 & B5 & B6 & B7 & B8 & B9 & B10 & B11
                     & B12 & B13 & B14 & B15 & B16 & B17 & B18 & B19).
  unfold written.
  split; [destruct (CustomOpts opts); cbn; unwind (@Threads Float);
          (destruct (Z.eqb_spec (Threads opts) 0);
           [contradiction|reflexivity])|].
  split; [destruct (CustomOpts opts) as [|c cs]; cbn;
          unwind (@CustomOpts Float); now rewrite B1|].
  split; [destruct (CustomOpts opts); cbn; unwind (@useDisk Float);
          rewrite B2; destruct (useDisk opts); reflexivity|].
  split; [destruct (CustomOpts opts); cbn; unwind (@strictFS Float);
          rewrite B3; destruct (strictFS opts); reflexivity|].
  split; [destruct (CustomOpts opts); cbn; unwind (@ingestUsingApply Float);
          rewrite B4; destruct (ingestUsingApply opts); reflexivity|].
  split; [destruct (CustomOpts opts); cbn; unwind (@deleteSized Float);
          rewrite B5; destruct (deleteSized opts); reflexivity|].
  split; [destruct (CustomOpts opts); cbn; unwind (@replaceSingleDelete Float);
          rewrite B6; destruct (replaceSingleDelete opts); reflexivity|].
  split; [destruct (CustomOpts opts); cbn; unwind (@initialStatePath Float);
          rewrite B7;
          destruct (String.eqb_spec (initialStatePath opts) "");
          simpl; congruence|].
  split; [destruct (CustomOpts opts); cbn; unwind (@initialStateDesc Float);
          rewrite B8;
          destruct (String.eqb_spec (initialStateDesc opts) "");
          simpl; congruence|].
  split; [destruct (CustomOpts opts); cbn;
          unwind (@disableBlockPropertyCollector Float);
          rewrite B9; destruct (disableBlockPropertyCollector opts);
          reflexivity|].
  split; [destruct (CustomOpts opts); cbn; unwind (@enableValueBlocks Float);
          rewrite B10; destruct (enableValueBlocks opts); reflexivity|].
  split; [destruct (CustomOpts opts); cbn;
          unwind (@disableValueBlocksForIngestSSTables Float);
          rewrite B11; destruct (disableValueBlocksForIngestSSTables opts);
          reflexivity|].
  split; [destruct (CustomOpts opts); cbn; unwind (@asyncApplyToDB Float);
          rewrite B12; destruct (asyncApplyToDB opts); reflexivity|].
  split; [destruct (CustomOpts opts); cbn; unwind (@sharedStorageEnabled Float);
          rewrite B13; destruct (sharedStorageEnabled opts); reflexivity|].
  split; [destruct (CustomOpts opts); cbn;
          unwind (@externalStorageEnabled Float);
          rewrite B14; destruct (externalStorageEnabled opts); reflexivity|].
  split; [destruct (CustomOpts opts); cbn; unwind (@useSharedReplicate Float);
          rewrite B15; destruct (useSharedReplicate opts); reflexivity|].
  split; [destruct (CustomOpts opts); cbn;
          unwind (@secondaryCacheEnabled Float);
          rewrite B16; destruct (secondaryCacheEnabled opts); reflexivity|].
  split; [destruct (CustomOpts opts); cbn; unwind (@seedEFOS Float);
          rewrite B17; destruct (Z.eqb_spec (seedEFOS opts) 0);
          simpl; congruence|].
  split; [destruct (CustomOpts opts); cbn; unwind (@ingestSplit Float);
          rewrite B18; destruct (ingestSplit opts); reflexivity|].
  destruct (CustomOpts opts); cbn; unwind (@useExcise Float);
    rewrite B19; destruct (useExcise opts); reflexivity.
Qed.


(** *** The text written and parsed *)

Lemma unset_set_Opts (o : Options Float) (base : TestOptions Float) :
  unset base -> unset (set_Opts o base).
Proof. intros H. exact H. Qed.

Lemma written_onOpts (f : Options Float -> Options Float)
  (t opts : TestOptions Float) :
  written t opts -> written (onOpts f t) opts.
Proof. intros H. exact H. Qed.

Lemma written_InitRemoteStorageFactory (t opts : TestOptions Float) :
  written t opts -> written (InitRemoteStorageFactory t) opts.
Proof.
  intros H. unfold InitRemoteStorageFactory.
  destruct (sharedStorageEnabled t || externalStorageEnabled t); exact H.
Qed.

Definition isInk (c : Ascii.ascii) : bool := isValueByte c && negb (isBlank c).

Lemma lastByte_ink (r : string) (c : Ascii.ascii) :
  isInk c = true -> Strconv.allb isInk r = true ->
  isInk (lastByte c r) = true.
Proof.
  revert c. induction r as [|c' r IH]; intros c Hc Hr; [exact Hc|].
  simpl in Hr. apply andb_prop in Hr. destruct Hr as [Hc' Hr].
  simpl. now apply IH.
Qed.

(** A text without a blank is a plain value. *)
Lemma plainValue_ink (s : string) :
  Strconv.allb isInk s = true -> plainValue s = true.
Proof.
  intros H. unfold plainValue.
  rewrite (ReadingEngine.allb_impl isInk isValueByte s)
    by (try exact H; intros c Hc; apply andb_prop in Hc; tauto).
  destruct s as [|c r]; [reflexivity|].
  simpl in H. apply andb_prop in H. destruct H as [Hc Hr].
  pose proof (lastByte_ink r c Hc Hr) as Hl.
  unfold isInk in Hc, Hl. apply andb_prop in Hc, Hl.
  destruct Hc as [_ ->], Hl as [_ ->]. reflexivity.
Qed.

Lemma isDigit_ink (c : Ascii.ascii) : Fmt.isDigit c = true -> isInk c = true.
Proof.
  destruct c as [[] [] [] [] [] [] [] []]; try discriminate; reflexivity.
Qed.

Lemma FormatInt_plain (z : Z) : plainValue (Strconv.FormatInt z) = true.
Proof.
  apply plainValue_ink. unfold Strconv.FormatInt.
  destruct z as [|p|p]; [reflexivity| |].
  - pose proof (DecimalPos.Unsigned.to_uint_nonnil p) as Hn.
    cbn [Z.to_int DecimalString.NilZero.string_of_int].
    rewrite string_of_uint_NilZero by assumption.
    eapply ReadingEngine.allb_impl; [exact isDigit_ink|apply string_of_uint_digits].
  - pose proof (DecimalPos.Unsigned.to_uint_nonnil p) as Hn.
    cbn [Z.to_int DecimalString.NilZero.string_of_int].
    rewrite string_of_uint_NilZero by assumption.
    cbn [Strconv.allb]. apply andb_true_intro. split; [reflexivity|].
    eapply ReadingEngine.allb_impl; [exact isDigit_ink|apply string_of_uint_digits].
Qed.

Lemma Forall_flag (c : bool) (k v : string) :
  plainLine (k, v) = true ->
  Forall (fun kv => plainLine kv = true) (if c then [(k, v)] else []).
Proof. intros H. destruct c; repeat constructor. exact H. Qed.

(** The lines that [optionsToString] writes are plain when the texts of the
    test options are. *)
Lemma testOptionsLines_plain (opts : TestOptions Float) :
  fpositive float (ioLatencyProbability opts) = false ->
  plainTexts opts ->
  Forall (fun kv => plainLine kv = true) (testOptionsLines_ opts).
Proof.
  intros Hl (Hpath & Hdesc & Hcustom).
  unfold testOptionsLines. rewrite !flagLine_eq, Hl.
  repeat (apply Forall_app; split);
    try (apply Forall_flag; reflexivity);
    try (apply Forall_flag; unfold plainLine; cbn [fst snd];
         first [rewrite Hpath|rewrite Hdesc|rewrite FormatInt_plain];
         reflexivity).
  - constructor.
  - apply Forall_map. eapply List.Forall_impl; [|exact Hcustom].
    intros customOpt [Hk Hv]. unfold plainLine. cbn [fst snd].
    now rewrite Hk, Hv.
Qed.

(** The engine hands the stanza over: [Parse], on the text of the options
    of an engine followed by a stanza of plain lines, changes the options
    of the engine and calls the hook on each line of the stanza, in order,
    under the name [TestOptions.<key>] and with the value of the line, and
    panics when the hook does. *)
Definition handsOverStanza : Prop :=
  forall (o : Options Float) (lines : list (string * string))
         (t : TestOptions Float),
    Forall (fun kv => plainLine kv = true) lines ->
    exists o',
      match readBack_ lines (set_Opts o' t) with
      | Some (t', _) =>
          exists o'' err,
            Parse pebble (hooks float time ps)
              (withStanza (OptionsString pebble o) lines) t
            = Some (set_Opts o'' t', err)
      | None =>
          Parse pebble (hooks float time ps)
            (withStanza (OptionsString pebble o) lines) t = None
      end.

(** What [optionsToString] writes is read back by [parseOptions], when the
    engine hands the stanza over: the call returns, and the threads, the
    custom options, the flags, the texts of the initial state and the seed
    are as they were written.  The test options that are read into have
    none of these set; the options written have their threads set, and no
    latency injection, whose lines are not covered; the custom options are
    readable; and the texts written are plain. *)
Theorem test_options_read_back (opts base : TestOptions Float) :
  handsOverStanza ->
  unset base ->
  Threads opts <> 0 ->
  - 2 ^ 63 <= Threads opts < 2 ^ 63 ->
  0 <= seedEFOS opts < 2 ^ 64 ->
  fpositive float (ioLatencyProbability opts) = false ->
  Forall (readable ps) (CustomOpts opts) ->
  plainTexts opts ->
  exists t err,
    parseOptions float time pebble base
      (optionsToString float time pebble opts) ps = Some (t, err)
    /\ written t opts.
Proof.
  intros Hhands Hbase Ht0 Ht Hs Hl Hc Hplain.
  destruct (Hhands (Opts opts) (testOptionsLines_ opts) base
              (testOptionsLines_plain opts Hl Hplain)) as (o' & Hparse).
  destruct (readBack_written opts (set_Opts o' base)
              (unset_set_Opts o' base Hbase) Ht0 Ht Hs Hl Hc)
    as (t & Hread & Hw).
  rewrite Hread in Hparse. destruct Hparse as (o'' & err & Hparse).
  unfold parseOptions, optionsToString.
  fold (hooks float time ps). rewrite Hparse.
  eexists _, err. split; [reflexivity|].
  apply written_onOpts, written_InitRemoteStorageFactory.
  destruct (WALFailover (Opts (set_Opts o'' t)));
    [apply written_onOpts|]; exact Hw.
Qed.

End RoundTrip.

Section Flags.
Context {Float : Type} (float : Float64Ops Float) (time : TimeOps).
Context (ps : option (gmap string (string -> option CustomOption))).

(** The flags of the test options that take no value are set by the name
    alone: whatever value stands after the name in the stanza, also
    [false], the hook takes the line and the flag is set.  The one flag
    that is read from its value is [disable_block_property_collector]. *)
Theorem flags_are_set_whatever_the_value :
  Forall
    (fun flag : string * (TestOptions Float -> bool) =>
       forall (value : string) (t : TestOptions Float),
       exists t',
         skipUnknown float time ps (fst flag) value t = Some (t', true)
         /\ snd flag t' = true)
    (valueLessFlags (Float:=Float))
  /\ (forall t : TestOptions Float,
      exists t',
        skipUnknown float time ps
          "TestOptions.disable_block_property_collector" "false" t
        = Some (t', true)
        /\ disableBlockPropertyCollector t' = false).
Proof.
  split.
  - unfold valueLessFlags.
    repeat (constructor;
            [intros value t; eexists; split; [reflexivity|];
             cbn; try destruct (CreateOnShared _); reflexivity|]).
    constructor.
  - intros t. eexists. split; reflexivity.
Qed.

End Flags.

(** *** Test options on which the theorems are used *)

Definition noFloat : Float64Ops unit :=
  {| fzero := tt; fpositive := fun _ => false; fratio := fun _ _ => tt;
     fadd := fun _ _ => tt; fsub := fun _ _ => tt; fmul := fun _ _ => tt;
     fofInt := fun _ => tt; fRound := fun _ => tt; ftoInt := fun _ => 0;
     FormatFloat := fun _ => "0.000000"%string;
     ParseFloat := fun _ => Some tt |}.

Definition noTime : TimeOps :=
  {| DurationString := fun _ => "0s"%string;
     ParseDuration := fun _ => Some 0 |}.

(** An engine that parses nothing and has no defaults to fill in. *)
Definition idlePebble : Pebble unit :=
  {| FormatMinSupported := 13; FormatNewest := 17;
     FormatMinForSharedObjects := 15; FormatSyntheticPrefixSuffix := 17;
     FormatVirtualSSTables := 16;
     OptionsString := fun _ => "[Options]"%string;
     Parse := fun _ _ t => Some (t, None);
     EnsureDefaults := fun o => o |}.

(** A custom option whose parser takes any value. *)
Definition verbose (level : string) : CustomOption :=
  {| Name := "verbose"; Value := level |}.

Definition verboseParsers
  : option (gmap string (string -> option CustomOption)) :=
  Some {[ "verbose"%string := fun value => Some (verbose value) ]}.

Definition someTestOptions : TestOptions unit :=
  set_CustomOpts [verbose "2"]
    (set_seedEFOS 7
       (set_initialStatePath "state"
          (set_sharedStorageEnabled true
             (set_strictFS true
                (set_Threads 4 (defaultTestOptions noFloat idlePebble)))))).

(** *** The stanza read by an engine *)

Lemma handOver_readBack
  (ps : option (gmap string (string -> option CustomOption)))
  (lines : list (string * string)) (t : TestOptions unit) :
  ReadingEngine.handOver (hooks noFloat noTime ps) lines t
  = readBack noFloat noTime ps lines t.
Proof.
  revert t. induction lines as [|[k v] lines IH]; intros t; [reflexivity|].
  cbn [ReadingEngine.handOver readBack hooks SkipUnknown].
  destruct (skipUnknown noFloat noTime ps ("TestOptions." ++ k) v t)
    as [[t' taken]|]; [|reflexivity].
  now rewrite IH.
Qed.

Lemma readingPebble_handsOver
  (ps : option (gmap string (string -> option CustomOption))) :
  handsOverStanza noFloat noTime ReadingEngine.readingPebble ps.
Proof.
  intros o lines t Hplain. exists (Opts t).
  replace (set_Opts (Opts t) t) with t by (destruct t; reflexivity).
  change (Parse ReadingEngine.readingPebble) with ReadingEngine.readingParse.
  change (OptionsString ReadingEngine.readingPebble o) with "[Options]"%string.
  rewrite (ReadingEngine.readingParse_withStanza _ _ _ Hplain).
  rewrite handOver_readBack.
  destruct (readBack noFloat noTime ps lines t) as [[t' all]|];
    [|reflexivity].
  exists (Opts t'), (if all then None else Some "unknown option"%string).
  replace (set_Opts (Opts t') t') with t' by (destruct t'; reflexivity).
  reflexivity.
Qed.

Lemma test_options_read_back_witness :
  exists t err,
    parseOptions noFloat noTime ReadingEngine.readingPebble
      (defaultTestOptions noFloat ReadingEngine.readingPebble)
      (optionsToString noFloat noTime ReadingEngine.readingPebble
         someTestOptions)
      verboseParsers
    = Some (t, err)
    /\ written t someTestOptions.
Proof.
  apply (test_options_read_back noFloat noTime ReadingEngine.readingPebble
           verboseParsers).
  - exact (readingPebble_handsOver verboseParsers).
  - repeat split.
  - discriminate.
  - simpl; lia.
  - simpl; lia.
  - reflexivity.
  - repeat constructor.
    + intros H. simpl in H.
      repeat (destruct H as [H|H]; [discriminate H|]). exact H.
    + eexists _, _. split; [reflexivity|].
      split; [apply lookup_singleton_eq|reflexivity].
  - repeat split. repeat constructor.
Defined.

Example someTestOptions_read_back :
  match
    parseOptions noFloat noTime ReadingEngine.readingPebble
      (defaultTestOptions noFloat ReadingEngine.readingPebble)
      (optionsToString noFloat noTime ReadingEngine.readingPebble
         someTestOptions)
      verboseParsers
  with
  | Some (t, err) =>
      Some (Threads t, strictFS t, sharedStorageEnabled t,
            initialStatePath t, seedEFOS t, CustomOpts t, err)
  | None => None
  end
  = Some (4, true, true, "state"%string, 7, [verbose "2"], None).
Proof. vm_compute. reflexivity. Qed.

(** [%d] stops at the first byte that is no digit. *)
Example filter_policy_name_with_underscore :
  filterPolicyFromName "testing_bloom_filter/bits_per_key=1_000"
  = inr (Some (TestingFilterPolicy 1))
  /\ filterPolicyFromName "testing_bloom_filter/bits_per_key=_1"
     = inl "Invalid filter policy name 'testing_bloom_filter/bits_per_key=_1'"%string.
Proof. split; reflexivity. Qed.

(** *** [RandomOptions] *)

Section Random.
Context {Float R : Type} (float : Float64Ops Float) (time : TimeOps).
Context (pebble : Pebble Float) (rand : Rand R Float) (GOMAXPROCS : Z).
Context (ps : option (gmap string (string -> option CustomOption))).

(** [hoare P m Q]: from test options in [P], whatever the generator, [m]
    returns, with a result and test options in [Q]. *)
Definition hoare {A : Type} (P : TestOptions Float -> Prop)
  (m : Rnd (Float:=Float) (R:=R) A) (Q : A -> TestOptions Float -> Prop)
  : Prop :=
  forall t r, P t -> exists a t' r', m t r = Some (a, t', r') /\ Q a t'.

(** [rng.Intn(n)] is in [[0,n)]. *)
Definition inRange : Prop :=
  forall r n, 0 < n -> 0 <= fst (randIntn rand r n) < n.

Local Abbreviation hooks_ := (hooks float time ps).

(** [Parse] returns on the private options. *)
Definition parsesPrivateOptions : Prop :=
  forall deleteOnly elisionOnly lazyCombined t,
    Parse pebble hooks_ (privateOptions deleteOnly elisionOnly lazyCombined) t
    <> None.

(** The engine knows the private options: [Parse] calls no hook for them,
    and changes the options of the engine only. *)
Definition knowsPrivateOptions : Prop :=
  forall deleteOnly elisionOnly lazyCombined t,
    exists o err,
      Parse pebble hooks_ (privateOptions deleteOnly elisionOnly lazyCombined) t
      = Some (set_Opts o t, err).

Lemma hoare_ret {A} (P : TestOptions Float -> Prop) (a : A) Q :
  (forall t, P t -> Q a t) -> hoare P (ret a) Q.
Proof. intros H t r Ht. exists a, t, r. split; [reflexivity|auto]. Qed.

Lemma hoare_bind {A B} (Q' : A -> TestOptions Float -> Prop)
  (P : TestOptions Float -> Prop) (m : Rnd A) (k : A -> Rnd B) Q :
  hoare P m Q' -> (forall a, hoare (Q' a) (k a) Q) -> hoare P (bind m k) Q.
Proof.
  intros Hm Hk t r Ht.
  destruct (Hm t r Ht) as (a & t1 & r1 & E & Ha).
  destruct (Hk a t1 r1 Ha) as (b & t2 & r2 & E2 & Hb).
  exists b, t2, r2. split; [|exact Hb].
  unfold bind. rewrite E. exact E2.
Qed.

Lemma hoare_modify (P : TestOptions Float -> Prop) f Q :
  (forall t, P t -> Q tt (f t)) -> hoare P (modify f) Q.
Proof. intros H t r Ht. exists tt, (f t), r. split; [reflexivity|auto]. Qed.

Lemma hoare_when (P : TestOptions Float -> Prop) (c : bool) m Q :
  (c = true -> hoare P m Q) -> (c = false -> forall t, P t -> Q tt t) ->
  hoare P (when c m) Q.
Proof.
  intros Hm Hs. destruct c; cbn.
  - auto.
  - apply hoare_ret. auto.
Qed.

Lemma hoare_bind_get {B} (P : TestOptions Float -> Prop)
  (k : TestOptions Float -> Rnd B) Q :
  (forall t0, P t0 -> hoare (fun t => t = t0) (k t0) Q) ->
  hoare P (bind get k) Q.
Proof.
  intros Hk t r Ht. destruct (Hk t Ht t r eq_refl) as (b & t2 & r2 & E & Hb).
  exists b, t2, r2. split; [exact E|exact Hb].
Qed.

Lemma hoare_bind_Intn {B} (P : TestOptions Float -> Prop) n
  (k : Z -> Rnd B) Q :
  inRange -> 0 < n -> (forall d, 0 <= d < n -> hoare P (k d) Q) ->
  hoare P (bind (Intn rand n) k) Q.
Proof.
  intros Hrand Hn Hk t r Ht. unfold bind, Intn.
  destruct (Z.leb_spec n 0) as [Hle|_]; [lia|].
  specialize (Hrand r n Hn).
  destruct (randIntn rand r n) as [d r1]. cbn in Hrand.
  exact (Hk d Hrand t r1 Ht).
Qed.

Lemma hoare_bind_Int63 {B} (P : TestOptions Float -> Prop)
  (k : Z -> Rnd B) Q :
  (forall d, hoare P (k d) Q) -> hoare P (bind (Int63 rand) k) Q.
Proof.
  intros Hk t r Ht. unfold bind, Int63.
  destruct (randInt63 rand r) as [d r1]. exact (Hk d t r1 Ht).
Qed.

Lemma hoare_bind_Uint64 {B} (P : TestOptions Float -> Prop)
  (k : Z -> Rnd B) Q :
  (forall d, hoare P (k d) Q) -> hoare P (bind (Uint64 rand) k) Q.
Proof.
  intros Hk t r Ht. unfold bind, Uint64.
  destruct (randUint64 rand r) as [d r1]. exact (Hk d t r1 Ht).
Qed.

Lemma hoare_bind_Float64 {B} (P : TestOptions Float -> Prop)
  (k : Float -> Rnd B) Q :
  (forall x, hoare P (k x) Q) -> hoare P (bind (Float64 rand) k) Q.
Proof.
  intros Hk t r Ht. unfold bind, Float64.
  destruct (randFloat64 rand r) as [d r1]. exact (Hk d t r1 Ht).
Qed.

Lemma hoare_bind_expRandDuration {B} (P : TestOptions Float -> Prop)
  meanDur maxDur (k : Z -> Rnd B) Q :
  (forall d, hoare P (k d) Q) ->
  hoare P (bind (expRandDuration float rand meanDur maxDur) k) Q.
Proof.
  intros Hk t r Ht. cbv [bind expRandDuration ExpFloat64 ret].
  destruct (randExpFloat64 rand r) as [d r1]. exact (Hk _ t r1 Ht).
Qed.

Lemma hoare_bind_scaleDuration {B} (P : TestOptions Float -> Prop)
  d minFactor maxFactor (k : Z -> Rnd B) Q :
  (forall d, hoare P (k d) Q) ->
  hoare P (bind (scaleDuration float rand d minFactor maxFactor) k) Q.
Proof.
  intros Hk t r Ht. cbv [bind scaleDuration Float64 ret].
  destruct (randFloat64 rand r) as [x r1]. exact (Hk _ t r1 Ht).
Qed.

(** What holds of the test options after the statements of
    [RandomOptions], by the number of the last statement that has
    established something.  [fromParse]: the parse of the private options
    has left the flags of the storage as they were. *)
Definition stage (k : Z) (fromParse : Prop) (t : TestOptions Float) : Prop :=
  let o := Opts t in
  (if 1 <=? k
   then minimumFormatMajorVersion pebble <= FormatMajorVersion o else True)
  /\ (if 2 <=? k
      then 1 <= L0CompactionThreshold o <= L0StopWritesThreshold o
           /\ L0StopWritesThreshold o <= 100
      else True)
  /\ (if 3 <=? k then useDisk t = false else True)
  /\ (if 4 <=? k then 1 <= Threads t <= GOMAXPROCS else True)
  /\ (if 5 <=? k
      then Options.FS o = (if strictFS t then StrictMemFS else MemFS)
           /\ (strictFS t = true -> DisableWAL o = false)
      else True)
  /\ (if 6 <=? k
      then forall w, WALFailover o = Some w -> DirFS (Secondary w) = Options.FS o
      else True)
  /\ (if 7 <=? k
      then disableBlockPropertyCollector t = true ->
           BlockPropertyCollectors o = []
      else True)
  /\ (if 8 <=? k
      then enableValueBlocks t = true ->
           EnableValueBlocks (Experimental o) = Some true
      else True)
  /\ (fromParse ->
      if k <? 9
      then sharedStorageEnabled t = false
           /\ secondaryCacheEnabled t = false
           /\ useSharedReplicate t = false
      else (sharedStorageEnabled t = true ->
            FormatMinForSharedObjects pebble <= FormatMajorVersion o
            /\ sharedStorageFS t = Some InMemStorage
            /\ CreateOnShared (Experimental o) <> CreateOnSharedNone)
           /\ (secondaryCacheEnabled t = true ->
               sharedStorageEnabled t = true
               /\ SecondaryCacheSizeBytes (Experimental o) = 1024 * 1024 * 32)
           /\ (useSharedReplicate t = true -> sharedStorageEnabled t = true))
  /\ (fromParse ->
      if k <? 10
      then externalStorageEnabled t = false
      else externalStorageEnabled t = true ->
           FormatSyntheticPrefixSuffix pebble <= FormatMajorVersion o
           /\ externalStorageFS t = Some InMemStorage)
  /\ (if 11 <=? k
      then useExcise t = true ->
           FormatVirtualSSTables pebble <= FormatMajorVersion o
      else True)
  /\ (if 12 <=? k
      then (sharedStorageEnabled t = true ->
            exists m, RemoteStorage (Experimental o) = Some m
                      /\ m !! ""%string = Some (sharedStorageFS t))
           /\ (externalStorageEnabled t = true ->
               exists m, RemoteStorage (Experimental o) = Some m
                         /\ m !! "external"%string
                            = Some (externalStorageFS t))
      else True).


Section Walk.
Context (fromParse : Prop).
Hypothesis Hrand : inRange.
Hypothesis Hparses : parsesPrivateOptions.
Hypothesis Hknows : fromParse -> knowsPrivateOptions.
Hypothesis Hprocs : 0 < GOMAXPROCS.
Hypothesis Hversions :
  minimumFormatMajorVersion pebble <= newestFormatMajorVersionToTest pebble.

Ltac frame :=
  let t := fresh "t" in
  let Ht := fresh "Ht" in
  intros t Ht; unfold stage in *; cbn in *; intuition (auto; try lia).

Ltac draw :=
  first
    [ apply (hoare_bind_Intn _ _ _ _ Hrand); [lia|intros ? ?]
    | apply hoare_bind_Int63; intros ?
    | apply hoare_bind_Uint64; intros ?
    | apply hoare_bind_Float64; intros ?
    | apply hoare_bind_expRandDuration; intros ?
    | apply hoare_bind_scaleDuration; intros ? ];
  cbv beta zeta.

Ltac keep k :=
  apply (hoare_bind (fun _ => stage k fromParse));
  [apply hoare_modify; frame|intros _].

Lemma parsePrivate_stage deleteOnly elisionOnly lazyCombined :
  hoare (stage 0 fromParse)
    (parsePrivate float time pebble
       (privateOptions deleteOnly elisionOnly lazyCombined) ps)
    (fun _ => stage 0 fromParse).
Proof.
  intros t r Ht. unfold parsePrivate, parseOptions. fold (hooks float time ps).
  destruct (Parse pebble (hooks float time ps)
              (privateOptions deleteOnly elisionOnly lazyCombined) t)
    as [[t1 err]|] eqn:E.
  2:{ exfalso. exact (Hparses _ _ _ _ E). }
  eexists _, _, _. split; [reflexivity|].
  assert (Hflags : fromParse ->
            sharedStorageEnabled t1 = sharedStorageEnabled t
            /\ secondaryCacheEnabled t1 = secondaryCacheEnabled t
            /\ useSharedReplicate t1 = useSharedReplicate t
            /\ externalStorageEnabled t1 = externalStorageEnabled t).
  { intros Hp.
    destruct (Hknows Hp deleteOnly elisionOnly lazyCombined t)
      as (o & err' & E').
    rewrite E' in E. injection E as <- _. repeat split. }
  clear E.
  match goal with |- stage _ _ ?x => set (t2 := x) end.
  assert (H2 : sharedStorageEnabled t2 = sharedStorageEnabled t1
               /\ secondaryCacheEnabled t2 = secondaryCacheEnabled t1
               /\ useSharedReplicate t2 = useSharedReplicate t1
               /\ externalStorageEnabled t2 = externalStorageEnabled t1).
  { subst t2. unfold InitRemoteStorageFactory.
    destruct (WALFailover (Opts t1)), (sharedStorageEnabled _ || _); cbn;
      repeat split. }
  clearbody t2. unfold stage in *. cbn in *.
  intuition congruence.
Qed.

Ltac frame0 :=
  let t := fresh "t" in
  intros t ->; unfold stage in *; cbn in *; intuition (auto; try lia).

Ltac block k lemma :=
  apply (hoare_bind (fun _ => stage k fromParse));
  [apply hoare_when; [intros _; lemma|intros _ ? ?; assumption]|intros _].

Lemma randomWALFailover_stage :
  hoare (stage 2 fromParse) (randomWALFailover float rand)
    (fun _ => stage 2 fromParse).
Proof.
  unfold randomWALFailover.
  apply hoare_bind_get. intros t0 Hs0. cbv beta zeta.
  do 6 draw.
  apply hoare_modify. frame0.
Qed.

Lemma randomMultiLevel_stage :
  hoare (stage 2 fromParse) (randomMultiLevel float rand)
    (fun _ => stage 2 fromParse).
Proof.
  unfold randomMultiLevel.
  draw. destruct (_ =? 0); [|destruct (_ =? 1)].
  - apply hoare_modify. frame.
  - apply hoare_modify. frame.
  - do 3 draw. apply hoare_modify. frame.
Qed.

Lemma randomLevels_stage :
  hoare (stage 2 fromParse) (randomLevels rand)
    (fun _ => stage 2 fromParse).
Proof.
  unfold randomLevels.
  do 5 draw. keep 2%Z. draw.
  apply (hoare_bind (fun _ => stage 2 fromParse)).
  { destruct (_ =? 0); [|destruct (_ =? 1)].
    - apply hoare_ret. auto.
    - apply hoare_ret. auto.
    - draw. apply hoare_ret. auto. }
  intros filterPolicy. draw.
  apply hoare_modify. frame.
Qed.

Lemma randomSharedStorage_stage :
  hoare (stage 8 fromParse) (randomSharedStorage pebble rand)
    (fun _ => stage 9 fromParse).
Proof.
  unfold randomSharedStorage.
  pose (core := fun t : TestOptions Float =>
    stage 8 (fromParse /\ False) t
    /\ sharedStorageEnabled t = true
    /\ (fromParse -> externalStorageEnabled t = false)).
  pose (uncached := fun t : TestOptions Float =>
    fromParse -> secondaryCacheEnabled t = false).
  apply (hoare_bind (fun _ t => core t /\ uncached t)).
  { apply hoare_modify. intros t Ht. unfold core, uncached, stage in *.
    cbn in *. intuition. }
  intros _.
  apply (hoare_bind
           (fun _ t =>
              (core t /\ uncached t)
              /\ FormatMinForSharedObjects pebble
                 <= FormatMajorVersion (Opts t))).
  { apply hoare_modify. intros t Ht. unfold core, uncached, stage in *.
    destruct (Z.ltb_spec (FormatMajorVersion (Opts t))
                (FormatMinForSharedObjects pebble)); cbn in *;
      intuition lia. }
  intros _.
  apply (hoare_bind
           (fun _ t =>
              (core t /\ uncached t)
              /\ FormatMinForSharedObjects pebble
                 <= FormatMajorVersion (Opts t)
              /\ sharedStorageFS t = Some InMemStorage)).
  { apply hoare_modify. intros t Ht. unfold core, uncached, stage in *.
    cbn in *. intuition. }
  intros _.
  pose (created := fun t : TestOptions Float =>
    core t
    /\ FormatMinForSharedObjects pebble <= FormatMajorVersion (Opts t)
    /\ sharedStorageFS t = Some InMemStorage
    /\ CreateOnShared (Experimental (Opts t)) <> CreateOnSharedNone).
  apply (hoare_bind (fun _ t => created t /\ uncached t)).
  { apply hoare_modify. intros t Ht.
    unfold created, core, uncached, stage in *.
    cbn in *. intuition discriminate. }
  intros _. draw.
  apply (hoare_bind (fun _ t => created t /\ uncached t)).
  { apply hoare_when; [intros _|auto].
    apply hoare_modify. intros t Ht.
    unfold created, core, uncached, stage in *.
    cbn in *. intuition discriminate. }
  intros _. draw.
  pose (cached := fun t : TestOptions Float =>
    created t
    /\ (fromParse -> secondaryCacheEnabled t = true ->
        SecondaryCacheSizeBytes (Experimental (Opts t)) = 1024 * 1024 * 32)).
  apply (hoare_bind (fun _ => cached)).
  { apply hoare_when.
    - intros _.
      apply (hoare_bind (fun _ => created)).
      + apply hoare_modify. intros t Ht.
        unfold created, core, uncached, stage in *. cbn in *. intuition.
      + intros _. apply hoare_modify. intros t Ht.
        unfold cached, created, core, stage in *. cbn in *. intuition.
    - intros _ t [Ht Hu]. unfold cached. split; [exact Ht|].
      intros Hp Hc. rewrite (Hu Hp) in Hc. discriminate Hc. }
  intros _. draw.
  apply hoare_modify. intros t Ht.
  unfold cached, created, core, stage in *. cbn in *. intuition.
Qed.

Lemma randomExternalStorage_stage :
  hoare (stage 9 fromParse) (randomExternalStorage pebble)
    (fun _ => stage 10 fromParse).
Proof.
  unfold randomExternalStorage.
  pose (core := fun t : TestOptions Float =>
    stage 9 (fromParse /\ False) t
    /\ (fromParse ->
        (sharedStorageEnabled t = true ->
         FormatMinForSharedObjects pebble <= FormatMajorVersion (Opts t)
         /\ sharedStorageFS t = Some InMemStorage
         /\ CreateOnShared (Experimental (Opts t)) <> CreateOnSharedNone)
        /\ (secondaryCacheEnabled t = true ->
            sharedStorageEnabled t = true
            /\ SecondaryCacheSizeBytes (Experimental (Opts t))
               = 1024 * 1024 * 32)
        /\ (useSharedReplicate t = true -> sharedStorageEnabled t = true))).
  apply (hoare_bind (fun _ => core)).
  { apply hoare_modify. intros t Ht. unfold core, stage in *. cbn in *.
    intuition. }
  intros _.
  apply (hoare_bind
           (fun _ t =>
              core t
              /\ FormatSyntheticPrefixSuffix pebble
                 <= FormatMajorVersion (Opts t))).
  { apply hoare_modify. intros t Ht. unfold core, stage in *.
    destruct (Z.ltb_spec (FormatMajorVersion (Opts t))
                (FormatSyntheticPrefixSuffix pebble)); cbn in *;
      intuition lia. }
  intros _.
  apply hoare_modify. intros t Ht. unfold core, stage in *. cbn in *.
  intuition.
Qed.

Lemma randomOptions_stage :
  hoare (stage 0 fromParse)
    (randomOptions float time pebble rand GOMAXPROCS ps)
    (fun _ t =>
       exists o,
         Opts t = EnsureDefaults pebble o
         /\ stage 12 fromParse (set_Opts o t)).
Proof.
  unfold randomOptions.
  do 3 draw.
  apply (hoare_bind (fun _ => stage 0 fromParse)).
  { apply hoare_when; [intros _; apply parsePrivate_stage|auto]. }
  intros _.
  draw. keep 0%Z.
  draw. keep 0%Z.
  draw. keep 0%Z.
  draw. keep 0%Z.
  draw. keep 0%Z.
  draw. keep 0%Z.
  (* the format major version *)
  apply (hoare_bind
           (fun _ t =>
              stage 0 fromParse t
              /\ FormatMajorVersion (Opts t)
                 = minimumFormatMajorVersion pebble)).
  { apply hoare_modify. intros t Ht.
    split; [revert t Ht; frame|reflexivity]. }
  intros _.
  apply hoare_bind_get. intros t0 [Hs0 E0]. cbv beta zeta. rewrite E0.
  apply (hoare_bind_Intn _ _ _ _ Hrand); [lia|intros dv Hdv]. cbv beta.
  apply (hoare_bind (fun _ => stage 1 fromParse)).
  { apply hoare_modify. intros t ->. unfold stage in *. cbn in *.
    rewrite E0. intuition lia. }
  intros _. clear t0 Hs0 E0 dv Hdv.
  draw. keep 1%Z.
  draw. keep 1%Z.
  draw. keep 1%Z.
  draw. keep 1%Z.
  (* the thresholds of L0 *)
  draw.
  apply (hoare_bind
           (fun _ t =>
              stage 1 fromParse t
              /\ 1 <= L0CompactionThreshold (Opts t) <= 100)).
  { apply hoare_modify. intros t Ht.
    split; [revert t Ht; frame|cbn; lia]. }
  intros _.
  draw.
  apply (hoare_bind
           (fun _ t =>
              stage 1 fromParse t
              /\ 1 <= L0CompactionThreshold (Opts t) <= 100)).
  { apply hoare_modify. intros t [Ht Hl].
    split; [clear Hl; revert t Ht; frame|cbn; exact Hl]. }
  intros _.
  draw.
  apply (hoare_bind
           (fun _ t =>
              stage 1 fromParse t
              /\ 1 <= L0CompactionThreshold (Opts t) <= 100
              /\ 1 <= L0StopWritesThreshold (Opts t) <= 100)).
  { apply hoare_modify. intros t [Ht Hl].
    split; [clear Hl; revert t Ht; frame|split; [cbn; exact Hl|cbn; lia]]. }
  intros _.
  apply (hoare_bind (fun _ => stage 2 fromParse)).
  { apply hoare_modify. intros t (Ht & Hl & Hs).
    unfold stage in *. cbn in *.
    destruct (Z.ltb_spec (L0StopWritesThreshold (Opts t))
                (L0CompactionThreshold (Opts t)));
      cbn; intuition lia. }
  intros _.
  draw. keep 2%Z.
  draw. keep 2%Z.
  draw. keep 2%Z.
  draw. keep 2%Z.
  draw. keep 2%Z.
  draw. block 2%Z ltac:(apply hoare_modify; frame).
  draw. block 2%Z ltac:(apply randomWALFailover_stage).
  draw. block 2%Z ltac:(keep 2%Z; apply hoare_modify; frame).
  draw. block 2%Z ltac:(apply hoare_modify; frame).
  apply (hoare_bind (fun _ => stage 2 fromParse));
    [apply randomMultiLevel_stage|intros _].
  apply (hoare_bind (fun _ => stage 2 fromParse));
    [apply randomLevels_stage|intros _].
  keep 3%Z.
  draw. keep 3%Z.
  draw.
  block 3%Z ltac:(draw; keep 3%Z; draw; keep 3%Z; draw;
                  apply hoare_modify; frame).
  draw. keep 4%Z.
  (* the file system *)
  apply hoare_bind_get. intros t0 Hs0. cbv beta zeta.
  apply (hoare_bind (fun _ => stage 5 fromParse)).
  { assert (Hd0 : useDisk t0 = false) by (unfold stage in Hs0; tauto).
    rewrite Hd0. destruct (strictFS t0) eqn:Hstrict; cbn [negb].
    - apply (hoare_bind
               (fun _ t =>
                  t = onOpts (setOptions_DisableWAL false) t0)).
      + apply hoare_modify. intros t ->. reflexivity.
      + intros _. apply hoare_modify. intros t ->.
        unfold stage in *. cbn in *. rewrite Hstrict. intuition.
    - apply hoare_modify. intros t ->.
      unfold stage in *. cbn in *. rewrite Hstrict.
      intuition discriminate. }
  intros _. clear t0 Hs0.
  apply (hoare_bind (fun _ => stage 6 fromParse)).
  { apply hoare_modify. intros t Ht. unfold stage in *.
    unfold onOpts.
    destruct (WALFailover (Opts t)) as [w|] eqn:Hw; cbn in *.
    - intuition (try congruence).
      match goal with H : Some _ = Some _ |- _ => injection H as <- end.
      reflexivity.
    - destruct t as [o]; cbn in *. destruct o; cbn in *.
      intuition congruence. }
  intros _.
  (* the flags *)
  draw. keep 6%Z.
  draw. keep 6%Z.
  draw. keep 6%Z.
  draw. keep 6%Z.
  apply hoare_bind_get. intros t0 Hs0. cbv beta zeta.
  apply (hoare_bind (fun _ => stage 7 fromParse)).
  { apply hoare_when.
    - intros _. apply hoare_modify. frame0.
    - intros Hc t ->. unfold stage in *. cbn in *.
      intuition congruence. }
  intros _. clear t0 Hs0.
  draw. keep 7%Z.
  apply hoare_bind_get. intros t0 Hs0. cbv beta zeta.
  apply (hoare_bind (fun _ => stage 8 fromParse)).
  { apply hoare_when.
    - intros _. apply hoare_modify. frame0.
    - intros Hc t ->. unfold stage in *. cbn in *.
      intuition congruence. }
  intros _. clear t0 Hs0.
  draw. keep 8%Z.
  draw. keep 8%Z.
  (* the storage *)
  draw.
  apply (hoare_bind (fun _ => stage 9 fromParse)).
  { apply hoare_when; [intros _; apply randomSharedStorage_stage|].
    intros _ t Ht. unfold stage in *. cbn in *. intuition congruence. }
  intros _.
  draw.
  apply (hoare_bind (fun _ => stage 10 fromParse)).
  { apply hoare_when; [intros _; apply randomExternalStorage_stage|].
    intros _ t Ht. unfold stage in *. cbn in *. intuition congruence. }
  intros _.
  draw. keep 10%Z.
  keep 10%Z.
  draw. keep 10%Z.
  apply hoare_bind_get. intros t0 Hs0. cbv beta zeta.
  apply (hoare_bind (fun _ => stage 11 fromParse)).
  { apply hoare_when.
    - intros _. apply hoare_modify. intros t ->.
      unfold stage in *.
      destruct (Z.ltb_spec (FormatMajorVersion (Opts t0))
                  (FormatVirtualSSTables pebble)); cbn in *;
        intuition lia.
    - intros Hc t ->. unfold stage in *. cbn in *.
      intuition congruence. }
  intros _. clear t0 Hs0.
  apply (hoare_bind (fun _ => stage 12 fromParse)).
  { apply hoare_modify. intros t Ht. unfold stage in *.
    unfold InitRemoteStorageFactory.
    destruct (sharedStorageEnabled t) eqn:Hshared,
             (externalStorageEnabled t) eqn:Hexternal; cbn in *.
    all: rewrite ?Hshared, ?Hexternal.
    all: intuition (try discriminate).
    all: eexists; split; [reflexivity|].
    all: rewrite ?lookup_insert_ne by discriminate.
    all: apply lookup_insert_eq. }
  intros _.
  apply hoare_modify. intros t Ht.
  exists (Opts t). split; [reflexivity|].
  unfold stage in *. cbn in *. exact Ht.
Qed.

End Walk.

Lemma stage_default (fromParse : Prop) :
  stage 0 fromParse (defaultTestOptions float pebble).
Proof. unfold stage. cbn. intuition. Qed.

Lemma knows_parses : knowsPrivateOptions -> parsesPrivateOptions.
Proof.
  intros Hknows deleteOnly elisionOnly lazyCombined t.
  destruct (Hknows deleteOnly elisionOnly lazyCombined t) as (o & err & E).
  rewrite E. discriminate.
Qed.

(** [RandomOptions] returns, whatever the generator draws, and the
    options that it hands to [EnsureDefaults] fit together: the test is not
    on disk, the threads are between one and [GOMAXPROCS], the file system
    is the strict one when [strictFS] is drawn (and then the WAL is not
    disabled) and the one in memory otherwise, a WAL failover has its
    secondary on that file system, the compaction threshold of L0 is
    between one and the threshold that stops the writes, which is at most
    100, the format major version is at least the minimum, and at least
    the one of virtual tables when excises are used, and the two flags that
    go with an option of the engine have set it. *)
Theorem random_options_fit_together (rng : R) :
  inRange -> parsesPrivateOptions -> 0 < GOMAXPROCS ->
  minimumFormatMajorVersion pebble <= newestFormatMajorVersionToTest pebble ->
  exists t rng' o,
    RandomOptions float time pebble rand GOMAXPROCS rng ps = Some (t, rng')
    /\ Opts t = EnsureDefaults pebble o
    /\ useDisk t = false
    /\ 1 <= Threads t <= GOMAXPROCS
    /\ Options.FS o = (if strictFS t then StrictMemFS else MemFS)
    /\ (strictFS t = true -> DisableWAL o = false)
    /\ (forall w, WALFailover o = Some w -> DirFS (Secondary w) = Options.FS o)
    /\ 1 <= L0CompactionThreshold o <= L0StopWritesThreshold o
    /\ L0StopWritesThreshold o <= 100
    /\ minimumFormatMajorVersion pebble <= FormatMajorVersion o
    /\ (useExcise t = true ->
        FormatVirtualSSTables pebble <= FormatMajorVersion o)
    /\ (disableBlockPropertyCollector t = true ->
        BlockPropertyCollectors o = [])
    /\ (enableValueBlocks t = true ->
        EnableValueBlocks (Experimental o) = Some true).
Proof.
  intros Hrand Hparses Hprocs Hversions.
  destruct (randomOptions_stage False Hrand Hparses
              (fun F : False => match F with end) Hprocs Hversions
              (defaultTestOptions float pebble) rng (stage_default False))
    as ([] & t & rng' & E & o & Eo & Hs).
  exists t, rng', o. unfold RandomOptions. rewrite E.
  split; [reflexivity|]. split; [exact Eo|].
  unfold stage in Hs. cbn in Hs. intuition.
Qed.

(** When the engine knows the private options, so that parsing them
    changes the options of the engine only, the storage flags of the
    options that [RandomOptions] returns are the ones it has drawn itself:
    with shared storage the format major version is at least the one of
    shared objects, tables are created on shared storage, and the remote
    storage has the in-memory store under the empty locator; with external
    storage the version is at least the one of synthetic prefixes and
    suffixes and the store is there under [external]; the secondary cache
    and shared replication are used with shared storage only. *)
Theorem random_options_storage (rng : R) :
  inRange -> knowsPrivateOptions -> 0 < GOMAXPROCS ->
  minimumFormatMajorVersion pebble <= newestFormatMajorVersionToTest pebble ->
  exists t rng' o,
    RandomOptions float time pebble rand GOMAXPROCS rng ps = Some (t, rng')
    /\ Opts t = EnsureDefaults pebble o
    /\ (sharedStorageEnabled t = true ->
        FormatMinForSharedObjects pebble <= FormatMajorVersion o
        /\ CreateOnShared (Experimental o) <> CreateOnSharedNone
        /\ exists m, RemoteStorage (Experimental o) = Some m
                     /\ m !! ""%string = Some (Some InMemStorage))
    /\ (externalStorageEnabled t = true ->
        FormatSyntheticPrefixSuffix pebble <= FormatMajorVersion o
        /\ exists m, RemoteStorage (Experimental o) = Some m
                     /\ m !! "external"%string = Some (Some InMemStorage))
    /\ (secondaryCacheEnabled t = true ->
        sharedStorageEnabled t = true
        /\ SecondaryCacheSizeBytes (Experimental o) = 1024 * 1024 * 32)
    /\ (useSharedReplicate t = true -> sharedStorageEnabled t = true).
Proof.
  intros Hrand Hknows Hprocs Hversions.
  destruct (randomOptions_stage True Hrand (knows_parses Hknows)
              (fun _ => Hknows) Hprocs Hversions
              (defaultTestOptions float pebble) rng (stage_default True))
    as ([] & t & rng' & E & o & Eo & Hs).
  exists t, rng', o. unfold RandomOptions. rewrite E.
  split; [reflexivity|]. split; [exact Eo|].
  unfold stage in Hs. cbn in Hs.
  destruct Hs as (_ & _ & _ & _ & _ & _ & _ & _ & Hs & He & _ & Hr & Hx).
  specialize (Hs Logic.I). specialize (He Logic.I).
  destruct Hs as (Hs & Hc & Hu).
  split; [|split; [|split; [exact Hc|exact Hu]]].
  - intros Hshared. destruct (Hs Hshared) as (Hv & Hfs & Hcreate).
    destruct (Hr Hshared) as (m & Hm & Hl). rewrite Hfs in Hl.
    split; [exact Hv|]. split; [exact Hcreate|]. exists m. split; assumption.
  - intros Hexternal. destruct (He Hexternal) as (Hv & Hfs).
    destruct (Hx Hexternal) as (m & Hm & Hl). rewrite Hfs in Hl.
    split; [exact Hv|]. exists m. split; assumption.
Qed.

Lemma Intn_inv n (t t' : TestOptions Float) (r r' : R) d :
  Intn rand n t r = Some (d, t', r') ->
  t' = t /\ d = fst (randIntn rand r n) /\ r' = snd (randIntn rand r n).
Proof.
  unfold Intn. destruct (n <=? 0); [discriminate|].
  destruct (randIntn rand r n). intros [= <- <- <-]. repeat split.
Qed.

Lemma bind_inv {A B} (m : Rnd A) (k : A -> Rnd B) t r x :
  bind m k t r = Some x ->
  exists a (t1 : TestOptions Float) (r1 : R),
    m t r = Some (a, t1, r1) /\ k a t1 r1 = Some x.
Proof.
  unfold bind. destruct (m t r) as [[[a t1] r1]|]; [|discriminate].
  intros E. exists a, t1, r1. split; [reflexivity|exact E].
Qed.

Lemma privateOptions_guard deleteOnly elisionOnly lazyCombined :
  String.eqb (privateOptions deleteOnly elisionOnly lazyCombined)
    "[Options]\n" = false.
Proof.
  unfold privateOptions.
  destruct (deleteOnly =? 0), (elisionOnly =? 0), (lazyCombined =? 0);
    reflexivity.
Qed.

(** The private options are parsed in every run: the buffer begins
    with the line [[Options]] and its line feed, and the text that it is
    compared with ends in a backslash and the letter n, so that the
    buffer differs from it also when none of the three private options is
    drawn.  A run that returns has therefore had [parseOptions] return on
    the default test options and the private options that its first three
    draws, of [Intn(3)], [Intn(3)] and [Intn(5)], have written. *)
Theorem random_options_parse_the_private_options (rng rng' : R)
  (t : TestOptions Float) :
  RandomOptions float time pebble rand GOMAXPROCS rng ps = Some (t, rng') ->
  let deleteOnly := randIntn rand rng 3 in
  let elisionOnly := randIntn rand (snd deleteOnly) 3 in
  let lazyCombined := randIntn rand (snd elisionOnly) 5 in
  exists parsed err,
    parseOptions float time pebble (defaultTestOptions float pebble)
      (privateOptions (fst deleteOnly) (fst elisionOnly) (fst lazyCombined))
      ps
    = Some (parsed, err).
Proof.
  unfold RandomOptions.
  destruct (randomOptions float time pebble rand GOMAXPROCS ps
              (defaultTestOptions float pebble) rng)
    as [[[u t1] r1]|] eqn:E; [|discriminate].
  intros _. unfold randomOptions in E.
  apply bind_inv in E. destruct E as (d1 & t2 & r2 & E1 & E).
  apply Intn_inv in E1. destruct E1 as (-> & -> & ->).
  apply bind_inv in E. destruct E as (d2 & t2 & r3 & E2 & E).
  apply Intn_inv in E2. destruct E2 as (-> & -> & ->).
  apply bind_inv in E. destruct E as (d3 & t2 & r4 & E3 & E).
  apply Intn_inv in E3. destruct E3 as (-> & -> & ->).
  cbv zeta in E |- *.
  apply bind_inv in E. destruct E as (u' & t2 & r5 & E4 & _).
  rewrite privateOptions_guard in E4. cbn [negb when] in E4.
  unfold parsePrivate in E4.
  destruct (parseOptions float time pebble (defaultTestOptions float pebble)
              (privateOptions (fst (randIntn rand rng 3))
                 (fst (randIntn rand (snd (randIntn rand rng 3)) 3))
                 (fst (randIntn rand
                         (snd (randIntn rand (snd (randIntn rand rng 3)) 3))
                         5))) ps) as [[parsed err]|] eqn:Ep;
    [|discriminate].
  exists parsed, err. reflexivity.
Qed.

End Random.

(** A generator that counts: each draw is the count, reduced to the range
    asked for. *)
Definition countingRand : Rand Z unit :=
  {| randIntn := fun r n => (r mod n, r + 1);
     randInt63 := fun r => (r, r + 1);
     randUint64 := fun r => (r, r + 1);
     randFloat64 := fun r => (tt, r + 1);
     randExpFloat64 := fun r => (tt, r + 1) |}.

Lemma countingRand_inRange : inRange countingRand.
Proof. intros r n Hn. cbn. apply Z.mod_pos_bound. exact Hn. Qed.

Lemma idlePebble_knows ps :
  knowsPrivateOptions noFloat noTime idlePebble ps.
Proof.
  intros deleteOnly elisionOnly lazyCombined t.
  exists (Opts t), None. cbn. destruct t; reflexivity.
Qed.

Lemma random_options_fit_together_witness :
  exists t rng' o,
    RandomOptions noFloat noTime idlePebble countingRand 8 3 None
    = Some (t, rng')
    /\ Opts t = EnsureDefaults idlePebble o
    /\ useDisk t = false
    /\ 1 <= Threads t <= 8
    /\ Options.FS o = (if strictFS t then StrictMemFS else MemFS)
    /\ (strictFS t = true -> DisableWAL o = false)
    /\ (forall w, WALFailover o = Some w -> DirFS (Secondary w) = Options.FS o)
    /\ 1 <= L0CompactionThreshold o <= L0StopWritesThreshold o
    /\ L0StopWritesThreshold o <= 100
    /\ minimumFormatMajorVersion idlePebble <= FormatMajorVersion o
    /\ (useExcise t = true ->
        FormatVirtualSSTables idlePebble <= FormatMajorVersion o)
    /\ (disableBlockPropertyCollector t = true ->
        BlockPropertyCollectors o = [])
    /\ (enableValueBlocks t = true ->
        EnableValueBlocks (Experimental o) = Some true).
Proof.
  apply (random_options_fit_together noFloat noTime idlePebble countingRand
           8 None 3).
  - exact countingRand_inRange.
  - intros deleteOnly elisionOnly lazyCombined t. discriminate.
  - lia.
  - cbn. lia.
Defined.

Lemma random_options_storage_witness :
  exists t rng' o,
    RandomOptions noFloat noTime idlePebble countingRand 8 3 None
    = Some (t, rng')
    /\ Opts t = EnsureDefaults idlePebble o
    /\ (sharedStorageEnabled t = true ->
        FormatMinForSharedObjects idlePebble <= FormatMajorVersion o
        /\ CreateOnShared (Experimental o) <> CreateOnSharedNone
        /\ exists m, RemoteStorage (Experimental o) = Some m
                     /\ m !! ""%string = Some (Some InMemStorage))
    /\ (externalStorageEnabled t = true ->
        FormatSyntheticPrefixSuffix idlePebble <= FormatMajorVersion o
        /\ exists m, RemoteStorage (Experimental o) = Some m
                     /\ m !! "external"%string = Some (Some InMemStorage))
    /\ (secondaryCacheEnabled t = true ->
        sharedStorageEnabled t = true
        /\ SecondaryCacheSizeBytes (Experimental o) = 1024 * 1024 * 32)
    /\ (useSharedReplicate t = true -> sharedStorageEnabled t = true).
Proof.
  apply (random_options_storage noFloat noTime idlePebble countingRand
           8 None 3).
  - exact countingRand_inRange.
  - exact (idlePebble_knows None).
  - lia.
  - cbn. lia.
Defined.

Lemma random_options_parse_the_private_options_witness :
  exists t rng',
    RandomOptions noFloat noTime idlePebble countingRand 8 3 None
    = Some (t, rng')
    /\ exists parsed err,
         parseOptions noFloat noTime idlePebble
           (defaultTestOptions noFloat idlePebble)
           (privateOptions 0 1 0) None
         = Some (parsed, err).
Proof.
  destruct (RandomOptions noFloat noTime idlePebble countingRand 8 3 None)
    as [[t rng']|] eqn:E.
  - exists t, rng'. split; [reflexivity|].
    exact (random_options_parse_the_private_options noFloat noTime
             idlePebble countingRand 8 None 3 rng' t E).
  - vm_compute in E. discriminate E.
Defined.
End OptionsFacts.
